(* ===== verification/_CoqProject ===== *)
-Q . S2P
Prelude.v
Tx.v
GoStrings.v
GoTime.v
Entitlements.v
Wallet.v
WalletInv.v
WalletProps.v
Pricing.v
Meter.v
Subscriptions.v
SubscriptionProps.v
Checkout.v
CheckoutProps.v
Graph.v
Json.v
Workflow.v
Engine.v
WorkflowProps.v
EngineProps.v
EngineCases.v
SlidingWindow.v
AbuseGuard.v
RateLimit.v
RunStore.v
ActionJournal.v
RunBudget.v
RoutineValues.v
RoutineDefinition.v
RoutinePlan.v
RoutineRuns.v
RoutineLife.v
RoutineEvidence.v
Contracts.v
SpaceApps.v
SdkProviders.v
SdkTargets.v
SdkInv.v
SdkProps.v
BrowserActions.v
BrowserSession.v
BrowserDemo.v
BrowserProps.v
BrowserLive.v
Spaces.v
SpacesInv.v
SpacesDemo.v
SpacesProps.v
Planner.v
Board.v
RoadmapFields.v
Roadmap.v
PlannerOps.v
BoardInv.v
BoardMoves.v
PlannerInv.v
BoardRefine.v
PlannerDemo.v
BoardProps.v
RoadmapEdits.v
RoadmapCycles.v
RoadmapInv.v
RoadmapProps.v
