(* ===== verification/Prelude.v ===== *)
(** * Verification library for the Misty server

    Misty is a Go server for shared Spaces with hosted AI, agents and apps.  This
    library models the parts of it that decide who may spend what and who may do
    what: plans, weekly wallets and the metering of model calls; Stripe
    subscriptions and checkout; the engine that runs users' workflows; the runs of
    agents and routines with the journal of their effects; the authority of SDK apps,
    their providers and targets; effects in a browser; the directory of Spaces and
    their members; the tasks and roadmaps of a Space; and the limits on incoming
    requests.  Paths below are relative to [src/internal].

    ** How the parts interact

    A Stripe webhook or a reconciliation pass ([Subscriptions]) stores a
    subscription and sets the plan of the user's license ([Entitlements]); a
    checkout ([Checkout]) is what creates that subscription.  The plan of the
    license fixes the weekly allowance of the user's and of the Space's wallet
    ([Wallet]).  A model call asks the meter ([Meter]) to price its token
    estimate ([Pricing]), reserves that amount in both wallets, runs, and
    settles the price of what it used.  Workflows ([Workflow], [Engine]) run
    the providers that make such calls.

    A run ([RunStore]) is bound to one runtime, which spends its time and model
    turns ([RunBudget]) and executes tools through the journal ([ActionJournal]), so
    that an effect happens at most once.  A routine ([RoutineDefinition],
    [RoutineValues]) is a run whose next call the server derives from the receipts
    in that journal ([RoutinePlan], [RoutineRuns]).  What a tool may act on is a
    target of a capability: an app installed in a Space ([SpaceApps]) registers
    providers ([SdkProviders]) of declared capabilities ([Contracts]), a user
    configures targets, and every dispatch resolves its pinned target again
    ([SdkTargets]).  A target in a browser is acted on through a session and a host
    adapter ([BrowserSession], [BrowserActions]).

    Accounts, Spaces, memberships and invitations ([Spaces]) are the directory that
    the other parts consult: [wallet_db] is what the wallets and [catalog] what the
    apps see of it, and creating, inviting to and deleting a Space run their
    transaction bodies on those views.

    The planner of a Space ([Planner]) has tasks on a board ([Board]) and roadmaps
    ([Roadmap]) whose goals wait for tasks.  Its operations ask the directory for
    membership and permissions ([reading]); a task that comes back reopens the goals
    that were completed by hand ([reopen_trigger]), and taking a task from an agent
    ends the agent's runs for it ([cancel_runs]).

    Every HTTP request first passes the abuse guard ([AbuseGuard]) and the rate
    limiter of its route ([RateLimit]), which is built from sliding windows
    ([SlidingWindow]); repeated refusals become strikes in the guard.

    ** Files

    - [Prelude]: 64-bit integers, Go durations, lists, maps, sums over maps, and
      the tactics [case_if], [bool_to_prop] and [word].
    - [Tx]: the two effects of the store.  [tx] is a transaction body, committed
      or rolled back by [run] ([TestingWithRLSContext] of
      [platform/postgres/rls.go]); [act] is a handler whose statements each
      commit on their own and stay when a later one fails.  [keeps] and
      [throws] are the handler triples, with the hint database [handlers].
    - [GoStrings], [GoTime]: what the code uses of [strings], [strconv] and
      [time].
    - [Entitlements]: [platform/postgres/entitlements.go] and [licenses.go].
    - [Wallet]: the three [credits_*.go] files of [platform/postgres].  [DB] has a
      map per table; [reserveTx], [releaseTx], [settleTx], [refundTx] and
      [walletTx] are the transaction bodies statement by statement, and the
      functions named like the Go methods run them.  [WalletInv] holds the
      invariant, [WalletProps] the theorems.
    - [Pricing], [Meter]: [billing/credits.go] and the rates of
      [agents/model_catalog_version.go].
    - [Subscriptions]: the subscription tables of [platform/postgres] and the
      webhook and reconciliation handlers of [billing/stripe_*.go]; theorems in
      [SubscriptionProps].
    - [Checkout]: [billing/subscriptions_*.go] and
      [platform/postgres/subscription_checkout.go]; theorems in [CheckoutProps].
    - [Graph], [Json], [Workflow], [Engine]: [workflows/*.go] without the
      catalogue of built-in kinds: Kahn's algorithm, schema matching, validation,
      and the engine; theorems in [WorkflowProps] and [EngineProps], concrete
      workflows and the witnesses in [EngineCases].
    - [SlidingWindow], [AbuseGuard], [RateLimit]: [abuse_guard.go] and
      [rate_limit_*.go] of [platform/httpapi], with
      [platform/postgres/abuse_blocks.go].
    - [RunStore]: the tables agent runs share, with the trigger that keeps their
      clocks.  [ActionJournal]: [agent_toolbox_action_journal.go] of
      [platform/postgres].  [RunBudget]: [agent_execution_budget.go],
      [agent_model_turn_budgets.go] and [agent_runtime_start_receipts.go].
    - [RoutineValues], [RoutineDefinition]: [capabilities/routine_values.go] and
      [routines.go].  [RoutinePlan]: [platform/httpapi/routine_runtime.go].
      [RoutineRuns]: the waits, agent steps, publication and cancellation of
      [platform/postgres/routine_*.go].  [RoutineLife] interleaves them with the
      journal; [RoutineEvidence] joins them to the plan.
    - [Contracts]: the declarations of [capabilities].  [SpaceApps],
      [SdkProviders], [SdkTargets]: [space_apps.go],
      [sdk_provider_installations.go], [sdk_targets.go] and the shipped providers
      of [platform/postgres].  Invariants in [SdkInv], theorems in [SdkProps].
    - [BrowserActions]: pages, reviews and the adapters of [browseractions/pilot.go].
      [BrowserSession]: the session of [executor.go] and the dispatcher of
      [platform/httpapi/sdk_browser_execution.go].  Theorems in [BrowserProps] and
      [BrowserLive]; [BrowserDemo] is the device the witnesses run on.
    - [Spaces]: [spaces_*.go], [account_lifecycle_*.go], [onboarding.go] and the
      creation and permissions of Spaces in [platform/postgres].  Invariant in
      [SpacesInv], theorems in [SpacesProps], concrete worlds in [SpacesDemo].
    - [Planner]: the tables of tasks and roadmaps and what their operations read.
      [Board]: [space_tasks_*.go] of [platform/postgres] with the trigger of
      [migrations/20261001000000_space_roadmaps.sql].  [RoadmapFields], [Roadmap]:
      [space_roadmap*.go].  [PlannerOps] collects the operations, [PlannerDemo] is a
      small planner.  Boards: order lemmas and invariant in [BoardInv], what the
      operations do in [BoardMoves] and [PlannerInv], boards as lists in
      [BoardRefine], theorems in [BoardProps].  Roadmaps: [RoadmapEdits] reduces the
      operations to edits of the tables, [RoadmapCycles] is about the cycle check,
      [RoadmapInv] holds the invariants of edits, [RoadmapProps] the theorems.

    ** What the theorems show

    - Wallets.  Along every run of every operation, balances stay between zero
      and the allowance and the reserved amount of a wallet is the sum of its
      open reservations; no reservation oversubscribes; a settlement moves the
      clamped price out of both wallets, once; a week's ledger never charges a
      member more than the allowance; refunds and retries are idempotent.
    - Metering.  A call within its estimate is charged exactly its price; the
      estimate bounds the price; where the 64-bit arithmetic saturates and where
      it overflows.
    - Subscriptions.  Webhook deliveries in any order and multiplicity leave the
      same access; the license follows a granting subscription; an event changes
      nothing unless it checks out against the configured prices; checkout keeps
      one active attempt per user, hands out only that attempt's URL, and its
      metadata passes the webhook's checks.
    - Workflows.  The cycle check is exact; the engine runs every node once and
      after its predecessors; outputs in a result match both schemas; nodes at any
      nesting stay within the capabilities their graph declares; execution ends;
      a finished run resumes without touching providers.
    - Runs and routines.  Whatever callers, retries and crashes do, a write is
      dispatched at most once per key and a guarded run has one unsettled effect at
      a time; the persisted clock is the sum of a run's active periods; turns stay
      within their limits; a run's runtime is started once.  A definition
      that is accepted normalizes to itself and its steps evaluate; the plan
      advances step by step and completes exactly when every step did; a call
      keeps its meaning for the life of its run; a published outcome is final, and
      completed runs have no unconfirmed effect; waits are never early.
    - SDK authority.  A pin resolves to one meaning forever; a revoked target, an
      app's removal and a change of consent end the authority given before; the
      apps an installed app requires stay installed.
    - Browser effects.  A write directly follows an inspection of the bound page
      that still shows the review, happens at most once, and is the one control for
      exactly the reviewed content; errors that allow another attempt mean that
      nothing was started; preparations have no effect and converge.
    - Spaces.  Every Space has one owner, who is a member with an active account;
      whoever is a member created the Space or accepted an invitation to the own
      account or address; an invitation is answered once; creation is idempotent
      per key and within the plan's number of Spaces; the wallets always see a
      directory their own theorems apply to; a permission is what the owner set.
    - Planner.  The ranks of a board implement lists: every operation moves just the
      task it names to just the place it names, and a permitted move always finds a
      rank; tasks keep their identity, archived ones never change, batches can be sent
      again.  Of the changes that name one version of a roadmap one succeeds; what
      belongs to a roadmap stays together and in order; causal edges never form a
      cycle, and the search for one is exact; values keep the types of their fields;
      progress is within its bounds and complete exactly when everything is done.
    - Request limits.  No window of a limiter, and of a route through the
      middleware, admits more than its limit; the limiter refines a
      full log of admissions; memory is bounded; the announced delay admits;
      strikes escalate exactly at the threshold, blocks survive restarts and are
      never shortened by a refresh.

    Some theorems state behaviour that differs from what the code's comments or
    its own checks intend: [default_retry_never_retries],
    [binding_is_not_ordered], [resume_forgets_partial],
    [creating_attempt_sticks], [stale_expiry_starves],
    [account_refusals_never_block], [failed_invalidation_allows_retry],
    [deletion_orphans_space], [expired_invitation_stays], [completion_by_item],
    [percentage_rounds_up], and the
    overflow clauses of [charge_buffer], [buffer_roundtrip] and
    [combined_charge].

    ** Modelling choices

    Times are nanoseconds since the epoch and durations nanoseconds, both in
    [Z]; amounts are [Z] with [int64] wrap-around ([wrap64]) where the code adds
    or multiplies them; strings are byte strings.  Go maps and SQL tables are
    finite maps, with the unique indexes and [CHECK] constraints that the
    operations rely on checked at each write.  Clock readings, fresh identifiers
    and the database's [NOW()] are arguments.  Row locks and mutexes make each
    transaction and each limiter call atomic, so concurrency is the order of
    the operations, over which the theorems quantify.  Stripe, the providers of
    workflow nodes, the coordinator's callbacks, the device behind a browser
    session, signatures, URL parsing, schema compilers and SHA-256 are parameters.
    JSON documents are decoded values with exact keys.

    ** Fuel

    Recursion that is not structural carries fuel that is shown to suffice:
    [validate] gets 17 levels, one more than the depth 16 it refuses beyond, and
    [Execute] the same number ([execution_terminates] shows that it never runs
    out); [kahn] one step per node; [matchesSchema] the depth of the schema
    ([matchesSchema_eq]); the search for a cycle of edges two steps and one per edge
    ([search_ends]); [CreateCheckoutSession] two passes, as the second finds
    no attempt to retire ([checkout_sound]); [routineValue] 33 levels, one more than
    the depth 32 the code refuses beyond.  The 16 rounds of a browser preparation and the 3 of a
    commit and of a reconciliation are the code's own bounds;
    [session_within_budget] shows that they stay within its 48 calls.

    ** Not modelled, and what is next

    Request decoding, JSON text, Stripe's and the model providers' network calls,
    e-mail, telemetry and row-level security are left out, as are the store's
    plain row queries, the language-model sessions and the services in other
    languages.  Of the modelled parts, the notes, drawings, conversations and
    schedules that follow a membership, the content a template seeds, the sessions
    and messages that an app's removal cancels, a task's calendar, comments and
    agent runs, events and listings are left out.  What could follow: SDK invocations
    and the library of Spaces in [platform/postgres], the agent service of [agents],
    [agenttools], and the self-host entitlement tokens. *)
From stdpp Require Export base tactics list gmap strings sorting.
From Stdlib Require Export ZArith Lia Ascii.

Declare Scope go_scope.
Delimit Scope go_scope with go.
Open Scope Z_scope.

(** ** Machine integers *)

Definition MaxInt64 : Z := 9223372036854775807.
Definition MinInt64 : Z := -9223372036854775808.

(** Two's complement wrap-around of Go's [int64]. *)
Definition wrap64 (z : Z) : Z := (z + 2 ^ 63) mod 2 ^ 64 - 2 ^ 63.

Definition in64 (z : Z) : Prop := MinInt64 <= z <= MaxInt64.

#[export] Instance in64_dec z : Decision (in64 z) := _.

Notation "a +64 b" := (wrap64 (a + b)) (at level 50, left associativity) : go_scope.
Notation "a -64 b" := (wrap64 (a - b)) (at level 50, left associativity) : go_scope.
Notation "a *64 b" := (wrap64 (a * b)) (at level 40, left associativity) : go_scope.

Lemma wrap64_id z : in64 z → wrap64 z = z.
Proof. unfold wrap64, in64, MinInt64, MaxInt64. intros. rewrite Z.mod_small; lia. Qed.

Lemma wrap64_range z : in64 (wrap64 z).
Proof.
  unfold wrap64, in64, MinInt64, MaxInt64.
  pose proof (Z.mod_pos_bound (z + 2 ^ 63) (2 ^ 64) ltac:(lia)). lia.
Qed.

(** Bounds of [int64] terms, from the bounds in the context. *)
Ltac word := unfold in64, MinInt64, MaxInt64 in *; lia.

(** ** Lists *)

(** Go's [len], an [int]. *)
Definition len {A} (l : list A) : Z := Z.of_nat (length l).

Lemma len_nil {A} : len (@nil A) = 0.
Proof. reflexivity. Qed.
Lemma len_cons {A} (x : A) l : len (x :: l) = 1 + len l.
Proof. unfold len. simpl. lia. Qed.
Lemma len_app {A} (l k : list A) : len (l ++ k) = len l + len k.
Proof. unfold len. rewrite length_app. lia. Qed.
Lemma len_nonneg {A} (l : list A) : 0 <= len l.
Proof. unfold len. lia. Qed.
Lemma len_zero_nil {A} (l : list A) : len l = 0 → l = [].
Proof. destruct l; [done|]. rewrite len_cons. pose proof (len_nonneg l). lia. Qed.

(** ** Time

    [time.Time] is the number of nanoseconds since the Unix epoch and
    [time.Duration] a number of nanoseconds.  [time_zero] is Go's zero
    [time.Time], the first instant of year 1. *)

Definition Nanosecond : Z := 1.
Definition Millisecond : Z := 1000000.
Definition Second : Z := 1000000000.
Definition Minute : Z := 60 * Second.
Definition Hour : Z := 60 * Minute.
Definition time_zero : Z := -62135596800 * Second.

(** [Time.Sub] saturates at the bounds of [time.Duration]. *)
Definition time_sub (t u : Z) : Z := Z.max MinInt64 (Z.min MaxInt64 (t - u)).

(** ** Automation *)

(** Splits the first [if] or [match] on a boolean comparison found in the goal
    or in a hypothesis, recording the comparison as a proposition. *)
Ltac case_if :=
  match goal with
  | |- context [if ?b then _ else _] => destruct b eqn:?
  | H : context [if ?b then _ else _] |- _ => destruct b eqn:?
  end.

Ltac bool_to_prop :=
  repeat match goal with
  | H : (_ && _)%bool = true |- _ => apply andb_true_iff in H as [? ?]
  | H : (_ || _)%bool = false |- _ => apply orb_false_iff in H as [? ?]
  | H : (_ && _)%bool = false |- _ => apply andb_false_iff in H
  | H : (_ || _)%bool = true |- _ => apply orb_true_iff in H
  | H : negb _ = true |- _ => apply negb_true_iff in H
  | H : negb _ = false |- _ => apply negb_false_iff in H
  | H : (_ <=? _) = true |- _ => apply Z.leb_le in H
  | H : (_ <=? _) = false |- _ => apply Z.leb_gt in H
  | H : (_ <? _) = true |- _ => apply Z.ltb_lt in H
  | H : (_ <? _) = false |- _ => apply Z.ltb_ge in H
  | H : (_ =? _) = true |- _ => apply Z.eqb_eq in H
  | H : (_ =? _) = false |- _ => apply Z.eqb_neq in H
  | H : bool_decide _ = true |- _ => apply bool_decide_eq_true in H
  | H : bool_decide _ = false |- _ => apply bool_decide_eq_false in H
  end.

(** Refutes membership of a constant in a list of constants. *)
Ltac not_in H := exfalso; repeat (apply elem_of_cons in H as [H|H]; [discriminate H|]); by apply not_elem_of_nil in H.

(** ** Filters *)

Section filters.
Context {A : Type}.
Implicit Types (l : list A).

Lemma filter_idemp_sub (P Q : A → Prop) `{!∀ x, Decision (P x)} `{!∀ x, Decision (Q x)} l :
  (∀ x, P x → Q x) → filter P (filter Q l) = filter P l.
Proof.
  intros HPQ. induction l as [|x l IH]; [done|].
  rewrite (filter_cons Q). case_decide as HQ; rewrite !filter_cons.
  - case_decide; by rewrite IH.
  - rewrite IH. by rewrite (decide_False (P:=P x)) by naive_solver.
Qed.

Lemma len_filter_le (P : A → Prop) `{!∀ x, Decision (P x)} l : len (filter P l) <= len l.
Proof. unfold len. pose proof (length_filter P l). lia. Qed.

Lemma len_filter_mono (P Q : A → Prop) `{!∀ x, Decision (P x)} `{!∀ x, Decision (Q x)} l :
  (∀ x, x ∈ l → P x → Q x) → len (filter P l) <= len (filter Q l).
Proof.
  intros HPQ. induction l as [|x l IH]; [done|].
  specialize (IH ltac:(set_solver)).
  rewrite !filter_cons. case_decide; case_decide; rewrite ?len_cons; try lia.
  match goal with Hn : ¬ Q x |- _ => exfalso; apply Hn, HPQ; [left|done] end.
Qed.

Lemma filter_nil_iff (P : A → Prop) `{!∀ x, Decision (P x)} l :
  filter P l = [] ↔ ∀ x, x ∈ l → ¬ P x.
Proof.
  split.
  - intros Hnil x Hx HP. assert (Hin : x ∈ filter P l) by (apply list_elem_of_filter; auto).
    rewrite Hnil in Hin. by apply not_elem_of_nil in Hin.
  - intros Hall. destruct (filter P l) as [|y k] eqn:E; [done|].
    assert (Hy : y ∈ filter P l) by (rewrite E; left).
    apply list_elem_of_filter in Hy as [? ?]. exfalso. by eapply Hall.
Qed.

Lemma filter_all (P : A → Prop) `{!∀ x, Decision (P x)} l :
  (∀ x, x ∈ l → P x) → filter P l = l.
Proof.
  induction l as [|x l IH]; [done|]. intros Hall.
  rewrite filter_cons, decide_True by set_solver. f_equal. apply IH. set_solver.
Qed.

Lemma filter_unique (P : A → Prop) `{!∀ x, Decision (P x)} l x :
  NoDup l → x ∈ l → P x → (∀ y, y ∈ l → P y → y = x) → filter P l = [x].
Proof.
  intros Hnd Hin Hx Hu. induction l as [|z l IH]; [set_solver|].
  apply NoDup_cons in Hnd as [Hz Hnd]. rewrite filter_cons. apply elem_of_cons in Hin as [->|Hin].
  - rewrite decide_True by done. f_equal. apply filter_nil_iff. intros y Hy HPy.
    rewrite (Hu y) in Hy; [done|by right|done].
  - rewrite decide_False; [apply IH; [done|done|intros; apply Hu; [by right|done]]|].
    intros HPz. rewrite (Hu z) in Hz; [done|left|done].
Qed.
End filters.

Lemma NoDup_fmap_inj {A B} (f : A → B) (l : list A) x y :
  NoDup (f <$> l) → x ∈ l → y ∈ l → f x = f y → x = y.
Proof.
  induction l as [|z l IH]; [set_solver|]. rewrite fmap_cons, NoDup_cons. intros [Hz Hnd] Hx Hy Hf.
  apply elem_of_cons in Hx as [->|Hx], Hy as [->|Hy]; [done| | |by apply IH].
  - exfalso. apply Hz. rewrite Hf. by apply list_elem_of_fmap_2.
  - exfalso. apply Hz. rewrite <- Hf. by apply list_elem_of_fmap_2.
Qed.

(** Lookup with the Go default: a missing key yields the empty slice. *)
Definition slot {A} (m : gmap string (list A)) (k : string) : list A := default [] (m !! k).

Lemma slot_insert_eq {A} (m : gmap string (list A)) k v : slot (<[k:=v]> m) k = v.
Proof. unfold slot. by rewrite lookup_insert_eq. Qed.
Lemma slot_insert_ne {A} (m : gmap string (list A)) k k' v :
  k ≠ k' → slot (<[k:=v]> m) k' = slot m k'.
Proof. intros. unfold slot. by rewrite lookup_insert_ne. Qed.

(** An alteration of a row that is there. *)
Lemma alter_insert {A} (m : gmap string A) f s r : m !! s = Some r → alter f s m = <[s := f r]> m.
Proof.
  intros Hr. apply map_eq. intros j. destruct (decide (j = s)) as [->|]; [by rewrite lookup_alter_eq, lookup_insert_eq, Hr|by rewrite lookup_alter_ne, lookup_insert_ne].
Qed.

Lemma map_size_insert_le {A} (m : gmap string A) k v (n : nat) :
  (m !! k = None → (size m < n)%nat) → (size m <= n)%nat → (size (<[k:=v]> m) <= n)%nat.
Proof.
  intros Hnew Hle. destruct (m !! k) eqn:E.
  - rewrite map_size_insert_Some by eauto. done.
  - rewrite map_size_insert_None by done. specialize (Hnew eq_refl). lia.
Qed.

(** ** Sums over maps

    [msum f m] is what a SQL [SUM] or a Go accumulation loop over a table
    computes, in unbounded integers. *)
Section msum.
Context {K : Type} `{Countable K} {A : Type}.
Implicit Types (m : gmap K A) (f g : A → Z).

Definition msum f m : Z := map_fold (λ _ x acc, f x + acc) 0 m.

Lemma msum_empty f : msum f ∅ = 0.
Proof. apply map_fold_empty. Qed.

Lemma msum_insert_new f m k x : m !! k = None → msum f (<[k:=x]> m) = f x + msum f m.
Proof. intros. unfold msum. rewrite map_fold_insert_L; [done|intros; lia|done]. Qed.

Lemma msum_delete f m k x : m !! k = Some x → msum f (delete k m) = msum f m - f x.
Proof.
  intros Hk. rewrite <- (insert_delete_id m k x Hk) at 2.
  rewrite msum_insert_new by apply lookup_delete_eq. lia.
Qed.

Lemma msum_insert f m k x y :
  m !! k = Some x → msum f (<[k:=y]> m) = msum f m - f x + f y.
Proof.
  intros Hk. rewrite <- insert_delete_eq, msum_insert_new by apply lookup_delete_eq.
  rewrite (msum_delete f m k x Hk). lia.
Qed.

Lemma msum_fmap f (h : A → A) m : msum f (h <$> m) = msum (λ x, f (h x)) m.
Proof.
  induction m as [|k x m Hk IH] using map_ind; [by rewrite fmap_empty, !msum_empty|].
  rewrite fmap_insert, !msum_insert_new, IH by (rewrite ?lookup_fmap, ?Hk; done). done.
Qed.

Lemma msum_ext f g m : (∀ k x, m !! k = Some x → f x = g x) → msum f m = msum g m.
Proof.
  induction m as [|k x m Hk IH] using map_ind; intros Hfg; [by rewrite !msum_empty|].
  rewrite !msum_insert_new by done. rewrite (Hfg k x) by apply lookup_insert_eq.
  rewrite IH; [done|]. intros j y Hj. apply (Hfg j). rewrite lookup_insert_ne by congruence. done.
Qed.

Lemma msum_plus f g m : msum (λ x, f x + g x) m = msum f m + msum g m.
Proof.
  induction m as [|k x m Hk IH] using map_ind; [by rewrite !msum_empty|].
  rewrite !msum_insert_new, IH by done. lia.
Qed.

Lemma msum_nonneg f m : (∀ k x, m !! k = Some x → 0 <= f x) → 0 <= msum f m.
Proof.
  induction m as [|k x m Hk IH] using map_ind; intros Hf; [by rewrite msum_empty|].
  rewrite msum_insert_new by done. specialize (Hf k x (lookup_insert_eq _ _ _)) as Hx.
  assert (0 <= msum f m); [|lia]. apply IH. intros j y Hj. apply (Hf j).
  rewrite lookup_insert_ne by congruence. done.
Qed.

Lemma msum_le f g m : (∀ k x, m !! k = Some x → f x <= g x) → msum f m <= msum g m.
Proof.
  intros Hfg. pose proof (msum_nonneg (λ x, g x + - f x) m) as Hn.
  rewrite (msum_plus g (λ x, - f x)) in Hn.
  assert (msum (λ x, - f x) m = - msum f m) as Ho.
  { clear. induction m as [|k x m Hk IH] using map_ind; [by rewrite !msum_empty|].
    rewrite !msum_insert_new, IH by done. lia. }
  enough (0 <= msum g m + msum (λ x, - f x) m) by lia.
  apply Hn. intros k x Hk. specialize (Hfg k x Hk). lia.
Qed.

Lemma msum_lookup_le f m k x :
  m !! k = Some x → (∀ j y, m !! j = Some y → 0 <= f y) → f x <= msum f m.
Proof.
  intros Hk Hf. pose proof (msum_delete f m k x Hk) as Hd.
  assert (0 <= msum f (delete k m)); [|lia].
  apply msum_nonneg. intros j y Hj. apply lookup_delete_Some in Hj as [_ Hj]. eauto.
Qed.

Lemma msum_zero f m : (∀ k x, m !! k = Some x → f x = 0) → msum f m = 0.
Proof.
  intros Hz. rewrite (msum_ext f (λ _, 0) m Hz).
  clear. induction m as [|k x m Hk IH] using map_ind; [by rewrite msum_empty|].
  rewrite msum_insert_new, IH by done. done.
Qed.
End msum.

(** Counting the entries of a map. *)
Lemma map_count_insert {A} `{Countable K} (P : K * A → Prop) `{!∀ x, Decision (P x)} (m : gmap K A) k v :
  m !! k = None →
  len (filter P (map_to_list (<[k := v]> m))) = (if decide (P (k, v)) then 1 else 0) + len (filter P (map_to_list m)).
Proof.
  intros Hk. unfold len. rewrite (Permutation_length (filter_Permutation P _ _ (map_to_list_insert m k v Hk))).
  rewrite filter_cons. case_decide; simpl; lia.
Qed.

Lemma map_count_update {A} `{Countable K} (P : K * A → Prop) `{!∀ x, Decision (P x)} (m : gmap K A) k v w :
  m !! k = Some v → (P (k, v) ↔ P (k, w)) →
  len (filter P (map_to_list (<[k := w]> m))) = len (filter P (map_to_list m)).
Proof.
  intros Hk Hiff. rewrite <- (insert_id m k v Hk) at 2. rewrite <- (insert_delete_eq m k w), <- (insert_delete_eq m k v).
  rewrite !map_count_insert by apply lookup_delete_eq. by rewrite (decide_ext _ _ _ _ Hiff).
Qed.

(** ** Results: an error or a value *)

#[export] Instance result_ret E : MRet (sum E) := λ A x, inr x.
#[export] Instance result_bind E : MBind (sum E) := λ A B f m, match m with inl e => inl e | inr a => f a end.

Definition ensure {E} (b : bool) (e : E) : E + () := if b then inr () else inl e.
Definition from_option {E A} (e : E) (o : option A) : E + A := match o with Some x => inr x | None => inl e end.

Fixpoint map_result {E A B} (f : A → E + B) (l : list A) : E + list B :=
  match l with
  | [] => inr []
  | x :: l => y ← f x; l ← map_result f l; mret (y :: l)
  end.

Lemma map_result_ext {E A B} (f g : A → E + B) l : (∀ x, x ∈ l → f x = g x) → map_result f l = map_result g l.
Proof.
  induction l as [|x l IH]; intros H; [done|]. simpl. rewrite (H x) by left. rewrite IH; [done|]. intros y Hy. apply H. by right.
Qed.

(** Every error of a map over a list is an error at an element. *)
Lemma map_result_error {E A B} (f : A → E + B) l e : map_result f l = inl e → ∃ x, x ∈ l ∧ f x = inl e.
Proof.
  induction l as [|x l IH]; [done|]. simpl. unfold mbind, result_bind. destruct (f x) as [e'|y] eqn:Hx.
  - intros [= ->]. exists x. split; [left|done].
  - destruct (map_result f l) as [e'|k]; [|done]. intros [= ->]. destruct (IH eq_refl) as (z & ? & ?). exists z. split; [by right|done].
Qed.

Lemma map_result_Forall2 {E A B} (f : A → E + B) l k : map_result f l = inr k → Forall2 (λ x y, f x = inr y) l k.
Proof.
  revert k. induction l as [|x l IH]; simpl; intros k H; [injection H as <-; constructor|].
  unfold mbind, result_bind in H. destruct (f x) as [e|y] eqn:Hx; [done|]. destruct (map_result f l) as [e|ys]; [done|].
  injection H as <-. constructor; [done|by apply IH].
Qed.

(** As many elements as distinct ones known to be among them: these are all. *)
Lemma NoDup_covers {A} (l k : list A) : NoDup l → (∀ x, x ∈ l → x ∈ k) → length k = length l → ∀ x, x ∈ k → x ∈ l.
Proof.
  intros Hnd Hsub Hlen x Hx. assert (l ⊆+ k) as Hs by (by apply NoDup_submseteq).
  apply submseteq_length_Permutation in Hs; [by rewrite Hs|lia].
Qed.

Lemma result_bind_inr {E A B} (m : E + A) (f : A → E + B) y : (m ≫= f) = inr y ↔ ∃ x, m = inr x ∧ f x = inr y.
Proof. unfold mbind, result_bind. destruct m as [e|x]; split; [done|by intros (? & ? & ?)|eauto|by intros (? & [= ->] & ?)]. Qed.
Lemma ensure_inr {E} b (e : E) u : ensure b e = inr u ↔ b = true.
Proof. destruct b, u; done. Qed.
Lemma from_option_inr {E A} (e : E) (o : option A) x : from_option e o = inr x ↔ o = Some x.
Proof. destruct o; simpl; naive_solver. Qed.
