(* ===== verification/Tx.v ===== *)
(** * Database transactions

    A transaction body is a function of the database state that returns a result
    with the next state, or fails.  [run] is
    [Database.TestingWithRLSContext] of [internal/platform/postgres/rls.go]: the
    body's effects are committed when it returns no error and discarded
    otherwise. *)
From S2P Require Import Prelude.

Definition tx (St Err A : Type) : Type := St → Err + (A * St).

#[export] Instance tx_ret St Err : MRet (tx St Err) := λ A x s, inr (x, s).
#[export] Instance tx_bind St Err : MBind (tx St Err) := λ A B f m s,
  match m s with inl e => inl e | inr (a, s') => f a s' end.

Section tx.
Context {St Err : Type}.
Implicit Types (s : St) (e : Err).

Definition fail {A} (e : Err) : tx St Err A := λ _, inl e.
Definition get : tx St Err St := λ s, inr (s, s).
Definition modify (f : St → St) : tx St Err () := λ s, inr ((), f s).
Definition when (b : bool) (m : tx St Err ()) : tx St Err () := if b then m else mret ().
Definition guard_tx (b : bool) (e : Err) : tx St Err () := if b then mret () else fail e.
Definition require {A} (o : option A) (e : Err) : tx St Err A :=
  match o with Some x => mret x | None => fail e end.

Definition run {A} (m : tx St Err A) (s : St) : St * (Err + A) :=
  match m s with inl e => (s, inl e) | inr (a, s') => (s', inr a) end.

Lemma bind_inr {A B} (m : tx St Err A) (f : A → tx St Err B) s r :
  (m ≫= f) s = inr r ↔ ∃ a s', m s = inr (a, s') ∧ f a s' = inr r.
Proof.
  unfold mbind, tx_bind. destruct (m s) as [e|[a s']]; split; [done|by intros (?&?&?&?)|eauto|].
  by intros (?&?&[= <- <-]&?).
Qed.

(** The statement after one that returned. *)
Lemma bind_at {A B} (m : tx St Err A) (f : A → tx St Err B) s a s' : m s = inr (a, s') → (m ≫= f) s = f a s'.
Proof. unfold mbind, tx_bind. by intros ->. Qed.

Lemma run_commit {A} (m : tx St Err A) s a s' : run m s = (s', inr a) ↔ m s = inr (a, s').
Proof.
  unfold run. destruct (m s) as [e|[b t]]; split; intros; simplify_eq; done.
Qed.

Lemma run_rollback {A} (m : tx St Err A) s s' e : run m s = (s', inl e) → s' = s.
Proof. unfold run. destruct (m s) as [?|[? ?]]; intros; by simplify_eq. Qed.

(** An invariant of the body is an invariant of the transaction. *)
Lemma run_inv {A} (P : St → Prop) (m : tx St Err A) s :
  (∀ a s', m s = inr (a, s') → P s') → P s → P (run m s).1.
Proof. unfold run. destruct (m s) as [?|[? ?]]; naive_solver. Qed.

Lemma require_inr {A} (o : option A) e s a s' :
  require o e s = inr (a, s') ↔ o = Some a ∧ s' = s.
Proof. destruct o; split; [intros [= <- <-]|intros [[= ->] ->]|..]; naive_solver. Qed.
Lemma guard_inr b e s u s' : guard_tx b e s = inr (u, s') ↔ b = true ∧ s' = s.
Proof. destruct b, u; split; [intros [= <-]|intros [_ ->]|..]; naive_solver. Qed.
End tx.

(** Decomposes a hypothesis that a transaction body returned normally, naming
    the states in between. *)
Ltac tx_inv H :=
  lazymatch type of H with
  | (_ ≫= _) _ = inr _ =>
      let a := fresh "a" in let s := fresh "s" in let H1 := fresh H in
      apply bind_inr in H as (a & s & H1 & H); tx_inv H1; tx_inv H
  | require _ _ _ = inr _ => apply require_inr in H as [H ->]
  | guard_tx _ _ _ = inr _ => apply guard_inr in H as [H ->]
  | get _ = inr _ => injection H as <- <-
  | modify _ _ = inr _ => first [injection H as <- <- | injection H as <-]
  | mret _ _ = inr _ => first [injection H as <- <- | injection H as H; simplify_eq]
  | when true _ _ = inr _ => unfold when in H; tx_inv H
  | when false _ _ = inr _ => unfold when in H; tx_inv H
  | fail _ _ = inr _ => discriminate H
  | _ => idtac
  end.

(** The same, one statement at a time and with chosen names. *)
Tactic Notation "tx_bind" hyp(H) "as" ident(x) ident(s) ident(G) := apply bind_inr in H as (x & s & G & H).
Tactic Notation "tx_get" hyp(H) := let G := fresh in apply bind_inr in H as (? & ? & G & H); injection G as <- <-.
Tactic Notation "tx_guard" hyp(H) "as" ident(G) := apply bind_inr in H as (? & ? & G & H); apply guard_inr in G as [G ->].
Tactic Notation "tx_require" hyp(H) "as" ident(x) ident(G) := apply bind_inr in H as (x & ? & G & H); apply require_inr in G as [G ->].
Tactic Notation "tx_modify" hyp(H) := let G := fresh in apply bind_inr in H as ([] & ? & G & H); injection G as <-.

(** ** Statements that only read *)

Class Reads {St Err A} (m : tx St Err A) : Prop := reads s a s' : m s = inr (a, s') → s' = s.

#[export] Instance reads_ret {St Err A} (a : A) : Reads (mret a : tx St Err A).
Proof. intros s b s' H. by injection H. Qed.
#[export] Instance reads_fail {St Err A} (e : Err) : Reads (fail e : tx St Err A).
Proof. by intros s b s' H. Qed.
#[export] Instance reads_get {St Err} : Reads (get : tx St Err St).
Proof. intros s b s' H. by injection H. Qed.
#[export] Instance reads_guard {St Err} b (e : Err) : Reads (guard_tx b e : tx St Err ()).
Proof. intros s a s' H. by apply guard_inr in H as [_ ->]. Qed.
#[export] Instance reads_require {St Err A} (o : option A) (e : Err) : Reads (require o e : tx St Err A).
Proof. intros s a s' H. by apply require_inr in H as [_ ->]. Qed.
#[export] Instance reads_bind {St Err A B} (m : tx St Err A) (f : A → tx St Err B) :
  Reads m → (∀ a, Reads (f a)) → Reads (m ≫= f).
Proof. intros Hm Hf s b s' H. apply bind_inr in H as (a & s1 & H1 & H2). apply Hm in H1 as ->. by apply Hf in H2. Qed.
#[export] Instance reads_when {St Err} b (m : tx St Err ()) : Reads m → Reads (when b m).
Proof. destruct b; [done|]. intros _. apply _. Qed.
#[export] Instance reads_if {St Err A} (b : bool) (m n : tx St Err A) : Reads m → Reads n → Reads (if b then m else n).
Proof. by destruct b. Qed.

(** Skips a statement that only reads. *)
Tactic Notation "tx_read" hyp(H) "as" simple_intropattern(x) ident(G) :=
  let s := fresh "s" in apply bind_inr in H as (x & s & G & H); pose proof (reads _ _ _ G) as ->.

(** ** Handlers

    A handler runs several transactions; what an earlier one committed stays
    when a later step fails. *)
Definition act (St Err A : Type) : Type := St → St * (Err + A).

#[export] Instance act_ret St Err : MRet (act St Err) := λ A x s, (s, inr x).
#[export] Instance act_bind St Err : MBind (act St Err) := λ A B f m s,
  match m s with (s', inl e) => (s', inl e) | (s', inr a) => f a s' end.

Section act.
Context {St Err : Type}.

Definition throw {A} (e : Err) : act St Err A := λ s, (s, inl e).
Definition ask : act St Err St := λ s, (s, inr s).
Definition update (f : St → St) : act St Err () := λ s, (f s, inr ()).
Definition check (b : bool) (e : Err) : act St Err () := if b then mret () else throw e.
Definition need {A} (o : option A) (e : Err) : act St Err A :=
  match o with Some x => mret x | None => throw e end.
Definition either {A} (r : Err + A) : act St Err A :=
  match r with inl e => throw e | inr x => mret x end.

Lemma act_bind_ok {A B} (m : act St Err A) (f : A → act St Err B) s s' b :
  (m ≫= f) s = (s', inr b) ↔ ∃ a s1, m s = (s1, inr a) ∧ f a s1 = (s', inr b).
Proof.
  unfold mbind, act_bind. destruct (m s) as [s1 [e|a]]; split; [done|by intros (?&?&?&?)|eauto|].
  by intros (?&?&[= <- <-]&?).
Qed.

Lemma check_ok b e s s' u : check b e s = (s', inr u) ↔ b = true ∧ s' = s.
Proof. destruct b, u; split; [intros [= <-]|intros [_ ->]|..]; naive_solver. Qed.
Lemma need_ok {A} (o : option A) e s s' x : need o e s = (s', inr x) ↔ o = Some x ∧ s' = s.
Proof. destruct o; split; [intros [= <- <-]|intros [[= ->] ->]|..]; naive_solver. Qed.
Lemma either_ok {A} (r : Err + A) s s' x : either r s = (s', inr x) ↔ r = inr x ∧ s' = s.
Proof. destruct r; split; [..|intros [= <- <-]|intros [[= ->] ->]]; naive_solver. Qed.
End act.

(** A handler that stops at a check has changed nothing there. *)
Lemma check_bind {St Err B} b (e : Err) (k : act St Err B) s r :
  (check b e;; k) s = r → r = (s, inl e) ∨ b = true ∧ k s = r.
Proof. unfold check. destruct b; [by right|intros <-; by left]. Qed.
Lemma need_bind {St Err A B} (o : option A) (e : Err) (k : A → act St Err B) s r :
  (x ← need o e; k x) s = r → r = (s, inl e) ∨ ∃ x, o = Some x ∧ k x s = r.
Proof. unfold need. destruct o; [right; eauto|intros <-; by left]. Qed.
(** A check that holds, a value that is there. *)
Lemma check_true {St Err B} b (e : Err) (k : act St Err B) s : b = true → (check b e;; k) s = k s.
Proof. by intros ->. Qed.
Lemma need_some {St Err A B} (o : option A) (e : Err) (k : A → act St Err B) s a :
  o = Some a → (need o e ≫= k) s = k a s.
Proof. by intros ->. Qed.
Lemma ask_step {St Err B} (k : St → act St Err B) s : (ask ≫= k) s = k s s.
Proof. done. Qed.
Lemma either_bind {St Err A B} (o : Err + A) (k : A → act St Err B) s r :
  (x ← either o; k x) s = r → (∃ e, o = inl e ∧ r = (s, inl e)) ∨ ∃ x, o = inr x ∧ k x s = r.
Proof. unfold either. destruct o; [intros <-; left; eauto|right; eauto]. Qed.
Lemma act_bind_cases {St Err A B} (m : act St Err A) (k : A → act St Err B) s r :
  (m ≫= k) s = r →
  (∃ s1 e, m s = (s1, inl e) ∧ r = (s1, inl e)) ∨ ∃ s1 a, m s = (s1, inr a) ∧ k a s1 = r.
Proof. unfold mbind, act_bind. destruct (m s) as [s1 [e|a]]; [intros <-; left; eauto|right; eauto]. Qed.
Lemma ask_bind {St Err B} (k : St → act St Err B) s r : (x ← ask; k x) s = r → k s s = r.
Proof. done. Qed.

(** Decomposes a hypothesis that a handler returned without error. *)
Ltac act_inv H :=
  lazymatch type of H with
  | (_ ≫= _) _ = (_, inr _) =>
      let a := fresh "a" in let s := fresh "s" in let H1 := fresh H in
      apply act_bind_ok in H as (a & s & H1 & H); act_inv H1; act_inv H
  | need _ _ _ = (_, inr _) => apply need_ok in H as [H ->]
  | check _ _ _ = (_, inr _) => apply check_ok in H as [H ->]
  | either _ _ = (_, inr _) => apply either_ok in H as [H ->]
  | ask _ = (_, inr _) => injection H as <- <-
  | update _ _ = (_, inr _) => first [injection H as <- <- | injection H as <-]
  | mret _ _ = (_, inr _) => first [injection H as <- <- | injection H as H; simplify_eq]
  | throw _ _ = (_, inr _) => discriminate H
  | _ => idtac
  end.

(** ** Invariants of handlers

    [keeps P m]: whatever [m] returns, it leaves a state of [P] in [P].
    [throws Q m]: every error of [m] is in [Q]. *)
Section invariants.
Context {St Err : Type} (P : St → Prop) (Q : Err → Prop).

Definition keeps {A} (m : act St Err A) : Prop := ∀ s, P s → P (m s).1.
Definition throws {A} (m : act St Err A) : Prop := ∀ s e, (m s).2 = inl e → Q e.

Lemma keeps_bind {A B} (m : act St Err A) (f : A → act St Err B) :
  keeps m → (∀ a, keeps (f a)) → keeps (m ≫= f).
Proof.
  intros Hm Hf s Hs. unfold mbind, act_bind. specialize (Hm s Hs). destruct (m s) as [s1 [e|a]]; simpl in *; [done|].
  by apply Hf.
Qed.
Lemma keeps_ret {A} (a : A) : keeps (mret a).
Proof. by intros s. Qed.
Lemma keeps_throw {A} e : keeps (@throw St Err A e).
Proof. by intros s. Qed.
Lemma keeps_ask : keeps ask.
Proof. by intros s. Qed.
Lemma keeps_update (f : St → St) : (∀ s, P s → P (f s)) → keeps (update f).
Proof. by intros Hf s Hs; apply Hf. Qed.
Lemma keeps_check b e : keeps (check b e).
Proof. destruct b; by intros s. Qed.
Lemma keeps_need {A} (o : option A) e : keeps (need o e).
Proof. destruct o; by intros s. Qed.
Lemma keeps_either {A} (r : Err + A) : keeps (either r).
Proof. destruct r; by intros s. Qed.

Lemma throws_bind {A B} (m : act St Err A) (f : A → act St Err B) :
  throws m → (∀ a, throws (f a)) → throws (m ≫= f).
Proof.
  intros Hm Hf s e. unfold mbind, act_bind. specialize (Hm s). destruct (m s) as [s1 [e1|a]]; simpl in *.
  - intros [= <-]. by apply Hm.
  - apply Hf.
Qed.
Lemma throws_ret {A} (a : A) : throws (mret a).
Proof. by intros s e. Qed.
Lemma throws_throw {A} e : Q e → throws (@throw St Err A e).
Proof. by intros He s e' [= <-]. Qed.
Lemma throws_ask : throws ask.
Proof. by intros s e. Qed.
Lemma throws_update (f : St → St) : throws (update f).
Proof. by intros s e. Qed.
Lemma throws_check b e : Q e → throws (check b e).
Proof. destruct b; [by intros _ s ?|by intros He s e' [= <-]]. Qed.
Lemma throws_need {A} (o : option A) e : Q e → throws (need o e).
Proof. destruct o; [by intros _ s ?|by intros He s e' [= <-]]. Qed.
End invariants.

Create HintDb handlers.
#[export] Hint Resolve keeps_bind keeps_ret keeps_throw keeps_ask keeps_check keeps_need keeps_either
  throws_bind throws_ret throws_throw throws_ask throws_update throws_check throws_need : handlers.
