(* ===== verification/GoStrings.v ===== *)
(** * Go strings

    The functions of Go's [strings], [strconv] and [unicode/utf8] packages that
    the server uses, on byte strings ([Stdlib]'s [string], one [ascii] per
    byte). *)
From S2P Require Import Prelude.

Open Scope Z_scope.

Definition byte (n : nat) : ascii := Ascii.ascii_of_nat n.
Definition code (a : ascii) : Z := Z.of_nat (Ascii.nat_of_ascii a).
Definition strlen (s : string) : Z := Z.of_nat (String.length s).

Fixpoint HasPrefix (s p : string) : bool :=
  match p, s with
  | EmptyString, _ => true
  | String a p, String b s => Ascii.eqb a b && HasPrefix s p
  | String _ _, EmptyString => false
  end.

(** [s[n:]] for [n <= len(s)]. *)
Fixpoint string_drop (n : nat) (s : string) : string :=
  match n, s with
  | S n, String _ s => string_drop n s
  | _, _ => s
  end.

Definition CutPrefix (s p : string) : option string :=
  if HasPrefix s p then Some (string_drop (String.length p) s) else None.

Definition TrimPrefix (s p : string) : string := default s (CutPrefix s p).

Fixpoint Contains (s sub : string) : bool :=
  HasPrefix s sub || match s with EmptyString => false | String _ s => Contains s sub end.

Definition HasSuffix (s p : string) : bool := HasPrefix (String.rev s) (String.rev p).

(** [strings.Split] with a one-byte separator; never the empty list. *)
Fixpoint Split (s : string) (c : ascii) : list string :=
  match s with
  | EmptyString => [EmptyString]
  | String a r =>
      if Ascii.eqb a c then EmptyString :: Split r c
      else match Split r c with
           | x :: xs => String a x :: xs
           | [] => [String a EmptyString]
           end
  end.

Fixpoint Join (l : list string) (sep : string) : string :=
  match l with
  | [] => EmptyString
  | [x] => x
  | x :: l => x +:+ sep +:+ Join l sep
  end.

(** [strings.Cut] with a one-byte separator. *)
Fixpoint Cut (s : string) (c : ascii) : option (string * string) :=
  match s with
  | EmptyString => None
  | String a r =>
      if Ascii.eqb a c then Some (EmptyString, r)
      else '(x, y) ← Cut r c; Some (String a x, y)
  end.

Fixpoint ReplaceAll1 (s : string) (from to : ascii) : string :=
  match s with
  | EmptyString => EmptyString
  | String a r => String (if Ascii.eqb a from then to else a) (ReplaceAll1 r from to)
  end.

Fixpoint ContainsByte (s : string) (c : ascii) : bool :=
  match s with EmptyString => false | String a r => Ascii.eqb a c || ContainsByte r c end.

(** [strings.Trim] with a one-byte cutset. *)
Fixpoint TrimLeft1 (s : string) (c : ascii) : string :=
  match s with
  | String a r => if Ascii.eqb a c then TrimLeft1 r c else s
  | EmptyString => s
  end.
Definition TrimRight1 (s : string) (c : ascii) : string := String.rev (TrimLeft1 (String.rev s) c).
Definition Trim1 (s : string) (c : ascii) : string := TrimRight1 (TrimLeft1 s c) c.

Definition bytes (l : list nat) : string :=
  foldr (λ n s, String (byte n) s) EmptyString l.

(** The UTF-8 encodings of the runes for which [unicode.IsSpace] holds. *)
Definition spaces : list string :=
  map (λ n, bytes [n]) [9; 10; 11; 12; 13; 32]%nat ++
  [bytes [194; 133]; bytes [194; 160]; bytes [225; 154; 128]]%nat ++
  map (λ n, bytes [226; 128; n]%nat) [128; 129; 130; 131; 132; 133; 134; 135; 136; 137; 138; 168; 169; 175]%nat ++
  [bytes [226; 129; 159]; bytes [227; 128; 128]]%nat.

Definition strip_one (ws : list string) (s : string) : option string :=
  w ← list_find (λ w, HasPrefix s w) ws; CutPrefix s w.2.

Fixpoint strip (fuel : nat) (ws : list string) (s : string) : string :=
  match fuel with
  | O => s
  | S f => match strip_one ws s with Some s' => strip f ws s' | None => s end
  end.

(** [strings.TrimSpace]: strips whole encoded space runes from both ends; each
    step removes at least one byte, so [len s] steps suffice. *)
Definition TrimSpace (s : string) : string :=
  let s := strip (String.length s) spaces s in
  String.rev (strip (String.length s) (map String.rev spaces) (String.rev s)).

(** [strings.ToLower] on ASCII, and on the two non-ASCII runes whose lower case
    is ASCII (U+0130 and U+212A).  Other non-ASCII letters are left as they
    are: no comparison with an ASCII word can tell. *)
Definition lower_ascii (a : ascii) : ascii :=
  if (65 <=? code a) && (code a <=? 90) then byte (Ascii.nat_of_ascii a + 32) else a.

Fixpoint ToLower (s : string) : string :=
  match s with
  | EmptyString => EmptyString
  | String a r1 =>
      match r1 with
      | String b r2 =>
          if (code a =? 196) && (code b =? 176) then String "i"%char (ToLower r2)
          else
            match r2 with
            | String c r3 =>
                if (code a =? 226) && (code b =? 132) && (code c =? 170)
                then String "k"%char (ToLower r3)
                else String (lower_ascii a) (ToLower r1)
            | EmptyString => String (lower_ascii a) (ToLower r1)
            end
      | EmptyString => String (lower_ascii a) EmptyString
      end
  end.

(** Simple case folding as [strings.EqualFold] uses it, for a comparison with an
    ASCII word: besides the ASCII letters, U+017F folds to [s] and U+212A to [k]. *)
Fixpoint fold_case (s : string) : string :=
  match s with
  | EmptyString => EmptyString
  | String a r1 =>
      match r1 with
      | String b r2 =>
          if (code a =? 197) && (code b =? 191) then String "s"%char (fold_case r2)
          else
            match r2 with
            | String c r3 =>
                if (code a =? 226) && (code b =? 132) && (code c =? 170)
                then String "k"%char (fold_case r3)
                else String (lower_ascii a) (fold_case r1)
            | EmptyString => String (lower_ascii a) (fold_case r1)
            end
      | EmptyString => String (lower_ascii a) EmptyString
      end
  end.

Definition EqualFold (s t : string) : bool := bool_decide (fold_case s = fold_case t).

Definition is_digit (a : ascii) : bool := (48 <=? code a) && (code a <=? 57).

(** Decimal printing of a non-negative [int]. *)
Fixpoint digits (fuel : nat) (n : Z) (acc : string) : string :=
  match fuel with
  | O => acc
  | S f =>
      let acc := String (byte (Z.to_nat (48 + n mod 10))) acc in
      if n <? 10 then acc else digits f (n / 10) acc
  end.

Definition Itoa (z : Z) : string :=
  if z <? 0 then String "-"%char (digits 20 (- z) EmptyString) else digits 20 z EmptyString.

Fixpoint parse_digits (acc : Z) (s : string) : option Z :=
  match s with
  | EmptyString => Some acc
  | String a r => if is_digit a then parse_digits (acc * 10 + (code a - 48)) r else None
  end.

(** [strconv.Atoi] and [strconv.ParseInt(s, 10, 64)]: an optional sign, at least
    one digit, and a value that fits 64 bits. *)
Definition ParseInt (s : string) : option Z :=
  let '(neg, ds) :=
    match s with
    | String "-" r => (true, r)
    | String "+" r => (false, r)
    | _ => (false, s)
    end in
  match ds with
  | EmptyString => None
  | _ =>
      v ← parse_digits 0 ds;
      let v := if neg : bool then - v else v in
      if bool_decide (in64 v) then Some v else None
  end.

(** ** UTF-8 *)

Definition cont (lo hi : Z) (a : ascii) : bool := (lo <=? code a) && (code a <=? hi).

(** Bytes taken by the first rune of a non-empty string; an invalid byte is one
    rune of width one, as [utf8.DecodeRuneInString] has it. *)
Definition rune_width (s : string) : nat :=
  match s with
  | EmptyString => 0
  | String a r =>
      let two lo hi :=
        match r with String b _ => cont lo hi b | _ => false end in
      let three lo hi :=
        match r with String b (String c _) => cont lo hi b && cont 128 191 c | _ => false end in
      let four lo hi :=
        match r with
        | String b (String c (String d _)) => cont lo hi b && cont 128 191 c && cont 128 191 d
        | _ => false
        end in
      let n := code a in
      if (194 <=? n) && (n <=? 223) && two 128 191 then 2%nat
      else if (n =? 224) && three 160 191 then 3%nat
      else if ((225 <=? n) && (n <=? 236) || (n =? 238) || (n =? 239)) && three 128 191 then 3%nat
      else if (n =? 237) && three 128 159 then 3%nat
      else if (n =? 240) && four 144 191 then 4%nat
      else if (241 <=? n) && (n <=? 243) && four 128 191 then 4%nat
      else if (n =? 244) && four 128 143 then 4%nat
      else 1%nat
  end.

Fixpoint rune_count_fuel (fuel : nat) (s : string) : Z :=
  match fuel, s with
  | S f, String _ _ => 1 + rune_count_fuel f (string_drop (rune_width s) s)
  | _, _ => 0
  end.

(** [len([]rune(s))]. *)
Definition rune_count (s : string) : Z := rune_count_fuel (String.length s) s.

Example trim_example : TrimSpace (String (byte 9) (" a b "%string +:+ bytes [194; 160]%nat)) = "a b"%string.
Proof. reflexivity. Qed.
Example split_example : Split "a//b" "/" = ["a"; ""; "b"]%string.
Proof. reflexivity. Qed.
Example itoa_example : Itoa 1207 = "1207"%string ∧ Itoa 0 = "0"%string ∧ Itoa (-35) = "-35"%string.
Proof. repeat split. Qed.
Example parse_example : ParseInt "-12" = Some (-12) ∧ ParseInt "1x" = None ∧ ParseInt "+" = None.
Proof. repeat split. Qed.
Example rune_example : rune_count (bytes [226; 130; 172; 65; 255]%nat) = 3.
Proof. reflexivity. Qed.

(** ** Lemmas *)

Lemma app_cons_str x a b : String x a +:+ b = String x (a +:+ b).
Proof. reflexivity. Qed.
Lemma app_nil_l_str a : "" +:+ a = a.
Proof. reflexivity. Qed.
Lemma app_nil_r_str s : s +:+ "" = s.
Proof. induction s as [|a s IH]; [done|]. by rewrite !app_cons_str, IH. Qed.
Lemma app_assoc_str a b c : (a +:+ b) +:+ c = a +:+ (b +:+ c).
Proof. induction a as [|x a IH]; [done|]. by rewrite !app_cons_str, IH. Qed.

Lemma rev_app_spec a b : String.rev_app a b = String.rev a +:+ b.
Proof.
  unfold String.rev. revert b. induction a as [|x a IH]; intros b; [done|].
  cbn [String.rev_app]. by rewrite IH, (IH (String x "")), app_assoc_str.
Qed.

Lemma rev_cons_str x a : String.rev (String x a) = String.rev a +:+ String x "".
Proof. exact (rev_app_spec a (String x EmptyString)). Qed.

Lemma rev_app_str a b : String.rev (a +:+ b) = String.rev b +:+ String.rev a.
Proof.
  induction a as [|x a IH]; [by rewrite app_nil_l_str, app_nil_r_str|].
  by rewrite app_cons_str, !rev_cons_str, IH, app_assoc_str.
Qed.

Lemma rev_rev_str a : String.rev (String.rev a) = a.
Proof. induction a as [|x a IH]; [done|]. by rewrite rev_cons_str, rev_app_str, IH. Qed.

Lemma rev_nil_str a : String.rev a = ""%string → a = ""%string.
Proof. intros H. by rewrite <- (rev_rev_str a), H. Qed.

Lemma TrimLeft1_app a b c : TrimLeft1 a c ≠ ""%string → TrimLeft1 (a +:+ b) c = TrimLeft1 a c +:+ b.
Proof.
  induction a as [|x a IH]; [done|]. rewrite app_cons_str. cbn [TrimLeft1].
  destruct (Ascii.eqb x c); auto.
Qed.

Lemma TrimRight1_app a b c : TrimRight1 b c ≠ ""%string → TrimRight1 (a +:+ b) c = a +:+ TrimRight1 b c.
Proof.
  unfold TrimRight1. intros H. rewrite rev_app_str, TrimLeft1_app.
  - by rewrite rev_app_str, rev_rev_str.
  - intros E. by rewrite E in H.
Qed.

Lemma Split_app x r c : ContainsByte x c = false → Split (x +:+ String c r) c = x :: Split r c.
Proof.
  induction x as [|a x IH]; intros H.
  - rewrite app_nil_l_str. cbn [Split]. by rewrite Ascii.eqb_refl.
  - cbn [ContainsByte] in H. apply orb_false_iff in H as [E H].
    rewrite app_cons_str. cbn [Split]. by rewrite E, IH.
Qed.

Lemma HasPrefix_app p s : HasPrefix (p +:+ s) p = true.
Proof.
  induction p as [|a p IH]; [by destruct s|].
  rewrite app_cons_str. cbn [HasPrefix]. by rewrite Ascii.eqb_refl, IH.
Qed.
