(* ===== verification/GoTime.v ===== *)
(** * Calendar time

    What the modelled code uses of Go's [time] package in UTC: the civil date of
    an instant, weekdays, midnights and the RFC 3339 formats. *)
From S2P Require Import Prelude GoStrings.

Definition Day : Z := 24 * Hour.
Definition Week : Z := 7 * Day.

(** Days since 1970-01-01. *)
Definition day_of (t : Z) : Z := t / Day.
Definition midnight (t : Z) : Z := day_of t * Day.

(** [time.Weekday]: Sunday is 0; the epoch was a Thursday. *)
Definition Weekday (t : Z) : Z := (day_of t + 4) mod 7.

Record civil := mkCivil { year : Z; month : Z; mday : Z }.

(** The proleptic Gregorian date of a day, counted in 400-year eras that start
    on March 1st. *)
Definition civil_of_day (days : Z) : civil :=
  let z := days + 719468 in
  let era := z / 146097 in
  let doe := z mod 146097 in
  let yoe := (doe - doe / 1460 + doe / 36524 - doe / 146096) / 365 in
  let doy := doe - (365 * yoe + yoe / 4 - yoe / 100) in
  let mp := (5 * doy + 2) / 153 in
  let d := doy - (153 * mp + 2) / 5 + 1 in
  let m := if mp <? 10 then mp + 3 else mp - 9 in
  mkCivil (yoe + era * 400 + (if m <=? 2 then 1 else 0)) m d.

Fixpoint pad (n : nat) (s : string) : string :=
  match n with
  | O => s
  | S n => if strlen s <? Z.of_nat (S n) then pad n ("0" +:+ s) else s
  end.

Definition date_string (t : Z) : string :=
  let c := civil_of_day (day_of t) in
  pad 4 (Itoa (year c)) +:+ "-" +:+ pad 2 (Itoa (month c)) +:+ "-" +:+ pad 2 (Itoa (mday c)).

Definition clock_string (t : Z) : string :=
  let s := (t mod Day) / Second in
  pad 2 (Itoa (s / 3600)) +:+ ":" +:+ pad 2 (Itoa (s / 60 mod 60)) +:+ ":" +:+ pad 2 (Itoa (s mod 60)).

(** The fraction of [time.RFC3339Nano]: nine digits without trailing zeros. *)
Definition fraction_string (t : Z) : string :=
  let ns := t mod Second in
  if ns =? 0 then "" else "." +:+ TrimRight1 (pad 9 (Itoa ns)) "0".

(** [t.Format(time.RFC3339)] and [t.Format(time.RFC3339Nano)] of a UTC time. *)
Definition RFC3339 (t : Z) : string := date_string t +:+ "T" +:+ clock_string t +:+ "Z".
Definition RFC3339Nano (t : Z) : string :=
  date_string t +:+ "T" +:+ clock_string t +:+ fraction_string t +:+ "Z".

Example rfc3339_epoch : RFC3339 0 = "1970-01-01T00:00:00Z"%string.
Proof. reflexivity. Qed.
Example rfc3339_nano :
  RFC3339Nano (1785672245 * Second + 120000000) = "2026-08-02T12:04:05.12Z"%string.
Proof. reflexivity. Qed.
Example rfc3339_leap : RFC3339 (951782400 * Second) = "2000-02-29T00:00:00Z"%string.
Proof. reflexivity. Qed.

Lemma Day_pos : 0 < Day.
Proof. reflexivity. Qed.

Lemma day_of_bounds t : midnight t <= t < midnight t + Day.
Proof.
  unfold midnight, day_of. pose proof (Z.div_mod t Day ltac:(discriminate)).
  pose proof (Z.mod_pos_bound t Day Day_pos). lia.
Qed.

Lemma day_of_midnight d : day_of (d * Day) = d.
Proof. unfold day_of. apply Z.div_mul. discriminate. Qed.

Lemma Weekday_range t : 0 <= Weekday t < 7.
Proof. unfold Weekday. apply Z.mod_pos_bound. lia. Qed.
