(* ===== verification/Entitlements.v ===== *)
(** * Plans, licenses and trials

    Models [entitlements.go] and [licenses.go] of [internal/platform/postgres]:
    what each plan grants, the license row of a user with its trial, and the
    membership write path that enforces the owned-Space limit. *)
From S2P Require Import Prelude Tx.

(** ** Plans *)

Definition Tier := string.
Definition TierBasic : Tier := "basic".
Definition TierPersonal : Tier := "personal".
Definition TierPro : Tier := "pro".
Definition TierMax : Tier := "max".

Definition BasicStorageBytes : Z := 2000000000.
Definition ProStorageBytes : Z := 50000000000.
Definition MaxStorageBytes : Z := 250000000000.
Definition BasicSpaceLimit : Z := 3.
Definition ProSpaceLimit : Z := 10.
Definition MaxSpaceLimit : Z := 10.
Definition BasicWeeklyAgentAllowance : Z := 150000.
Definition ProWeeklyAgentAllowance : Z := BasicWeeklyAgentAllowance * 6.
Definition MaxWeeklyAgentAllowance : Z := ProWeeklyAgentAllowance * 2.

Definition NormalizePlan (tier : Tier) : Tier :=
  if bool_decide (tier = TierPersonal ∨ tier = TierPro) then TierPro
  else if bool_decide (tier = TierMax) then TierMax
  else TierBasic.

Record PlanEntitlements := mkEntitlements {
  Plan : Tier;
  MaxOwnedSpaces : Z;
  PersonalStorageLimitBytes : Z;
  SpaceStorageLimitBytes : Z;
  PersonalWeeklyHostedAIAllowance : Z;
  SpaceWeeklyHostedAIAllowance : Z;
  StorageLimitBytes : Z;
  WeeklyHostedAIAllowance : Z;
  SpaceLimit : Z;
  UnlimitedSpaces : bool;
  UnlimitedCollaborators : bool;
  UnlimitedAgentDefinitions : bool }.

Definition EntitlementsForTier (tier : Tier) : PlanEntitlements :=
  let plan := NormalizePlan tier in
  let '(storage, weekly, owned) :=
    if bool_decide (plan = TierMax) then (MaxStorageBytes, MaxWeeklyAgentAllowance, MaxSpaceLimit)
    else if bool_decide (plan = TierPro) then (ProStorageBytes, ProWeeklyAgentAllowance, ProSpaceLimit)
    else (BasicStorageBytes, BasicWeeklyAgentAllowance, BasicSpaceLimit) in
  mkEntitlements plan owned storage storage weekly weekly storage weekly owned false true true.

(** ** Licenses *)

Definition LicenseStatusActive : string := "active".
Definition LicenseStatusTrialing : string := "trialing".

(** A row of [licenses]; the table is keyed by the user, whose id is unique in
    it. *)
Record License := mkLicense {
  lic_ID : string;
  lic_Tier : Tier;
  lic_Status : string;
  lic_ExpiresAt : option Z;
  lic_TrialStartedAt : option Z;
  lic_LegacyTier : option Tier }.

Definition licenses := gmap string License.

Definition set_state (tier : Tier) (status : string) (expiresAt : option Z) (l : License) : License :=
  mkLicense (lic_ID l) tier status expiresAt (lic_TrialStartedAt l) (lic_LegacyTier l).

(** [UPDATE licenses ... WHERE id=$1]. *)
Definition update_by_id (f : License → License) (id : string) (t : licenses) : licenses :=
  (λ l, if bool_decide (lic_ID l = id) then f l else l) <$> t.

(** [UPDATE licenses ... WHERE user_id=$1]. *)
Definition update_by_user (f : License → License) (user : string) (t : licenses) : licenses :=
  alter f user t.

Definition SetLicenseStateByID (t : licenses) (id : string) (tier : Tier) (status : string)
    (expiresAt : option Z) : licenses :=
  update_by_id (set_state tier status expiresAt) id t.

Definition SetLicenseStateByUserID (t : licenses) (user : string) (tier : Tier) (status : string)
    (expiresAt : option Z) : licenses :=
  update_by_user (set_state tier status expiresAt) user t.

Definition SetStripeTrialState (t : licenses) (id : string) (tier : Tier) (expiresAt : option Z)
    (now : Z) : licenses :=
  update_by_id (λ l,
    mkLicense (lic_ID l) (NormalizePlan tier) LicenseStatusTrialing expiresAt
      (Some (default now (lic_TrialStartedAt l))) (lic_LegacyTier l)) id t.

Definition SetLegacyTierByID (t : licenses) (id : string) (tier : option Tier) : licenses :=
  update_by_id (λ l,
    mkLicense (lic_ID l) (lic_Tier l) (lic_Status l) (lic_ExpiresAt l) (lic_TrialStartedAt l) tier) id t.

(** Reading a license ends a trial that has run out. *)
Definition GetLicenseByUserID (t : licenses) (user : string) (now : Z) : licenses * option License :=
  match t !! user with
  | None => (t, None)
  | Some lic =>
      match lic_ExpiresAt lic with
      | Some e =>
          if bool_decide (lic_Status lic = LicenseStatusTrialing) && (e <=? now) then
            let fallback := match lic_LegacyTier lic with Some l => NormalizePlan l | None => TierBasic end in
            (SetLicenseStateByID t (lic_ID lic) fallback LicenseStatusActive None,
             Some (set_state fallback LicenseStatusActive None lic))
          else (t, Some lic)
      | None => (t, Some lic)
      end
  end.

(** The condition of the [UPDATE] that starts a trial. *)
Definition trial_available (l : License) : bool :=
  bool_decide (lic_Tier l = TierBasic) && bool_decide (lic_Status l = LicenseStatusActive) &&
  bool_decide (lic_TrialStartedAt l = None).

Definition StartTrialByUserID (t : licenses) (user : string) (duration now : Z) : licenses * bool :=
  match t !! user with
  | Some l =>
      if trial_available l then
        (<[user := mkLicense (lic_ID l) TierPro LicenseStatusTrialing (Some (now + duration)) (Some now)
                     (lic_LegacyTier l)]> t, true)
      else (t, false)
  | None => (t, false)
  end.

(** The plan a user's allowances follow inside a transaction; [None] when the
    user has no license. *)
Definition entitlementsForUserTx (t : licenses) (user : string) (now : Z) : option PlanEntitlements :=
  l ← t !! user;
  let expired :=
    bool_decide (lic_Status l = LicenseStatusTrialing) &&
    match lic_ExpiresAt l with Some e => e <=? now | None => false end in
  Some (EntitlementsForTier (if expired then TierBasic else lic_Tier l)).

(** ** Space membership *)

Record Space := mkSpace { owner_user_id : string; lifecycle_state : string }.

Record Directory := mkDirectory {
  dir_spaces : gmap string Space;
  space_members : gmap (string * string) string;
  dir_licenses : licenses }.

Inductive MembershipError := ErrSpaceInvalid | ErrSpaceOwnershipLimit | ErrNoLicense | ErrDuplicateMember.

Definition owned_spaces (d : Directory) (user : string) : Z :=
  Z.of_nat (size (filter (λ kv : string * Space,
    owner_user_id kv.2 = user ∧ lifecycle_state kv.2 ≠ "deleted"%string) (dir_spaces d))).

Definition addSpaceMembershipTx (spaceID user role : string) (now : Z)
    : tx Directory MembershipError () :=
  guard_tx (bool_decide (role = "owner" ∨ role = "member")%string) ErrSpaceInvalid;;
  (if bool_decide (role = "owner"%string) then
     d ← get;
     e ← require (entitlementsForUserTx (dir_licenses d) user now) ErrNoLicense;
     guard_tx (negb (MaxOwnedSpaces e <? owned_spaces d user)) ErrSpaceOwnershipLimit
   else mret ());;
  d ← get;
  guard_tx (bool_decide (space_members d !! (spaceID, user) = None)) ErrDuplicateMember;;
  modify (λ d, mkDirectory (dir_spaces d) (<[(spaceID, user) := role]> (space_members d)) (dir_licenses d)).

(** ** One trial per user *)

(** The updates of the license table. *)
Inductive license_op :=
  | OpSetByID (id : string) (tier : Tier) (status : string) (expiresAt : option Z)
  | OpSetByUser (user : string) (tier : Tier) (status : string) (expiresAt : option Z)
  | OpStripeTrial (id : string) (tier : Tier) (expiresAt : option Z) (now : Z)
  | OpLegacy (id : string) (tier : option Tier)
  | OpRead (user : string) (now : Z)
  | OpStartTrial (user : string) (duration now : Z).

Definition license_step (op : license_op) (t : licenses) : licenses :=
  match op with
  | OpSetByID id tier status e => SetLicenseStateByID t id tier status e
  | OpSetByUser user tier status e => SetLicenseStateByUserID t user tier status e
  | OpStripeTrial id tier e now => SetStripeTrialState t id tier e now
  | OpLegacy id tier => SetLegacyTierByID t id tier
  | OpRead user now => (GetLicenseByUserID t user now).1
  | OpStartTrial user d now => (StartTrialByUserID t user d now).1
  end.

Definition license_run (ops : list license_op) (t : licenses) : licenses := fold_left (λ t op, license_step op t) ops t.

Definition trial_used (user : string) (t : licenses) : Prop :=
  ∃ l, t !! user = Some l ∧ is_Some (lic_TrialStartedAt l).

Lemma update_by_id_used f id user t :
  (∀ l, is_Some (lic_TrialStartedAt l) → is_Some (lic_TrialStartedAt (f l))) →
  trial_used user t → trial_used user (update_by_id f id t).
Proof.
  intros Hf (l & Hl & Hs). exists (if bool_decide (lic_ID l = id) then f l else l).
  split; [apply lookup_fmap_Some; by exists l|]. case_if; auto.
Qed.

Lemma license_step_used user op t : trial_used user t → trial_used user (license_step op t).
Proof.
  intros Hu. destruct op as [id tier st e|u tier st e|id tier e now|id tier|u now|u dur now]; simpl.
  - by apply update_by_id_used.
  - destruct Hu as (l & Hl & Hs). unfold SetLicenseStateByUserID, update_by_user.
    destruct (decide (u = user)) as [->|Hne].
    + exists (set_state tier st e l). split; [|done]. apply (lookup_alter_Some (M := gmap string)). eauto.
    + exists l. split; [|done]. apply (lookup_alter_Some (M := gmap string)). right. done.
  - apply update_by_id_used; [|done]. intros l _. simpl. eauto.
  - by apply update_by_id_used.
  - unfold GetLicenseByUserID. destruct (t !! u) as [l|]; [|done]. destruct (lic_ExpiresAt l); [|done].
    case_if; [|done]. by apply update_by_id_used.
  - unfold StartTrialByUserID. destruct (t !! u) as [l|] eqn:El; [|done]. case_if; [|done]. simpl.
    destruct Hu as (l' & Hl & Hs). destruct (decide (u = user)) as [->|Hne].
    + eexists. split; [apply (lookup_insert_Some (M := gmap string)); left; done|]. simpl. eauto.
    + exists l'. split; [|done]. apply (lookup_insert_Some (M := gmap string)). right. done.
Qed.

Lemma license_run_used user ops : ∀ t, trial_used user t → trial_used user (license_run ops t).
Proof. induction ops as [|op ops IH]; intros t Hu; [done|]. apply IH. by apply license_step_used. Qed.

(** A user gets one trial. After a trial has started, no sequence of license
    updates, reads, Stripe events or further starts makes another start succeed. *)
Theorem trial_once t user duration now t' ops duration' now' :
  StartTrialByUserID t user duration now = (t', true) →
  (StartTrialByUserID (license_run ops t') user duration' now').2 = false.
Proof.
  intros Hs. assert (Hu : trial_used user (license_run ops t')).
  { apply license_run_used. unfold StartTrialByUserID in Hs. destruct (t !! user) as [l|]; [|done].
    case_if; [|done]. injection Hs as <-.
    eexists. split; [apply (lookup_insert_Some (M := gmap string)); left; done|]. simpl. eauto. }
  destruct Hu as (l & Hl & [x Hx]). unfold StartTrialByUserID. rewrite Hl.
  unfold trial_available. rewrite Hx, (bool_decide_eq_false_2 (Some x = None)) by done.
  by rewrite andb_false_r.
Qed.

Lemma trial_once_witness :
  (StartTrialByUserID
     (license_run [OpRead "u" 100; OpSetByID "lic" TierBasic LicenseStatusActive None]
        {["u"%string := mkLicense "lic" TierPro LicenseStatusTrialing (Some 10) (Some 0) None]}) "u" 10 200).2 = false.
Proof.
  apply (trial_once {["u"%string := mkLicense "lic" TierBasic LicenseStatusActive None None None]} "u" 10 0).
  vm_compute. reflexivity.
Defined.
