(* ===== verification/Wallet.v ===== *)
(** * Hosted-AI wallets

    Models [credits_hosted_ai_limit_reached_error.go],
    [credits_reserve_hosted_ai_usage.go] and
    [credits_refund_hosted_ai_reservation.go] of [internal/platform/postgres]:
    weekly allowances of members and Spaces, reservations against them, and the
    usage ledger.  Tables are finite maps keyed by their primary or unique key;
    each SQL statement is one update of them, and its [CHECK] constraints are
    checked. *)
From S2P Require Import Prelude Tx GoStrings GoTime Entitlements.

(** A row of [hosted_ai_wallets] or of [space_hosted_ai_wallets]; the user or
    Space it belongs to is its key. *)
Record HostedAIWallet := mkWallet {
  WeeklyAllowanceMicrousd : Z;
  WeeklyRemainingMicrousd : Z;
  ReservedMicrousd : Z;
  ResetAt : Z }.

Inductive status := reserved | released | settled | refunded.
#[export] Instance status_eq_dec : EqDecision status.
Proof. solve_decision. Defined.

(** A row of [hosted_ai_reservations]; an empty [res_space] is [NULL]. *)
Record Reservation := mkReservation {
  res_user : string;
  res_space : string;
  res_key : string;
  res_meter : string;
  res_amount : Z;
  res_status : status;
  res_created : Z }.

(** A row of [hosted_ai_usage_ledger], keyed by its idempotency key. *)
Record LedgerRow := mkLedger {
  led_user : string;
  led_space : string;
  led_reservation : option string;
  led_source : string;
  led_meter : string;
  led_delta : Z;
  led_provider : string;
  led_model : string;
  led_rate_card : string;
  led_provider_cost : Z;
  led_charged : Z }.

Record DB := mkDB {
  users : gset string;
  spaces : gmap string Space;
  members : gset (string * string);
  license_table : licenses;
  wallets : gmap string HostedAIWallet;
  space_wallets : gmap string HostedAIWallet;
  reservations : gmap string Reservation;
  ledger : gmap string LedgerRow }.

Definition set_wallets w (d : DB) : DB :=
  mkDB (users d) (spaces d) (members d) (license_table d) w (space_wallets d) (reservations d) (ledger d).
Definition set_space_wallets w (d : DB) : DB :=
  mkDB (users d) (spaces d) (members d) (license_table d) (wallets d) w (reservations d) (ledger d).
Definition set_reservations r (d : DB) : DB :=
  mkDB (users d) (spaces d) (members d) (license_table d) (wallets d) (space_wallets d) r (ledger d).
Definition set_ledger l (d : DB) : DB :=
  mkDB (users d) (spaces d) (members d) (license_table d) (wallets d) (space_wallets d) (reservations d) l.

(** The errors the code tells apart; [ErrSQL] is any error of the database. *)
Inductive WalletError :=
  | ErrInvalidReservation
  | ErrKeyReused
  | ErrSpaceForbidden
  | HostedAILimitReachedError (Available Required : Z) (Scope : string)
  | ErrNoRows
  | ErrSQL
  | ErrInvalidRefund
  | ErrNotSettled.

Definition M := tx DB WalletError.

(** ** Balances *)

Definition Available (w : HostedAIWallet) : Z :=
  let available := (WeeklyRemainingMicrousd w -64 ReservedMicrousd w)%go in
  if available <? 0 then 0 else available.

(** [nextWeeklyReset]: the next Monday at midnight, UTC. *)
Definition nextWeeklyReset (now : Z) : Z :=
  let days := Z.rem (8 - Weekday (midnight now)) 7 in
  let days := if days =? 0 then 7 else days in
  midnight now + days * Day.

(** What remains of a new allowance after the usage of the old one. *)
Definition adjusted (allowance priorAllowance priorRemaining : Z) : Z :=
  let used := (priorAllowance -64 priorRemaining)%go in
  let used := if used <? 0 then 0 else used in
  let remaining := (allowance -64 used)%go in
  if remaining <? 0 then 0 else remaining.

(** The allowance a wallet has at [now] under a plan. *)
Definition refreshed (allowance now : Z) (fresh : bool) (prior : HostedAIWallet) : Z * Z :=
  if negb fresh && (ResetAt prior <=? now) then (allowance, nextWeeklyReset now)
  else if negb (WeeklyAllowanceMicrousd prior =? allowance) then
    (adjusted allowance (WeeklyAllowanceMicrousd prior) (WeeklyRemainingMicrousd prior), ResetAt prior)
  else (WeeklyRemainingMicrousd prior, ResetAt prior).

(** ** Statements *)

(** The [CHECK] constraints and the 64-bit columns of the wallet tables. *)
Definition wallet_check (w : HostedAIWallet) : bool :=
  (0 <=? WeeklyAllowanceMicrousd w) && (0 <=? WeeklyRemainingMicrousd w) && (0 <=? ReservedMicrousd w) &&
  (WeeklyAllowanceMicrousd w <=? MaxInt64) && (WeeklyRemainingMicrousd w <=? MaxInt64) &&
  (ReservedMicrousd w <=? MaxInt64).

(** [UPDATE ... WHERE user_id=$1]: no row is no error. *)
Definition update_wallet (user : string) (f : HostedAIWallet → HostedAIWallet) : M () :=
  d ← get;
  match wallets d !! user with
  | None => mret ()
  | Some w =>
      guard_tx (wallet_check (f w)) ErrSQL;;
      modify (set_wallets (<[user := f w]> (wallets d)))
  end.

Definition update_space_wallet (space : string) (f : HostedAIWallet → HostedAIWallet) : M () :=
  d ← get;
  match space_wallets d !! space with
  | None => mret ()
  | Some w =>
      guard_tx (wallet_check (f w)) ErrSQL;;
      modify (set_space_wallets (<[space := f w]> (space_wallets d)))
  end.

Definition select_wallet (user : string) : M HostedAIWallet :=
  d ← get; require (wallets d !! user) ErrNoRows.
Definition select_space_wallet (space : string) : M HostedAIWallet :=
  d ← get; require (space_wallets d !! space) ErrNoRows.

(** [reserved_microusd = GREATEST(0, reserved_microusd - n)]. *)
Definition unreserve (n : Z) (w : HostedAIWallet) : HostedAIWallet :=
  mkWallet (WeeklyAllowanceMicrousd w) (WeeklyRemainingMicrousd w)
    (Z.max 0 (ReservedMicrousd w - n)) (ResetAt w).

Definition add_reserved (n : Z) (w : HostedAIWallet) : HostedAIWallet :=
  mkWallet (WeeklyAllowanceMicrousd w) (WeeklyRemainingMicrousd w) (ReservedMicrousd w + n) (ResetAt w).

Definition set_allowance (allowance remaining resetAt : Z) (w : HostedAIWallet) : HostedAIWallet :=
  mkWallet allowance remaining (ReservedMicrousd w) resetAt.

(** [INSERT INTO hosted_ai_usage_ledger ... ON CONFLICT(idempotency_key) DO NOTHING]. *)
Definition insert_ledger (key : string) (row : LedgerRow) : M () :=
  modify (λ d, match ledger d !! key with
               | Some _ => d
               | None => set_ledger (<[key := row]> (ledger d)) d
               end).

Definition insertHostedAILedgerEntry (user source : string) (delta : Z) (key : string) : M () :=
  insert_ledger key (mkLedger user "" None source "" delta "" "" "" 0 0).

(** ** Stale reservations *)

Definition stale_after : Z := 15 * Minute.

Definition is_open (r : Reservation) : bool := bool_decide (res_status r = reserved).

Definition set_status (s : status) (r : Reservation) : Reservation :=
  mkReservation (res_user r) (res_space r) (res_key r) (res_meter r) (res_amount r) s (res_created r).

Definition stale_personal (user : string) (dbnow : Z) (r : Reservation) : bool :=
  bool_decide (res_user r = user) && bool_decide (res_space r = ""%string) && is_open r &&
  (res_created r <? dbnow - stale_after).

Definition stale_space (space : string) (dbnow : Z) (r : Reservation) : bool :=
  bool_decide (res_space r = space) && is_open r && (res_created r <? dbnow - stale_after).

(** The released rows of a stale-reservation [UPDATE], as a sum. *)
Definition amount_if (p : Reservation → bool) (r : Reservation) : Z := if p r then res_amount r else 0.
Definition total (p : Reservation → bool) (m : gmap string Reservation) : Z := msum (amount_if p) m.

Definition release_all (p : Reservation → bool) (m : gmap string Reservation) : gmap string Reservation :=
  (λ r, if p r then set_status released r else r) <$> m.

Definition of_user (user : string) (p : Reservation → bool) (r : Reservation) : bool :=
  bool_decide (res_user r = user) && p r.

(** ** Wallets *)

(** Body of [GetOrCreateHostedAIWallet] for a plan's allowance. *)
Definition walletTx (user : string) (allowance now dbnow : Z) : M HostedAIWallet :=
  d ← get;
  let stale := stale_personal user dbnow in
  modify (set_reservations (release_all stale (reservations d)));;
  update_wallet user (unreserve (total stale (reservations d)));;
  let inserted := bool_decide (wallets d !! user = None) in
  when inserted
    (let row := mkWallet allowance allowance 0 (nextWeeklyReset now) in
     guard_tx (bool_decide (user ∈ users d) && wallet_check row) ErrSQL;;
     d ← get; modify (set_wallets (<[user := row]> (wallets d))));;
  prior ← select_wallet user;
  let '(remaining, resetAt) := refreshed allowance now inserted prior in
  update_wallet user (set_allowance allowance remaining resetAt);;
  wallet ← select_wallet user;
  (if inserted || (ResetAt prior <=? now) && negb inserted then
     insertHostedAILedgerEntry user "weekly_grant" allowance
       ("weekly_grant:" +:+ user +:+ ":" +:+ RFC3339 (ResetAt wallet))
   else if negb (remaining =? WeeklyRemainingMicrousd prior) then
     insertHostedAILedgerEntry user "plan_adjustment" (remaining -64 WeeklyRemainingMicrousd prior)%go
       ("plan_adjustment:" +:+ user +:+ ":" +:+ RFC3339Nano now)
   else mret ());;
  mret wallet.

Definition GetOrCreateHostedAIWallet (user : string) (tier : Tier) (now dbnow : Z) (d : DB)
    : DB * (WalletError + HostedAIWallet) :=
  run (walletTx user (WeeklyHostedAIAllowance (EntitlementsForTier tier)) now dbnow) d.

(** Releases the stale reservations of one user's share of [stale]. *)
Definition personal_release (stale : Reservation → bool) (m : gmap string Reservation)
    (user : string) (w : HostedAIWallet) : HostedAIWallet :=
  let t := total (of_user user stale) m in if 0 <? t then unreserve t w else w.

Definition refreshSpaceHostedAIWalletTx (spaceID : string) (now dbnow : Z) : M HostedAIWallet :=
  d ← get;
  space ← require (s ← spaces d !! spaceID;
                   if bool_decide (lifecycle_state s = "active"%string) then Some s else None) ErrNoRows;
  entitlements ← require (entitlementsForUserTx (license_table d) (owner_user_id space) now) ErrNoRows;
  let allowance := SpaceWeeklyHostedAIAllowance entitlements in
  let inserted := bool_decide (space_wallets d !! spaceID = None) in
  when inserted
    (modify (set_space_wallets (<[spaceID := mkWallet allowance allowance 0 (nextWeeklyReset now)]>
                                  (space_wallets d))));;
  prior ← select_space_wallet spaceID;
  let stale := stale_space spaceID dbnow in
  let released := total stale (reservations d) in
  modify (set_reservations (release_all stale (reservations d)));;
  modify (set_wallets (map_imap (λ u w, Some (personal_release stale (reservations d) u w)) (wallets d)));;
  guard_tx (bool_decide (in64 released)) ErrSQL;;
  priorReserved ←
    (if 0 <? released then
       update_space_wallet spaceID (unreserve released);;
       mret (Z.max 0 (ReservedMicrousd prior -64 released)%go)
     else mret (ReservedMicrousd prior));
  let '(remaining, resetAt) := refreshed allowance now inserted prior in
  update_space_wallet spaceID (set_allowance allowance remaining resetAt);;
  mret (mkWallet allowance remaining priorReserved resetAt).

Definition GetOrCreateSpaceHostedAIWallet (spaceID : string) (now dbnow : Z) (d : DB)
    : DB * (WalletError + HostedAIWallet) :=
  run (refreshSpaceHostedAIWalletTx spaceID now dbnow) d.

(** ** Reservations *)

Record HostedAIReservation := mkHandle {
  hr_ID : string; hr_user : string; hr_space : string; hr_amount : Z; hr_status : status }.

Definition hostedAIReserveAmount (personal space : HostedAIWallet) (requested : Z)
    (allowPartial hasSpace : bool) : WalletError + Z :=
  let '(available, scope) :=
    if hasSpace && (Available space <? Available personal)
    then (Available space, "space"%string) else (Available personal, "personal"%string) in
  if requested <=? available then inr requested
  else if allowPartial && (0 <? available) then inr available
  else inl (HostedAILimitReachedError available requested scope).

Definition lift {A} (r : WalletError + A) : M A := match r with inl e => fail e | inr x => mret x end.

Definition reserveHostedAIWalletsTx (user spaceID : string) (amount : Z) : M () :=
  update_wallet user (add_reserved amount);;
  when (negb (bool_decide (spaceID = ""%string))) (update_space_wallet spaceID (add_reserved amount)).

(** [SELECT ... WHERE idempotency_key=$1]; the column is unique. *)
Definition by_key (key : string) (m : gmap string Reservation) : option (string * Reservation) :=
  head (filter (λ kv : string * Reservation, res_key kv.2 = key) (map_to_list m)).

Definition put_reservation (id : string) (r : Reservation) : M () :=
  guard_tx ((0 <? res_amount r) && (res_amount r <=? MaxInt64)) ErrSQL;;
  modify (λ d, set_reservations (<[id := r]> (reservations d)) d).

Definition zero_wallet : HostedAIWallet := mkWallet 0 0 0 time_zero.

(** The transaction of [reserveHostedAIUsage]; [newID] is the fresh UUID. *)
Definition reserveTx (newID user spaceID meter key : string) (amount now dbnow : Z) (allowPartial : bool)
    : M (HostedAIReservation * HostedAIWallet) :=
  let hasSpace := negb (bool_decide (spaceID = ""%string)) in
  spaceWallet ←
    (if hasSpace then
       w ← refreshSpaceHostedAIWalletTx spaceID now dbnow;
       d ← get;
       guard_tx (bool_decide ((spaceID, user) ∈ members d)) ErrSpaceForbidden;;
       mret w
     else mret zero_wallet);
  wallet ← select_wallet user;
  d ← get;
  match by_key key (reservations d) with
  | Some (id, existing) =>
      let amountMatches := (res_amount existing =? amount) || allowPartial && (res_amount existing <? amount) in
      guard_tx (bool_decide (res_user existing = user) && bool_decide (res_space existing = spaceID) &&
                bool_decide (res_meter existing = meter) && amountMatches) ErrKeyReused;;
      if negb (bool_decide (res_status existing = released)) then
        mret (mkHandle id user spaceID (res_amount existing) (res_status existing), wallet)
      else
        reserveAmount ← lift (hostedAIReserveAmount wallet spaceWallet amount allowPartial hasSpace);
        put_reservation id (mkReservation user spaceID key meter reserveAmount reserved dbnow);;
        reserveHostedAIWalletsTx user spaceID reserveAmount;;
        mret (mkHandle id user spaceID reserveAmount reserved, add_reserved reserveAmount wallet)
  | None =>
      reserveAmount ← lift (hostedAIReserveAmount wallet spaceWallet amount allowPartial hasSpace);
      guard_tx (bool_decide (reservations d !! newID = None)) ErrSQL;;
      put_reservation newID (mkReservation user spaceID key meter reserveAmount reserved dbnow);;
      reserveHostedAIWalletsTx user spaceID reserveAmount;;
      mret (mkHandle newID user spaceID reserveAmount reserved, add_reserved reserveAmount wallet)
  end.

Definition reserveHostedAIUsage (newID user spaceID : string) (tier : Tier) (meter key : string)
    (amount now dbnow : Z) (allowPartial : bool) (d : DB)
    : DB * (WalletError + (HostedAIReservation * HostedAIWallet)) :=
  if (amount <=? 0) || bool_decide (TrimSpace key = ""%string) then (d, inl ErrInvalidReservation)
  else
    match GetOrCreateHostedAIWallet user tier now dbnow d with
    | (d, inl e) => (d, inl e)
    | (d, inr _) => run (reserveTx newID user (TrimSpace spaceID) meter key amount now dbnow allowPartial) d
    end.

Definition releaseTx (id : string) : M () :=
  d ← get;
  match reservations d !! id with
  | Some r =>
      if is_open r then
        modify (set_reservations (<[id := set_status released r]> (reservations d)));;
        update_wallet (res_user r) (unreserve (res_amount r));;
        when (negb (bool_decide (res_space r = ""%string)))
          (update_space_wallet (res_space r) (unreserve (res_amount r)))
      else mret ()
  | None => mret ()
  end.

Definition ReleaseHostedAIReservation (id : string) (d : DB) : DB * (WalletError + ()) :=
  run (releaseTx id) d.

(** ** Settlement *)

Record HostedAIUsage := mkUsage {
  Provider : string; Model : string; InputTokens : Z; CachedInputTokens : Z; OutputTokens : Z;
  ReasoningTokens : Z; ProviderCost : Z; ChargeMicrousd : Z; Credits : Z }.

Definition requestedCharge (usage : HostedAIUsage) : Z :=
  let charge := ChargeMicrousd usage in
  let charge := if charge <=? 0 then Credits usage else charge in
  if charge <? 1 then 1 else charge.

(** The most a wallet can pay without touching what others have reserved. *)
Definition headroom (w : HostedAIWallet) (amount : Z) : Z :=
  (WeeklyRemainingMicrousd w -64 (ReservedMicrousd w -64 amount))%go.

Definition maximumCharge (wallet : HostedAIWallet) (space : option HostedAIWallet) (amount : Z) : Z :=
  let m := headroom wallet amount in
  let m := if m <? 0 then 0 else m in
  match space with
  | Some sw => if headroom sw amount <? m then Z.max 0 (headroom sw amount) else m
  | None => m
  end.

(** [remaining = remaining - charge, reserved = GREATEST(0, reserved - amount)]. *)
Definition pay (charge amount : Z) (w : HostedAIWallet) : HostedAIWallet :=
  mkWallet (WeeklyAllowanceMicrousd w) (WeeklyRemainingMicrousd w - charge)
    (Z.max 0 (ReservedMicrousd w - amount)) (ResetAt w).

Definition HostedAIRateCardVersion : string := "2026-07-22-weekly-microusd-v1".

Definition rateCardVersion (env : string) : string :=
  if bool_decide (TrimSpace env = ""%string) then HostedAIRateCardVersion else TrimSpace env.

(** [env] is the value of [MISTY_HOSTED_AI_RATE_CARD_VERSION]. *)
Definition settleTx (env id key : string) (usage : HostedAIUsage) : M HostedAIWallet :=
  d ← get;
  r ← require (reservations d !! id) ErrNoRows;
  wallet ← select_wallet (res_user r);
  let hasSpace := negb (bool_decide (res_space r = ""%string)) in
  space ← (if hasSpace then w ← select_space_wallet (res_space r); mret (Some w) else mret None);
  if negb (is_open r) then mret wallet
  else
    let amount := res_amount r in
    let charge := Z.min (requestedCharge usage) (maximumCharge wallet space amount) in
    update_wallet (res_user r) (pay charge amount);;
    when hasSpace (update_space_wallet (res_space r) (pay charge amount));;
    modify (λ d, set_reservations (<[id := set_status settled r]> (reservations d)) d);;
    insert_ledger key
      (mkLedger (res_user r) (res_space r) (Some id) "consumption" (res_meter r) (- charge)
        (Provider usage) (Model usage) (rateCardVersion env) (ProviderCost usage) charge);;
    mret (mkWallet (WeeklyAllowanceMicrousd wallet) (WeeklyRemainingMicrousd wallet -64 charge)%go
            (ReservedMicrousd wallet -64 amount)%go (ResetAt wallet)).

Definition SettleHostedAIReservation (env id key : string) (usage : HostedAIUsage) (d : DB)
    : DB * (WalletError + HostedAIWallet) :=
  run (settleTx env id key usage) d.

(** ** Refunds *)

(** The consumption rows of a reservation. *)
Definition consumption (id : string) (m : gmap string LedgerRow) : option LedgerRow :=
  snd <$> head (filter (λ kv : string * LedgerRow,
    led_reservation kv.2 = Some id ∧ led_source kv.2 = "consumption"%string) (map_to_list m)).

Definition refundable (charged : Z) (w : HostedAIWallet) : Z :=
  let refunded := Z.min charged (WeeklyAllowanceMicrousd w -64 WeeklyRemainingMicrousd w)%go in
  if refunded <? 0 then 0 else refunded.

Definition credit (n : Z) (w : HostedAIWallet) : HostedAIWallet :=
  mkWallet (WeeklyAllowanceMicrousd w) (Z.min (WeeklyAllowanceMicrousd w) (WeeklyRemainingMicrousd w + n))
    (ReservedMicrousd w) (ResetAt w).

Definition refundSource (reason : string) : string :=
  "internal_failure_refund" +:+
  (if bool_decide (TrimSpace reason = ""%string) then "" else ":" +:+ TrimSpace reason).

Definition refundTx (id key reason : string) : M HostedAIWallet :=
  d ← get;
  r ← require (reservations d !! id) ErrNotSettled;
  row ← require (consumption id (ledger d)) ErrNotSettled;
  wallet ← require (wallets d !! res_user r) ErrNotSettled;
  let hasSpace := negb (bool_decide (res_space r = ""%string)) in
  space ← (if hasSpace then w ← require (space_wallets d !! res_space r) ErrNotSettled; mret (Some w)
           else mret None);
  if negb (bool_decide (ledger d !! key = None)) then mret wallet
  else
    let n := refundable (led_charged row) wallet in
    update_wallet (res_user r) (credit n);;
    match space with
    | Some sw => update_space_wallet (res_space r) (credit (refundable (led_charged row) sw))
    | None => mret ()
    end;;
    insert_ledger key
      (mkLedger (res_user r) (res_space r) (Some id) (refundSource reason) (led_meter row) n
        (led_provider row) (led_model row) HostedAIRateCardVersion 0 0);;
    modify (λ d, set_reservations (<[id := set_status refunded r]> (reservations d)) d);;
    mret (mkWallet (WeeklyAllowanceMicrousd wallet) (WeeklyRemainingMicrousd wallet +64 n)%go
            (ReservedMicrousd wallet) (ResetAt wallet)).

Definition RefundHostedAIReservation (id key reason : string) (d : DB)
    : DB * (WalletError + HostedAIWallet) :=
  if bool_decide (TrimSpace id = ""%string) || bool_decide (TrimSpace key = ""%string)
  then (d, inl ErrInvalidRefund)
  else run (refundTx id key reason) d.
