(* ===== verification/WalletInv.v ===== *)
(** * Correctness of hosted-AI wallets

    The invariant of the wallet tables, that every operation of [Wallet]
    preserves it, and the properties of reservations, settlements and refunds. *)
From S2P Require Import Prelude Tx GoStrings GoTime Entitlements Wallet.

(** ** The invariant *)

Definition of_space (space : string) (p : Reservation → bool) (r : Reservation) : bool :=
  bool_decide (res_space r = space) && p r.

Definition wallet_ok (w : HostedAIWallet) : Prop :=
  0 <= WeeklyRemainingMicrousd w <= WeeklyAllowanceMicrousd w ∧
  WeeklyAllowanceMicrousd w <= MaxInt64 ∧ 0 <= ReservedMicrousd w <= MaxInt64.

(** Every wallet is well formed and holds exactly the amounts of its open
    reservations; every reservation has its wallets, and keys are unique. *)
Record inv (d : DB) : Prop := {
  inv_wallet : ∀ u w, wallets d !! u = Some w →
    wallet_ok w ∧ ReservedMicrousd w = total (of_user u is_open) (reservations d);
  inv_space : ∀ s w, space_wallets d !! s = Some w →
    s ≠ ""%string ∧ wallet_ok w ∧ ReservedMicrousd w = total (of_space s is_open) (reservations d);
  inv_res : ∀ id r, reservations d !! id = Some r →
    0 < res_amount r ∧ is_Some (wallets d !! res_user r) ∧
    (res_space r ≠ ""%string → is_Some (space_wallets d !! res_space r));
  inv_key : ∀ i j r r', reservations d !! i = Some r → reservations d !! j = Some r' →
    res_key r = res_key r' → i = j;
  inv_spaces : spaces d !! ""%string = None }.

(** ** Statements *)

Lemma wallet_check_ok w : wallet_check w = true ↔
  (0 <= WeeklyAllowanceMicrousd w <= MaxInt64 ∧ 0 <= WeeklyRemainingMicrousd w <= MaxInt64 ∧
   0 <= ReservedMicrousd w <= MaxInt64).
Proof. unfold wallet_check. rewrite !andb_true_iff, !Z.leb_le. lia. Qed.

Lemma update_wallet_inr u f d x d' :
  update_wallet u f d = inr (x, d') →
  (wallets d !! u = None ∧ d' = d) ∨
  ∃ w, wallets d !! u = Some w ∧ wallet_check (f w) = true ∧
       d' = set_wallets (<[u := f w]> (wallets d)) d.
Proof.
  unfold update_wallet. intros H. tx_inv H. destruct (wallets d !! u) as [w|] eqn:E; tx_inv H.
  - right. eauto.
  - left. done.
Qed.

Lemma update_space_wallet_inr s f d x d' :
  update_space_wallet s f d = inr (x, d') →
  (space_wallets d !! s = None ∧ d' = d) ∨
  ∃ w, space_wallets d !! s = Some w ∧ wallet_check (f w) = true ∧
       d' = set_space_wallets (<[s := f w]> (space_wallets d)) d.
Proof.
  unfold update_space_wallet. intros H. tx_inv H. destruct (space_wallets d !! s) as [w|] eqn:E; tx_inv H.
  - right. eauto.
  - left. done.
Qed.

Lemma select_wallet_inr u d w d' :
  select_wallet u d = inr (w, d') → wallets d !! u = Some w ∧ d' = d.
Proof. unfold select_wallet. intros H. by tx_inv H. Qed.
Lemma select_space_wallet_inr s d w d' :
  select_space_wallet s d = inr (w, d') → space_wallets d !! s = Some w ∧ d' = d.
Proof. unfold select_space_wallet. intros H. by tx_inv H. Qed.

Lemma insert_ledger_inr key row d x d' :
  insert_ledger key row d = inr (x, d') →
  d' = set_ledger (if decide (ledger d !! key = None) then <[key := row]> (ledger d) else ledger d) d.
Proof.
  unfold insert_ledger. intros H. tx_inv H. case_decide as E; destruct (ledger d !! key) eqn:E'; try done.
  by destruct d.
Qed.

(** ** Open amounts *)

Definition open_amount (r : Reservation) : Z := amount_if is_open r.

Lemma total_insert p m id r r' :
  m !! id = Some r → total p (<[id := r']> m) = total p m - amount_if p r + amount_if p r'.
Proof. apply msum_insert. Qed.
Lemma total_insert_new p m id r' :
  m !! id = None → total p (<[id := r']> m) = total p m + amount_if p r'.
Proof. intros H. unfold total. rewrite msum_insert_new by done. lia. Qed.

Lemma amount_of_user u r :
  amount_if (of_user u is_open) r = if decide (res_user r = u) then open_amount r else 0.
Proof.
  unfold open_amount, amount_if, of_user. case_decide as E.
  - by rewrite bool_decide_true.
  - by rewrite bool_decide_false.
Qed.
Lemma amount_of_space s r :
  amount_if (of_space s is_open) r = if decide (res_space r = s) then open_amount r else 0.
Proof.
  unfold open_amount, amount_if, of_space. case_decide as E.
  - by rewrite bool_decide_true.
  - by rewrite bool_decide_false.
Qed.

Lemma total_nonneg p m : (∀ id r, m !! id = Some r → 0 < res_amount r) → 0 <= total p m.
Proof.
  intros Hpos. apply msum_nonneg. intros k r Hr. unfold amount_if.
  destruct (p r); [|lia]. specialize (Hpos k r Hr). lia.
Qed.

Lemma total_lookup_le p m id r :
  (∀ id r, m !! id = Some r → 0 < res_amount r) → m !! id = Some r → amount_if p r <= total p m.
Proof.
  intros Hpos Hr. unfold total. apply (msum_lookup_le _ _ _ _ Hr).
  intros j y Hj. unfold amount_if. destruct (p y); [|lia]. specialize (Hpos j y Hj). lia.
Qed.

(** Releasing rows: what the sums lose. *)
Lemma total_release q p m :
  (∀ r, p r = true → is_open r = true) → (∀ r s, q (set_status s r) = q r) →
  total (λ r, q r && is_open r) (release_all p m) =
  total (λ r, q r && is_open r) m - total (λ r, q r && p r) m.
Proof.
  intros Hp Hq. unfold total, release_all. rewrite msum_fmap.
  assert (∀ a b c : Z, a + c = b → a = b - c) as Hmove by (intros; lia).
  apply Hmove. rewrite <- msum_plus. apply msum_ext. intros k r _.
  unfold amount_if. destruct (p r) eqn:E.
  - rewrite (Hp r E), Hq. simpl. rewrite andb_false_r, andb_true_r. destruct (q r); lia.
  - rewrite andb_false_r. destruct (q r && is_open r); lia.
Qed.

(** The two wallets of one reservation after it changes from [old] to [r]. *)
Definition old_amount (m : gmap string Reservation) (id : string) : Z :=
  match m !! id with Some r => open_amount r | None => 0 end.

Definition wallets_after (u : string) (w' : HostedAIWallet) (m : gmap string HostedAIWallet) :=
  <[u := w']> m.

Definition change (id : string) (r : Reservation) (w' : HostedAIWallet) (sw' : option HostedAIWallet)
    (l : gmap string LedgerRow) (d : DB) : DB :=
  mkDB (users d) (spaces d) (members d) (license_table d)
    (<[res_user r := w']> (wallets d))
    (match sw' with Some sw => <[res_space r := sw]> (space_wallets d) | None => space_wallets d end)
    (<[id := r]> (reservations d)) l.

Lemma total_change p m id r :
  total p (<[id := r]> m) =
  total p m - match m !! id with Some o => amount_if p o | None => 0 end + amount_if p r.
Proof.
  destruct (m !! id) as [o|] eqn:E; [by apply total_insert|]. rewrite total_insert_new by done. lia.
Qed.

(** The change of one reservation preserves the invariant when its wallets take
    the difference. *)
Lemma change_inv d id r w w' sw' l :
  inv d → wallets d !! res_user r = Some w → 0 < res_amount r →
  (∀ o, reservations d !! id = Some o →
     res_user o = res_user r ∧ res_space o = res_space r ∧ res_key o = res_key r) →
  (reservations d !! id = None → ∀ j o, reservations d !! j = Some o → res_key o ≠ res_key r) →
  wallet_ok w' →
  ReservedMicrousd w' = ReservedMicrousd w - old_amount (reservations d) id + open_amount r →
  match sw' with
  | None => res_space r = ""%string
  | Some sw' => ∃ sw, res_space r ≠ ""%string ∧ space_wallets d !! res_space r = Some sw ∧ wallet_ok sw' ∧
      ReservedMicrousd sw' = ReservedMicrousd sw - old_amount (reservations d) id + open_amount r
  end →
  inv (change id r w' sw' l d).
Proof.
  intros [Hw Hs Hr Hk Hsp] Hwu Hamt Hold Hnew Hok Hres Hspace.
  assert (Hdom : res_space r ≠ ""%string → is_Some (space_wallets d !! res_space r)).
  { destruct sw'; [|done]. destruct Hspace as (sw & _ & -> & _). eauto. }
  split; simpl.
  - intros u v Hv. rewrite total_change, !amount_of_user.
    assert (match reservations d !! id with Some o => amount_if (of_user u is_open) o | None => 0 end =
            if decide (res_user r = u) then old_amount (reservations d) id else 0) as ->.
    { unfold old_amount. destruct (reservations d !! id) as [o|] eqn:E; [|by case_decide].
      destruct (Hold o eq_refl) as (Ho & _). rewrite amount_of_user, Ho. done. }
    destruct (decide (res_user r = u)) as [<-|Hne].
    + rewrite lookup_insert_eq in Hv. injection Hv as <-. split; [done|].
      destruct (Hw _ _ Hwu) as [_ Hwr]. lia.
    + rewrite lookup_insert_ne in Hv by done. destruct (Hw _ _ Hv) as [? ?]. split; [done|lia].
  - intros s v Hv. rewrite total_change, !amount_of_space.
    assert (match reservations d !! id with Some o => amount_if (of_space s is_open) o | None => 0 end =
            if decide (res_space r = s) then old_amount (reservations d) id else 0) as ->.
    { unfold old_amount. destruct (reservations d !! id) as [o|] eqn:E; [|by case_decide].
      destruct (Hold o eq_refl) as (_ & Ho & _). rewrite amount_of_space, Ho. done. }
    destruct sw' as [sw'|].
    + destruct Hspace as (sw & Hne0 & Hsw & Hok' & Hres').
      destruct (decide (res_space r = s)) as [<-|Hne].
      * rewrite lookup_insert_eq in Hv. injection Hv as <-.
        destruct (Hs _ _ Hsw) as (_ & _ & Hsr). split_and!; [done..|lia].
      * rewrite lookup_insert_ne in Hv by done. destruct (Hs _ _ Hv) as (? & ? & ?). split_and!; [done..|lia].
    + destruct (Hs _ _ Hv) as (Hne & ? & ?). rewrite Hspace, !decide_False by congruence.
      split_and!; [done..|lia].
  - intros j o Ho. assert (0 < res_amount o ∧ is_Some (wallets d !! res_user o) ∧
      (res_space o ≠ ""%string → is_Some (space_wallets d !! res_space o))) as (H1 & H2 & H3).
    { destruct (decide (id = j)) as [<-|Hne].
      - rewrite lookup_insert_eq in Ho. injection Ho as <-. eauto.
      - rewrite lookup_insert_ne in Ho by done. eauto. }
    split_and!; [done|..].
    + apply lookup_insert_is_Some'. by right.
    + intros Hne. destruct sw'; [|auto]. apply lookup_insert_is_Some'. right. auto.
  - intros i j a b Ha Hb Hkey.
    assert (Hcase : ∀ j b, id ≠ j → reservations d !! j = Some b → res_key b = res_key r → id = j).
    { intros j' b' Hj Hb' Hk'. destruct (reservations d !! id) as [o|] eqn:E.
      - destruct (Hold o eq_refl) as (_ & _ & Ho). apply (Hk id j' o b'); congruence.
      - exfalso. by apply (Hnew eq_refl j' b'). }
    apply lookup_insert_Some in Ha as [[<- <-]|[Hi Ha]], Hb as [[<- <-]|[Hj Hb]]; eauto.
    symmetry. eauto.
  - done.
Qed.

(** ** Both wallets of a request *)

(** The Space wallet after an update of both, [None] for a personal request. *)
Definition space_after (s : string) (g : HostedAIWallet → HostedAIWallet) (d : DB)
    (sw' : option HostedAIWallet) : Prop :=
  match sw' with
  | None => s = ""%string
  | Some sw' => s ≠ ""%string ∧ ∃ sw, space_wallets d !! s = Some sw ∧ sw' = g sw ∧ wallet_check sw' = true
  end.

Definition put_both (u s : string) (w' : HostedAIWallet) (sw' : option HostedAIWallet) (d : DB) : DB :=
  set_space_wallets (match sw' with Some sw' => <[s := sw']> (space_wallets d) | None => space_wallets d end)
    (set_wallets (<[u := w']> (wallets d)) d).

Lemma update_both u s f g d x d1 y d2 w :
  wallets d !! u = Some w → (s ≠ ""%string → is_Some (space_wallets d !! s)) →
  update_wallet u f d = inr (x, d1) →
  when (negb (bool_decide (s = ""%string))) (update_space_wallet s g) d1 = inr (y, d2) →
  wallet_check (f w) = true ∧
  ∃ sw', space_after s g d sw' ∧ d2 = put_both u s (f w) sw' d.
Proof.
  intros Hw Hs H1 H2. apply update_wallet_inr in H1 as [[? _]|(w1 & Hw1 & Hc & ->)]; [congruence|].
  assert (w1 = w) as -> by congruence. split; [done|].
  destruct (decide (s = ""%string)) as [->|Hne].
  - exists None. split; [done|]. simpl in H2. tx_inv H2. done.
  - rewrite bool_decide_false in H2 by done. simpl in H2.
    apply update_space_wallet_inr in H2 as [[Hn _]|(sw & Hsw & Hc2 & ->)].
    + destruct (Hs Hne) as [? Hs']. simpl in Hn. congruence.
    + exists (Some (g sw)). simpl in *. split; [split; [done|]; eauto|]. done.
Qed.

(** Finds the two updates of [update_both] among the hypotheses. *)
Tactic Notation "both_inv" constr(Hw) constr(Hs) "as" simple_intropattern(pat) :=
  lazymatch goal with
  | H1 : update_wallet _ _ ?d = inr (_, ?d1), H2 : when _ _ ?d1 = inr _ |- _ =>
      destruct (update_both _ _ _ _ d _ d1 _ _ _ Hw Hs H1 H2) as pat; clear H1 H2
  end.

Lemma inv_wallets_of d id r :
  inv d → reservations d !! id = Some r →
  ∃ w, wallets d !! res_user r = Some w ∧ wallet_ok w ∧ open_amount r <= ReservedMicrousd w ∧
  (res_space r ≠ ""%string → ∃ sw, space_wallets d !! res_space r = Some sw ∧ wallet_ok sw ∧
     open_amount r <= ReservedMicrousd sw).
Proof.
  intros [Hw Hs Hr _ _] E. destruct (Hr _ _ E) as (_ & [w Hwu] & Hsp).
  assert (Hpos : ∀ id r, reservations d !! id = Some r → 0 < res_amount r).
  { intros i o Ho. by destruct (Hr i o Ho). }
  destruct (Hw _ _ Hwu) as [Hok Hres]. exists w. split_and!; [done..| |].
  - rewrite Hres. pose proof (total_lookup_le (of_user (res_user r) is_open) _ id r Hpos E) as Hle.
    rewrite amount_of_user, decide_True in Hle by done. done.
  - intros Hne. destruct (Hsp Hne) as [sw Hsw]. destruct (Hs _ _ Hsw) as (_ & Hoks & Hress).
    exists sw. split_and!; [done..|]. rewrite Hress.
    pose proof (total_lookup_le (of_space (res_space r) is_open) _ id r Hpos E) as Hle.
    rewrite amount_of_space, decide_True in Hle by done. done.
Qed.

Lemma open_amount_open r : is_open r = true → open_amount r = res_amount r.
Proof. unfold open_amount, amount_if. by intros ->. Qed.
Lemma open_amount_closed r : is_open r = false → open_amount r = 0.
Proof. unfold open_amount, amount_if. by intros ->. Qed.
Lemma open_set_status s r : open_amount (set_status s r) = if decide (s = reserved) then res_amount r else 0.
Proof.
  unfold open_amount, amount_if, is_open. simpl. case_decide.
  - by rewrite bool_decide_true.
  - by rewrite bool_decide_false.
Qed.

(** ** Release *)

Lemma releaseTx_case d id x d' :
  inv d → releaseTx id d = inr (x, d') →
  d' = d ∧ match reservations d !! id with Some r => is_open r = false | None => True end ∨
  ∃ r w sw', reservations d !! id = Some r ∧ is_open r = true ∧ wallets d !! res_user r = Some w ∧
    wallet_check (unreserve (res_amount r) w) = true ∧
    space_after (res_space r) (unreserve (res_amount r)) d sw' ∧
    d' = change id (set_status released r) (unreserve (res_amount r) w) sw' (ledger d) d.
Proof.
  intros Hinv H. unfold releaseTx in H. tx_inv H.
  destruct (reservations d !! id) as [r|] eqn:E; [|tx_inv H; by left].
  destruct (is_open r) eqn:Ho; [|tx_inv H; by left].
  tx_inv H. right. destruct (inv_wallets_of _ _ _ Hinv E) as (w & Hw & _ & _ & Hsp).
  assert (Hsp' : res_space r ≠ ""%string → is_Some (space_wallets d !! res_space r)).
  { intros Hne. destruct (Hsp Hne) as (sw & -> & _). eauto. }
  both_inv Hw Hsp' as (Hc & sw' & Hsw & ->). exists r, w, sw'. done.
Qed.

Lemma unreserve_ok n w : wallet_ok w → 0 <= n → n <= ReservedMicrousd w →
  wallet_ok (unreserve n w) ∧ ReservedMicrousd (unreserve n w) = ReservedMicrousd w - n.
Proof. unfold wallet_ok, unreserve. simpl. lia. Qed.

(** A status change of a reservation preserves the invariant when each of its
    wallets takes the difference of its open amount. *)
Lemma set_status_inv d id o st f g w sw' l :
  inv d → reservations d !! id = Some o → wallets d !! res_user o = Some w →
  wallet_check (f w) = true → space_after (res_space o) g d sw' →
  (∀ h v, h = f ∨ h = g → wallet_ok v → open_amount o <= ReservedMicrousd v → wallet_check (h v) = true →
     wallet_ok (h v) ∧
     ReservedMicrousd (h v) = ReservedMicrousd v - open_amount o + open_amount (set_status st o)) →
  inv (change id (set_status st o) (f w) sw' l d).
Proof.
  intros Hinv E Hw Hc Hsp Hfg. destruct (inv_wallets_of _ _ _ Hinv E) as (w0 & Hw0 & Hok & Hle & Hsp').
  assert (w0 = w) as -> by congruence. destruct (inv_res _ Hinv _ _ E) as (Hpos & _ & _).
  destruct (Hfg f w ltac:(auto) Hok Hle Hc) as [Hokf Hresf].
  assert (old_amount (reservations d) id = open_amount o) as Hold by (unfold old_amount; by rewrite E).
  apply (change_inv d id (set_status st o) w); rewrite ?Hold; simpl; try done.
  - intros o' Ho'. by simplify_eq.
  - by rewrite E.
  - destruct sw' as [sw'|]; [|done]. destruct Hsp as (Hne & sw & Hsw & -> & Hcs).
    destruct (Hsp' Hne) as (sw1 & Hsw1 & Hok1 & Hle1). assert (sw1 = sw) as -> by congruence.
    destruct (Hfg g sw ltac:(auto) Hok1 Hle1 Hcs) as [? ?]. by exists sw.
Qed.

Lemma releaseTx_inv d id x d' : inv d → releaseTx id d = inr (x, d') → inv d'.
Proof.
  intros Hinv H. destruct (releaseTx_case d id x d' Hinv H) as [[-> _]|(r & w & sw' & E & Ho & Hw & Hc & Hsp & ->)];
    [done|].
  destruct (inv_res _ Hinv _ _ E) as (Hpos & _).
  eapply set_status_inv; [done..|]. intros h v Hh Hv Hle Hcv.
  rewrite open_set_status, open_amount_open in * by done. rewrite decide_False by done.
  destruct Hh as [-> | ->]; destruct (unreserve_ok (res_amount r) v Hv); auto with lia.
Qed.

(** ** Settlement *)

Definition ledger_put (key : string) (row : LedgerRow) (m : gmap string LedgerRow) : gmap string LedgerRow :=
  if decide (m !! key = None) then <[key := row]> m else m.

Definition settle_row (env id : string) (r : Reservation) (usage : HostedAIUsage) (charge : Z) : LedgerRow :=
  mkLedger (res_user r) (res_space r) (Some id) "consumption" (res_meter r) (- charge)
    (Provider usage) (Model usage) (rateCardVersion env) (ProviderCost usage) charge.

(** The Space wallet that pays along with a reservation's personal wallet. *)
Definition space_wallet_of (d : DB) (r : Reservation) : option HostedAIWallet :=
  if decide (res_space r = ""%string) then None else space_wallets d !! res_space r.

Definition settle_charge (d : DB) (r : Reservation) (w : HostedAIWallet) (usage : HostedAIUsage) : Z :=
  Z.min (requestedCharge usage) (maximumCharge w (space_wallet_of d r) (res_amount r)).

Lemma settleTx_case d env id key usage v d' :
  inv d → settleTx env id key usage d = inr (v, d') →
  ∃ r w, reservations d !! id = Some r ∧ wallets d !! res_user r = Some w ∧
  ((is_open r = false ∧ d' = d ∧ v = w) ∨
   (is_open r = true ∧
    let charge := settle_charge d r w usage in
    v = mkWallet (WeeklyAllowanceMicrousd w) (WeeklyRemainingMicrousd w -64 charge)%go
          (ReservedMicrousd w -64 res_amount r)%go (ResetAt w) ∧
    wallet_check (pay charge (res_amount r) w) = true ∧
    ∃ sw', space_after (res_space r) (pay charge (res_amount r)) d sw' ∧
      d' = change id (set_status settled r) (pay charge (res_amount r) w) sw'
             (ledger_put key (settle_row env id r usage charge) (ledger d)) d)).
Proof.
  intros Hinv H. unfold settleTx in H. tx_inv H. rename a into r, H0 into E.
  apply select_wallet_inr in H1 as [Hw ->]. rename a0 into w. exists r, w. split_and!; [done..|].
  assert (a1 = space_wallet_of d r ∧ s0 = d) as [-> ->].
  { unfold space_wallet_of. destruct (decide (res_space r = ""%string)) as [Es|Es].
    - rewrite bool_decide_true in H2 by done. simpl in H2. by tx_inv H2.
    - rewrite bool_decide_false in H2 by done. simpl in H2. tx_inv H2.
      by apply select_space_wallet_inr in H0 as [-> ->]. }
  destruct (is_open r) eqn:Ho; simpl in H; [right|left; by tx_inv H].
  split; [done|]. tx_inv H.
  assert (Hsp' : res_space r ≠ ""%string → is_Some (space_wallets d !! res_space r)).
  { by destruct (inv_res _ Hinv _ _ E) as (_ & _ & ?). }
  match goal with Hl : insert_ledger _ _ _ = inr _ |- _ => apply insert_ledger_inr in Hl as -> end.
  both_inv Hw Hsp' as (Hc & sw' & Hsw & ->).
  split_and!; [done..|]. exists sw'. split; [done|]. unfold settle_row, change, ledger_put. done.
Qed.

Lemma headroom_exact w n : wallet_ok w → 0 <= n <= ReservedMicrousd w →
  headroom w n = WeeklyRemainingMicrousd w - (ReservedMicrousd w - n).
Proof.
  unfold wallet_ok, headroom. intros. rewrite (wrap64_id (_ - n)), wrap64_id;
    unfold in64, MinInt64, MaxInt64 in *; lia.
Qed.

Lemma Available_exact w : wallet_ok w →
  Available w = Z.max 0 (WeeklyRemainingMicrousd w - ReservedMicrousd w).
Proof.
  unfold wallet_ok, Available. intros. rewrite wrap64_id by word.
  destruct (Z.ltb_spec (WeeklyRemainingMicrousd w - ReservedMicrousd w) 0); lia.
Qed.

(** What a wallet can pay for a reservation of [n]. *)
Definition payable (w : HostedAIWallet) (n : Z) : Z :=
  Z.max 0 (WeeklyRemainingMicrousd w - (ReservedMicrousd w - n)).

Lemma maximumCharge_exact w sw n :
  wallet_ok w → 0 <= n <= ReservedMicrousd w →
  (∀ v, sw = Some v → wallet_ok v ∧ n <= ReservedMicrousd v) →
  maximumCharge w sw n =
  match sw with Some v => Z.min (payable w n) (payable v n) | None => payable w n end.
Proof.
  intros Hw Hn Hs. unfold maximumCharge, payable. rewrite headroom_exact by done.
  destruct sw as [v|].
  - destruct (Hs v eq_refl) as [Hv Hnv]. rewrite headroom_exact by (done || lia).
    repeat case_if; bool_to_prop; lia.
  - case_if; bool_to_prop; lia.
Qed.

Lemma requestedCharge_pos usage : 1 <= requestedCharge usage.
Proof. unfold requestedCharge. repeat case_if; bool_to_prop; lia. Qed.

(** What the model needs of a reservation that is about to be settled. *)
Lemma settle_amounts d id r w :
  inv d → reservations d !! id = Some r → is_open r = true → wallets d !! res_user r = Some w →
  wallet_ok w ∧ 0 < res_amount r <= ReservedMicrousd w ∧
  ∀ v, space_wallet_of d r = Some v → wallet_ok v ∧ res_amount r <= ReservedMicrousd v.
Proof.
  intros Hinv E Ho Hw. destruct (inv_wallets_of _ _ _ Hinv E) as (w0 & Hw0 & Hok & Hle & Hsp).
  assert (w0 = w) as -> by congruence. rewrite open_amount_open in Hle, Hsp by done.
  destruct (inv_res _ Hinv _ _ E) as (Hpos & _). split_and!; [done|lia..|].
  intros v. unfold space_wallet_of. case_decide as Hs; [done|]. intros Hv.
  destruct (Hsp Hs) as (v0 & Hv0 & ? & ?). assert (v0 = v) as -> by congruence. done.
Qed.

Lemma settle_charge_bounds d id r w usage :
  inv d → reservations d !! id = Some r → is_open r = true → wallets d !! res_user r = Some w →
  0 <= settle_charge d r w usage <= payable w (res_amount r) ∧
  ∀ v, space_wallet_of d r = Some v → settle_charge d r w usage <= payable v (res_amount r).
Proof.
  intros Hinv E Ho Hw. destruct (settle_amounts _ _ _ _ Hinv E Ho Hw) as (Hok & Hn & Hs).
  unfold settle_charge. rewrite maximumCharge_exact by (done || lia).
  pose proof (requestedCharge_pos usage). unfold payable.
  destruct (space_wallet_of d r) as [v|]; split; try intros ? [= <-]; intros; try done; lia.
Qed.

Lemma pay_ok c n v : wallet_ok v → 0 <= c → 0 <= n <= ReservedMicrousd v → wallet_check (pay c n v) = true →
  wallet_ok (pay c n v) ∧ ReservedMicrousd (pay c n v) = ReservedMicrousd v - n.
Proof. rewrite wallet_check_ok. unfold wallet_ok, pay. simpl. lia. Qed.

Lemma pay_check c n v : wallet_ok v → 0 <= n <= ReservedMicrousd v → 0 <= c <= payable v n →
  wallet_check (pay c n v) = true.
Proof. rewrite wallet_check_ok. unfold wallet_ok, pay, payable. simpl. unfold MaxInt64. lia. Qed.

Lemma settleTx_inv d env id key usage v d' :
  inv d → settleTx env id key usage d = inr (v, d') → inv d'.
Proof.
  intros Hinv H. destruct (settleTx_case _ _ _ _ _ _ _ Hinv H) as
    (r & w & E & Hw & [(_ & -> & _)|(Ho & _ & Hc & sw' & Hsp & ->)]); [done|].
  destruct (settle_charge_bounds _ _ _ _ usage Hinv E Ho Hw) as [Hcb _].
  destruct (inv_res _ Hinv _ _ E) as (Hpos & _).
  eapply set_status_inv; [done..|]. intros h u Hh Hu Hle Hcu.
  rewrite open_set_status, open_amount_open in * by done. rewrite decide_False by done.
  destruct Hh as [-> | ->]; destruct (pay_ok (settle_charge d r w usage) (res_amount r) u Hu); auto with lia.
Qed.

(** ** Refunds *)

Definition refund_row (id reason : string) (r : Reservation) (row : LedgerRow) (n : Z) : LedgerRow :=
  mkLedger (res_user r) (res_space r) (Some id) (refundSource reason) (led_meter row) n
    (led_provider row) (led_model row) HostedAIRateCardVersion 0 0.

(** The updated Space wallet of a refund. *)
Definition refund_space (d : DB) (r : Reservation) (charged : Z) : option HostedAIWallet :=
  (λ v, credit (refundable charged v) v) <$> space_wallet_of d r.

Lemma refundTx_case d id key reason v d' :
  inv d → refundTx id key reason d = inr (v, d') →
  ∃ r row w, reservations d !! id = Some r ∧ consumption id (ledger d) = Some row ∧
    wallets d !! res_user r = Some w ∧
  ((is_Some (ledger d !! key) ∧ d' = d ∧ v = w) ∨
   (ledger d !! key = None ∧
    let n := refundable (led_charged row) w in
    v = mkWallet (WeeklyAllowanceMicrousd w) (WeeklyRemainingMicrousd w +64 n)%go
          (ReservedMicrousd w) (ResetAt w) ∧
    wallet_check (credit n w) = true ∧
    (∀ sv, refund_space d r (led_charged row) = Some sv → wallet_check sv = true) ∧
    d' = change id (set_status refunded r) (credit n w) (refund_space d r (led_charged row))
           (<[key := refund_row id reason r row n]> (ledger d)) d)).
Proof.
  intros Hinv H. unfold refundTx in H. tx_inv H. rename a into r, H0 into E, a0 into row, H1 into Hrow, a1 into w, H2 into Hw.
  exists r, row, w. split_and!; [done..|].
  assert (a2 = space_wallet_of d r ∧ s = d) as [-> ->].
  { unfold space_wallet_of. destruct (decide (res_space r = ""%string)) as [Es|Es].
    - rewrite bool_decide_true in H3 by done. simpl in H3. by tx_inv H3.
    - rewrite bool_decide_false in H3 by done. simpl in H3. tx_inv H3. by rewrite H0. }
  destruct (decide (ledger d !! key = None)) as [Hk|Hk].
  - rewrite bool_decide_true in H by done. simpl in H. right. split; [done|]. tx_inv H.
    match goal with Hl : insert_ledger _ _ _ = inr _ |- _ => apply insert_ledger_inr in Hl as -> end.
    match goal with Hl : update_wallet _ _ _ = inr _ |- _ =>
      apply update_wallet_inr in Hl as [[Hn _]|(w1 & Hw1 & Hc & ->)]; [congruence|] end.
    assert (w1 = w) as -> by congruence.
    match goal with Hl : match space_wallet_of d r with _ => _ end _ = inr _ |- _ => rename Hl into Hs end.
    unfold refund_space. unfold space_wallet_of in Hs |- *.
    destruct (decide (res_space r = ""%string)) as [Es|Es]; [|destruct (space_wallets d !! res_space r) as [sv|] eqn:Es'].
    + tx_inv Hs. simpl. by rewrite decide_True.
    + apply update_space_wallet_inr in Hs as [[Hn _]|(w2 & Hw2 & Hc2 & ->)]; simpl in *; [congruence|].
      assert (w2 = sv) as -> by congruence. rewrite decide_True by done.
      split_and!; [done..| |done]. by intros ? [= <-].
    + tx_inv Hs. simpl. by rewrite decide_True.
  - rewrite bool_decide_false in H by done. simpl in H. tx_inv H. left.
    split_and!; [|done..]. by apply not_eq_None_Some.
Qed.

(** ** The ledger *)

Definition is_consumption (id : string) (row : LedgerRow) : Prop :=
  led_reservation row = Some id ∧ led_source row = "consumption"%string.

Definition closed_for_good (r : Reservation) : Prop := res_status r = settled ∨ res_status r = refunded.

(** Consumption rows belong to settled reservations, one each. *)
Record ledger_inv (d : DB) : Prop := {
  led_settled : ∀ k row id, ledger d !! k = Some row → is_consumption id row →
    0 <= led_charged row ∧ ∃ r, reservations d !! id = Some r ∧ closed_for_good r;
  led_once : ∀ k k' row row' id, ledger d !! k = Some row → ledger d !! k' = Some row' →
    is_consumption id row → is_consumption id row' → k = k' }.

Lemma consumption_some id m row :
  consumption id m = Some row → ∃ k, m !! k = Some row ∧ is_consumption id row.
Proof.
  unfold consumption. intros H.
  destruct (filter _ (map_to_list m)) as [|[k row'] l] eqn:E; simpl in H; [done|]. injection H as ->.
  assert (Hin : (k, row) ∈ filter (λ kv : string * LedgerRow,
    led_reservation kv.2 = Some id ∧ led_source kv.2 = "consumption"%string) (map_to_list m))
    by (rewrite E; left).
  apply list_elem_of_filter in Hin as [[? ?] Hin]. exists k. split; [by apply elem_of_map_to_list|done].
Qed.

Lemma closed_not_open r : closed_for_good r → is_open r = false.
Proof. unfold closed_for_good, is_open. rewrite bool_decide_eq_false. intros [-> | ->]; done. Qed.

(** Rows and reservations that only grow more settled keep the ledger right. *)
Lemma ledger_inv_mono d d' :
  ledger_inv d → ledger d' = ledger d →
  (∀ id r, reservations d !! id = Some r → closed_for_good r →
     ∃ r', reservations d' !! id = Some r' ∧ closed_for_good r') →
  ledger_inv d'.
Proof.
  intros [H1 H2] Hl Hr. split; rewrite Hl; [|done]. intros k row id Hk Hc.
  destruct (H1 k row id Hk Hc) as (? & r & E & Hclosed). destruct (Hr id r E Hclosed) as (r' & ? & ?). eauto.
Qed.

Lemma ledger_inv_put d key row :
  ledger_inv d → (∀ id, ¬ is_consumption id row) →
  ledger_inv (set_ledger (ledger_put key row (ledger d)) d).
Proof.
  intros [H1 H2] Hrow. unfold ledger_put. case_decide; [|by split].
  split; simpl.
  - intros k r id [[<- <-]|[_ Hk]]%lookup_insert_Some Hc; [naive_solver|eauto].
  - intros k k' r r' id [[<- <-]|[_ Hk]]%lookup_insert_Some [[<- <-]|[_ Hk']]%lookup_insert_Some; naive_solver.
Qed.

Lemma settleTx_ledger d env id key usage v d' :
  inv d → ledger_inv d → settleTx env id key usage d = inr (v, d') → ledger_inv d'.
Proof.
  intros Hinv Hl H. destruct (settleTx_case _ _ _ _ _ _ _ Hinv H) as
    (r & w & E & Hw & [(_ & -> & _)|(Ho & _ & Hc & sw' & Hsp & ->)]); [done|].
  destruct (settle_charge_bounds _ _ _ _ usage Hinv E Ho Hw) as [Hcb _].
  assert (Hnone : ∀ k row, ledger d !! k = Some row → ¬ is_consumption id row).
  { intros k row Hk Hrow. destruct (led_settled _ Hl k row id Hk Hrow) as (_ & r' & E' & Hcl).
    simplify_eq. apply closed_not_open in Hcl. congruence. }
  assert (Hkeep : ∀ k row i, ledger d !! k = Some row → is_consumption i row → i ≠ id) by naive_solver.
  destruct Hl as [H1 H2]. unfold ledger_put. split; simpl.
  - intros k row i Hk Hi.
    assert ((i = id ∧ 0 <= led_charged row) ∨ ledger d !! k = Some row) as [[-> Hch]|Hold].
    { case_decide; [|by right]. apply lookup_insert_Some in Hk as [[<- <-]|[_ Hk]]; [|by right].
      left. destruct Hi as [[= ->] _]. split; [done|]. simpl. lia. }
    + split; [done|]. exists (set_status settled r). rewrite lookup_insert_eq. split; [done|by left].
    + destruct (H1 k row i Hold Hi) as (? & r' & ? & ?). split; [done|]. exists r'.
      rewrite lookup_insert_ne by (intros <-; by apply (Hkeep k row id Hold)). done.
  - intros k k' row row' i Hk Hk' Hi Hi'. case_decide; [|eauto].
    apply lookup_insert_Some in Hk as [[<- <-]|[? Hk]], Hk' as [[<- <-]|[? Hk']]; [done|..|eauto].
    + destruct Hi as [[= ->] _]. exfalso. by apply (Hkeep k' row' i).
    + destruct Hi' as [[= ->] _]. exfalso. by apply (Hkeep k row i).
Qed.

Lemma refund_row_not_consumption i id reason r row n : ¬ is_consumption i (refund_row id reason r row n).
Proof. intros [_ H]. unfold refund_row, refundSource in H. simpl in H. discriminate H. Qed.

Lemma refundTx_ledger d id key reason v d' :
  inv d → ledger_inv d → refundTx id key reason d = inr (v, d') → ledger_inv d'.
Proof.
  intros Hinv Hl H. destruct (refundTx_case _ _ _ _ _ _ Hinv H) as
    (r & row & w & E & Hrow & Hw & [(_ & -> & _)|(Hk & _ & _ & _ & ->)]); [done|].
  apply (ledger_inv_put d key (refund_row id reason r row (refundable (led_charged row) w))) in Hl as Hput;
    [|intros i; apply refund_row_not_consumption].
  eapply ledger_inv_mono; [exact Hput| |].
  - simpl. unfold ledger_put. by rewrite decide_True.
  - simpl. intros i r' Hr' Hcl. destruct (decide (id = i)) as [<-|Hne].
    + rewrite lookup_insert_eq. eexists. split; [done|]. by right.
    + rewrite lookup_insert_ne by done. eauto.
Qed.

Lemma refundable_exact c w : wallet_ok w → 0 <= c →
  refundable c w = Z.min c (WeeklyAllowanceMicrousd w - WeeklyRemainingMicrousd w).
Proof.
  unfold wallet_ok, refundable. intros. rewrite wrap64_id by word.
  case_if; bool_to_prop; lia.
Qed.

Lemma credit_ok c w : wallet_ok w → 0 <= c →
  wallet_ok (credit (refundable c w) w) ∧
  WeeklyRemainingMicrousd (credit (refundable c w) w) = WeeklyRemainingMicrousd w + refundable c w.
Proof. intros Hw Hc. rewrite refundable_exact by done. unfold wallet_ok, credit in *. simpl. lia. Qed.

Lemma refundTx_inv d id key reason v d' :
  inv d → ledger_inv d → refundTx id key reason d = inr (v, d') → inv d'.
Proof.
  intros Hinv Hl H. destruct (refundTx_case _ _ _ _ _ _ Hinv H) as
    (r & row & w & E & Hrow & Hw & [(_ & -> & _)|(Hk & _ & Hc & Hcs & ->)]); [done|].
  apply consumption_some in Hrow as (k & Hkr & Hcons).
  destruct (led_settled _ Hl k row id Hkr Hcons) as (Hch & r' & E' & Hcl). simplify_eq.
  apply closed_not_open in Hcl. destruct (inv_wallet _ Hinv _ _ Hw) as [Hok _].
  destruct (inv_res _ Hinv _ _ E) as (Hpos & _ & Hsp).
  apply (change_inv d id (set_status refunded r) w); simpl; try done.
  - intros o Ho. by simplify_eq.
  - by rewrite E.
  - by apply credit_ok.
  - unfold old_amount. rewrite E, open_set_status, open_amount_closed, decide_False by done. lia.
  - unfold refund_space, space_wallet_of. case_decide as Hs; [done|]. simpl.
    destruct (Hsp Hs) as [sw Hsw]. rewrite Hsw. simpl. exists sw.
    destruct (inv_space _ Hinv _ _ Hsw) as (_ & Hoks & _). split_and!; [done..|by apply credit_ok|].
    unfold old_amount. rewrite E, open_set_status, open_amount_closed, decide_False by done. simpl. lia.
Qed.

(** ** Stale reservations *)

Lemma unreserve_total (f : string → Reservation → bool) p d k w :
  inv d → wallet_ok w → ReservedMicrousd w = total (λ r, f k r && is_open r) (reservations d) →
  (∀ r, p r = true → is_open r = true) → (∀ r s, f k (set_status s r) = f k r) →
  wallet_ok (unreserve (total (λ r, f k r && p r) (reservations d)) w) ∧
  ReservedMicrousd (unreserve (total (λ r, f k r && p r) (reservations d)) w) =
  total (λ r, f k r && is_open r) (release_all p (reservations d)).
Proof.
  intros Hinv Hok Hres Hp Hf. rewrite (total_release (f k) p) by done.
  assert (Hpos : ∀ id r, reservations d !! id = Some r → 0 < res_amount r).
  { intros i o Ho. by destruct (inv_res _ Hinv i o Ho). }
  assert (0 <= total (λ r, f k r && p r) (reservations d) <= ReservedMicrousd w).
  { split; [by apply total_nonneg|]. rewrite Hres. apply msum_le. intros i r Hr.
    unfold amount_if. specialize (Hpos i r Hr). destruct (f k r); simpl; [|lia].
    destruct (p r) eqn:E; [rewrite (Hp r E)|destruct (is_open r)]; lia. }
  destruct (unreserve_ok (total (λ r, f k r && p r) (reservations d)) w Hok) as [? ->]; [lia..|].
  split; [done|lia].
Qed.

Lemma release_all_inv d p ws sws :
  inv d → (∀ r, p r = true → is_open r = true) →
  (∀ u, ws !! u = unreserve (total (of_user u p) (reservations d)) <$> wallets d !! u) →
  (∀ s, sws !! s = unreserve (total (of_space s p) (reservations d)) <$> space_wallets d !! s) →
  inv (mkDB (users d) (spaces d) (members d) (license_table d) ws sws (release_all p (reservations d)) (ledger d)).
Proof.
  intros Hinv Hp Hws Hsws.
  assert (Hlook : ∀ id r', release_all p (reservations d) !! id = Some r' →
    ∃ r, reservations d !! id = Some r ∧ res_amount r' = res_amount r ∧ res_user r' = res_user r ∧
         res_space r' = res_space r ∧ res_key r' = res_key r).
  { intros id r' Hr'. unfold release_all in Hr'. apply lookup_fmap_Some in Hr' as (r & <- & E).
    exists r. split; [done|]. by destruct (p r). }
  split; simpl.
  - intros u v Hv. rewrite Hws in Hv. apply fmap_Some in Hv as (w & Hw & ->).
    destruct (inv_wallet _ Hinv _ _ Hw) as [Hok Hres].
    by apply (unreserve_total (λ u r, bool_decide (res_user r = u)) p d u w).
  - intros s v Hv. rewrite Hsws in Hv. apply fmap_Some in Hv as (w & Hw & ->).
    destruct (inv_space _ Hinv _ _ Hw) as (Hne & Hok & Hres). split; [done|].
    by apply (unreserve_total (λ s r, bool_decide (res_space r = s)) p d s w).
  - intros id r' Hr'. destruct (Hlook _ _ Hr') as (r & E & -> & -> & -> & _).
    destruct (inv_res _ Hinv _ _ E) as (? & ? & ?). rewrite Hws, Hsws, !fmap_is_Some. done.
  - intros i j r r' Hi Hj. destruct (Hlook _ _ Hi) as (? & ? & _ & _ & _ & ->).
    destruct (Hlook _ _ Hj) as (? & ? & _ & _ & _ & ->). intros ?. by eapply (inv_key _ Hinv).
  - apply (inv_spaces _ Hinv).
Qed.

Lemma total_none p m : (∀ id r, m !! id = Some r → p r = false) → total p m = 0.
Proof. intros H. apply msum_zero. intros k r Hr. unfold amount_if. by rewrite (H k r Hr). Qed.

Lemma unreserve_0 w : wallet_ok w → unreserve 0 w = w.
Proof. destruct w. unfold wallet_ok, unreserve. simpl. intros. f_equal. lia. Qed.

(** ** Allowances *)

Lemma put_wallet_inv d u w w' :
  inv d → wallets d !! u = Some w → wallet_ok w' → ReservedMicrousd w' = ReservedMicrousd w →
  inv (set_wallets (<[u := w']> (wallets d)) d).
Proof.
  intros Hinv Hw Hok Hres. destruct Hinv as [H1 H2 H3 H4 H5]. split; simpl; try done.
  - intros k v [[<- <-]|[_ Hk]]%lookup_insert_Some; [|eauto].
    split; [done|]. rewrite Hres. by apply H1.
  - intros id r Hr. destruct (H3 id r Hr) as (? & ? & ?). split_and!; [done| |done].
    apply lookup_insert_is_Some'. by right.
Qed.

Lemma put_space_wallet_inv d s w w' :
  inv d → space_wallets d !! s = Some w → wallet_ok w' → ReservedMicrousd w' = ReservedMicrousd w →
  inv (set_space_wallets (<[s := w']> (space_wallets d)) d).
Proof.
  intros Hinv Hw Hok Hres. destruct Hinv as [H1 H2 H3 H4 H5]. split; simpl; try done.
  - intros k v [[<- <-]|[_ Hk]]%lookup_insert_Some; [|eauto].
    destruct (H2 _ _ Hw) as (? & ? & ?). split_and!; [done..|]. by rewrite Hres.
  - intros id r Hr. destruct (H3 id r Hr) as (? & ? & Hs). split_and!; [done..|].
    intros Hne. apply lookup_insert_is_Some'. right. auto.
Qed.

Lemma new_wallet_inv d u w :
  inv d → wallets d !! u = None → wallet_ok w → ReservedMicrousd w = 0 →
  inv (set_wallets (<[u := w]> (wallets d)) d).
Proof.
  intros Hinv Hw Hok Hres. destruct Hinv as [H1 H2 H3 H4 H5]. split; simpl; try done.
  - intros k v [[<- <-]|[_ Hk]]%lookup_insert_Some; [|eauto].
    split; [done|]. rewrite Hres, total_none; [done|]. intros id r Hr. unfold of_user.
    rewrite bool_decide_false; [done|]. intros <-. destruct (H3 id r Hr) as (_ & [? ?] & _). congruence.
  - intros id r Hr. destruct (H3 id r Hr) as (? & ? & ?). split_and!; [done| |done].
    apply lookup_insert_is_Some'. by right.
Qed.

Lemma new_space_wallet_inv d s w :
  inv d → s ≠ ""%string → space_wallets d !! s = None → wallet_ok w → ReservedMicrousd w = 0 →
  inv (set_space_wallets (<[s := w]> (space_wallets d)) d).
Proof.
  intros Hinv Hne Hw Hok Hres. destruct Hinv as [H1 H2 H3 H4 H5]. split; simpl; try done.
  - intros k v [[<- <-]|[_ Hk]]%lookup_insert_Some; [|eauto].
    split_and!; [done..|]. rewrite Hres, total_none; [done|]. intros id r Hr. unfold of_space.
    rewrite bool_decide_false; [done|]. intros <-. destruct (H3 id r Hr) as (_ & _ & Hs).
    destruct (Hs Hne) as [? ?]. congruence.
  - intros id r Hr. destruct (H3 id r Hr) as (? & ? & Hs). split_and!; [done..|].
    intros Hne'. apply lookup_insert_is_Some'. right. auto.
Qed.

Lemma set_ledger_inv l d : inv d → inv (set_ledger l d).
Proof. intros [? ? ? ? ?]. by split. Qed.

(** Plans. *)
Definition allowance_ok (a : Z) : Prop := 0 <= a <= MaxInt64.

Lemma tier_allowance_ok tier :
  allowance_ok (WeeklyHostedAIAllowance (EntitlementsForTier tier)) ∧
  allowance_ok (SpaceWeeklyHostedAIAllowance (EntitlementsForTier tier)).
Proof.
  unfold EntitlementsForTier, allowance_ok.
  repeat case_bool_decide; simpl; unfold MaxInt64, MaxWeeklyAgentAllowance, ProWeeklyAgentAllowance, BasicWeeklyAgentAllowance; lia.
Qed.

Lemma adjusted_exact a w : allowance_ok a → wallet_ok w →
  adjusted a (WeeklyAllowanceMicrousd w) (WeeklyRemainingMicrousd w) =
  Z.max 0 (a - (WeeklyAllowanceMicrousd w - WeeklyRemainingMicrousd w)).
Proof.
  unfold allowance_ok, wallet_ok, adjusted. intros.
  rewrite (wrap64_id (WeeklyAllowanceMicrousd w - _)) by word.
  destruct (Z.ltb_spec (WeeklyAllowanceMicrousd w - WeeklyRemainingMicrousd w) 0); [lia|].
  rewrite wrap64_id by word. case_if; bool_to_prop; lia.
Qed.

Lemma refreshed_ok a now fresh w : allowance_ok a → wallet_ok w →
  wallet_ok (set_allowance a (refreshed a now fresh w).1 (refreshed a now fresh w).2 w).
Proof.
  intros Ha Hw. unfold refreshed. destruct (negb fresh && (ResetAt w <=? now)); simpl.
  - unfold wallet_ok, allowance_ok in *. simpl. lia.
  - destruct (Z.eqb_spec (WeeklyAllowanceMicrousd w) a) as [<-|]; simpl.
    + unfold wallet_ok, allowance_ok in *. simpl. lia.
    + rewrite adjusted_exact by done. unfold wallet_ok, allowance_ok in *. simpl. lia.
Qed.

(** ** Refreshing a wallet *)

(** Grants and plan adjustments, the rows that refreshing a wallet writes. *)
Definition is_grant (row : LedgerRow) : Prop :=
  led_reservation row = None ∧ (led_source row = "weekly_grant" ∨ led_source row = "plan_adjustment")%string.

Lemma grant_not_consumption row id : is_grant row → ¬ is_consumption id row.
Proof. intros [H _] [H' _]. congruence. Qed.

Definition ledger_grows (l l' : gmap string LedgerRow) : Prop :=
  l' = l ∨ ∃ key row, is_grant row ∧ l' = ledger_put key row l.

Lemma entry_grows u src n key d x d' :
  src = "weekly_grant"%string ∨ src = "plan_adjustment"%string →
  insertHostedAILedgerEntry u src n key d = inr (x, d') →
  ∃ l, d' = set_ledger l d ∧ ledger_grows (ledger d) l.
Proof.
  intros Hsrc H. apply insert_ledger_inr in H as ->. eexists. split; [done|]. right.
  eexists _, _. split; [|done]. by split.
Qed.

(** The wallet row [walletTx] finds after it released what was stale. *)
Definition prior_wallet (d : DB) (user : string) (allowance now dbnow : Z) : HostedAIWallet :=
  match wallets d !! user with
  | Some w => unreserve (total (stale_personal user dbnow) (reservations d)) w
  | None => mkWallet allowance allowance 0 (nextWeeklyReset now)
  end.

Definition refreshed_wallet (allowance now : Z) (fresh : bool) (prior : HostedAIWallet) : HostedAIWallet :=
  set_allowance allowance (refreshed allowance now fresh prior).1 (refreshed allowance now fresh prior).2 prior.

Lemma walletTx_case d user allowance now dbnow w d' :
  walletTx user allowance now dbnow d = inr (w, d') →
  w = refreshed_wallet allowance now (bool_decide (wallets d !! user = None))
        (prior_wallet d user allowance now dbnow) ∧
  ∃ l, ledger_grows (ledger d) l ∧
  d' = mkDB (users d) (spaces d) (members d) (license_table d) (<[user := w]> (wallets d)) (space_wallets d)
         (release_all (stale_personal user dbnow) (reservations d)) l.
Proof.
  intros H. unfold walletTx in H. tx_inv H.
  match goal with Hl : update_wallet _ (unreserve _) _ = inr _ |- _ => rename Hl into Hu end.
  match goal with Hl : when _ _ _ = inr _ |- _ => rename Hl into Hi end.
  match goal with Hl : select_wallet _ _ = inr _ |- _ => apply select_wallet_inr in Hl as [Hp ->] end.
  rename a1 into p.
  assert (Hprior : p = prior_wallet d user allowance now dbnow ∧
    set_wallets (<[user := refreshed_wallet allowance now (bool_decide (wallets d !! user = None)) p]> (wallets s0)) s0 =
    mkDB (users d) (spaces d) (members d) (license_table d)
      (<[user := refreshed_wallet allowance now (bool_decide (wallets d !! user = None)) p]> (wallets d))
      (space_wallets d) (release_all (stale_personal user dbnow) (reservations d)) (ledger d)).
  { unfold prior_wallet. apply update_wallet_inr in Hu as [[Hn ->]|(w1 & Hw1 & _ & ->)]; simpl in *.
    - rewrite bool_decide_true in Hi by done. tx_inv Hi. simpl in *.
      rewrite lookup_insert_eq in Hp. injection Hp as <-. rewrite Hn. split; [done|].
      unfold set_wallets. simpl. by rewrite ?insert_insert_eq.
    - rewrite bool_decide_false in Hi by congruence. tx_inv Hi. simpl in *.
      rewrite lookup_insert_eq in Hp. injection Hp as <-. rewrite Hw1. split; [done|].
      unfold set_wallets. simpl. by rewrite ?insert_insert_eq. }
  destruct Hprior as [-> Hset]. destruct (refreshed _ _ _ _) as [remaining resetAt] eqn:Eref. tx_inv H.
  match goal with Hl : update_wallet _ (set_allowance _ _ _) _ = inr _ |- _ =>
    apply update_wallet_inr in Hl as [[Hn _]|(w1 & Hw1 & _ & ->)]; [congruence|] end.
  rewrite Hp in Hw1. injection Hw1 as <-.
  assert (Href : set_allowance allowance remaining resetAt (prior_wallet d user allowance now dbnow) =
    refreshed_wallet allowance now (bool_decide (wallets d !! user = None)) (prior_wallet d user allowance now dbnow))
    by (unfold refreshed_wallet; by rewrite Eref).
  rewrite Href, Hset in *.
  match goal with Hl : select_wallet _ _ = inr _ |- _ => apply select_wallet_inr in Hl as [Hsel ->] end.
  simpl in Hsel. rewrite lookup_insert_eq in Hsel. injection Hsel as <-. split; [done|].
  match goal with Hl : (if _ then _ else _) _ = inr _ |- _ => rename Hl into Hled end.
  destruct (_ || _) in Hled; [|destruct (negb _) in Hled].
  - apply entry_grows in Hled as (l & -> & Hg); [by exists l|by left].
  - apply entry_grows in Hled as (l & -> & Hg); [by exists l|by right].
  - tx_inv Hled. eexists. split; [by left|]. done.
Qed.

Lemma stale_personal_open user dbnow r : stale_personal user dbnow r = true → is_open r = true.
Proof. unfold stale_personal. rewrite !andb_true_iff. tauto. Qed.

Lemma stale_personal_user user dbnow m :
  total (of_user user (stale_personal user dbnow)) m = total (stale_personal user dbnow) m.
Proof.
  apply msum_ext. intros k r _. unfold amount_if, of_user, stale_personal.
  destruct (bool_decide (res_user r = user)); done.
Qed.

Lemma stale_personal_other user dbnow m u : u ≠ user → total (of_user u (stale_personal user dbnow)) m = 0.
Proof.
  intros Hne. apply total_none. intros id r _. unfold of_user, stale_personal.
  case_bool_decide as E1; [|done]. by rewrite bool_decide_false by congruence.
Qed.

Lemma stale_personal_space user dbnow m s : s ≠ ""%string → total (of_space s (stale_personal user dbnow)) m = 0.
Proof.
  intros Hne. apply total_none. intros id r _. unfold of_space, stale_personal.
  case_bool_decide as E1; [|done]. rewrite (bool_decide_false (res_space r = ""%string)) by congruence.
  by rewrite andb_false_r.
Qed.

(** The tables once the stale reservations of a user are released. *)
Definition reclaimed (user : string) (dbnow : Z) (d : DB) : DB :=
  set_wallets (alter (unreserve (total (stale_personal user dbnow) (reservations d))) user (wallets d))
    (set_reservations (release_all (stale_personal user dbnow) (reservations d)) d).

Lemma reclaimed_inv user dbnow d : inv d → inv (reclaimed user dbnow d).
Proof.
  intros Hinv. apply (release_all_inv d (stale_personal user dbnow)); [done|by apply stale_personal_open|..].
  - intros u. destruct (decide (u = user)) as [->|Hne].
    + by rewrite lookup_alter_eq, stale_personal_user.
    + rewrite lookup_alter_ne, stale_personal_other by done.
      destruct (wallets d !! u) as [w|] eqn:E; [|done]. simpl. f_equal. symmetry. apply unreserve_0.
      by apply (inv_wallet _ Hinv u).
  - intros s. simpl. destruct (space_wallets d !! s) as [w|] eqn:E; [|done]. simpl.
    destruct (inv_space _ Hinv s w E) as (Hne & Hok & _).
    by rewrite stale_personal_space, unreserve_0 by done.
Qed.

Lemma new_wallet_ok a r : allowance_ok a → wallet_ok (mkWallet a a 0 r).
Proof. unfold allowance_ok, wallet_ok, MaxInt64. simpl. lia. Qed.

Lemma prior_wallet_ok d user a now dbnow : inv d → allowance_ok a → wallet_ok (prior_wallet d user a now dbnow).
Proof.
  intros Hinv Ha. unfold prior_wallet. destruct (wallets d !! user) as [w|] eqn:E; [|by apply new_wallet_ok].
  apply (inv_wallet _ (reclaimed_inv user dbnow d Hinv) user). simpl. by rewrite lookup_alter_eq, E.
Qed.

Lemma walletTx_inv d user allowance now dbnow w d' :
  inv d → allowance_ok allowance → walletTx user allowance now dbnow d = inr (w, d') → inv d'.
Proof.
  intros Hinv Ha H. destruct (walletTx_case _ _ _ _ _ _ _ H) as (-> & l & _ & ->).
  pose proof (reclaimed_inv user dbnow d Hinv) as Hr.
  pose proof (prior_wallet_ok d user allowance now dbnow Hinv Ha) as Hpok.
  set (w := refreshed_wallet _ _ _ _).
  assert (wallet_ok w ∧ ReservedMicrousd w = ReservedMicrousd (prior_wallet d user allowance now dbnow)) as [Hok Hres].
  { split; [|done]. by apply refreshed_ok. }
  assert (inv (set_wallets (<[user := w]> (wallets (reclaimed user dbnow d))) (reclaimed user dbnow d))) as Hi.
  { unfold prior_wallet in Hres. destruct (wallets d !! user) as [w0|] eqn:E.
    - eapply put_wallet_inv; [done| |done|exact Hres]. simpl. by rewrite lookup_alter_eq, E.
    - apply new_wallet_inv; [done| |done|exact Hres]. simpl. by rewrite lookup_alter_eq, E. }
  apply (set_ledger_inv l) in Hi. unfold set_ledger, set_wallets, reclaimed in Hi. simpl in Hi.
  by rewrite insert_alter_eq in Hi.
Qed.

(** ** Refreshing a Space wallet *)

Lemma stale_space_open s dbnow r : stale_space s dbnow r = true → is_open r = true.
Proof. unfold stale_space. rewrite !andb_true_iff. tauto. Qed.

Lemma stale_space_space s dbnow m : total (of_space s (stale_space s dbnow)) m = total (stale_space s dbnow) m.
Proof.
  apply msum_ext. intros k r _. unfold amount_if, of_space, stale_space.
  destruct (bool_decide (res_space r = s)); done.
Qed.

Lemma stale_space_other s dbnow m s' : s' ≠ s → total (of_space s' (stale_space s dbnow)) m = 0.
Proof.
  intros Hne. apply total_none. intros id r _. unfold of_space, stale_space.
  case_bool_decide as E1; [|done]. by rewrite bool_decide_false by congruence.
Qed.

Definition space_prior (d : DB) (s : string) (allowance now : Z) : HostedAIWallet :=
  match space_wallets d !! s with
  | Some w => w
  | None => mkWallet allowance allowance 0 (nextWeeklyReset now)
  end.

(** The tables once the stale reservations of a Space are released. *)
Definition reclaimed_space (s : string) (dbnow : Z) (d : DB) : DB :=
  let stale := stale_space s dbnow in
  mkDB (users d) (spaces d) (members d) (license_table d)
    (map_imap (λ u w, Some (personal_release stale (reservations d) u w)) (wallets d))
    (alter (unreserve (total stale (reservations d))) s (space_wallets d))
    (release_all stale (reservations d)) (ledger d).

Lemma positive_amounts d : inv d → ∀ id r, reservations d !! id = Some r → 0 < res_amount r.
Proof. intros Hinv id r E. by destruct (inv_res _ Hinv id r E). Qed.

Lemma reclaimed_space_inv s dbnow d : inv d → inv (reclaimed_space s dbnow d).
Proof.
  intros Hinv. pose proof (positive_amounts d Hinv) as Hpos.
  apply (release_all_inv d (stale_space s dbnow)); [done|by apply stale_space_open|..]; simpl.
  - intros u. rewrite map_lookup_imap. destruct (wallets d !! u) as [w|] eqn:E; [|done]. simpl. f_equal.
    unfold personal_release. case_if; [done|]. bool_to_prop.
    pose proof (total_nonneg (of_user u (stale_space s dbnow)) (reservations d) Hpos).
    assert (total (of_user u (stale_space s dbnow)) (reservations d) = 0) as -> by lia.
    rewrite unreserve_0; [done|]. by apply (inv_wallet _ Hinv u).
  - intros s'. destruct (decide (s' = s)) as [->|Hne].
    + by rewrite lookup_alter_eq, stale_space_space.
    + rewrite lookup_alter_ne, stale_space_other by done.
      destruct (space_wallets d !! s') as [w|] eqn:E; [|done]. simpl. f_equal. symmetry. apply unreserve_0.
      by apply (inv_space _ Hinv s').
Qed.

Lemma entitlements_tier t u now e :
  entitlementsForUserTx t u now = Some e → ∃ tier, e = EntitlementsForTier tier.
Proof.
  unfold entitlementsForUserTx. intros H. apply bind_Some in H as (l & _ & [= <-]). eauto.
Qed.

(** The row [refreshSpaceHostedAIWalletTx] leaves and returns. *)
Definition refreshed_space (d : DB) (s : string) (allowance now dbnow : Z) : HostedAIWallet :=
  let prior := space_prior d s allowance now in
  let r := refreshed allowance now (bool_decide (space_wallets d !! s = None)) prior in
  set_allowance allowance r.1 r.2 (unreserve (total (stale_space s dbnow) (reservations d)) prior).

Lemma space_released_le d s dbnow w :
  inv d → space_wallets d !! s = Some w →
  0 <= total (stale_space s dbnow) (reservations d) <= ReservedMicrousd w.
Proof.
  intros Hinv Hw. pose proof (positive_amounts d Hinv) as Hpos.
  split; [by apply total_nonneg|]. destruct (inv_space _ Hinv _ _ Hw) as (_ & _ & ->).
  apply msum_le. intros i r Hr. specialize (Hpos i r Hr). unfold amount_if, of_space, stale_space.
  destruct (bool_decide (res_space r = s)); simpl; [|lia]. destruct (is_open r); simpl; [|lia].
  case_if; lia.
Qed.

Lemma set_unreserved a n res t w :
  mkWallet a res (Z.max 0 (ReservedMicrousd w - n)) t = set_allowance a res t (unreserve n w).
Proof. done. Qed.

Lemma refreshSpace_case d s now dbnow w d' :
  inv d → refreshSpaceHostedAIWalletTx s now dbnow d = inr (w, d') →
  s ≠ ""%string ∧ ∃ a, allowance_ok a ∧ w = refreshed_space d s a now dbnow ∧
  d' = set_space_wallets (<[s := w]> (space_wallets d)) (reclaimed_space s dbnow d).
Proof.
  intros Hinv H. unfold refreshSpaceHostedAIWalletTx in H. tx_inv H.
  match goal with Hl : context [spaces d !! s] |- _ => rename Hl into Hsp end.
  match goal with Hl : entitlementsForUserTx _ _ _ = Some _ |- _ => rename Hl into He end.
  match goal with Hl : when _ _ _ = inr _ |- _ => rename Hl into Hi end.
  match goal with Hl : select_space_wallet _ _ = inr _ |- _ => apply select_space_wallet_inr in Hl as [Hp ->] end.
  split. { intros ->. rewrite (inv_spaces _ Hinv) in Hsp. done. }
  apply entitlements_tier in He as [tier ->].
  exists (SpaceWeeklyHostedAIAllowance (EntitlementsForTier tier)).
  set (al := SpaceWeeklyHostedAIAllowance (EntitlementsForTier tier)) in *.
  assert (Ha : allowance_ok al) by apply tier_allowance_ok.
  assert (a2 = space_prior d s al now ∧ ∃ m, s0 = set_space_wallets m d ∧
    ∀ v, <[s := v]> m = <[s := v]> (space_wallets d)) as (-> & m & -> & Hm).
  { unfold space_prior. destruct (space_wallets d !! s) as [w0|] eqn:E.
    - rewrite bool_decide_false in Hi by done. tx_inv Hi. split; [congruence|]. exists (space_wallets d). by destruct d.
    - rewrite bool_decide_true in Hi by done. tx_inv Hi. simpl in Hp. rewrite lookup_insert_eq in Hp.
      injection Hp as <-. split; [done|]. eexists. split; [done|]. intros v. by rewrite insert_insert_eq. }
  set (T := total (stale_space s dbnow) (reservations d)) in *.
  assert (Hpok : wallet_ok (space_prior d s al now) ∧ 0 <= T <= ReservedMicrousd (space_prior d s al now)).
  { unfold space_prior. destruct (space_wallets d !! s) as [w0|] eqn:E.
    - split; [by apply (inv_space _ Hinv s)|by apply space_released_le].
    - split; [by apply new_wallet_ok|]. assert (T = 0) as ->; [|simpl; lia]. apply total_none.
      intros id r Hr. unfold stale_space. destruct (bool_decide (res_space r = s)) eqn:Es; [|done]. bool_to_prop.
      destruct (inv_res _ Hinv id r Hr) as (_ & _ & Hs). subst s.
      destruct Hs as [? ?]; [|congruence]. intros E0. rewrite E0, (inv_spaces _ Hinv) in Hsp. done. }
  destruct Hpok as [Hpok HT]. set (pr := space_prior d s al now) in *.
  match goal with Hl : (if 0 <? T then _ else _) _ = inr _ |- _ => rename Hl into Hrel end.
  assert (a4 = Z.max 0 (ReservedMicrousd pr - T) ∧ ∃ m2,
    s2 = set_space_wallets m2 (reclaimed_space s dbnow d) ∧ m2 !! s = Some (unreserve T pr) ∧
    ∀ v, <[s := v]> m2 = <[s := v]> (space_wallets d)) as (-> & m2 & -> & Hm2 & Hins).
  { destruct (Z.ltb_spec 0 T) as [Hpos|Hz].
    - tx_inv Hrel. match goal with Hl : update_space_wallet _ _ _ = inr _ |- _ =>
        apply update_space_wallet_inr in Hl as [[Hn _]|(w1 & Hw1 & _ & ->)]; simpl in *; [congruence|] end.
      assert (w1 = pr) as -> by congruence. split.
      + rewrite wrap64_id; [done|]. unfold wallet_ok, in64, MinInt64, MaxInt64 in *. lia.
      + exists (<[s := unreserve T pr]> m). rewrite lookup_insert_eq. split_and!; [done..|].
        intros v. by rewrite insert_insert_eq.
    - tx_inv Hrel. assert (T = 0) as -> by lia. split; [unfold wallet_ok in Hpok; lia|].
      exists m. rewrite unreserve_0 by done. simpl in Hp. split_and!; [done..|congruence|done]. }
  split; [done|]. destruct (refreshed al now _ pr) as [remaining resetAt] eqn:Eref. tx_inv H.
  match goal with Hl : update_space_wallet _ _ _ = inr _ |- _ =>
    apply update_space_wallet_inr in Hl as [[Hn _]|(w1 & Hw1 & _ & ->)]; simpl in *; [congruence|] end.
  assert (w1 = unreserve T pr) as -> by congruence.
  assert (refreshed_space d s al now dbnow = set_allowance al remaining resetAt (unreserve T pr)) as ->.
  { unfold refreshed_space. fold pr. fold T. by rewrite Eref. }
  split; [done|]. unfold set_space_wallets. simpl. by rewrite Hins.
Qed.

Lemma refreshSpace_inv d s now dbnow w d' :
  inv d → refreshSpaceHostedAIWalletTx s now dbnow d = inr (w, d') →
  inv d' ∧ space_wallets d' !! s = Some w.
Proof.
  intros Hinv H. destruct (refreshSpace_case d s now dbnow w d' Hinv H) as (Hne & a & Ha & -> & ->).
  split; [|simpl; by rewrite lookup_insert_eq].
  pose proof (reclaimed_space_inv s dbnow d Hinv) as Hr.
  assert (Hset : ∀ v, <[s := v]> (space_wallets (reclaimed_space s dbnow d)) = <[s := v]> (space_wallets d))
    by (intros v; simpl; by rewrite insert_alter_eq).
  rewrite <- Hset. unfold refreshed_space.
  destruct (space_wallets d !! s) as [p|] eqn:E.
  - assert (Hp : space_wallets (reclaimed_space s dbnow d) !! s =
      Some (unreserve (total (stale_space s dbnow) (reservations d)) p)) by (simpl; by rewrite lookup_alter_eq, E).
    destruct (inv_space _ Hr _ _ Hp) as (_ & Hok & _).
    eapply put_space_wallet_inv; [done|exact Hp| |]; unfold space_prior; rewrite E; [|done].
    destruct (inv_space _ Hinv _ _ E) as (_ & Hokp & _).
    pose proof (refreshed_ok a now (bool_decide (Some p = None)) p Ha Hokp) as Hr'.
    unfold wallet_ok in *. simpl in *. lia.
  - apply new_space_wallet_inv; [done..| | |].
    + simpl. by rewrite lookup_alter_eq, E.
    + unfold space_prior. rewrite E.
      pose proof (refreshed_ok a now (bool_decide (@None HostedAIWallet = None)) _ Ha
        (new_wallet_ok a (nextWeeklyReset now) Ha)) as Hr'.
      pose proof (total_nonneg (stale_space s dbnow) (reservations d) (positive_amounts d Hinv)).
      unfold wallet_ok in *. simpl in *. lia.
    + unfold space_prior. rewrite E. simpl.
      pose proof (total_nonneg (stale_space s dbnow) (reservations d) (positive_amounts d Hinv)). lia.
Qed.

(** ** Reservations *)

Lemma by_key_some key m id r : by_key key m = Some (id, r) → m !! id = Some r ∧ res_key r = key.
Proof.
  unfold by_key. intros H. destruct (filter _ (map_to_list m)) as [|p l] eqn:E; simpl in H; [done|].
  injection H as ->.
  assert (Hin : (id, r) ∈ filter (λ kv : string * Reservation, res_key kv.2 = key) (map_to_list m))
    by (rewrite E; left).
  apply list_elem_of_filter in Hin as [? Hin]. by apply elem_of_map_to_list in Hin.
Qed.

Lemma by_key_none key m id r : by_key key m = None → m !! id = Some r → res_key r ≠ key.
Proof.
  unfold by_key. intros H Hm Hk. destruct (filter _ (map_to_list m)) as [|p l] eqn:E; simpl in H; [|done].
  assert (Hin : (id, r) ∈ filter (λ kv : string * Reservation, res_key kv.2 = key) (map_to_list m)).
  { apply list_elem_of_filter. split; [done|]. by apply elem_of_map_to_list. }
  rewrite E in Hin. by apply not_elem_of_nil in Hin.
Qed.

(** The state a reservation is decided in: for a Space request its wallet has
    been refreshed and the caller is a member. *)
Inductive reserve_start (user s : string) (now dbnow : Z) (d : DB) : DB → HostedAIWallet → Prop :=
  | start_personal : s = ""%string → reserve_start user s now dbnow d d zero_wallet
  | start_space d1 sw :
      s ≠ ""%string → refreshSpaceHostedAIWalletTx s now dbnow d = inr (sw, d1) → (s, user) ∈ members d1 →
      reserve_start user s now dbnow d d1 sw.

(** The two ways a reservation succeeds. *)
Inductive reserve_outcome (newID user s meter key : string) (amount dbnow : Z) (allowPartial : bool)
    (d1 : DB) (w sw : HostedAIWallet) : HostedAIReservation → HostedAIWallet → DB → Prop :=
  | reserve_replay id r :
      reservations d1 !! id = Some r → res_key r = key → res_user r = user → res_space r = s →
      res_meter r = meter → res_amount r = amount ∨ allowPartial = true ∧ res_amount r < amount →
      res_status r ≠ released →
      reserve_outcome newID user s meter key amount dbnow allowPartial d1 w sw
        (mkHandle id user s (res_amount r) (res_status r)) w d1
  | reserve_granted id n sw' :
      hostedAIReserveAmount w sw amount allowPartial (negb (bool_decide (s = ""%string))) = inr n →
      (reservations d1 !! id = None ∧ id = newID ∧ (∀ j o, reservations d1 !! j = Some o → res_key o ≠ key) ∨
       ∃ r, reservations d1 !! id = Some r ∧ res_key r = key ∧ res_user r = user ∧ res_space r = s ∧
         res_meter r = meter ∧ res_status r = released) →
      0 < n → wallet_check (add_reserved n w) = true → space_after s (add_reserved n) d1 sw' →
      reserve_outcome newID user s meter key amount dbnow allowPartial d1 w sw
        (mkHandle id user s n reserved) (add_reserved n w)
        (change id (mkReservation user s key meter n reserved dbnow) (add_reserved n w) sw' (ledger d1) d1).

Lemma lift_inr {A} (r : WalletError + A) d x d' : lift r d = inr (x, d') → r = inr x ∧ d' = d.
Proof. destruct r; simpl; intros H; tx_inv H; done. Qed.

Lemma reserve_start_inv user s now dbnow d d1 sw :
  inv d → reserve_start user s now dbnow d d1 sw →
  inv d1 ∧ (s ≠ ""%string → space_wallets d1 !! s = Some sw).
Proof.
  intros Hinv [->|d2 sw2 Hne H _]; [done|]. destruct (refreshSpace_inv _ _ _ _ _ _ Hinv H). done.
Qed.

(** The common tail of both granting branches. *)
Lemma grant_tail d1 id user s key meter n dbnow (w : HostedAIWallet) h w' d' :
  wallets d1 !! user = Some w → (s ≠ ""%string → is_Some (space_wallets d1 !! s)) →
  (put_reservation id (mkReservation user s key meter n reserved dbnow);;
   reserveHostedAIWalletsTx user s n;;
   mret (mkHandle id user s n reserved, add_reserved n w)) d1 = inr ((h, w'), d') →
  0 < n ∧ wallet_check (add_reserved n w) = true ∧ h = mkHandle id user s n reserved ∧ w' = add_reserved n w ∧
  ∃ sw', space_after s (add_reserved n) d1 sw' ∧
    d' = change id (mkReservation user s key meter n reserved dbnow) (add_reserved n w) sw' (ledger d1) d1.
Proof.
  intros Hw Hs H. unfold put_reservation, reserveHostedAIWalletsTx in H. tx_inv H. simpl in *.
  match goal with Hl : (_ <? _) && _ = true |- _ => apply andb_true_iff in Hl as [Hn _] end.
  both_inv Hw Hs as (Hc & sw' & Hsw & ->). split_and!; [by apply Z.ltb_lt|done..|]. exists sw'. done.
Qed.

Lemma reserveTx_case newID user s meter key amount now dbnow allowPartial d h w' d' :
  inv d → reserveTx newID user s meter key amount now dbnow allowPartial d = inr ((h, w'), d') →
  ∃ d1 sw w, reserve_start user s now dbnow d d1 sw ∧ wallets d1 !! user = Some w ∧
    reserve_outcome newID user s meter key amount dbnow allowPartial d1 w sw h w' d'.
Proof.
  intros Hinv H. unfold reserveTx in H. apply bind_inr in H as (sw & d1 & Hstart & H).
  apply bind_inr in H as (w & d2 & Hw & H). apply select_wallet_inr in Hw as [Hw ->].
  apply bind_inr in H as (? & ? & [= <- <-] & H).
  assert (Hst : reserve_start user s now dbnow d d1 sw).
  { destruct (decide (s = ""%string)) as [Hs|Hs].
    - rewrite bool_decide_true in Hstart by done. simpl in Hstart. tx_inv Hstart. by constructor.
    - rewrite bool_decide_false in Hstart by done. simpl in Hstart. tx_inv Hstart. bool_to_prop.
      by constructor. }
  exists d1, sw, w. split_and!; [done..|].
  destruct (reserve_start_inv _ _ _ _ _ _ _ Hinv Hst) as [Hinv1 Hsw].
  assert (Hs : s ≠ ""%string → is_Some (space_wallets d1 !! s)) by (intros Hne; rewrite Hsw; eauto).
  destruct (by_key key (reservations d1)) as [[id r]|] eqn:Ek.
  - apply by_key_some in Ek as [Er Ek]. apply bind_inr in H as (? & ? & Hg & H).
    apply guard_inr in Hg as [Hg ->]. rewrite !andb_true_iff, orb_true_iff, andb_true_iff in Hg.
    destruct Hg as [[[Hu Hsp] Hm] Ha]. bool_to_prop.
    destruct (negb (bool_decide (res_status r = released))) eqn:Est; bool_to_prop.
    + injection H as <- <- <-. eapply reserve_replay; try done.
      destruct Ha as [Ha%Z.eqb_eq|[? Ha%Z.ltb_lt]]; auto.
    + apply bind_inr in H as (n & ? & Hl & H). apply lift_inr in Hl as [Hl ->].
      apply grant_tail in H as (Hn & Hc & -> & -> & sw' & Hsp' & ->); [|done..].
      apply reserve_granted; try done. right. exists r. done.
  - apply bind_inr in H as (n & ? & Hl & H). apply lift_inr in Hl as [Hl ->].
    apply bind_inr in H as (? & ? & Hg & H). apply guard_inr in Hg as [Hg ->]. bool_to_prop.
    apply grant_tail in H as (Hn & Hc & -> & -> & sw' & Hsp' & ->); [|done..].
    apply reserve_granted; try done. left. split_and!; [done..|]. intros j o Ho. by eapply by_key_none.
Qed.

Lemma add_reserved_ok n w : wallet_ok w → 0 <= n → wallet_check (add_reserved n w) = true →
  wallet_ok (add_reserved n w).
Proof. rewrite wallet_check_ok. unfold wallet_ok, add_reserved. simpl. lia. Qed.

Lemma outcome_inv newID user s meter key amount dbnow allowPartial d1 w sw h w' d' :
  inv d1 → wallets d1 !! user = Some w →
  reserve_outcome newID user s meter key amount dbnow allowPartial d1 w sw h w' d' → inv d'.
Proof.
  intros Hinv Hw [id r|id n sw' _ Hid Hn Hc Hsp]; [done|].
  destruct (inv_wallet _ Hinv _ _ Hw) as [Hok _].
  assert (Hold : old_amount (reservations d1) id = 0).
  { unfold old_amount. destruct Hid as [(-> & _)|(r & -> & _ & _ & _ & _ & Hr)]; [done|].
    apply open_amount_closed. unfold is_open. rewrite Hr. done. }
  assert (Hopen : open_amount (mkReservation user s key meter n reserved dbnow) = n) by done.
  eapply change_inv; rewrite ?Hold, ?Hopen; simpl; try done.
  - intros o Ho. destruct Hid as [(? & _)|(r & Hr & ? & ? & ? & _)]; [congruence|]. by simplify_eq.
  - intros Hnone. destruct Hid as [(_ & _ & Hk)|(r & Hr & _)]; [done|congruence].
  - apply add_reserved_ok; [done|lia|done].
  - lia.
  - destruct sw' as [sw'|]; [|done]. destruct Hsp as (Hne & sw0 & Hsw0 & -> & Hcs). exists sw0.
    destruct (inv_space _ Hinv _ _ Hsw0) as (_ & Hoks & _). split_and!; [done..| |simpl; lia].
    apply add_reserved_ok; [done|lia|done].
Qed.

Lemma reserveTx_inv newID user s meter key amount now dbnow allowPartial d r d' :
  inv d → reserveTx newID user s meter key amount now dbnow allowPartial d = inr (r, d') → inv d'.
Proof.
  destruct r as [h w']. intros Hinv H.
  destruct (reserveTx_case _ _ _ _ _ _ _ _ _ _ _ _ _ Hinv H) as (d1 & sw & w & Hst & Hw & Ho).
  destruct (reserve_start_inv _ _ _ _ _ _ _ Hinv Hst) as [Hinv1 _]. by eapply outcome_inv.
Qed.
