(* ===== verification/WalletProps.v ===== *)
(** * Properties of hosted-AI wallets

    Runs of the wallet operations and what every run guarantees: balances that
    add up, reservations that cannot oversubscribe an allowance, settlements and
    retries that count once, and a weekly spend bounded by the allowance. *)
From S2P Require Import Prelude Tx GoStrings GoTime Entitlements Wallet WalletInv.

(** ** Runs *)

Inductive wallet_op :=
  | OpWallet (user : string) (tier : Tier) (now dbnow : Z)
  | OpSpaceWallet (space : string) (now dbnow : Z)
  | OpReserve (newID user space : string) (tier : Tier) (meter key : string) (amount now dbnow : Z)
      (allowPartial : bool)
  | OpRelease (id : string)
  | OpSettle (env id key : string) (usage : HostedAIUsage)
  | OpRefund (id key reason : string).

Definition exec (op : wallet_op) (d : DB) : DB :=
  match op with
  | OpWallet user tier now dbnow => (GetOrCreateHostedAIWallet user tier now dbnow d).1
  | OpSpaceWallet space now dbnow => (GetOrCreateSpaceHostedAIWallet space now dbnow d).1
  | OpReserve newID user space tier meter key amount now dbnow allowPartial =>
      (reserveHostedAIUsage newID user space tier meter key amount now dbnow allowPartial d).1
  | OpRelease id => (ReleaseHostedAIReservation id d).1
  | OpSettle env id key usage => (SettleHostedAIReservation env id key usage d).1
  | OpRefund id key reason => (RefundHostedAIReservation id key reason d).1
  end.

(** Accounts, Spaces, memberships and licenses change under other code. *)
Inductive reach : DB → Prop :=
  | reach_empty us sp ms ls : sp !! ""%string = None → reach (mkDB us sp ms ls ∅ ∅ ∅ ∅)
  | reach_op d op : reach d → reach (exec op d)
  | reach_directory d us sp ms ls : reach d → sp !! ""%string = None →
      reach (mkDB us sp ms ls (wallets d) (space_wallets d) (reservations d) (ledger d)).

(** ** The invariants along a run *)

Lemma release_all_closed p m id r :
  (∀ r, p r = true → is_open r = true) → m !! id = Some r → closed_for_good r →
  release_all p m !! id = Some r.
Proof.
  intros Hp Hm Hc. unfold release_all. rewrite lookup_fmap, Hm. simpl. f_equal.
  destruct (p r) eqn:E; [|done]. apply Hp in E. apply closed_not_open in Hc. congruence.
Qed.

Lemma walletTx_ledger d user a now dbnow w d' :
  ledger_inv d → walletTx user a now dbnow d = inr (w, d') → ledger_inv d'.
Proof.
  intros Hl H. destruct (walletTx_case _ _ _ _ _ _ _ H) as (_ & l & Hg & ->).
  assert (Hput : ledger_inv (set_ledger l d)).
  { destruct Hg as [->|(key & row & Hrow & ->)]; [by destruct d|].
    apply ledger_inv_put; [done|]. intros id. by apply grant_not_consumption. }
  eapply ledger_inv_mono; [exact Hput|done|]. simpl. intros id r Hr Hc. exists r. split; [|done].
  apply release_all_closed; [by apply stale_personal_open|done..].
Qed.

Lemma refreshSpace_ledger d s now dbnow w d' :
  inv d → ledger_inv d → refreshSpaceHostedAIWalletTx s now dbnow d = inr (w, d') → ledger_inv d'.
Proof.
  intros Hinv Hl H. destruct (refreshSpace_case _ _ _ _ _ _ Hinv H) as (_ & a & _ & _ & ->).
  eapply ledger_inv_mono; [exact Hl|done|]. simpl. intros id r Hr Hc. exists r. split; [|done].
  apply release_all_closed; [by apply stale_space_open|done..].
Qed.

(** Replacing a reservation that was not settled keeps the settled ones. *)
Lemma change_ledger d id r w' sw' :
  ledger_inv d → (∀ o, reservations d !! id = Some o → ¬ closed_for_good o) →
  ledger_inv (change id r w' sw' (ledger d) d).
Proof.
  intros Hl Hid. eapply ledger_inv_mono; [exact Hl|done|]. simpl. intros i o Ho Hc. exists o.
  rewrite lookup_insert_ne; [done|]. intros ->. by apply (Hid o).
Qed.

Lemma releaseTx_ledger d id x d' : inv d → ledger_inv d → releaseTx id d = inr (x, d') → ledger_inv d'.
Proof.
  intros Hinv Hl H. destruct (releaseTx_case _ _ _ _ Hinv H) as
    [[-> _]|(r & w & sw' & E & Ho & _ & _ & _ & ->)]; [done|].
  apply change_ledger; [done|]. intros o Ho'. simplify_eq. intros Hc%closed_not_open. congruence.
Qed.

Lemma reserveTx_ledger newID user s meter key amount now dbnow allowPartial d r d' :
  inv d → ledger_inv d → reserveTx newID user s meter key amount now dbnow allowPartial d = inr (r, d') →
  ledger_inv d'.
Proof.
  destruct r as [h w']. intros Hinv Hl H.
  destruct (reserveTx_case _ _ _ _ _ _ _ _ _ _ _ _ _ Hinv H) as (d1 & sw & w & Hst & Hw & Ho).
  assert (Hl1 : ledger_inv d1) by (destruct Hst; [done|by eapply refreshSpace_ledger]).
  destruct Ho as [id r|id n sw' _ Hid _ _ _]; [done|]. apply change_ledger; [done|].
  intros o Eo. destruct Hid as [(? & _)|(r & Er & _ & _ & _ & _ & Hr)]; [congruence|].
  simplify_eq. unfold closed_for_good. rewrite Hr. intros [|]; done.
Qed.

Lemma reserve_run newID user s tier meter key amount now dbnow p d :
  reserveHostedAIUsage newID user s tier meter key amount now dbnow p d = (d, inl ErrInvalidReservation) ∨
  ∃ d0 v, 0 < amount ∧ GetOrCreateHostedAIWallet user tier now dbnow d = (d0, v) ∧
  match v with
  | inl e => reserveHostedAIUsage newID user s tier meter key amount now dbnow p d = (d0, inl e)
  | inr _ => reserveHostedAIUsage newID user s tier meter key amount now dbnow p d =
      run (reserveTx newID user (TrimSpace s) meter key amount now dbnow p) d0
  end.
Proof.
  unfold reserveHostedAIUsage. destruct ((amount <=? 0) || _) eqn:E; [by left|]. right.
  apply orb_false_iff in E as [E _]. bool_to_prop.
  destruct (GetOrCreateHostedAIWallet user tier now dbnow d) as [d0 [e|w]] eqn:Eg;
    [exists d0, (inl e)|exists d0, (inr w)]; done.
Qed.

Definition sound (d : DB) : Prop := inv d ∧ ledger_inv d.

Lemma getWallet_sound user tier now dbnow d : sound d → sound (GetOrCreateHostedAIWallet user tier now dbnow d).1.
Proof.
  intros [Hi Hl]. apply (run_inv sound); [|by split]. intros w d' H.
  split; [exact (walletTx_inv _ _ _ _ _ _ _ Hi (proj1 (tier_allowance_ok tier)) H)|by eapply walletTx_ledger].
Qed.

Lemma exec_sound op d : sound d → sound (exec op d).
Proof.
  intros Hs. destruct op; simpl.
  - by apply getWallet_sound.
  - destruct Hs as [Hi Hl]. apply (run_inv sound); [|by split]. intros w d' H.
    split; [by eapply refreshSpace_inv|by eapply refreshSpace_ledger].
  - destruct (reserve_run newID user space tier meter key amount now dbnow allowPartial d)
      as [->|(d0 & v & _ & Eg & Er)]; [done|].
    pose proof (getWallet_sound user tier now dbnow d Hs) as H0. rewrite Eg in H0. simpl in H0.
    destruct v as [e|w]; rewrite Er; [done|]. destruct H0 as [Hi Hl].
    apply (run_inv sound); [|by split]. intros r d' H.
    split; [by eapply reserveTx_inv|by eapply reserveTx_ledger].
  - destruct Hs as [Hi Hl]. apply (run_inv sound); [|by split]. intros w d' H.
    split; [by eapply releaseTx_inv|by eapply releaseTx_ledger].
  - destruct Hs as [Hi Hl]. apply (run_inv sound); [|by split]. intros w d' H.
    split; [by eapply settleTx_inv|by eapply settleTx_ledger].
  - unfold RefundHostedAIReservation. case_if; [done|].
    destruct Hs as [Hi Hl]. apply (run_inv sound); [|by split]. intros w d' H.
    split; [by eapply refundTx_inv|by eapply refundTx_ledger].
Qed.

Lemma directory_sound d us sp ms ls : sound d → sp !! ""%string = None →
  sound (mkDB us sp ms ls (wallets d) (space_wallets d) (reservations d) (ledger d)).
Proof. intros [[? ? ? ? ?] [? ?]] Hsp. by split; split. Qed.

Lemma reach_sound d : reach d → sound d.
Proof.
  induction 1 as [us sp ms ls Hsp|d op _ IH|d us sp ms ls _ IH Hsp].
  - split; split; simpl; try done; intros *; rewrite ?lookup_empty; done.
  - by apply exec_sound.
  - by apply directory_sound.
Qed.

(** ** Properties *)

(** C1: in every run, each member's wallet stays between zero and its allowance,
    and the amount it holds back is exactly the sum of that member's open
    reservations; the same holds of each Space's wallet. *)
Theorem wallets_sound d :
  reach d →
  (∀ u w, wallets d !! u = Some w →
     0 <= WeeklyRemainingMicrousd w <= WeeklyAllowanceMicrousd w ∧
     ReservedMicrousd w = total (of_user u is_open) (reservations d)) ∧
  (∀ s w, space_wallets d !! s = Some w →
     0 <= WeeklyRemainingMicrousd w <= WeeklyAllowanceMicrousd w ∧
     ReservedMicrousd w = total (of_space s is_open) (reservations d)).
Proof.
  intros [Hinv _]%reach_sound. split; intros k w Hw.
  - destruct (inv_wallet _ Hinv k w Hw) as ((? & _ & _) & ?). done.
  - destruct (inv_space _ Hinv k w Hw) as (_ & (? & _ & _) & ?). done.
Qed.

(** A wallet that covers everything reserved from it. *)
Definition covered (m : gmap string HostedAIWallet) (k : string) : Prop :=
  ∃ w, m !! k = Some w ∧ ReservedMicrousd w <= WeeklyRemainingMicrousd w.

Lemma reserve_amount_spec w sw amount p hasSpace n :
  hostedAIReserveAmount w sw amount p hasSpace = inr n → wallet_ok w → (hasSpace = true → wallet_ok sw) → 0 < n →
  n <= amount ∧ ReservedMicrousd w + n <= WeeklyRemainingMicrousd w ∧
  (hasSpace = true → ReservedMicrousd sw + n <= WeeklyRemainingMicrousd sw).
Proof.
  intros H Hw Hsw Hn. unfold hostedAIReserveAmount in H.
  rewrite (Available_exact w Hw) in H. destruct hasSpace; simpl in H.
  - specialize (Hsw eq_refl). rewrite (Available_exact sw Hsw) in H.
    repeat case_if; simplify_eq; bool_to_prop; lia.
  - repeat case_if; simplify_eq; bool_to_prop; lia.
Qed.

Lemma outcome_covered newID user s meter key amount dbnow p d1 w sw h w' d' :
  inv d1 → wallets d1 !! user = Some w → (s ≠ ""%string → space_wallets d1 !! s = Some sw) →
  reserve_outcome newID user s meter key amount dbnow p d1 w sw h w' d' →
  (∃ r, reservations d' !! hr_ID h = Some r ∧ res_user r = user ∧ res_space r = s ∧ res_key r = key ∧
     res_amount r = hr_amount h ∧ res_status r = hr_status h ∧ hr_amount h <= amount) ∧
  ((∃ r, reservations d1 !! hr_ID h = Some r ∧ res_status r ≠ released) ∨
   covered (wallets d') user ∧ (s ≠ ""%string → covered (space_wallets d') s)).
Proof.
  intros Hinv Hw Hsw [id r E Hk Hu Hs Hm Ha Hr|id n sw' Hamt Hid Hn Hc Hsp]; simpl.
  - split; [|left; eauto]. exists r. split_and!; try done. lia.
  - destruct (inv_wallet _ Hinv _ _ Hw) as [Hok _].
    destruct (reserve_amount_spec _ _ _ _ _ _ Hamt Hok) as (Hle & Hper & Hspc); [|done|].
    { intros Hne%negb_true_iff. bool_to_prop. by destruct (inv_space _ Hinv _ _ (Hsw Hne)) as (_ & ? & _). }
    rewrite lookup_insert_eq. split; [by eexists|right]. split.
    + exists (add_reserved n w). rewrite lookup_insert_eq. simpl. split; [done|lia].
    + intros Hne. destruct sw' as [sw'|]; [|done]. destruct Hsp as (_ & sw0 & Hsw0 & -> & _).
      assert (sw0 = sw) as -> by (rewrite Hsw in Hsw0 by done; congruence).
      exists (add_reserved n sw). rewrite lookup_insert_eq. split; [done|]. simpl. apply Hspc.
      by rewrite bool_decide_false.
Qed.

Lemma release_all_status p m id r' :
  release_all p m !! id = Some r' →
  ∃ r, m !! id = Some r ∧ (r' = r ∨ p r = true ∧ r' = set_status released r).
Proof.
  unfold release_all. intros H. apply lookup_fmap_Some in H as (r & <- & E). exists r. split; [done|].
  destruct (p r); auto.
Qed.

(** The states a reservation call passes through keep what is not stale. *)
Lemma wallet_release_back user tier now dbnow d d0 v id r :
  GetOrCreateHostedAIWallet user tier now dbnow d = (d0, inr v) → reservations d0 !! id = Some r →
  ∃ r0, reservations d !! id = Some r0 ∧
    (r = r0 ∨ stale_personal user dbnow r0 = true ∧ r = set_status released r0).
Proof.
  unfold GetOrCreateHostedAIWallet. intros H%run_commit Hr.
  destruct (walletTx_case _ _ _ _ _ _ _ H) as (_ & l & _ & ->). by apply release_all_status.
Qed.

Lemma start_release_back user s now dbnow d d1 sw id r :
  inv d → reserve_start user s now dbnow d d1 sw → reservations d1 !! id = Some r →
  ∃ r0, reservations d !! id = Some r0 ∧
    (r = r0 ∨ is_open r0 = true ∧ r = set_status released r0).
Proof.
  intros Hinv [->|d2 sw2 _ H _] Hr; [eauto|].
  destruct (refreshSpace_case _ _ _ _ _ _ Hinv H) as (_ & a & _ & _ & ->).
  apply release_all_status in Hr as (r0 & ? & [->|[Ho ->]]); exists r0; [by auto|].
  apply stale_space_open in Ho. auto.
Qed.

(** Reservations cannot oversubscribe an allowance.  A successful call
    returns a stored reservation of at most the requested amount, and unless it
    only repeated an earlier reservation, everything then reserved from the
    member's wallet, and from the Space's, is covered by what remains in it. *)
Theorem reserve_within_allowance newID user s tier meter key amount now dbnow p d d' h w' :
  reach d →
  reserveHostedAIUsage newID user s tier meter key amount now dbnow p d = (d', inr (h, w')) →
  (∃ r, reservations d' !! hr_ID h = Some r ∧ res_user r = user ∧ res_space r = TrimSpace s ∧ res_key r = key ∧
     res_amount r = hr_amount h ∧ res_status r = hr_status h ∧ hr_amount h <= amount) ∧
  ((∃ r, reservations d !! hr_ID h = Some r ∧ res_status r ≠ released) ∨
   covered (wallets d') user ∧ (TrimSpace s ≠ ""%string → covered (space_wallets d') (TrimSpace s))).
Proof.
  intros Hs%reach_sound Hcall.
  destruct (reserve_run newID user s tier meter key amount now dbnow p d) as [Hr|(d0 & v & _ & Eg & Er)];
    [congruence|].
  pose proof (getWallet_sound user tier now dbnow d Hs) as H0. rewrite Eg in H0. simpl in H0.
  destruct v as [e|w0]; rewrite Er in Hcall; [done|]. destruct H0 as [Hinv _].
  apply run_commit in Hcall.
  destruct (reserveTx_case _ _ _ _ _ _ _ _ _ _ _ _ _ Hinv Hcall) as (d1 & sw & w & Hst & Hw & Ho).
  destruct (reserve_start_inv _ _ _ _ _ _ _ Hinv Hst) as [Hinv1 Hsw].
  destruct (outcome_covered _ _ _ _ _ _ _ _ _ _ _ _ _ _ Hinv1 Hw Hsw Ho) as [H1 [(r & Hr1 & Hr2)|H2]];
    (split; [done|]); [left|by right].
  apply (start_release_back _ _ _ _ _ _ _ _ _ Hinv Hst) in Hr1 as (r0 & Hr0 & [->|[_ ->]]); [|done].
  apply (wallet_release_back _ _ _ _ _ _ _ _ _ Eg) in Hr0 as (r & Hr & [->|[_ ->]]); [|done]. eauto.
Qed.

(** What a settlement charges: the usage, but never more than the wallets hold
    beyond what is reserved for other calls. *)
Definition settled_charge (d : DB) (r : Reservation) (w : HostedAIWallet) (usage : HostedAIUsage) : Z :=
  Z.min (requestedCharge usage)
    match space_wallet_of d r with
    | Some sw => Z.min (payable w (res_amount r)) (payable sw (res_amount r))
    | None => payable w (res_amount r)
    end.

Lemma settle_charge_exact d id r w usage :
  inv d → reservations d !! id = Some r → is_open r = true → wallets d !! res_user r = Some w →
  settle_charge d r w usage = settled_charge d r w usage.
Proof.
  intros Hinv E Ho Hw. destruct (settle_amounts _ _ _ _ Hinv E Ho Hw) as (Hok & Hn & Hs).
  unfold settle_charge. rewrite maximumCharge_exact by (done || lia). done.
Qed.

(** A statement on a row that satisfies its checks succeeds. *)
Lemma update_wallet_total u f d w :
  wallets d !! u = Some w → wallet_check (f w) = true →
  update_wallet u f d = inr ((), set_wallets (<[u := f w]> (wallets d)) d).
Proof. intros Hw Hc. unfold update_wallet, mbind, tx_bind, get. by rewrite Hw, Hc. Qed.
Lemma update_space_wallet_total s f d w :
  space_wallets d !! s = Some w → wallet_check (f w) = true →
  update_space_wallet s f d = inr ((), set_space_wallets (<[s := f w]> (space_wallets d)) d).
Proof. intros Hw Hc. unfold update_space_wallet, mbind, tx_bind, get. by rewrite Hw, Hc. Qed.

Lemma settle_succeeds d env id key usage r :
  inv d → reservations d !! id = Some r → is_open r = true →
  ∃ v d', settleTx env id key usage d = inr (v, d').
Proof.
  intros Hinv E Ho. destruct (inv_wallets_of _ _ _ Hinv E) as (w & Hw & Hok & _).
  destruct (settle_amounts _ _ _ _ Hinv E Ho Hw) as (_ & Hn & Hs).
  destruct (settle_charge_bounds _ _ _ _ usage Hinv E Ho Hw) as [Hc Hcs].
  assert (Hck := pay_check _ _ _ Hok (conj (Z.lt_le_incl _ _ (proj1 Hn)) (proj2 Hn)) Hc).
  unfold settleTx, mbind, tx_bind, get, require. rewrite E. unfold mret, tx_ret.
  unfold select_wallet, select_space_wallet, mbind, tx_bind, get, require, mret, tx_ret. rewrite Hw.
  unfold settle_charge, space_wallet_of in *.
  destruct (decide (res_space r = ""%string)) as [Es|Es].
  - rewrite !bool_decide_true by done. simpl. rewrite Ho. simpl.
    rewrite (update_wallet_total _ _ _ _ Hw) by done. simpl. eauto.
  - rewrite !bool_decide_false by done. simpl. destruct (inv_res _ Hinv _ _ E) as (_ & _ & Hsp).
    destruct (Hsp Es) as [sw Hsw]. rewrite Hsw. rewrite Hsw in Hs, Hcs, Hck, Hc. simpl.
    rewrite Ho. simpl. rewrite (update_wallet_total _ _ _ _ Hw) by done. simpl.
    destruct (Hs sw eq_refl) as [Hoks Hns].
    rewrite (update_space_wallet_total _ _ _ sw); [simpl; eauto|done|].
    apply pay_check; [done|lia|]. split; [by destruct Hc|by apply Hcs].
Qed.

Lemma settle_effect env id key usage d r :
  inv d → reservations d !! id = Some r → is_open r = true →
  ∃ w v d', SettleHostedAIReservation env id key usage d = (d', inr v) ∧
  wallets d !! res_user r = Some w ∧
  let c := settled_charge d r w usage in
  0 <= c ∧
  wallets d' = <[res_user r := mkWallet (WeeklyAllowanceMicrousd w) (WeeklyRemainingMicrousd w - c)
                                 (ReservedMicrousd w - res_amount r) (ResetAt w)]> (wallets d) ∧
  space_wallets d' =
    match space_wallet_of d r with
    | Some sw => <[res_space r := mkWallet (WeeklyAllowanceMicrousd sw) (WeeklyRemainingMicrousd sw - c)
                                    (ReservedMicrousd sw - res_amount r) (ResetAt sw)]> (space_wallets d)
    | None => space_wallets d
    end ∧
  reservations d' = <[id := set_status settled r]> (reservations d).
Proof.
  intros Hinv E Ho.
  destruct (settle_succeeds d env id key usage r Hinv E Ho) as (v & d' & H).
  destruct (settleTx_case _ _ _ _ _ _ _ Hinv H) as (r1 & w & E1 & Hw & [(Hc & _)|(_ & _ & Hc & sw' & Hsp & ->)]);
    simplify_eq; [congruence|].
  eexists w, _, (change id (set_status settled r) (pay (settle_charge d r w usage) (res_amount r) w) sw'
    (ledger_put key (settle_row env id r usage (settle_charge d r w usage)) (ledger d)) d).
  split; [by apply run_commit|]. split; [done|]. cbv zeta.
  rewrite <- (settle_charge_exact d id r w usage) by done.
  destruct (settle_charge_bounds _ _ _ _ usage Hinv E Ho Hw) as [[Hc0 _] _].
  destruct (settle_amounts _ _ _ _ Hinv E Ho Hw) as (_ & Hn & Hs).
  assert (Hpay : ∀ v, res_amount r <= ReservedMicrousd v →
    pay (settle_charge d r w usage) (res_amount r) v =
    mkWallet (WeeklyAllowanceMicrousd v) (WeeklyRemainingMicrousd v - settle_charge d r w usage)
      (ReservedMicrousd v - res_amount r) (ResetAt v)).
  { intros u Hu. unfold pay. f_equal. lia. }
  split_and!; [done| |  |done]; simpl.
  - by rewrite Hpay by lia.
  - unfold space_wallet_of in *. destruct sw' as [sw'|].
    + destruct Hsp as (Hne & sw & Hsw & -> & _). rewrite decide_False in * by done. rewrite Hsw in *.
      rewrite Hpay; [done|]. by destruct (Hs sw eq_refl).
    + by rewrite decide_True.
Qed.

(** Settling an open reservation always succeeds.  It charges
    [settled_charge] to the member's wallet and, for a Space request, the same
    amount to the Space's wallet, gives the reserved amount back to both, closes
    the reservation and touches nobody else's balance. *)
Theorem settle_exact env id key usage d r :
  reach d → reservations d !! id = Some r → is_open r = true →
  ∃ w v d', SettleHostedAIReservation env id key usage d = (d', inr v) ∧
  wallets d !! res_user r = Some w ∧
  let c := settled_charge d r w usage in
  0 <= c ∧
  wallets d' = <[res_user r := mkWallet (WeeklyAllowanceMicrousd w) (WeeklyRemainingMicrousd w - c)
                                 (ReservedMicrousd w - res_amount r) (ResetAt w)]> (wallets d) ∧
  space_wallets d' =
    match space_wallet_of d r with
    | Some sw => <[res_space r := mkWallet (WeeklyAllowanceMicrousd sw) (WeeklyRemainingMicrousd sw - c)
                                    (ReservedMicrousd sw - res_amount r) (ResetAt sw)]> (space_wallets d)
    | None => space_wallets d
    end ∧
  reservations d' = <[id := set_status settled r]> (reservations d).
Proof. intros [Hinv _]%reach_sound. by apply settle_effect. Qed.


(** ** Spending *)

(** What a ledger row records as spent by a user: a consumption adds its charge,
    a refund takes its delta back, grants and adjustments are not spending. *)
Definition net (u : string) (row : LedgerRow) : Z :=
  if bool_decide (led_user row = u) then
    if bool_decide (led_source row = "consumption"%string) then led_charged row
    else if HasPrefix (led_source row) "internal_failure_refund" then - led_delta row else 0
  else 0.

Definition spent (u : string) (d : DB) : Z := msum (net u) (ledger d).

(** Going from [d] to [d'] leaves [u]'s plan and week alone, and whatever the
    ledger says was spent came out of [u]'s remaining allowance. *)
Definition conserves (u : string) (d d' : DB) : Prop :=
  ∀ w, wallets d !! u = Some w →
  ∃ w', wallets d' !! u = Some w' ∧ WeeklyAllowanceMicrousd w' = WeeklyAllowanceMicrousd w ∧
    ResetAt w' = ResetAt w ∧
    WeeklyRemainingMicrousd w' + spent u d' <= WeeklyRemainingMicrousd w + spent u d.

#[export] Instance conserves_preorder u : PreOrder (conserves u).
Proof.
  split.
  - intros d w Hw. exists w. split_and!; [done..|lia].
  - intros d1 d2 d3 H12 H23 w Hw. destruct (H12 w Hw) as (w2 & Hw2 & ? & ? & ?).
    destruct (H23 w2 Hw2) as (w3 & Hw3 & ? & ? & ?). exists w3. split_and!; [done|congruence..|lia].
Qed.

Lemma spent_put u key row l :
  msum (net u) (ledger_put key row l) = msum (net u) l + (if decide (l !! key = None) then net u row else 0).
Proof.
  unfold ledger_put. case_decide; [rewrite msum_insert_new by done|]; lia.
Qed.

Lemma net_grant u row : is_grant row → net u row = 0.
Proof. intros [_ [H|H]]; unfold net; rewrite H; by case_bool_decide. Qed.

Lemma net_other u row : led_user row ≠ u → net u row = 0.
Proof. intros. unfold net. by rewrite bool_decide_false. Qed.

Lemma net_settle env id r usage c : net (res_user r) (settle_row env id r usage c) = c.
Proof. unfold net. simpl. by rewrite bool_decide_true. Qed.

Lemma net_refund id reason r row n : net (res_user r) (refund_row id reason r row n) = - n.
Proof.
  unfold net. simpl. rewrite bool_decide_true by done. unfold refundSource. by rewrite HasPrefix_app.
Qed.

(** Changes of a reservation, with their effect on the member's wallet. *)
Lemma change_conserves u id r w w' sw' l d :
  wallets d !! res_user r = Some w →
  WeeklyAllowanceMicrousd w' = WeeklyAllowanceMicrousd w → ResetAt w' = ResetAt w →
  (if decide (res_user r = u) then WeeklyRemainingMicrousd w' + msum (net u) l <= WeeklyRemainingMicrousd w + spent u d
   else msum (net u) l = spent u d) →
  conserves u d (change id r w' sw' l d).
Proof.
  intros Hw Ha Hr Hs v Hv. unfold spent. simpl. case_decide as E.
  - subst u. assert (v = w) as -> by congruence. exists w'. rewrite lookup_insert_eq. done.
  - exists v. rewrite lookup_insert_ne by done. split_and!; [done..|]. unfold spent in *. lia.
Qed.

Lemma walletTx_conserves u d user a now dbnow w d' :
  walletTx user a now dbnow d = inr (w, d') →
  (user = u → ∃ w0, wallets d !! u = Some w0 ∧ WeeklyAllowanceMicrousd w0 = a ∧ now < ResetAt w0) →
  conserves u d d'.
Proof.
  intros H Hu. destruct (walletTx_case _ _ _ _ _ _ _ H) as (-> & l & Hg & ->). intros v Hv.
  assert (Hl : msum (net u) l = spent u d).
  { destruct Hg as [->|(key & row & Hrow & ->)]; [done|]. rewrite spent_put, net_grant by done.
    unfold spent. case_decide; lia. }
  unfold spent at 1. simpl. destruct (decide (user = u)) as [->|Hne].
  - destruct (Hu eq_refl) as (w0 & Hw0 & Ha & Hnow). assert (w0 = v) as -> by congruence.
    eexists. rewrite lookup_insert_eq. split; [done|].
    unfold refreshed_wallet, prior_wallet, refreshed. rewrite Hv. simpl.
    rewrite ?(bool_decide_false (Some v = None)) by done. simpl.
    destruct (Z.leb_spec (ResetAt v) now); [lia|]. simpl. rewrite Ha, Z.eqb_refl. simpl. split_and!; [done..|lia].
  - exists v. rewrite lookup_insert_ne by done. split_and!; [done..|lia].
Qed.

Lemma refreshSpace_conserves u d s now dbnow w d' :
  inv d → refreshSpaceHostedAIWalletTx s now dbnow d = inr (w, d') → conserves u d d'.
Proof.
  intros Hinv H. destruct (refreshSpace_case _ _ _ _ _ _ Hinv H) as (_ & a & _ & _ & ->).
  intros v Hv. simpl. rewrite map_lookup_imap, Hv. simpl. eexists. split; [done|].
  unfold personal_release. unfold spent. simpl. case_if; simpl; split_and!; [done..|lia|done|done|lia].
Qed.

Lemma reserveTx_conserves u newID user s meter key amount now dbnow p d r d' :
  inv d → reserveTx newID user s meter key amount now dbnow p d = inr (r, d') → conserves u d d'.
Proof.
  destruct r as [h w']. intros Hinv H.
  destruct (reserveTx_case _ _ _ _ _ _ _ _ _ _ _ _ _ Hinv H) as (d1 & sw & w & Hst & Hw & Ho).
  transitivity d1.
  - destruct Hst; [done|by eapply refreshSpace_conserves].
  - destruct Ho as [id r|id n sw' _ _ _ _ _]; [done|]. eapply change_conserves; simpl; try done.
    case_decide; unfold spent; simpl; lia.
Qed.

Lemma releaseTx_conserves u d id x d' : inv d → releaseTx id d = inr (x, d') → conserves u d d'.
Proof.
  intros Hinv H. destruct (releaseTx_case _ _ _ _ Hinv H) as
    [[-> _]|(r & w & sw' & E & Ho & Hw & _ & _ & ->)]; [done|].
  eapply change_conserves; simpl; try done. case_decide; unfold spent; simpl; lia.
Qed.

Lemma settleTx_conserves u d env id key usage v d' :
  inv d → settleTx env id key usage d = inr (v, d') → conserves u d d'.
Proof.
  intros Hinv H. destruct (settleTx_case _ _ _ _ _ _ _ Hinv H) as
    (r & w & E & Hw & [(_ & -> & _)|(Ho & _ & Hc & sw' & Hsp & ->)]); [done|].
  destruct (settle_charge_bounds _ _ _ _ usage Hinv E Ho Hw) as [[Hc0 _] _].
  eapply change_conserves; simpl; try done. rewrite spent_put. unfold spent. case_decide as Eu.
  - subst u. rewrite net_settle. case_decide; lia.
  - rewrite net_other by done. case_decide; lia.
Qed.

Lemma refundTx_conserves u d id key reason v d' :
  inv d → ledger_inv d → refundTx id key reason d = inr (v, d') → conserves u d d'.
Proof.
  intros Hinv Hl H. destruct (refundTx_case _ _ _ _ _ _ Hinv H) as
    (r & row & w & E & Hrow & Hw & [(_ & -> & _)|(Hk & _ & Hc & _ & ->)]); [done|].
  apply consumption_some in Hrow as (k & Hkr & Hcons).
  destruct (led_settled _ Hl k row id Hkr Hcons) as (Hch & _).
  destruct (inv_wallet _ Hinv _ _ Hw) as [Hok _].
  eapply change_conserves; simpl; try done. rewrite msum_insert_new by done. unfold spent. case_decide as Eu.
  - subst u. rewrite net_refund. simpl. lia.
  - rewrite net_other by done. lia.
Qed.

(** An operation that does not start a new week or another plan for [u]. *)
Definition same_week (u : string) (allowance resetAt : Z) (op : wallet_op) : Prop :=
  match op with
  | OpWallet user tier now _ | OpReserve _ user _ tier _ _ _ now _ _ =>
      user = u → WeeklyHostedAIAllowance (EntitlementsForTier tier) = allowance ∧ now < resetAt
  | _ => True
  end.

Lemma exec_conserves u w op d :
  sound d → wallets d !! u = Some w → same_week u (WeeklyAllowanceMicrousd w) (ResetAt w) op →
  conserves u d (exec op d).
Proof.
  intros [Hi Hl] Hw Hop.
  assert (Hrun : ∀ A (m : M A), (∀ a d', m d = inr (a, d') → conserves u d d') → conserves u d (run m d).1)
    by (intros; by apply (run_inv (conserves u d))).
  assert (Hget : ∀ user tier now dbnow, same_week u (WeeklyAllowanceMicrousd w) (ResetAt w) (OpWallet user tier now dbnow) →
    conserves u d (GetOrCreateHostedAIWallet user tier now dbnow d).1).
  { intros user tier now dbnow Hsw. apply Hrun. intros v d' H. eapply walletTx_conserves; [exact H|].
    intros Hu. destruct (Hsw Hu) as [? ?]. eauto. }
  destruct op; simpl.
  - by apply Hget.
  - apply Hrun. intros v d'. by apply refreshSpace_conserves.
  - destruct (reserve_run newID user space tier meter key amount now dbnow allowPartial d)
      as [->|(d0 & v & _ & Eg & Er)]; [done|].
    pose proof (Hget user tier now dbnow Hop) as H0.
    pose proof (getWallet_sound user tier now dbnow d (conj Hi Hl)) as Hs0. rewrite Eg in H0, Hs0. simpl in H0, Hs0.
    destruct v as [e|w0]; rewrite Er; [done|]. destruct Hs0 as [Hi0 _].
    apply (run_inv (conserves u d)); [|done]. intros r d' H. transitivity d0; [done|].
    by eapply reserveTx_conserves.
  - apply Hrun. intros v d'. by apply releaseTx_conserves.
  - apply Hrun. intros v d'. by apply settleTx_conserves.
  - unfold RefundHostedAIReservation. case_if; [done|]. apply Hrun. intros v d'. by apply refundTx_conserves.
Qed.

Definition exec_all (ops : list wallet_op) (d : DB) : DB := fold_left (λ d op, exec op d) ops d.

Lemma exec_all_conserves u ops d w :
  sound d → wallets d !! u = Some w → Forall (same_week u (WeeklyAllowanceMicrousd w) (ResetAt w)) ops →
  conserves u d (exec_all ops d).
Proof.
  revert d w. induction ops as [|op ops IH]; intros d w Hs Hw Hops; [done|].
  inversion Hops as [|? ? Hop Hops']; subst. simpl.
  pose proof (exec_conserves u w op d Hs Hw Hop) as Hc.
  destruct (Hc w Hw) as (w1 & Hw1 & Ha & Hr & _). transitivity (exec op d); [done|].
  apply (IH _ w1); [by apply exec_sound|done|]. by rewrite Ha, Hr.
Qed.

(** C3: a member cannot overspend a week.  Over any sequence of operations of
    any members within one week and plan, what the ledger charges the member,
    net of refunds, is at most what its wallet lost, and so at most the
    allowance. *)
Theorem weekly_spend_bounded u ops d w :
  reach d → wallets d !! u = Some w →
  Forall (same_week u (WeeklyAllowanceMicrousd w) (ResetAt w)) ops →
  ∃ w', wallets (exec_all ops d) !! u = Some w' ∧
    spent u (exec_all ops d) - spent u d <= WeeklyRemainingMicrousd w - WeeklyRemainingMicrousd w' ∧
    spent u (exec_all ops d) - spent u d <= WeeklyAllowanceMicrousd w.
Proof.
  intros Hs%reach_sound Hw Hops.
  destruct (exec_all_conserves u ops d w Hs Hw Hops w Hw) as (w' & Hw' & Ha & _ & Hle).
  exists w'. split; [done|].
  assert (sound (exec_all ops d)) as [Hi' _].
  { clear -Hs. unfold exec_all. revert d Hs. induction ops as [|op ops IH]; intros d Hs; simpl; [done|].
    apply IH. by apply exec_sound. }
  destruct (inv_wallet _ Hi' _ _ Hw') as [[? _] _].
  destruct (inv_wallet _ (proj1 Hs) _ _ Hw) as [[? _] _]. lia.
Qed.

Lemma consumption_exists id m k row :
  m !! k = Some row → is_consumption id row → ∃ row', consumption id m = Some row'.
Proof.
  intros Hk Hc. unfold consumption. destruct (filter _ (map_to_list m)) as [|[k' row'] l] eqn:E; [|by eexists].
  apply filter_nil_iff with (x := (k, row)) in E; [done|]. by apply elem_of_map_to_list.
Qed.

(** A refund gives back at most what the reservation was charged and never
    lifts a wallet above its allowance; repeating it under the same key changes
    nothing. *)
Theorem refund_once id key reason d d' v :
  reach d → RefundHostedAIReservation id key reason d = (d', inr v) →
  (∃ r row w w', reservations d !! id = Some r ∧ consumption id (ledger d) = Some row ∧
     wallets d !! res_user r = Some w ∧ wallets d' !! res_user r = Some w' ∧
     WeeklyRemainingMicrousd w <= WeeklyRemainingMicrousd w' <= WeeklyRemainingMicrousd w + led_charged row ∧
     WeeklyRemainingMicrousd w' <= WeeklyAllowanceMicrousd w) ∧
  ∃ v', RefundHostedAIReservation id key reason d' = (d', inr v').
Proof.
  intros [Hinv Hl]%reach_sound Hcall. unfold RefundHostedAIReservation in *.
  destruct (bool_decide (TrimSpace id = ""%string) || bool_decide (TrimSpace key = ""%string)); [done|].
  apply run_commit in Hcall.
  pose proof (refundTx_inv _ _ _ _ _ _ Hinv Hl Hcall) as Hinv'.
  destruct (refundTx_case _ _ _ _ _ _ Hinv Hcall) as (r & row & w & E & Hrow & Hw & Hcase).
  pose proof (consumption_some _ _ _ Hrow) as (k & Hkr & Hcons).
  destruct (led_settled _ Hl k row id Hkr Hcons) as (Hch & _).
  destruct (inv_wallet _ Hinv _ _ Hw) as [Hok _].
  assert (Hagain : ∀ d2 r2 row2 w2, reservations d2 !! id = Some r2 → consumption id (ledger d2) = Some row2 →
    wallets d2 !! res_user r2 = Some w2 → inv d2 → is_Some (ledger d2 !! key) →
    ∃ v', run (refundTx id key reason) d2 = (d2, inr v')).
  { intros d2 r2 row2 w2 E2 Hrow2 Hw2 Hi2 [? Hk2]. exists w2. apply run_commit.
    unfold refundTx, mbind, tx_bind, get, require. rewrite E2. unfold mret, tx_ret. rewrite Hrow2. unfold mret, tx_ret. rewrite Hw2.
    unfold mret, tx_ret. destruct (inv_res _ Hi2 _ _ E2) as (_ & _ & Hsp2).
    destruct (decide (res_space r2 = ""%string)) as [Es|Es].
    - rewrite bool_decide_true by done. simpl. by rewrite Hk2.
    - rewrite bool_decide_false by done. simpl. destruct (Hsp2 Es) as [sw ->]. simpl. by rewrite Hk2. }
  destruct Hcase as [(Hk & -> & _)|(Hk & _ & _ & _ & ->)].
  - split; [|by eapply Hagain]. exists r, row, w, w. unfold wallet_ok in Hok. split_and!; try done; lia.
  - destruct (credit_ok (led_charged row) w Hok Hch) as [Hok' Hrem].
    pose proof (refundable_exact (led_charged row) w Hok Hch) as Hn. unfold wallet_ok in Hok, Hok'. split.
    + exists r, row, w, (credit (refundable (led_charged row) w) w). simpl. rewrite lookup_insert_eq.
      split_and!; [done..| | |]; simpl in *; lia.
    + destruct (consumption_exists id (<[key := refund_row id reason r row (refundable (led_charged row) w)]> (ledger d))
        k row) as [row2 Hrow2]; [rewrite lookup_insert_ne by congruence; done|done|].
      eapply Hagain; simpl.
      * by rewrite lookup_insert_eq.
      * exact Hrow2.
      * simpl. by rewrite lookup_insert_eq.
      * exact Hinv'.
      * rewrite lookup_insert_eq. eauto.
Qed.

(** ** Retries *)

(** A reservation that a retry at [dbnow] still finds. *)
Definition alive (r : Reservation) (dbnow : Z) : Prop :=
  closed_for_good r ∨ res_status r = reserved ∧ dbnow - stale_after <= res_created r.

Lemma release_all_keeps p m id r : m !! id = Some r → p r = false → release_all p m !! id = Some r.
Proof. intros Hm Hp. unfold release_all. rewrite lookup_fmap, Hm. simpl. by rewrite Hp. Qed.

Lemma alive_not_stale r dbnow user s :
  alive r dbnow → stale_personal user dbnow r = false ∧ stale_space s dbnow r = false.
Proof.
  intros H. assert (Hs : is_open r && (res_created r <? dbnow - stale_after) = false).
  { destruct H as [Hc%closed_not_open|[_ Hc]]; [by rewrite Hc|].
    apply andb_false_iff. right. apply Z.ltb_ge. lia. }
  unfold stale_personal, stale_space. rewrite <- !andb_assoc, Hs. by rewrite !andb_false_r.
Qed.

Lemma alive_not_released r dbnow : alive r dbnow → res_status r ≠ released.
Proof. unfold alive, closed_for_good. intros [[-> | ->]|[-> _]]; done. Qed.

(** a retried reservation is the first one.  When the key's reservation is
    settled, refunded, or open and not stale, a successful call returns that
    reservation unchanged and opens no other one. *)
Theorem reserve_retry newID user s tier meter key amount now dbnow p d d' h w' id r :
  reach d → reservations d !! id = Some r → res_key r = key → alive r dbnow →
  reserveHostedAIUsage newID user s tier meter key amount now dbnow p d = (d', inr (h, w')) →
  h = mkHandle id user (TrimSpace s) (res_amount r) (res_status r) ∧
  reservations d' !! id = Some r ∧
  ∀ i o, reservations d' !! i = Some o → is_open o = true → reservations d !! i = Some o.
Proof.
  intros Hs%reach_sound E Hkey Halive Hcall.
  destruct (reserve_run newID user s tier meter key amount now dbnow p d) as [Hr|(d0 & v & _ & Eg & Er)];
    [congruence|].
  pose proof (getWallet_sound user tier now dbnow d Hs) as H0. rewrite Eg in H0. simpl in H0.
  destruct v as [e|w0]; rewrite Er in Hcall; [done|]. destruct H0 as [Hinv _]. apply run_commit in Hcall.
  destruct (reserveTx_case _ _ _ _ _ _ _ _ _ _ _ _ _ Hinv Hcall) as (d1 & sw & w & Hst & Hw & Ho).
  destruct (reserve_start_inv _ _ _ _ _ _ _ Hinv Hst) as [Hinv1 _].
  destruct (alive_not_stale r dbnow user (TrimSpace s) Halive) as [Hsp Hss].
  assert (E0 : reservations d0 !! id = Some r).
  { unfold GetOrCreateHostedAIWallet in Eg. apply run_commit in Eg.
    destruct (walletTx_case _ _ _ _ _ _ _ Eg) as (_ & l & _ & ->). by apply release_all_keeps. }
  assert (E1 : reservations d1 !! id = Some r).
  { destruct Hst as [|d1 sw _ H _]; [done|].
    destruct (refreshSpace_case _ _ _ _ _ _ Hinv H) as (_ & a & _ & _ & ->). by apply release_all_keeps. }
  destruct Ho as [id1 r1 Er1 Hk1 Hu1 Hs1 _ _ _|id1 n sw' _ Hid _ _ _].
  - assert (id = id1) as <- by (apply (inv_key _ Hinv1 id id1 r r1); [done..|congruence]).
    assert (r1 = r) as -> by congruence. split_and!; [done..|]. intros i o Hi Hopen.
    apply (start_release_back _ _ _ _ _ _ _ _ _ Hinv Hst) in Hi as (o0 & Hi & [->|[_ ->]]); [|done].
    by apply (wallet_release_back _ _ _ _ _ _ _ _ _ Eg) in Hi as (o1 & ? & [->|[_ ->]]).
  - exfalso. destruct Hid as [(_ & _ & Hk)|(r1 & Er1 & Hk1 & _ & _ & _ & Hr1)]; [by apply (Hk id r)|].
    assert (id = id1) as <- by (apply (inv_key _ Hinv1 id id1 r r1); [done..|congruence]).
    assert (r1 = r) as -> by congruence. by apply (alive_not_released r dbnow).
Qed.

(** ** Weeks *)

(** allowances renew on the Monday midnight that follows: the reset is
    strictly later than the present, at most a week away, at midnight UTC on a
    Monday, and no Monday midnight lies in between. *)
Theorem reset_is_next_monday now :
  now < nextWeeklyReset now <= now + Week ∧
  nextWeeklyReset now mod Day = 0 ∧ Weekday (nextWeeklyReset now) = 1 ∧
  ∀ t, now < t → t mod Day = 0 → Weekday t = 1 → nextWeeklyReset now <= t.
Proof.
  unfold nextWeeklyReset. pose proof (day_of_bounds now) as Hb. unfold midnight in *.
  assert (Weekday (day_of now * Day) = (day_of now + 4) mod 7) as ->
    by (unfold Weekday; by rewrite day_of_midnight).
  set (n := day_of now) in *. pose proof (Z.mod_pos_bound (n + 4) 7 ltac:(lia)) as Hm.
  assert (Hdays : ∃ k, (if Z.rem (8 - (n + 4) mod 7) 7 =? 0 then 7 else Z.rem (8 - (n + 4) mod 7) 7) = k ∧
    1 <= k <= 7 ∧ (n + 4 + k) mod 7 = 1).
  { eexists. split; [done|]. rewrite Z.rem_mod_nonneg by lia.
    destruct (Z.eqb_spec ((8 - (n + 4) mod 7) mod 7) 0); split; Z.div_mod_to_equations; lia. }
  destruct Hdays as (k & -> & Hk & Hmod).
  replace (n * Day + k * Day) with ((n + k) * Day) by lia.
  unfold Week. assert (0 < Day) as HD by apply Day_pos. split_and!.
  - nia.
  - nia.
  - apply Z.mod_mul. lia.
  - unfold Weekday. rewrite day_of_midnight. by replace (n + k + 4) with (n + 4 + k) by lia.
  - intros t Ht Htd Htw. assert (t = day_of t * Day) as Et.
    { unfold day_of. pose proof (Z.div_mod t Day ltac:(lia)). lia. }
    unfold Weekday in Htw. set (m := day_of t) in *. rewrite Et in *.
    assert (n < m) by nia. assert (n + k <= m); [|nia].
    clear -Hmod Htw Hk H. Z.div_mod_to_equations. lia.
Qed.

(** ** Witnesses *)

Definition demo_db : DB :=
  mkDB {["u"%string]} {["s"%string := mkSpace "u" "active"]} {[("s", "u")%string]}
    {["u"%string := mkLicense "lic" TierPro LicenseStatusActive None None None]} ∅ ∅ ∅ ∅.
Definition demo_usage : HostedAIUsage := mkUsage "p" "m" 10 0 20 0 240 300 0.

(** A reservation, then its settlement, then a refund. *)
Definition demo_reserve : wallet_op := OpReserve "r1" "u" "s" TierPro "assistant_ai" "k1" 500 0 0 true.
Definition demo_reserved : DB := exec demo_reserve demo_db.
Definition demo_settled : DB := exec (OpSettle "" "r1" "k1:settle" demo_usage) demo_reserved.
Definition demo_refunded : DB := exec (OpRefund "r1" "k1:refund" "why") demo_settled.
Definition demo_reservation : Reservation := mkReservation "u" "s" "k1" "assistant_ai" 500 reserved 0.
Definition demo_wallet : HostedAIWallet := mkWallet 900000 900000 500 (4 * Day).

Lemma demo_reach_db : reach demo_db.
Proof. apply reach_empty. reflexivity. Qed.
Lemma demo_reach_reserved : reach demo_reserved.
Proof. apply reach_op, demo_reach_db. Qed.
Lemma demo_reach_settled : reach demo_settled.
Proof. apply reach_op, demo_reach_reserved. Qed.

Lemma wallets_sound_witness :
  ∃ w, wallets demo_reserved !! "u"%string = Some w ∧
    ReservedMicrousd w = total (of_user "u" is_open) (reservations demo_reserved) ∧ ReservedMicrousd w = 500.
Proof.
  exists demo_wallet. assert (H : wallets demo_reserved !! "u"%string = Some demo_wallet) by (vm_compute; reflexivity).
  split; [exact H|]. split; [|reflexivity].
  exact (proj2 (proj1 (wallets_sound demo_reserved demo_reach_reserved) "u"%string demo_wallet H)).
Defined.

Lemma reserve_within_allowance_witness :
  covered (wallets demo_reserved) "u" ∧ covered (space_wallets demo_reserved) "s".
Proof.
  destruct (reserveHostedAIUsage "r1" "u" "s" TierPro "assistant_ai" "k1" 500 0 0 true demo_db)
    as [d' [e|[h w']]] eqn:E; [vm_compute in E; discriminate E|].
  assert (Hd : demo_reserved = d') by (unfold demo_reserved, demo_reserve, exec; rewrite E; reflexivity).
  rewrite Hd.
  destruct (reserve_within_allowance "r1" "u" "s" TierPro "assistant_ai" "k1" 500 0 0 true demo_db d' h w'
    demo_reach_db E) as [_ [(r & Hr & _)|[H1 H2]]].
  - exfalso. unfold demo_db in Hr. simpl in Hr. rewrite lookup_empty in Hr. discriminate Hr.
  - split; [exact H1|]. apply H2. discriminate.
Defined.

Lemma settle_exact_witness :
  ∃ d' v, SettleHostedAIReservation "" "r1" "k1:settle" demo_usage demo_reserved = (d', inr v) ∧
    reservations d' !! "r1"%string = Some (set_status settled demo_reservation).
Proof.
  destruct (settle_exact "" "r1" "k1:settle" demo_usage demo_reserved demo_reservation demo_reach_reserved
    ltac:(vm_compute; reflexivity) eq_refl) as (w & v & d' & H & _ & _ & _ & _ & Hr).
  exists d', v. split; [exact H|]. rewrite Hr. apply lookup_insert_eq.
Defined.


Lemma weekly_spend_bounded_witness :
  ∃ w', wallets demo_settled !! "u"%string = Some w' ∧
    spent "u" demo_settled - spent "u" demo_reserved <= 900000 - WeeklyRemainingMicrousd w' ∧
    spent "u" demo_settled - spent "u" demo_reserved <= 900000.
Proof.
  apply (weekly_spend_bounded "u" [OpSettle "" "r1" "k1:settle" demo_usage] demo_reserved demo_wallet);
    [exact demo_reach_reserved|vm_compute; reflexivity|].
  constructor; [exact I|constructor].
Defined.

Lemma refund_once_witness :
  ∃ d' v v', RefundHostedAIReservation "r1" "k1:refund" "why" demo_settled = (d', inr v) ∧
    RefundHostedAIReservation "r1" "k1:refund" "why" d' = (d', inr v').
Proof.
  destruct (RefundHostedAIReservation "r1" "k1:refund" "why" demo_settled) as [d' [e|v]] eqn:E;
    [vm_compute in E; discriminate E|].
  destruct (refund_once "r1" "k1:refund" "why" demo_settled d' v demo_reach_settled E) as [_ [v' H]].
  exists d', v, v'. split; [reflexivity|exact H].
Defined.

Lemma reserve_retry_witness :
  ∃ d' h w', reserveHostedAIUsage "r2" "u" "s" TierPro "assistant_ai" "k1" 500 1 1 true demo_reserved = (d', inr (h, w')) ∧
    h = mkHandle "r1" "u" "s" 500 reserved.
Proof.
  destruct (reserveHostedAIUsage "r2" "u" "s" TierPro "assistant_ai" "k1" 500 1 1 true demo_reserved)
    as [d' [e|[h w']]] eqn:E; [vm_compute in E; discriminate E|].
  exists d', h, w'. split; [reflexivity|].
  refine (proj1 (reserve_retry "r2" "u" "s" TierPro "assistant_ai" "k1" 500 1 1 true demo_reserved d' h w' "r1"
    demo_reservation demo_reach_reserved _ eq_refl _ E)); [vm_compute; reflexivity|].
  right. split; [reflexivity|]. vm_compute. discriminate.
Defined.
