(* ===== verification/Pricing.v ===== *)
(** * Usage pricing

    Models the rate card of [internal/billing/credits.go] and
    [CachedGatewayModelRates] of [internal/agents/model_catalog_version.go]: the
    micro-dollar cost and charge of a metered model call, on 64-bit integers
    with their overflow guards. *)
From S2P Require Import Prelude GoStrings.

Open Scope go_scope.

Record modelRates := mkRates { input : Z; cachedInput : Z; output : Z }.

Record configuredModelRates := mkConfigured { cfg_Input : Z; cfg_CachedInput : Z; cfg_Output : Z }.

Record ModelUsage := mkModelUsage {
  mu_InputTokens : Z; mu_CachedInputTokens : Z; mu_OutputTokens : Z; mu_ReasoningTokens : Z;
  Estimated : bool }.

(** The prices of a model of the gateway catalogue. *)
Record gatewayModel := mkGatewayModel {
  gm_ID : string; HasTokenPricing : bool;
  InputRateMilliUSDPerMillion : Z; CachedRateMilliUSDPerMillion : Z; OutputRateMilliUSDPerMillion : Z }.

Definition creditCostBufferPercent : Z := 25.
Definition CreditDenominationScale : Z := 1000.
Definition SmartLibraryPrimaryModel : string := "google/gemini-2.5-flash-lite".

Definition CachedGatewayModelRates (catalogue : list gatewayModel) (modelID : string) : option modelRates :=
  m ← head (filter (λ m, gm_ID m = TrimSpace modelID ∧ HasTokenPricing m = true) catalogue);
  let cached := CachedRateMilliUSDPerMillion m in
  let cached := if cached <=? 0 then InputRateMilliUSDPerMillion m else cached in
  Some (mkRates (InputRateMilliUSDPerMillion m) cached (OutputRateMilliUSDPerMillion m)).

(** The built-in table, in the order of the [switch]. *)
Definition builtinRates : list (string * modelRates) := [
  ("gemini-3.5-flash", mkRates 1500 150 9000);
  ("gemini-3.1-pro", mkRates 2000 200 12000);
  ("gemini-2.5-pro", mkRates 1250 125 10000);
  ("gemini-2.5-flash-lite", mkRates 100 10 400);
  ("gemini-2.5-flash", mkRates 300 30 2500);
  ("5.6-sol", mkRates 5000 500 30000);
  ("5.6-terra", mkRates 2500 250 15000);
  ("5.6-luna", mkRates 1000 100 6000);
  ("5.5-pro", mkRates 30000 30000 180000);
  ("5.4-pro", mkRates 30000 30000 180000);
  ("5.5", mkRates 5000 500 30000);
  ("5.4-mini", mkRates 750 75 4500);
  ("5.4-nano", mkRates 200 20 1250);
  ("5.4", mkRates 2500 250 15000);
  ("gpt-5", mkRates 1250 125 10000)]%string.

Definition fallbackRates : modelRates := mkRates 5000 500 30000.

Definition saturatingTokenCost (total tokens rate : Z) : Z :=
  if (tokens <=? 0) || (rate <=? 0) then total
  else if Z.quot (MaxInt64 -64 total) rate <? tokens then MaxInt64
  else total +64 (tokens *64 rate).

Definition configurableMicrousd (value : string) (fallback : Z) : Z :=
  match ParseInt (TrimSpace value) with
  | Some v => if v <? 1 then fallback else v
  | None => fallback
  end.

Definition bufferedHostedAICharge (providerCost : Z) : Z :=
  if providerCost <? 1 then 1
  else if Z.quot MaxInt64 (100 + creditCostBufferPercent) <? providerCost then MaxInt64
  else Z.quot ((providerCost *64 (100 + creditCostBufferPercent)) +64 99) 100.

Definition ProviderCostFromBufferedCharge (charge : Z) : Z :=
  if charge <? 1 then 1
  else Z.max 1 (Z.quot (charge *64 100) (100 + creditCostBufferPercent)).

(** [ceil(numerator / 1000)], at least 1, saturating. *)
Definition scaleCost (numerator : Z) : Z :=
  if MaxInt64 -64 CreditDenominationScale +64 1 <? numerator then MaxInt64
  else
    let cost := Z.quot (numerator +64 CreditDenominationScale -64 1) CreditDenominationScale in
    if cost <? 1 then 1 else cost.

(** The weighted cost of a call's tokens. *)
Definition weightedCost (rates : modelRates) (usage : ModelUsage) : Z :=
  let noncachedInput := mu_InputTokens usage -64 mu_CachedInputTokens usage in
  let noncachedInput := if noncachedInput <? 0 then 0 else noncachedInput in
  let numerator := saturatingTokenCost 0 noncachedInput (input rates) in
  let numerator := saturatingTokenCost numerator (mu_CachedInputTokens usage) (cachedInput rates) in
  saturatingTokenCost numerator (mu_OutputTokens usage) (output rates).

Section rate_card.
(** The parsed [MISTY_HOSTED_AI_MODEL_RATES_JSON], [None] when it is not a rate
    map; the gateway catalogue; and the environment. *)
Context (configured : option (gmap string configuredModelRates)) (catalogue : list gatewayModel)
  (getenv : string → string).

Definition ratesForModel (model : string) : modelRates :=
  let model := ToLower (TrimSpace model) in
  let fromConfig :=
    c ← configured; r ← c !! model;
    if (0 <=? cfg_Input r) && (0 <=? cfg_CachedInput r) && (0 <=? cfg_Output r)
    then Some (mkRates (cfg_Input r) (cfg_CachedInput r) (cfg_Output r)) else None in
  match fromConfig with
  | Some r => r
  | None =>
      match CachedGatewayModelRates catalogue model with
      | Some r => r
      | None =>
          match head (filter (λ p : string * modelRates, Contains model p.1 = true) builtinRates) with
          | Some p => p.2
          | None => fallbackRates
          end
      end
  end.

Definition providerCostForUsage (model : string) (usage : ModelUsage) : Z :=
  scaleCost (weightedCost (ratesForModel model) usage).

Definition TestingCreditsForUsage (model : string) (usage : ModelUsage) : Z :=
  bufferedHostedAICharge (providerCostForUsage model usage).

Definition EstimateSmartLibraryCharge (imageCount : Z) : Z :=
  if imageCount <? 1 then 1 else imageCount *64 1500.

Definition embeddingImageRate : Z :=
  configurableMicrousd (getenv "MISTY_HOSTED_AI_EMBEDDING_IMAGE_MICROUSD") 120.

Definition SmartLibraryCharge (usage : ModelUsage) (embeddedImages : Z) : Z :=
  let charge := TestingCreditsForUsage SmartLibraryPrimaryModel usage in
  let charge :=
    if 0 <? embeddedImages
    then charge +64 bufferedHostedAICharge (saturatingTokenCost 0 embeddedImages embeddingImageRate)
    else charge in
  Z.max 1 charge.

Definition SmartLibraryProviderCost (usage : ModelUsage) (embeddedImages : Z) : Z :=
  let cost := providerCostForUsage SmartLibraryPrimaryModel usage in
  if 0 <? embeddedImages then saturatingTokenCost cost embeddedImages embeddingImageRate else cost.

Definition EstimateSemanticQueryCharge : Z := 250.

Definition SemanticQueryProviderCost (usage : ModelUsage) : Z :=
  let rate := configurableMicrousd (getenv "MISTY_HOSTED_AI_EMBEDDING_TOKEN_MILLIUSD") 150 in
  scaleCost (saturatingTokenCost 0 (mu_InputTokens usage) rate).

Definition SemanticQueryCharge (usage : ModelUsage) : Z :=
  bufferedHostedAICharge (SemanticQueryProviderCost usage).

Definition EstimateMediaIndexCharge (durationMS : Z) : Z :=
  if durationMS <? 1 then 1
  else Z.max 1 (Z.quot ((durationMS *64 15000) +64 59999) 60000).

(** The transcription cost of a duration. *)
Definition transcriptionCost (durationMS : Z) : Z :=
  let hourlyRate := configurableMicrousd (getenv "MISTY_HOSTED_AI_TRANSCRIPTION_HOUR_MICROUSD") 100000 in
  let weightedDuration := saturatingTokenCost 0 durationMS hourlyRate in
  if weightedDuration <=? MaxInt64 - 3599999
  then Z.max 1 (Z.quot (weightedDuration +64 3599999) 3600000) else MaxInt64.

Definition MediaIndexCharge (durationMS : Z) (usage : ModelUsage) : Z :=
  Z.max 1 (bufferedHostedAICharge (transcriptionCost durationMS) +64
           TestingCreditsForUsage SmartLibraryPrimaryModel usage).

Definition MediaIndexProviderCost (durationMS : Z) (usage : ModelUsage) : Z :=
  let sttCost := transcriptionCost durationMS in
  let modelCost := providerCostForUsage SmartLibraryPrimaryModel usage in
  if MaxInt64 -64 modelCost <? sttCost then MaxInt64 else sttCost +64 modelCost.
End rate_card.

(** ** Exact values *)

Definition clip (z : Z) : Z := Z.max 0 z.

Lemma saturatingTokenCost_exact total tokens rate :
  0 <= total <= MaxInt64 →
  saturatingTokenCost total tokens rate = Z.min MaxInt64 (total + clip tokens * clip rate).
Proof.
  intros Ht. unfold saturatingTokenCost, clip.
  destruct (Z.leb_spec tokens 0); simpl; [rewrite Z.max_l by lia; lia|].
  destruct (Z.leb_spec rate 0); simpl; [rewrite (Z.max_l 0 rate) by lia; lia|].
  rewrite (wrap64_id (MaxInt64 - total)) by word.
  rewrite Z.quot_div_nonneg by lia. rewrite !Z.max_r by lia.
  destruct (Z.ltb_spec ((MaxInt64 - total) / rate) tokens) as [Hlt|Hle].
  - rewrite Z.min_l; [done|]. pose proof (Z.mul_succ_div_gt (MaxInt64 - total) rate ltac:(lia)). nia.
  - assert (tokens * rate <= MaxInt64 - total).
    { pose proof (Z.mul_div_le (MaxInt64 - total) rate ltac:(lia)). nia. }
    rewrite (wrap64_id (tokens * rate)) by (unfold in64, MinInt64; nia).
    rewrite wrap64_id by (unfold in64, MinInt64; nia). lia.
Qed.

Lemma saturating_range total tokens rate :
  0 <= total <= MaxInt64 → 0 <= saturatingTokenCost total tokens rate <= MaxInt64.
Proof.
  intros Ht. rewrite saturatingTokenCost_exact by done. unfold clip.
  pose proof (Z.mul_nonneg_nonneg (Z.max 0 tokens) (Z.max 0 rate)). lia.
Qed.

Definition usage_ok (u : ModelUsage) : Prop :=
  0 <= mu_InputTokens u <= MaxInt64 ∧ 0 <= mu_CachedInputTokens u <= MaxInt64 ∧
  0 <= mu_OutputTokens u <= MaxInt64.

Definition rawCost (r : modelRates) (u : ModelUsage) : Z :=
  clip (mu_InputTokens u - mu_CachedInputTokens u) * clip (input r) +
  mu_CachedInputTokens u * clip (cachedInput r) + mu_OutputTokens u * clip (output r).

Lemma clip_nonneg z : 0 <= clip z.
Proof. unfold clip. lia. Qed.
Lemma clip_id z : 0 <= z → clip z = z.
Proof. unfold clip. lia. Qed.

Lemma weightedCost_exact r u : usage_ok u → weightedCost r u = Z.min MaxInt64 (rawCost r u).
Proof.
  intros (Hi & Hc & Ho). unfold weightedCost, rawCost.
  rewrite (wrap64_id (_ - _)) by word.
  assert (Hclip : ∀ z : Z, (if z <? 0 then 0 else z) = clip z).
  { intros z. unfold clip. destruct (Z.ltb_spec z 0); lia. }
  rewrite Hclip. set (nc := clip (mu_InputTokens u - mu_CachedInputTokens u)).
  assert (0 <= nc) by apply clip_nonneg.
  assert (Hz : 0 <= 0 <= MaxInt64) by (unfold MaxInt64; lia).
  pose proof (saturating_range 0 nc (input r) Hz) as H1.
  pose proof (saturating_range _ (mu_CachedInputTokens u) (cachedInput r) H1) as H2.
  rewrite (saturatingTokenCost_exact _ (mu_OutputTokens u)) by done.
  rewrite (saturatingTokenCost_exact _ (mu_CachedInputTokens u)) by done.
  rewrite (saturatingTokenCost_exact 0) by done.
  rewrite !(clip_id nc), !(clip_id (mu_CachedInputTokens u)), !(clip_id (mu_OutputTokens u)) by lia.
  pose proof (clip_nonneg (input r)). pose proof (clip_nonneg (cachedInput r)). pose proof (clip_nonneg (output r)).
  pose proof (Z.mul_nonneg_nonneg nc (clip (input r))).
  pose proof (Z.mul_nonneg_nonneg (mu_CachedInputTokens u) (clip (cachedInput r))).
  pose proof (Z.mul_nonneg_nonneg (mu_OutputTokens u) (clip (output r))). lia.
Qed.

Lemma scaleCost_exact n : 0 <= n <= MaxInt64 →
  scaleCost n = if MaxInt64 - 999 <? n then MaxInt64 else Z.max 1 ((n + 999) / 1000).
Proof.
  intros Hn. unfold scaleCost, CreditDenominationScale.
  rewrite (wrap64_id (MaxInt64 - 1000)), (wrap64_id (_ + 1)) by word.
  replace (MaxInt64 - 1000 + 1) with (MaxInt64 - 999) by lia.
  destruct (Z.ltb_spec (MaxInt64 - 999) n); [done|].
  assert (Hw : (n +64 1000 -64 1)%go = n + 999).
  { unfold wrap64, MaxInt64 in *. Z.div_mod_to_equations. lia. }
  rewrite Hw, Z.quot_div_nonneg by lia. destruct (Z.ltb_spec ((n + 999) / 1000) 1); lia.
Qed.

Lemma scaleCost_mono n m : 0 <= n → n <= m → m <= MaxInt64 → scaleCost n <= scaleCost m.
Proof.
  intros. rewrite !scaleCost_exact by lia.
  pose proof (Z.div_le_mono (n + 999) (m + 999) 1000 ltac:(lia) ltac:(lia)).
  assert ((n + 999) / 1000 <= MaxInt64) by (unfold MaxInt64 in *; Z.div_mod_to_equations; lia).
  destruct (Z.ltb_spec (MaxInt64 - 999) n), (Z.ltb_spec (MaxInt64 - 999) m); unfold MaxInt64 in *; lia.
Qed.

Lemma scaleCost_range n : 0 <= n <= MaxInt64 → 1 <= scaleCost n <= MaxInt64.
Proof.
  intros. rewrite scaleCost_exact by done.
  assert ((n + 999) / 1000 <= MaxInt64) by (unfold MaxInt64 in *; Z.div_mod_to_equations; lia).
  destruct (Z.ltb_spec (MaxInt64 - 999) n); unfold MaxInt64 in *; lia.
Qed.

(** The one cost at which the buffered charge overflows: [MaxInt64 / 125]. *)
Definition overflowCost : Z := 73786976294838206.

Lemma buffered_exact c : 1 <= c <= MaxInt64 → c ≠ overflowCost →
  bufferedHostedAICharge c = if c <? overflowCost then (c * 125 + 99) / 100 else MaxInt64.
Proof.
  intros Hc Hne. unfold bufferedHostedAICharge, overflowCost, creditCostBufferPercent in *.
  destruct (Z.ltb_spec c 1); [lia|]. change (Z.quot MaxInt64 (100 + 25)) with 73786976294838206.
  destruct (Z.ltb_spec 73786976294838206 c), (Z.ltb_spec c 73786976294838206); try lia.
  change (100 + 25) with 125.
  rewrite (wrap64_id (c * 125)) by word.
  rewrite wrap64_id by word.
  by rewrite Z.quot_div_nonneg by lia.
Qed.

Lemma providerCost_range cfg cat model u : usage_ok u → 1 <= providerCostForUsage cfg cat model u <= MaxInt64.
Proof.
  intros Hu. unfold providerCostForUsage. apply scaleCost_range. rewrite weightedCost_exact by done.
  destruct Hu as (? & ? & ?). unfold rawCost.
  pose proof (clip_nonneg (mu_InputTokens u - mu_CachedInputTokens u)).
  set (r := ratesForModel cfg cat model).
  pose proof (clip_nonneg (input r)). pose proof (clip_nonneg (cachedInput r)). pose proof (clip_nonneg (output r)).
  unfold MaxInt64 in *. split; [|lia]. apply Z.min_glb; [lia|nia].
Qed.

(** ** Properties *)

(** the charge is the provider cost plus a quarter, rounded up to a
    micro-dollar, for every cost below [MaxInt64/125]; above it, it saturates.
    At exactly that cost the guard lets an overflow through and the charge is
    negative. *)
Theorem charge_buffer c :
  1 <= c <= MaxInt64 →
  (c < overflowCost → 125 * c <= 100 * bufferedHostedAICharge c < 125 * c + 100) ∧
  (overflowCost < c → bufferedHostedAICharge c = MaxInt64) ∧
  (c = overflowCost → bufferedHostedAICharge c < 0).
Proof.
  intros Hc. split_and!.
  - intros Hlt. rewrite buffered_exact by lia. rewrite (proj2 (Z.ltb_lt _ _) Hlt).
    Z.div_mod_to_equations. lia.
  - intros Hgt. rewrite buffered_exact by lia. by rewrite (proj2 (Z.ltb_ge _ _)) by lia.
  - intros ->. vm_compute. reflexivity.
Qed.

(** dividing the buffer out of a charge gives back the provider cost, below
    the overflow point; above it the charge has saturated, the product wraps
    around and the cost comes back as 1. *)
Theorem buffer_roundtrip c :
  1 <= c <= MaxInt64 →
  (c < overflowCost → ProviderCostFromBufferedCharge (bufferedHostedAICharge c) = c) ∧
  (overflowCost < c → ProviderCostFromBufferedCharge (bufferedHostedAICharge c) = 1).
Proof.
  intros Hc. split.
  - intros Hlt. rewrite buffered_exact by lia. rewrite (proj2 (Z.ltb_lt _ _) Hlt).
    unfold ProviderCostFromBufferedCharge, creditCostBufferPercent, overflowCost in *.
    set (x := (c * 125 + 99) / 100). assert (Hx : 125 * c <= 100 * x < 125 * c + 100)
      by (unfold x; Z.div_mod_to_equations; lia).
    destruct (Z.ltb_spec x 1); [lia|]. change (100 + 25) with 125.
    rewrite wrap64_id by word.
    rewrite Z.quot_div_nonneg by lia. rewrite Z.max_r; Z.div_mod_to_equations; lia.
  - intros Hgt. rewrite buffered_exact by lia. rewrite (proj2 (Z.ltb_ge _ _)) by lia. reflexivity.
Qed.

Lemma rawCost_estimate r u i o :
  usage_ok u → mu_CachedInputTokens u <= mu_InputTokens u <= i → mu_OutputTokens u <= o →
  clip (cachedInput r) <= clip (input r) →
  rawCost r u <= rawCost r (mkModelUsage i 0 o 0 true).
Proof.
  intros (? & ? & ?) [Hci Hi] Ho Hr. unfold rawCost. simpl.
  rewrite (clip_id (mu_InputTokens u - _)), (clip_id (i - 0)) by lia.
  pose proof (clip_nonneg (input r)). pose proof (clip_nonneg (cachedInput r)). pose proof (clip_nonneg (output r)).
  assert (mu_CachedInputTokens u * clip (cachedInput r) <= mu_CachedInputTokens u * clip (input r)) by nia.
  assert (mu_InputTokens u * clip (input r) <= i * clip (input r)) by nia.
  assert (mu_OutputTokens u * clip (output r) <= o * clip (output r)) by nia. nia.
Qed.

Lemma rawCost_nonneg r u : usage_ok u → 0 <= rawCost r u.
Proof.
  intros (? & ? & ?). unfold rawCost.
  pose proof (clip_nonneg (mu_InputTokens u - mu_CachedInputTokens u)).
  pose proof (clip_nonneg (input r)). pose proof (clip_nonneg (cachedInput r)). pose proof (clip_nonneg (output r)). nia.
Qed.

Lemma cost_le cfg cat model u i o :
  clip (cachedInput (ratesForModel cfg cat model)) <= clip (input (ratesForModel cfg cat model)) →
  usage_ok u → usage_ok (mkModelUsage i 0 o 0 true) →
  mu_CachedInputTokens u <= mu_InputTokens u <= i → mu_OutputTokens u <= o →
  providerCostForUsage cfg cat model u <= providerCostForUsage cfg cat model (mkModelUsage i 0 o 0 true).
Proof.
  intros Hr Hu He Hi Ho. unfold providerCostForUsage. rewrite !weightedCost_exact by done.
  pose proof (rawCost_estimate _ u i o Hu Hi Ho Hr). pose proof (rawCost_nonneg (ratesForModel cfg cat model) u Hu).
  apply scaleCost_mono; unfold MaxInt64 in *; lia.
Qed.

Lemma estimate_le cfg cat model u i o :
  clip (cachedInput (ratesForModel cfg cat model)) <= clip (input (ratesForModel cfg cat model)) →
  usage_ok u → usage_ok (mkModelUsage i 0 o 0 true) →
  mu_CachedInputTokens u <= mu_InputTokens u <= i → mu_OutputTokens u <= o →
  providerCostForUsage cfg cat model (mkModelUsage i 0 o 0 true) < overflowCost →
  TestingCreditsForUsage cfg cat model u <= TestingCreditsForUsage cfg cat model (mkModelUsage i 0 o 0 true).
Proof.
  intros Hr Hu He Hi Ho Hlt. unfold TestingCreditsForUsage.
  pose proof (cost_le cfg cat model u i o Hr Hu He Hi Ho).
  pose proof (providerCost_range cfg cat model u Hu). pose proof (providerCost_range cfg cat model _ He).
  rewrite !buffered_exact by lia. rewrite !(proj2 (Z.ltb_lt _ _)) by lia. apply Z.div_le_mono; lia.
Qed.

(** What is reserved before a call covers what the call can cost.  When a
    model's cached input is no dearer than fresh input, a call that stays within
    its token estimate is charged at most the charge of the estimate. *)
Theorem estimate_covers_actual cfg cat model u i o :
  let r := ratesForModel cfg cat model in
  let estimate := mkModelUsage i 0 o 0 true in
  clip (cachedInput r) <= clip (input r) →
  usage_ok u → usage_ok estimate →
  mu_CachedInputTokens u <= mu_InputTokens u <= i → mu_OutputTokens u <= o →
  providerCostForUsage cfg cat model estimate < overflowCost →
  TestingCreditsForUsage cfg cat model u <= TestingCreditsForUsage cfg cat model estimate.
Proof. intros r estimate Hr Hu He Hi Ho Hlt. by apply estimate_le. Qed.

(** The built-in card never charges more for cached input. *)
Lemma builtin_cached_cheaper model :
  clip (cachedInput (ratesForModel None [] model)) <= clip (input (ratesForModel None [] model)).
Proof.
  unfold ratesForModel. simpl.
  assert (Hall : Forall (λ p : string * modelRates, cachedInput p.2 <= input p.2) builtinRates)
    by (repeat constructor; simpl; lia).
  destruct (filter _ builtinRates) as [|p l] eqn:E; simpl; [unfold clip; simpl; lia|].
  assert (Hin : p ∈ builtinRates).
  { assert (Hp : p ∈ filter (λ p : string * modelRates, Contains (ToLower (TrimSpace model)) p.1 = true) builtinRates)
      by (rewrite E; left). by apply list_elem_of_filter in Hp as [_ ?]. }
  rewrite Forall_forall in Hall. specialize (Hall p Hin). simpl in Hall. unfold clip. lia.
Qed.

Lemma buffered_range c : 1 <= c <= MaxInt64 → c ≠ overflowCost → 1 <= bufferedHostedAICharge c <= MaxInt64.
Proof.
  intros Hc Hne. rewrite buffered_exact by done. unfold overflowCost in *.
  destruct (Z.ltb_spec c 73786976294838206); unfold MaxInt64 in *; [|lia]. Z.div_mod_to_equations. lia.
Qed.

Lemma configurable_pos v f : 1 <= f → 1 <= configurableMicrousd v f.
Proof.
  intros. unfold configurableMicrousd. destruct (ParseInt _); [|done]. destruct (Z.ltb_spec z 1); lia.
Qed.

(** A charge that combines two metered parts is their sum as long as the sum
    fits 64 bits.  Unlike every other step it does not saturate: when the parts
    exceed the largest integer together, the call is charged one micro-dollar. *)
Theorem combined_charge cfg cat env usage images :
  let model := TestingCreditsForUsage cfg cat SmartLibraryPrimaryModel usage in
  let images_cost := saturatingTokenCost 0 images (embeddingImageRate env) in
  let embedding := bufferedHostedAICharge images_cost in
  usage_ok usage → 0 < images <= MaxInt64 → images_cost ≠ overflowCost →
  providerCostForUsage cfg cat SmartLibraryPrimaryModel usage ≠ overflowCost →
  SmartLibraryCharge cfg cat env usage images =
  if model + embedding <=? MaxInt64 then model + embedding else 1.
Proof.
  intros model images_cost embedding Hu Hi Hne Hne'. unfold SmartLibraryCharge.
  rewrite (proj2 (Z.ltb_lt _ _)) by lia. fold model. fold images_cost. fold embedding.
  assert (Hm : 1 <= model <= MaxInt64).
  { apply buffered_range; [by apply providerCost_range|done]. }
  assert (Hrate : 1 <= embeddingImageRate env) by (apply configurable_pos; lia).
  assert (He : 1 <= embedding <= MaxInt64).
  { apply buffered_range; [|done]. unfold images_cost.
    rewrite saturatingTokenCost_exact by (unfold MaxInt64; lia). rewrite !clip_id by lia.
    unfold MaxInt64 in *. nia. }
  clearbody model embedding. destruct (Z.leb_spec (model + embedding) MaxInt64).
  - rewrite wrap64_id by word. lia.
  - assert (model + embedding <= 2 * MaxInt64) by lia.
    unfold wrap64, MaxInt64 in *. Z.div_mod_to_equations. lia.
Qed.

(** ** Witnesses *)

Definition demo_env (_ : string) : string := "".
Definition huge_usage : ModelUsage := mkModelUsage 0 0 MaxInt64 0 false.

Lemma charge_buffer_witness : bufferedHostedAICharge overflowCost < 0 ∧ 125 <= 100 * bufferedHostedAICharge 1 < 225.
Proof.
  split.
  - apply (charge_buffer overflowCost); [unfold overflowCost, MaxInt64; lia|reflexivity].
  - apply (charge_buffer 1); unfold overflowCost, MaxInt64; lia.
Defined.

Lemma buffer_roundtrip_witness : ProviderCostFromBufferedCharge (bufferedHostedAICharge 240) = 240.
Proof. apply (buffer_roundtrip 240); unfold overflowCost, MaxInt64; lia. Defined.

Lemma estimate_covers_actual_witness :
  TestingCreditsForUsage None [] "gpt-5" (mkModelUsage 900 100 300 0 false) <=
  TestingCreditsForUsage None [] "gpt-5" (mkModelUsage 1000 0 500 0 true).
Proof.
  apply (estimate_covers_actual None [] "gpt-5" (mkModelUsage 900 100 300 0 false) 1000 500);
    [apply builtin_cached_cheaper|unfold usage_ok, MaxInt64; simpl; lia..|simpl; lia|simpl; lia|].
  vm_compute. reflexivity.
Defined.

Lemma combined_charge_witness : SmartLibraryCharge None [] demo_env huge_usage 1000000000000000000 = 1.
Proof.
  rewrite combined_charge; [vm_compute; reflexivity|unfold usage_ok, huge_usage, MaxInt64; simpl; lia|unfold MaxInt64; lia|..];
    vm_compute; discriminate.
Defined.
