(* ===== verification/Meter.v ===== *)
(** * The credit meter

    Models [CreditMeter] of [internal/billing/credits.go], which prices model
    calls with [Pricing] and accounts for them with [Wallet].  The display ratio
    of a settlement is not modelled. *)
From S2P Require Import Prelude Tx GoStrings GoTime Entitlements Wallet WalletInv WalletProps Pricing.

Record UsageReservation := mkUsageReservation {
  ur_ID : string; ur_ReservedMicrousd : Z; ur_ReservedCredits : Z }.

Record UsageSettlement := mkSettlement {
  us_ChargedMicrousd : Z; us_ResetAt : Z; us_CreditsUsed : Z; us_CreditsRemaining : Z }.

Definition no_settlement : UsageSettlement := mkSettlement 0 time_zero 0 0.

Inductive MeterError :=
  | LimitReached (Required Available ResetAt : Z) (Scope : string)
  | WalletFailed (e : WalletError).

Definition set_license_table (t : licenses) (d : DB) : DB :=
  mkDB (users d) (spaces d) (members d) t (wallets d) (space_wallets d) (reservations d) (ledger d).

Section meter.
Context (configured : option (gmap string configuredModelRates)) (catalogue : list gatewayModel).

(** [reserve]: [newID] is the fresh UUID, [now] the meter's clock and [dbnow]
    the database's.  A limit error carries the reset time of the wallet row,
    which the failed transaction leaves as it was. *)
Definition reserve (newID user spaceID key usageMeter model : string)
    (estimatedInputTokens maxOutputTokens now dbnow : Z) (d : DB) : DB * (MeterError + UsageReservation) :=
  let '(t, license) := GetLicenseByUserID (license_table d) user now in
  let d := set_license_table t d in
  let tier := match license with Some l => lic_Tier l | None => TierBasic end in
  let estimate := mkModelUsage estimatedInputTokens 0 maxOutputTokens 0 true in
  let credits := TestingCreditsForUsage configured catalogue model estimate in
  let space := if bool_decide (TrimSpace spaceID = ""%string) then ""%string else spaceID in
  match reserveHostedAIUsage newID user space tier usageMeter key credits now dbnow true d with
  | (d, inl (HostedAILimitReachedError available required scope)) =>
      let resetAt := match wallets d !! user with Some w => ResetAt w | None => time_zero end in
      (d, inl (LimitReached required available resetAt scope))
  | (d, inl e) => (d, inl (WalletFailed e))
  | (d, inr (reservation, _)) =>
      (d, inr (mkUsageReservation (hr_ID reservation) (hr_amount reservation) (hr_amount reservation)))
  end.

(** The usage a settlement charges: a call without usage counts one output
    token and the reservation. *)
Definition meteredUsage (usage : ModelUsage) : ModelUsage :=
  if (mu_InputTokens usage =? 0) && (mu_OutputTokens usage =? 0)
  then mkModelUsage (mu_InputTokens usage) (mu_CachedInputTokens usage) 1 (mu_ReasoningTokens usage) true
  else usage.

Definition meteredCharge (reservation : UsageReservation) (model : string) (usage : ModelUsage) : Z :=
  let charge := TestingCreditsForUsage configured catalogue model usage in
  let reserved :=
    if ur_ReservedMicrousd reservation =? 0 then ur_ReservedCredits reservation
    else ur_ReservedMicrousd reservation in
  if Estimated usage && (charge <? reserved) then reserved else charge.

Definition Settle (env : string) (reservation : UsageReservation) (key provider model : string)
    (usage : ModelUsage) (d : DB) : DB * (MeterError + UsageSettlement) :=
  let usage := meteredUsage usage in
  let charge := meteredCharge reservation model usage in
  match SettleHostedAIReservation env (ur_ID reservation) key
          (mkUsage provider model (mu_InputTokens usage) (mu_CachedInputTokens usage) (mu_OutputTokens usage)
             (mu_ReasoningTokens usage) (providerCostForUsage configured catalogue model usage) charge 0) d with
  | (d, inl e) => (d, inl (WalletFailed e))
  | (d, inr wallet) => (d, inr (mkSettlement charge (ResetAt wallet) charge (Available wallet)))
  end.

Definition Release (reservation : option UsageReservation) (d : DB) : DB * (MeterError + ()) :=
  match reservation with
  | None => (d, inr ())
  | Some r =>
      match ReleaseHostedAIReservation (ur_ID r) d with
      | (d, inl e) => (d, inl (WalletFailed e))
      | (d, inr u) => (d, inr u)
      end
  end.

Definition Refund (reservation : option UsageReservation) (key reason : string) (d : DB)
    : DB * (MeterError + UsageSettlement) :=
  match reservation with
  | None => (d, inr no_settlement)
  | Some r =>
      match RefundHostedAIReservation (ur_ID r) key reason d with
      | (d, inl e) => (d, inl (WalletFailed e))
      | (d, inr wallet) => (d, inr (mkSettlement 0 (ResetAt wallet) 0 (Available wallet)))
      end
  end.

(** ** The meter's calls are wallet operations *)

Lemma set_license_table_reach t d : reach d → reach (set_license_table t d).
Proof.
  intros H. apply (reach_directory d (users d) (spaces d) (members d) t H).
  apply (inv_spaces _ (proj1 (reach_sound d H))).
Qed.

Lemma reserve_reach newID user spaceID key usageMeter model i o now dbnow d :
  reach d → reach (reserve newID user spaceID key usageMeter model i o now dbnow d).1.
Proof.
  intros H. unfold reserve. destruct (GetLicenseByUserID _ _ _) as [t license].
  set (d1 := set_license_table t d). assert (H1 : reach d1) by by apply set_license_table_reach.
  set (tier := match license with Some l => lic_Tier l | None => TierBasic end).
  set (space := if bool_decide _ then _ else spaceID).
  set (credits := TestingCreditsForUsage _ _ _ _).
  pose proof (reach_op d1 (OpReserve newID user space tier usageMeter key credits now dbnow true) H1) as H2.
  simpl in H2. destruct (reserveHostedAIUsage _ _ _ _ _ _ _ _ _ _ _) as [d2 [e|[h w]]]; [destruct e|]; exact H2.
Qed.

(** ** Properties *)

(** A reservation that its wallets can pay in full. *)
Definition payable_in_full (d : DB) (r : Reservation) : Prop :=
  covered (wallets d) (res_user r) ∧ (res_space r ≠ ""%string → covered (space_wallets d) (res_space r)).

Lemma covered_settled_charge d id r w usage :
  inv d → reservations d !! id = Some r → is_open r = true → wallets d !! res_user r = Some w →
  payable_in_full d r → requestedCharge usage <= res_amount r →
  settled_charge d r w usage = requestedCharge usage.
Proof.
  intros Hinv E Ho Hw [(w0 & Hw0 & Hc) Hs] Hle. assert (w0 = w) as -> by congruence.
  destruct (settle_amounts _ _ _ _ Hinv E Ho Hw) as (_ & Hn & _).
  unfold settled_charge, space_wallet_of, payable in *. case_decide as Es; [lia|].
  destruct (Hs Es) as (sw & -> & Hcs). lia.
Qed.

(** A call within its estimate is charged exactly its price.  If an open
    reservation holds the whole charge of its token estimate and its wallets
    cover what is reserved from them, then settling a call that stays within the
    estimate succeeds, reports its price and takes exactly that out of the
    member's wallet. *)
Theorem metered_call_exact env ur key provider model usage i o d r :
  let rates := ratesForModel configured catalogue model in
  let estimate := mkModelUsage i 0 o 0 true in
  let price := TestingCreditsForUsage configured catalogue model usage in
  reach d → reservations d !! ur_ID ur = Some r → is_open r = true → payable_in_full d r →
  res_amount r = TestingCreditsForUsage configured catalogue model estimate →
  clip (cachedInput rates) <= clip (input rates) → usage_ok usage → usage_ok estimate →
  Estimated usage = false → 0 < mu_InputTokens usage →
  mu_CachedInputTokens usage <= mu_InputTokens usage <= i → mu_OutputTokens usage <= o →
  providerCostForUsage configured catalogue model estimate < overflowCost →
  ∃ w s d', Settle env ur key provider model usage d = (d', inr s) ∧ us_ChargedMicrousd s = price ∧
    wallets d !! res_user r = Some w ∧
    WeeklyRemainingMicrousd <$> (wallets d' !! res_user r) = Some (WeeklyRemainingMicrousd w - price).
Proof.
  intros rates estimate price Hreach E Ho Hpay Hamt Hr Hu He Hest Hin Hi Hout Hlt.
  assert (Hm : meteredUsage usage = usage).
  { unfold meteredUsage. by rewrite (proj2 (Z.eqb_neq _ _)) by lia. }
  assert (Hc : meteredCharge ur model usage = price) by (unfold meteredCharge; by rewrite Hest).
  assert (Hle : price <= res_amount r).
  { rewrite Hamt. by apply estimate_le. }
  set (hu := mkUsage provider model (mu_InputTokens usage) (mu_CachedInputTokens usage) (mu_OutputTokens usage)
    (mu_ReasoningTokens usage) (providerCostForUsage configured catalogue model usage) price 0).
  assert (Hpos : 1 <= price).
  { apply (buffered_range _ (providerCost_range configured catalogue model usage Hu)).
    pose proof (cost_le configured catalogue model usage i o Hr Hu He Hi Hout) as Hcl. fold estimate in Hcl. lia. }
  assert (Hreq : requestedCharge hu = price).
  { unfold requestedCharge. simpl. rewrite (proj2 (Z.leb_gt _ _)) by lia. by rewrite (proj2 (Z.ltb_ge _ _)) by lia. }
  destruct (reach_sound d Hreach) as [Hinv _].
  destruct (settle_effect env (ur_ID ur) key hu d r Hinv E Ho) as (w & v & d' & Hs & Hw & _ & Hwal & _).
  rewrite (covered_settled_charge d (ur_ID ur) r w hu Hinv E Ho Hw Hpay), Hreq in Hwal by lia.
  exists w, (mkSettlement price (ResetAt v) price (Available v)), d'.
  unfold Settle. rewrite Hm, Hc. fold hu. rewrite Hs. split_and!; [done..|].
  rewrite Hwal, lookup_insert_eq. done.
Qed.
End meter.

(** ** Witness *)

Definition demo_call : ModelUsage := mkModelUsage 900 100 300 0 false.
Definition demo_metered : DB := (reserve None [] "r1" "u" "s" "k1" "assistant_ai" "gpt-5" 1000 500 0 0 demo_db).1.
Definition demo_ur : UsageReservation := mkUsageReservation "r1" 7813 7813.

Lemma metered_call_exact_witness :
  ∃ s d', Settle None [] "" demo_ur "k1:settle" "gateway" "gpt-5" demo_call demo_metered = (d', inr s) ∧
    us_ChargedMicrousd s = TestingCreditsForUsage None [] "gpt-5" demo_call.
Proof.
  destruct (metered_call_exact None [] "" demo_ur "k1:settle" "gateway" "gpt-5" demo_call 1000 500 demo_metered
    (mkReservation "u" "s" "k1" "assistant_ai" 7813 reserved 0)) as (w & s & d' & H & Hs & _).
  - apply reserve_reach, demo_reach_db.
  - vm_compute. reflexivity.
  - reflexivity.
  - split; [|intros _]; (eexists; split; [vm_compute; reflexivity|]); vm_compute; discriminate.
  - vm_compute. reflexivity.
  - apply builtin_cached_cheaper.
  - unfold usage_ok, MaxInt64; simpl; lia.
  - unfold usage_ok, MaxInt64; simpl; lia.
  - reflexivity.
  - reflexivity.
  - simpl; lia.
  - simpl; lia.
  - vm_compute. reflexivity.
  - exists s, d'. split; [exact H|exact Hs].
Defined.
