(* ===== verification/Subscriptions.v ===== *)
(** * Stripe subscriptions

    Models the subscription tables of [internal/platform/postgres]
    ([subscriptions_subscription_status_trialing.go],
    [subscriptions_list_stripe_subscriptions_due_for_reconciliation.go],
    [stripe_purchases.go]) and the webhook and reconciliation handlers of
    [internal/billing] that turn Stripe events into entitlements.  JSON decoding,
    Stripe's API and telemetry are outside: events arrive decoded, the API is a
    function. *)
From S2P Require Import Prelude Tx GoStrings GoTime Entitlements Wallet.

Definition SubscriptionStatusTrialing : string := "trialing".
Definition SubscriptionStatusActive : string := "active".
Definition SubscriptionStatusPastDue : string := "past_due".

(** A row of [stripe_subscriptions], keyed by its Stripe id. *)
Record StripeSubscription := mkSub {
  sub_UserID : string;
  sub_LicenseID : string;
  sub_CustomerID : string;
  sub_PriceID : string;
  sub_Tier : Tier;
  sub_Interval : string;
  sub_Status : string;
  sub_CurrentPeriodEnd : option Z;
  sub_CancelAtPeriodEnd : bool;
  sub_CanceledAt : option Z;
  sub_SourceCreated : option Z;
  sub_SourceEvent : string;
  sub_LastReconciledAt : option Z;
  sub_ReconcileAfter : Z;
  sub_ReconcileFailures : Z;
  sub_LastReconcileError : string;
  sub_UpdatedAt : Z }.

(** The purchase columns that the handlers read or write. *)
Record StripePurchase := mkPurchase {
  pur_UserID : string; pur_LicenseID : string; pur_PaymentIntentID : string; pur_ChargeID : string;
  pur_CustomerID : option string; pur_Status : string; pur_EventSource : string; pur_UpdatedAt : Z }.

Record Attempt := mkAttempt {
  att_UserID : string; att_LicenseID : string; att_Tier : Tier; att_Interval : string;
  att_Status : string; att_SessionID : string; att_URL : string; att_ExpiresAt : Z; att_Created : Z }.

(** The billing side of the database; [accounts] is the license id of each
    active user. *)
Record Billing := mkBilling {
  store : DB;
  accounts : gmap string string;
  subs : gmap string StripeSubscription;
  processed : gset string;
  purchases : gmap string StripePurchase;
  attempts : gmap string Attempt }.

Definition set_store d (b : Billing) := mkBilling d (accounts b) (subs b) (processed b) (purchases b) (attempts b).
Definition set_subs m (b : Billing) := mkBilling (store b) (accounts b) m (processed b) (purchases b) (attempts b).
Definition set_processed m (b : Billing) := mkBilling (store b) (accounts b) (subs b) m (purchases b) (attempts b).
Definition set_purchases m (b : Billing) := mkBilling (store b) (accounts b) (subs b) (processed b) m (attempts b).
Definition set_attempts m (b : Billing) := mkBilling (store b) (accounts b) (subs b) (processed b) (purchases b) m.
Definition set_licenses (t : licenses) (b : Billing) : Billing :=
  let d := store b in
  set_store (mkDB (users d) (spaces d) (members d) t (wallets d) (space_wallets d) (reservations d) (ledger d)) b.

Inductive BillingError :=
  | BadPayload
  | InvalidMetadata
  | LicenseMismatch
  | NotOnePrice
  | UnknownPrice
  | PriceMismatch
  | NoPeriodEnd
  | BillingSQL
  | StripeFailed (message : string)
  | BillingWallet (e : WalletError)
  | ErrInvalidTier | ErrInvalidInterval | ErrUserNotFound | ErrSubscriptionExists
  | ErrCheckoutInProgress | ErrLicenseNotFound | ErrTrialUnavailable | ErrPortalUnavailable
  | AttemptInactive | IncompleteSession | NotCanceled | ReplacementNotApplied
  | ConfigMissing (name : string) | PricesNotUnique
  | Diverges.

Definition H := act Billing BillingError.

Definition on_store {A} (f : DB → DB * (WalletError + A)) : H A := λ b,
  match f (store b) with
  | (d, inl e) => (set_store d b, inl (BillingWallet e))
  | (d, inr a) => (set_store d b, inr a)
  end.

(** ** Subscription rows *)

Definition live_status (status : string) : bool :=
  bool_decide (status = SubscriptionStatusTrialing) || bool_decide (status = SubscriptionStatusActive) ||
  bool_decide (status = SubscriptionStatusPastDue).

(** [status IN ('trialing','active')]. *)
Definition paid_status (status : string) : bool :=
  bool_decide (status = SubscriptionStatusTrialing) || bool_decide (status = SubscriptionStatusActive).

Definition SubscriptionAllowsPaidAccess (status : string) : bool :=
  paid_status (ToLower (TrimSpace status)).

(** The [DO UPDATE SET] of the upsert: identity columns and reconcile history
    stay, a missing source keeps the stored one. *)
Definition merge_sub (old new : StripeSubscription) (dbnow : Z) : StripeSubscription :=
  mkSub (sub_UserID old) (sub_LicenseID old) (sub_CustomerID new) (sub_PriceID new) (sub_Tier new)
    (sub_Interval new) (sub_Status new) (sub_CurrentPeriodEnd new) (sub_CancelAtPeriodEnd new)
    (sub_CanceledAt new)
    (match sub_SourceCreated new with Some t => Some t | None => sub_SourceCreated old end)
    (match sub_SourceCreated new with Some _ => sub_SourceEvent new | None => sub_SourceEvent old end)
    (sub_LastReconciledAt old) (sub_ReconcileAfter new) (sub_ReconcileFailures old)
    (sub_LastReconcileError old) dbnow.

(** The [WHERE] of the webhook upsert. *)
Definition not_older (old new : StripeSubscription) : bool :=
  match sub_SourceCreated old, sub_SourceCreated new with
  | None, _ | _, None => true
  | Some o, Some n =>
      (o <? n) ||
      (n =? o) && negb (bool_decide (sub_SourceEvent new = sub_SourceEvent old)) &&
      (paid_status (sub_Status old) || negb (paid_status (sub_Status new)))
  end.

(** The partial unique index: one live subscription per user. *)
Definition one_live (m : gmap string StripeSubscription) (id : string) (row : StripeSubscription) : bool :=
  negb (live_status (sub_Status row)) ||
  bool_decide (filter (λ kv : string * StripeSubscription,
    kv.1 ≠ id ∧ sub_UserID kv.2 = sub_UserID row ∧ live_status (sub_Status kv.2) = true) (map_to_list m) = []).

Definition new_sub (new : StripeSubscription) (dbnow : Z) : StripeSubscription :=
  mkSub (sub_UserID new) (sub_LicenseID new) (sub_CustomerID new) (sub_PriceID new) (sub_Tier new)
    (sub_Interval new) (sub_Status new) (sub_CurrentPeriodEnd new) (sub_CancelAtPeriodEnd new)
    (sub_CanceledAt new) (sub_SourceCreated new) (sub_SourceEvent new) None (sub_ReconcileAfter new) 0 "" dbnow.

Definition upsertStripeSubscription (id : string) (new : StripeSubscription) (rejectOlder : bool) (dbnow : Z)
    : H bool :=
  b ← ask;
  match subs b !! id with
  | None =>
      let row := new_sub new dbnow in
      check (one_live (subs b) id row) BillingSQL;;
      update (set_subs (<[id := row]> (subs b)));;
      mret true
  | Some old =>
      if rejectOlder && negb (not_older old new) then mret false
      else
        let row := merge_sub old new dbnow in
        check (one_live (subs b) id row) BillingSQL;;
        update (set_subs (<[id := row]> (subs b)));;
        mret true
  end.

Definition status_class (status : string) : Z :=
  if paid_status status then 0 else if bool_decide (status = SubscriptionStatusPastDue) then 1 else 2.

(** [ORDER BY class, updated_at DESC]. *)
Definition sub_before (x y : StripeSubscription) : bool :=
  (status_class (sub_Status x) <? status_class (sub_Status y)) ||
  (status_class (sub_Status x) =? status_class (sub_Status y)) && (sub_UpdatedAt y <? sub_UpdatedAt x).

Definition best_sub (l : list (string * StripeSubscription)) : option (string * StripeSubscription) :=
  foldr (λ x acc, match acc with
                  | None => Some x
                  | Some y => if sub_before y.2 x.2 then Some y else Some x
                  end) None l.

Definition GetStripeSubscriptionByUserID (m : gmap string StripeSubscription) (user : string)
    : option (string * StripeSubscription) :=
  if bool_decide (TrimSpace user = ""%string) then None
  else best_sub (filter (λ kv : string * StripeSubscription, sub_UserID kv.2 = user) (map_to_list m)).

Definition GetStripeSubscriptionByStripeID (m : gmap string StripeSubscription) (id : string)
    : option StripeSubscription :=
  if bool_decide (TrimSpace id = ""%string) then None else m !! id.

Definition license_table_of (b : Billing) : licenses := license_table (store b).

(** [GetLicenseByUserID], which writes back an expired trial. *)
Definition read_license (user : string) (now : Z) : H (option License) :=
  b ← ask;
  let '(t, l) := GetLicenseByUserID (license_table_of b) user now in
  update (set_licenses t);;
  mret l.

Definition ApplyEffectiveSubscriptionEntitlement (sub : StripeSubscription) (now : Z) : H () :=
  b ← ask;
  let sub :=
    if SubscriptionAllowsPaidAccess (sub_Status sub) then sub
    else match GetStripeSubscriptionByUserID (subs b) (sub_UserID sub) with
         | Some (_, e) => if SubscriptionAllowsPaidAccess (sub_Status e) then e else sub
         | None => sub
         end in
  if bool_decide (ToLower (sub_Status sub) = SubscriptionStatusTrialing) then
    update (set_licenses (SetStripeTrialState (license_table_of b) (sub_LicenseID sub) (sub_Tier sub)
                            (sub_CurrentPeriodEnd sub) now))
  else
    tier ←
      (if SubscriptionAllowsPaidAccess (sub_Status sub) then mret (NormalizePlan (sub_Tier sub))
       else
         l ← read_license (sub_UserID sub) now;
         mret (match l with
               | Some l => match lic_LegacyTier l with Some t => NormalizePlan t | None => TierBasic end
               | None => TierBasic
               end));
    b ← ask;
    update (set_licenses (SetLicenseStateByID (license_table_of b) (sub_LicenseID sub) tier
                            LicenseStatusActive None)).

(** ** Prices *)

Definition subscriptionPriceDefinitions : list (string * (Tier * string)) := [
  ("STRIPE_PRICE_PRO_MONTHLY", (TierPro, "month"));
  ("STRIPE_PRICE_PRO_YEARLY", (TierPro, "year"));
  ("STRIPE_PRICE_MAX_MONTHLY", (TierMax, "month"));
  ("STRIPE_PRICE_MAX_YEARLY", (TierMax, "year"))]%string.

Definition TestingValidPaidTier (tier : Tier) : bool :=
  bool_decide (tier = TierPro) || bool_decide (tier = TierMax).
Definition TestingValidInterval (interval : string) : bool :=
  bool_decide (interval = "month"%string) || bool_decide (interval = "year"%string).

Definition TestingTierFromMetadata (value : string) : option Tier :=
  let v := ToLower (TrimSpace value) in
  if bool_decide (v = TierPro) then Some TierPro
  else if bool_decide (v = TierMax) then Some TierMax
  else None.

(** The catalogue entry of a price; [None] when no entry or several match. *)
Definition TestingConfiguredSubscriptionPrice (getenv : string → string) (priceID : string)
    : option (Tier * string) :=
  match filter (λ def : string * (Tier * string),
          TrimSpace (getenv def.1) ≠ ""%string ∧ TrimSpace (getenv def.1) = TrimSpace priceID)
          subscriptionPriceDefinitions with
  | [def] => Some def.2
  | _ => None
  end.

Definition nextSubscriptionReconcileAt (now : Z) (periodEnd : option Z) : Z :=
  let next := now + 6 * Hour in
  match periodEnd with
  | None => next
  | Some e =>
      let near := e + 15 * Minute in
      let near := if near <? now then now + 15 * Minute else near in
      if near <? next then near else next
  end.

Definition subscriptionReconcileBackoff (priorFailures : Z) : Z :=
  let n := if priorFailures <? 0 then 0 else priorFailures in
  let n := if 5 <? n then 5 else n in
  15 * Minute * Z.shiftl 1 n.

(** ** Events *)

Record item := mkItem { item_PeriodEnd : Z; item_PriceID : string; item_Interval : string }.

Record subscriptionEvent := mkSubEvent {
  ev_ID : string;
  ev_Customer : string;
  ev_Status : string;
  ev_Metadata : gmap string string;
  ev_CurrentPeriodEnd : Z;
  ev_CancelAtPeriodEnd : bool;
  ev_CanceledAt : Z;
  ev_Items : list item }.

Record checkoutEvent := mkCheckoutEvent {
  co_ID : string; co_Mode : string; co_Metadata : gmap string string; co_Subscription : string }.

Inductive webhook :=
  | CheckoutCompleted (session : option checkoutEvent)
  | CheckoutExpired (session : option checkoutEvent)
  | SubscriptionChanged (sub : option subscriptionEvent)
  | InvoicePaid (invoice : option (string * string))
  | InvoiceFailed (invoice : option (string * string))
  | ChargeRefunded (charge : option (string * string))
  | DisputeCreated (charge : option string)
  | OtherEvent.

Definition meta (m : gmap string string) (key : string) : string := default ""%string (m !! key).

(** [time.Unix(s, 0)]. *)
Definition unix (s : Z) : Z := s * Second.

Definition periodEndFromSubscriptionEvent (event : subscriptionEvent) : option Z :=
  if 0 <? ev_CurrentPeriodEnd event then Some (unix (ev_CurrentPeriodEnd event))
  else match ev_Items event with
       | i :: _ => if 0 <? item_PeriodEnd i then Some (unix (item_PeriodEnd i)) else None
       | [] => None
       end.

(** ** Webhook handlers

    [now] is the clock reading of the call, [dbnow] the database's. *)
Section handlers.
Context (getenv : string → string) (now dbnow : Z).

Definition handleSubscriptionChanged (event : subscriptionEvent) (sourceEventID : string)
    (sourceEventCreatedAt : option Z) (rejectOlder : bool) : H () :=
  let userID := TrimSpace (meta (ev_Metadata event) "user_id") in
  let licenseID := TrimSpace (meta (ev_Metadata event) "license_id") in
  let metadataInterval := ToLower (TrimSpace (meta (ev_Metadata event) "interval")) in
  tier ← need (TestingTierFromMetadata (meta (ev_Metadata event) "tier")) InvalidMetadata;
  check (negb (bool_decide (userID = ""%string)) && negb (bool_decide (licenseID = ""%string)) &&
         TestingValidPaidTier tier && TestingValidInterval metadataInterval &&
         bool_decide (TrimSpace (meta (ev_Metadata event) "kind") = "subscription"%string)) InvalidMetadata;;
  b ← ask;
  check (bool_decide (accounts b !! userID = Some licenseID)) LicenseMismatch;;
  it ← need (match ev_Items event with [i] => Some i | _ => None end) NotOnePrice;
  let priceID := TrimSpace (item_PriceID it) in
  catalog ← need (TestingConfiguredSubscriptionPrice getenv priceID) UnknownPrice;
  check (bool_decide (catalog.1 = tier)) PriceMismatch;;
  check (bool_decide (catalog.2 = metadataInterval)) PriceMismatch;;
  let itemInterval := ToLower (TrimSpace (item_Interval it)) in
  check (bool_decide (itemInterval = ""%string) || bool_decide (itemInterval = catalog.2)) PriceMismatch;;
  let periodEnd := periodEndFromSubscriptionEvent event in
  let canceledAt := if 0 <? ev_CanceledAt event then Some (unix (ev_CanceledAt event)) else None in
  let status := ToLower (TrimSpace (ev_Status event)) in
  check (negb (SubscriptionAllowsPaidAccess status) || negb (bool_decide (periodEnd = None))) NoPeriodEnd;;
  let subscription :=
    mkSub userID licenseID (ev_Customer event) priceID tier catalog.2 status periodEnd
      (ev_CancelAtPeriodEnd event) canceledAt sourceEventCreatedAt sourceEventID None
      (nextSubscriptionReconcileAt now periodEnd) 0 "" dbnow in
  applied ← upsertStripeSubscription (ev_ID event) subscription rejectOlder dbnow;
  if negb applied then mret ()
  else
    ApplyEffectiveSubscriptionEntitlement subscription now;;
    (if SubscriptionAllowsPaidAccess status
     then on_store (GetOrCreateHostedAIWallet userID tier now dbnow);; mret () else mret ());;
    license ← read_license userID now;
    match license with
    | None => mret ()
    | Some l => on_store (GetOrCreateHostedAIWallet userID (lic_Tier l) now dbnow);; mret ()
    end.

(** A subscription as Stripe's API returns it. *)
Record stripeItem := mkStripeItem { si_PeriodEnd : Z; si_Price : option (string * option string) }.
Record stripeSub := mkStripeSub {
  ss_ID : string; ss_Customer : option string; ss_Status : string; ss_Metadata : gmap string string;
  ss_CancelAtPeriodEnd : bool; ss_CanceledAt : Z; ss_Items : option (list (option stripeItem)) }.

Definition subscriptionEventFromStripe (subscription : option stripeSub) : string + subscriptionEvent :=
  match subscription with
  | None => inl "Stripe returned an invalid subscription"%string
  | Some s =>
      if bool_decide (TrimSpace (ss_ID s) = ""%string) then inl "Stripe returned an invalid subscription"%string
      else
        let customer := default ""%string (ss_Customer s) in
        if bool_decide (TrimSpace customer = ""%string) then inl "Stripe subscription has no customer"%string
        else
          match ss_Items s with
          | Some [it] =>
              match i ← it; p ← si_Price i; Some (si_PeriodEnd i, p) with
              | None => inl "Stripe subscription item has no price"%string
              | Some (periodEnd, (price, interval)) =>
                  inr (mkSubEvent (ss_ID s) customer (ss_Status s) (ss_Metadata s) 0 (ss_CancelAtPeriodEnd s)
                         (ss_CanceledAt s) [mkItem periodEnd price (default ""%string interval)])
              end
          | _ => inl "Stripe subscription must contain exactly one item"%string
          end
  end.

(** Stripe's answer for a subscription id: an error or a subscription, which may
    be nil; and the text of an error. *)
Context (fetchSubscription : string → string + option stripeSub) (errorText : BillingError → string).

Definition set_attempt_status (st : string) (a : Attempt) : Attempt :=
  mkAttempt (att_UserID a) (att_LicenseID a) (att_Tier a) (att_Interval a) st (att_SessionID a) (att_URL a)
    (att_ExpiresAt a) (att_Created a).

(** [UPDATE ... WHERE stripe_checkout_session_id=$1 AND status IN (from)]. *)
Definition mark_attempts (sessionID : string) (from : list string) (to : string)
    (m : gmap string Attempt) : gmap string Attempt :=
  if bool_decide (sessionID = ""%string) then m
  else (λ a, if bool_decide (att_SessionID a = sessionID) && bool_decide (att_Status a ∈ from)
             then set_attempt_status to a else a) <$> m.

Definition CompleteSubscriptionCheckoutBySessionID (sessionID : string) : H () :=
  update (λ b, set_attempts (mark_attempts sessionID ["creating"; "open"; "expired"]%string "completed" (attempts b)) b).
Definition ExpireSubscriptionCheckoutBySessionID (sessionID : string) : H () :=
  update (λ b, set_attempts (mark_attempts sessionID ["creating"; "open"]%string "expired" (attempts b)) b).

Definition stripe {A} (r : string + A) : H A :=
  match r with inl message => throw (StripeFailed message) | inr a => mret a end.

Definition handleCheckout (session : checkoutEvent) : H () :=
  let kind := TrimSpace (meta (co_Metadata session) "kind") in
  if bool_decide (co_Mode session = "subscription"%string) || bool_decide (kind = "subscription"%string) then
    CompleteSubscriptionCheckoutBySessionID (co_ID session);;
    if bool_decide (TrimSpace (co_Subscription session) = ""%string) then mret ()
    else
      canonical ← stripe (fetchSubscription (co_Subscription session));
      event ← stripe (subscriptionEventFromStripe canonical);
      handleSubscriptionChanged event "" None false
  else mret ().

(** The subscription of an invoice: its own id, or its parent's. *)
Definition handleInvoicePaid (subscription parent : string) : H () :=
  let id := TrimSpace subscription in
  let id := if bool_decide (id = ""%string) then TrimSpace parent else id in
  if bool_decide (id = ""%string) then mret ()
  else
    b ← ask;
    match GetStripeSubscriptionByStripeID (subs b) id with
    | None => mret ()
    | Some s => on_store (GetOrCreateHostedAIWallet (sub_UserID s) (sub_Tier s) now dbnow);; mret ()
    end.

(** The purchase with a value in a unique column; an empty value finds none. *)
Definition find_purchase (column : StripePurchase → string) (value : string)
    (m : gmap string StripePurchase) : option (string * StripePurchase) :=
  if bool_decide (value = ""%string) then None
  else head (filter (λ kv : string * StripePurchase, column kv.2 = value) (map_to_list m)).

Definition revoke_purchase (id : string) (p : StripePurchase) (status source : string) : H () :=
  update (λ b, set_purchases
    (<[id := mkPurchase (pur_UserID p) (pur_LicenseID p) (pur_PaymentIntentID p) (pur_ChargeID p)
               (pur_CustomerID p) status source dbnow]>
       (purchases b)) b);;
  update (λ b, set_licenses (SetLicenseStateByID (license_table_of b) (pur_LicenseID p) TierBasic
                               LicenseStatusActive None) b);;
  update (λ b, set_licenses (SetLegacyTierByID (license_table_of b) (pur_LicenseID p) None) b).

Definition handleChargeRefunded (chargeID paymentIntent : string) : H () :=
  b ← ask;
  let found :=
    match find_purchase pur_PaymentIntentID (TrimSpace paymentIntent) (purchases b) with
    | Some p => Some p
    | None => find_purchase pur_ChargeID (TrimSpace chargeID) (purchases b)
    end in
  match found with
  | None => mret ()
  | Some (id, p) =>
      if bool_decide (pur_Status p = "refunded"%string) then mret ()
      else revoke_purchase id p "refunded" "charge.refunded"
  end.

Definition handleChargeDisputeCreated (chargeID : string) : H () :=
  b ← ask;
  match find_purchase pur_ChargeID (TrimSpace chargeID) (purchases b) with
  | None => mret ()
  | Some (id, p) =>
      if bool_decide (pur_Status p = "disputed"%string) then mret ()
      else revoke_purchase id p "disputed" "charge.dispute.created"
  end.

Definition dispatch (eventID : string) (eventCreatedAt : option Z) (event : webhook) : H () :=
  match event with
  | CheckoutCompleted session => s ← need session BadPayload; handleCheckout s
  | CheckoutExpired session => s ← need session BadPayload; ExpireSubscriptionCheckoutBySessionID (co_ID s)
  | SubscriptionChanged sub =>
      s ← need sub BadPayload; handleSubscriptionChanged s eventID eventCreatedAt true
  | InvoicePaid invoice => i ← need invoice BadPayload; handleInvoicePaid i.1 i.2
  | InvoiceFailed invoice => need invoice BadPayload;; mret ()
  | ChargeRefunded charge => c ← need charge BadPayload; handleChargeRefunded c.1 c.2
  | DisputeCreated charge => c ← need charge BadPayload; handleChargeDisputeCreated c
  | OtherEvent => mret ()
  end.

Definition HandleWebhookEventAt (eventID : string) (eventCreatedAt : option Z) (event : webhook) : H () :=
  b ← ask;
  if negb (bool_decide (eventID = ""%string)) && bool_decide (eventID ∈ processed b) then mret ()
  else
    dispatch eventID eventCreatedAt event;;
    if negb (bool_decide (eventID = ""%string))
    then update (λ b, set_processed ({[eventID]} ∪ processed b) b) else mret ().

(** ** Reconciliation *)

Definition due (m : gmap string StripeSubscription) : list (string * StripeSubscription) :=
  filter (λ kv : string * StripeSubscription,
    live_status (sub_Status kv.2) = true ∧ sub_ReconcileAfter kv.2 <= now) (map_to_list m).

Definition by_reconcile (x y : string * StripeSubscription) : Prop :=
  sub_ReconcileAfter x.2 <= sub_ReconcileAfter y.2.
#[export] Instance by_reconcile_dec x y : Decision (by_reconcile x y).
Proof. unfold by_reconcile. apply _. Defined.

Definition clamp_limit (limit : Z) : Z := if (limit <? 1) || (500 <? limit) then 100 else limit.

Definition ListStripeSubscriptionsDueForReconciliation (limit : Z) (b : Billing)
    : list (string * StripeSubscription) :=
  take (Z.to_nat (clamp_limit limit)) (merge_sort by_reconcile (due (subs b))).

Definition update_sub (f : StripeSubscription → StripeSubscription) (id : string) : H () :=
  update (λ b, set_subs (alter f id (subs b)) b).

Definition MarkStripeSubscriptionReconciled (id : string) (reconcileAfter : Z) : H () :=
  update_sub (λ s,
    mkSub (sub_UserID s) (sub_LicenseID s) (sub_CustomerID s) (sub_PriceID s) (sub_Tier s) (sub_Interval s)
      (sub_Status s) (sub_CurrentPeriodEnd s) (sub_CancelAtPeriodEnd s) (sub_CanceledAt s) (sub_SourceCreated s)
      (sub_SourceEvent s) (Some now) reconcileAfter 0 "" dbnow) id.

(** The stored message is cut at 500 bytes. *)
Definition MarkStripeSubscriptionReconcileFailed (id failure : string) (reconcileAfter : Z) : H () :=
  update_sub (λ s,
    mkSub (sub_UserID s) (sub_LicenseID s) (sub_CustomerID s) (sub_PriceID s) (sub_Tier s) (sub_Interval s)
      (sub_Status s) (sub_CurrentPeriodEnd s) (sub_CancelAtPeriodEnd s) (sub_CanceledAt s) (sub_SourceCreated s)
      (sub_SourceEvent s) (sub_LastReconciledAt s) reconcileAfter (sub_ReconcileFailures s + 1)
      (String.substring 0 500 failure) dbnow) id.

(** The subscriptions whose paid period ended at or before the cutoff, oldest
    first. *)
Definition period_ended (cutoff : Z) (s : StripeSubscription) : bool :=
  paid_status (sub_Status s) &&
  match sub_CurrentPeriodEnd s with Some e => e <=? cutoff | None => false end.

Definition stale_subs (cutoff : Z) (m : gmap string StripeSubscription) : list (string * StripeSubscription) :=
  filter (λ kv : string * StripeSubscription, period_ended cutoff kv.2 = true) (map_to_list m).

Definition by_period_end (x y : string * StripeSubscription) : Prop :=
  default 0 (sub_CurrentPeriodEnd x.2) <= default 0 (sub_CurrentPeriodEnd y.2).
#[export] Instance by_period_end_dec x y : Decision (by_period_end x y).
Proof. unfold by_period_end. apply _. Defined.

Definition stale_licenses (cutoff : Z) (limit : Z) (m : gmap string StripeSubscription) : list string :=
  (λ kv, sub_LicenseID kv.2) <$>
    take (Z.to_nat (clamp_limit limit)) (merge_sort by_period_end (stale_subs cutoff m)).

(** [l.tier IN ('pro','max','personal')]. *)
Definition paid_tier (tier : Tier) : bool :=
  bool_decide (tier = TierPro) || bool_decide (tier = TierMax) || bool_decide (tier = TierPersonal).

Definition expire_license (l : License) : License :=
  let tier := match lic_LegacyTier l with
              | Some t => if bool_decide (t = ""%string) then TierBasic else t
              | None => TierBasic
              end in
  set_state tier LicenseStatusActive None l.

(** The licenses one pass downgrades. *)
Definition expired_licenses (cutoff limit : Z) (b : Billing) : licenses :=
  let stale := stale_licenses cutoff limit (subs b) in
  filter (λ kv : string * License, lic_ID kv.2 ∈ stale ∧ paid_tier (lic_Tier kv.2) = true) (license_table_of b).

Definition ExpireStaleSubscriptionEntitlements (cutoff limit : Z) (b : Billing) : Billing :=
  let stale := stale_licenses cutoff limit (subs b) in
  set_licenses ((λ l, if bool_decide (lic_ID l ∈ stale) && paid_tier (lic_Tier l)
                      then expire_license l else l) <$> license_table_of b) b.

Record Report := mkReport { Checked : Z; Updated : Z; Failed : Z; EntitlementsExpired : Z }.

(** One subscription of a reconciliation pass. *)
Definition reconcile_one (report : Report) (local : string * StripeSubscription) : H Report :=
  let retryAt := now + subscriptionReconcileBackoff (sub_ReconcileFailures local.2) in
  let failed := mkReport (Checked report + 1) (Updated report) (Failed report + 1) (EntitlementsExpired report) in
  let mark_failed (failure : string) :=
    MarkStripeSubscriptionReconcileFailed local.1 failure retryAt;; mret failed in
  match fetchSubscription local.1 with
  | inl failure => mark_failed failure
  | inr None => mark_failed "Stripe returned an empty subscription"%string
  | inr canonical =>
      match subscriptionEventFromStripe canonical with
      | inl failure => mark_failed failure
      | inr event => λ b,
          match handleSubscriptionChanged event "" None false b with
          | (b, inl e) => mark_failed (errorText e) b
          | (b, inr _) =>
              (MarkStripeSubscriptionReconciled local.1
                 (nextSubscriptionReconcileAt now (periodEndFromSubscriptionEvent event));;
               mret (mkReport (Checked report + 1) (Updated report + 1) (Failed report)
                       (EntitlementsExpired report))) b
          end
      end
  end.

Fixpoint reconcile_each (report : Report) (l : list (string * StripeSubscription)) : H Report :=
  match l with
  | [] => mret report
  | local :: l => report ← reconcile_one report local; reconcile_each report l
  end.

Definition ReconcileSubscriptions (limit : Z) : H Report :=
  b ← ask;
  report ← reconcile_each (mkReport 0 0 0 0) (ListStripeSubscriptionsDueForReconciliation limit b);
  b ← ask;
  let expired := Z.of_nat (size (expired_licenses (now - 72 * Hour) limit b)) in
  update (ExpireStaleSubscriptionEntitlements (now - 72 * Hour) limit);;
  mret (mkReport (Checked report) (Updated report) (Failed report) expired).
End handlers.
