(* ===== verification/SubscriptionProps.v ===== *)
(** * Properties of subscriptions

    Webhook deliveries commute, entitlements follow the subscription rows, events
    that do not check out change nothing, and the fail-safe that expires stale
    entitlements is starved by its own limit. *)
From S2P Require Import Prelude Tx GoStrings GoTime Entitlements Wallet Subscriptions.

(** ** Deliveries in any order *)

(** Webhook events of one subscription, delivered one after the other. *)
Definition deliver (id : string) (dbnow : Z) (evs : list StripeSubscription) (b : Billing) : Billing :=
  fold_left (λ b e, (upsertStripeSubscription id e true dbnow b).1) evs b.

Definition created (e : StripeSubscription) : Z := default 0 (sub_SourceCreated e).
Definition latest (evs : list StripeSubscription) : Z :=
  foldr (λ e acc, Z.max (created e) acc) (match evs with e :: _ => created e | [] => 0 end) evs.
Definition at_time (t : Z) (evs : list StripeSubscription) : list StripeSubscription :=
  filter (λ e, created e = t) evs.
Definition all_paid (evs : list StripeSubscription) : bool := forallb (λ e, paid_status (sub_Status e)) evs.

Definition is_latest (t : Z) (evs : list StripeSubscription) : Prop :=
  (∃ e, e ∈ evs ∧ created e = t) ∧ ∀ e, e ∈ evs → created e <= t.

(** No other live subscription of the user. *)
Definition alone (id user : string) (m : gmap string StripeSubscription) : Prop :=
  ∀ k s, m !! k = Some s → k ≠ id → sub_UserID s ≠ user.

Lemma alone_one_live id user m row : alone id user m → sub_UserID row = user → one_live m id row = true.
Proof.
  intros Ha Hu. unfold one_live. destruct (live_status (sub_Status row)); [simpl|done].
  apply bool_decide_eq_true. apply filter_nil_iff. intros [k s] Hin (Hk & Hs & _). simpl in *.
  apply elem_of_map_to_list in Hin. apply (Ha k s Hin Hk). congruence.
Qed.

(** What one delivery does to the row. *)
Definition next_row (old : option StripeSubscription) (e : StripeSubscription) (dbnow : Z) : StripeSubscription :=
  match old with
  | None => new_sub e dbnow
  | Some o => if not_older o e then merge_sub o e dbnow else o
  end.

Definition row_user_ok (user : string) (o : option StripeSubscription) : Prop :=
  match o with Some s => sub_UserID s = user | None => True end.

Lemma deliver_one id user e dbnow b :
  alone id user (subs b) → row_user_ok user (subs b !! id) → sub_UserID e = user →
  (upsertStripeSubscription id e true dbnow b).1 =
  set_subs (<[id := next_row (subs b !! id) e dbnow]> (subs b)) b.
Proof.
  intros Ha Ho He. unfold upsertStripeSubscription, mbind, act_bind, ask, check, update, mret, act_ret. simpl.
  destruct (subs b !! id) as [o|] eqn:E; simpl.
  - destruct (not_older o e); simpl.
    + rewrite (alone_one_live id user) by done. done.
    + rewrite insert_id by done. by destruct b.
  - rewrite (alone_one_live id user) by done. done.
Qed.

Lemma alone_insert id user m row : alone id user m → alone id user (<[id := row]> m).
Proof. intros Ha k s [[<- <-]|[_ Hk]]%lookup_insert_Some Hne; [done|]. by apply (Ha k s). Qed.

Definition events_ok (user : string) (evs : list StripeSubscription) : Prop :=
  (∀ e, e ∈ evs → sub_UserID e = user ∧ is_Some (sub_SourceCreated e)) ∧
  (∀ e e', e ∈ evs → e' ∈ evs → sub_SourceEvent e = sub_SourceEvent e' →
     paid_status (sub_Status e) = paid_status (sub_Status e')).

(** What a row takes from the event it was written by. *)
Definition data (s : StripeSubscription) :=
  (sub_CustomerID s, sub_PriceID s, sub_Tier s, sub_Interval s, sub_Status s, sub_CurrentPeriodEnd s,
   sub_CancelAtPeriodEnd s, sub_CanceledAt s, sub_SourceCreated s, sub_SourceEvent s).

Lemma data_inv s s' : data s = data s' →
  sub_Status s = sub_Status s' ∧ sub_SourceEvent s = sub_SourceEvent s' ∧ created s = created s'.
Proof. unfold data, created. intros. simplify_eq. repeat split; congruence. Qed.

(** The row after some deliveries: it carries the latest time, the status of an
    event of that time, and grants access only if all events of that time do. *)
Record row_of (user : string) (evs : list StripeSubscription) (row : StripeSubscription) : Prop := {
  ro_user : sub_UserID row = user;
  ro_created : is_Some (sub_SourceCreated row);
  ro_latest : is_latest (created row) evs;
  ro_event : ∃ e, e ∈ evs ∧ data row = data e;
  ro_paid : paid_status (sub_Status row) = all_paid (at_time (created row) evs) }.

Lemma at_time_snoc t evs e :
  at_time t (evs ++ [e]) = at_time t evs ++ (if decide (created e = t) then [e] else []).
Proof. unfold at_time. rewrite filter_app, filter_cons, filter_nil. by case_decide. Qed.

Lemma all_paid_app l k : all_paid (l ++ k) = all_paid l && all_paid k.
Proof. apply forallb_app. Qed.

Lemma at_time_empty t evs : (∀ e, e ∈ evs → created e < t) → at_time t evs = [].
Proof. intros H. apply filter_nil_iff. intros e He ?. specialize (H e He). lia. Qed.

Lemma row_of_new user evs e dbnow :
  evs = [] → sub_UserID e = user → is_Some (sub_SourceCreated e) → row_of user (evs ++ [e]) (new_sub e dbnow).
Proof.
  intros -> Hu Hc. split; simpl; try done.
  - split; [exists e; split; [left|done]|]. intros e' He'. apply list_elem_of_singleton in He' as ->. done.
  - exists e. split; [left|done].
  - unfold at_time. rewrite filter_cons. rewrite decide_True by done. simpl. by rewrite andb_true_r.
Qed.

Lemma created_merge row e dbnow n :
  sub_SourceCreated e = Some n → created (merge_sub row e dbnow) = n.
Proof. intros Hn. unfold created. simpl. by rewrite Hn. Qed.

(** An event that is not applied, or repeats the one that was, leaves the
    granting status as it is. *)
Lemma row_of_stay user evs e row :
  events_ok user (evs ++ [e]) → row_of user evs row → created e <= created row →
  (created e = created row → paid_status (sub_Status row) = true → paid_status (sub_Status e) = true) →
  row_of user (evs ++ [e]) row.
Proof.
  intros _ [Hu Ho [[e0 [He0 Ht0]] Hmax] (e1 & He1 & Hd) Hpaid] Hle Hkeep.
  split; [done|done|..].
  - split; [exists e0; split; [apply elem_of_app; by left|done]|].
    intros x [Hx|Hx]%elem_of_app; [by apply Hmax|]. by apply list_elem_of_singleton in Hx as ->.
  - exists e1. split; [apply elem_of_app; by left|done].
  - rewrite at_time_snoc, all_paid_app, <- Hpaid. case_decide as Ht; simpl; [|by rewrite andb_true_r].
    rewrite andb_true_r. destruct (paid_status (sub_Status row)) eqn:E; [|done]. simpl. by rewrite Hkeep.
Qed.

Lemma row_of_apply user evs e row dbnow :
  sub_UserID e = user → is_Some (sub_SourceCreated e) → row_of user evs row →
  created row <= created e →
  (created row = created e → paid_status (sub_Status e) = true → paid_status (sub_Status row) = true) →
  row_of user (evs ++ [e]) (merge_sub row e dbnow).
Proof.
  intros He [n Hn] [Hu Ho [[e0 [He0 Ht0]] Hmax] (e1 & He1 & Hd) Hpaid] Hle Hkeep.
  assert (Hc : created e = n) by (unfold created; by rewrite Hn).
  pose proof (created_merge row e dbnow n Hn) as Hm.
  assert (Hin : e ∈ evs ++ [e]) by (apply elem_of_app; right; left).
  split; simpl; [done|by rewrite Hn|..].
  - rewrite Hm. split; [by exists e|]. intros x [Hx|Hx]%elem_of_app; [specialize (Hmax x Hx); lia|].
    apply list_elem_of_singleton in Hx as ->. lia.
  - exists e. split; [done|]. unfold data. simpl. by rewrite Hn.
  - rewrite Hm, at_time_snoc, all_paid_app, decide_True by done. simpl. rewrite andb_true_r.
    destruct (Z.eqb_spec (created row) n) as [Hr|Hr].
    + rewrite <- Hr, <- Hpaid. destruct (paid_status (sub_Status e)); [|by rewrite andb_false_r].
      rewrite Hkeep; [done|lia|done].
    + rewrite at_time_empty; [done|]. intros x Hx. specialize (Hmax x Hx). lia.
Qed.

Lemma row_of_next user evs e row dbnow :
  events_ok user (evs ++ [e]) → row_of user evs row →
  row_of user (evs ++ [e]) (next_row (Some row) e dbnow).
Proof.
  intros Hok Hrow. pose proof Hok as [Hev Hid]. pose proof Hrow as [Hu [o Ho] _ (e1 & He1 & Hd) _].
  assert (He : e ∈ evs ++ [e]) by (apply elem_of_app; right; left).
  destruct (data_inv _ _ Hd) as (Hst & Hsrc & _).
  destruct (Hev e He) as [Hue [n Hn]]. simpl.
  assert (Hco : created row = o) by (unfold created; by rewrite Ho).
  assert (Hcn : created e = n) by (unfold created; by rewrite Hn).
  unfold not_older. rewrite Ho, Hn.
  destruct (Z.ltb_spec o n) as [Hlt|Hge]; cbn [orb].
  { apply row_of_apply; [done|by exists n|done|lia|lia]. }
  destruct (Z.eqb_spec n o) as [Heq|Hne]; cbn [andb].
  2:{ apply row_of_stay; [done|done|lia|lia]. }
  destruct (bool_decide (sub_SourceEvent e = sub_SourceEvent row)) eqn:Es; cbn [negb andb].
  { apply row_of_stay; [done|done|lia|]. intros _ Hp. bool_to_prop.
    rewrite <- Hp, Hst. apply Hid; [done|apply elem_of_app; by left|congruence]. }
  destruct (paid_status (sub_Status row)) eqn:Er, (paid_status (sub_Status e)) eqn:Ee; cbn [negb orb].
  3:{ apply row_of_stay; [done|done|lia|congruence]. }
  all: apply row_of_apply; [done|by exists n|done|lia|congruence].
Qed.

Lemma deliver_from id user dbnow evs : ∀ b dn row,
  alone id user (subs b) → subs b !! id = Some row → row_of user dn row →
  events_ok user (dn ++ evs) →
  ∃ row', deliver id dbnow evs b = set_subs (<[id := row']> (subs b)) b ∧ row_of user (dn ++ evs) row'.
Proof.
  induction evs as [|e evs IH]; intros b dn row Ha Hl Hrow Hok.
  - exists row. rewrite app_nil_r, insert_id by done. split; [by destruct b|done].
  - assert (Hpre : events_ok user (dn ++ [e])).
    { destruct Hok as [H1 H2]. split; intros; [apply H1|apply H2]; set_solver. }
    pose proof (row_of_next user dn e row dbnow Hpre Hrow) as Hnext.
    assert (Hue : sub_UserID e = user) by (apply Hok; set_solver).
    simpl. rewrite (deliver_one id user), Hl by (rewrite ?Hl; try done; apply Hrow).
    replace (dn ++ e :: evs) with ((dn ++ [e]) ++ evs) in * by (by rewrite <- app_assoc).
    edestruct IH as (row' & -> & Hr); [..|exists row'; split; [|exact Hr]]; simpl.
    + by apply alone_insert.
    + apply lookup_insert_eq.
    + exact Hnext.
    + exact Hok.
    + by rewrite insert_insert_eq.
Qed.

Lemma deliver_all id user dbnow evs b :
  alone id user (subs b) → subs b !! id = None → events_ok user evs → evs ≠ [] →
  ∃ row, deliver id dbnow evs b = set_subs (<[id := row]> (subs b)) b ∧ row_of user evs row.
Proof.
  intros Ha Hl Hok Hne. destruct evs as [|e evs]; [done|].
  assert (Hue : sub_UserID e = user ∧ is_Some (sub_SourceCreated e)) by (apply Hok; set_solver).
  simpl. rewrite (deliver_one id user), Hl by (rewrite ?Hl; by try apply Hue). simpl.
  destruct (deliver_from id user dbnow evs (set_subs (<[id := new_sub e dbnow]> (subs b)) b) [e] (new_sub e dbnow))
    as (row' & -> & Hr); [..|exists row'; split; [|exact Hr]]; simpl.
  - by apply alone_insert.
  - apply lookup_insert_eq.
  - apply (row_of_new user [] e dbnow); by try apply Hue.
  - exact Hok.
  - by rewrite insert_insert_eq.
Qed.


(** ** Entitlements *)

(** The user's subscription that grants paid access. *)
Definition grants (user : string) (m : gmap string StripeSubscription) (s : StripeSubscription) : Prop :=
  (∃ id, m !! id = Some s) ∧ sub_UserID s = user ∧ paid_status (sub_Status s) = true.

(** A status as the handlers store it. *)
Definition stored (status : string) : Prop := TrimSpace status = status ∧ ToLower status = status.

Lemma stored_allows status : stored status → SubscriptionAllowsPaidAccess status = paid_status status.
Proof. intros [H1 H2]. unfold SubscriptionAllowsPaidAccess. by rewrite H1, H2. Qed.

Lemma best_sub_in l x : best_sub l = Some x → x ∈ l.
Proof.
  revert x. induction l as [|y l IH]; simpl; [done|]. intros x.
  destruct (best_sub l) as [z|]; [|intros [= ->]; left].
  case_if; intros [= ->]; [right; by apply IH|left].
Qed.

Lemma paid_class status : paid_status status = true ↔ status_class status = 0.
Proof. unfold status_class. destruct (paid_status status); [done|]. by destruct (bool_decide _). Qed.

Lemma class_nonneg status : 0 <= status_class status.
Proof. unfold status_class. destruct (paid_status _); [lia|]. by destruct (bool_decide _). Qed.

Lemma best_sub_paid l x s :
  x ∈ l → paid_status (sub_Status x.2) = true → best_sub l = Some s → paid_status (sub_Status s.2) = true.
Proof.
  revert s. induction l as [|y l IH]; [set_solver|]. intros s Hin Hp. simpl.
  apply elem_of_cons in Hin.
  destruct (best_sub l) as [z|] eqn:E.
  - destruct Hin as [<-|Hin].
    + case_if; intros [= <-]; [|done]. rename Heqb into Hb. unfold sub_before in Hb.
      apply paid_class in Hp. rewrite Hp in Hb. apply paid_class. pose proof (class_nonneg (sub_Status z.2)).
      destruct (Z.ltb_spec (status_class (sub_Status z.2)) 0); [lia|].
      destruct (Z.eqb_spec (status_class (sub_Status z.2)) 0); [done|discriminate].
    + specialize (IH z Hin Hp eq_refl). case_if; intros [= <-]; [done|]. rename Heqb into Hb.
      unfold sub_before in Hb. apply paid_class in IH. rewrite IH in Hb. apply paid_class.
      pose proof (class_nonneg (sub_Status y.2)).
      destruct (Z.ltb_spec 0 (status_class (sub_Status y.2))); [discriminate|lia].
  - intros [= <-]. destruct Hin as [<-|Hin]; [done|].
    destruct l as [|w l]; [by apply not_elem_of_nil in Hin|]. simpl in E.
    destruct (best_sub l); [case_if|]; discriminate.
Qed.

Lemma user_best m user s k :
  GetStripeSubscriptionByUserID m user = Some (k, s) → m !! k = Some s ∧ sub_UserID s = user.
Proof.
  unfold GetStripeSubscriptionByUserID. case_if; [done|].
  intros [Hu Hin]%best_sub_in%list_elem_of_filter. by apply elem_of_map_to_list in Hin.
Qed.

Lemma user_best_paid m user s :
  TrimSpace user ≠ ""%string → grants user m s →
  ∃ k s', GetStripeSubscriptionByUserID m user = Some (k, s') ∧ grants user m s'.
Proof.
  intros Hu ((id & Hid) & Hus & Hp).
  destruct (GetStripeSubscriptionByUserID m user) as [[k s']|] eqn:E.
  - exists k, s'. split; [done|]. pose proof (user_best _ _ _ _ E) as [Hk Hks].
    split; [eauto|]. split; [done|]. unfold GetStripeSubscriptionByUserID in E.
    rewrite bool_decide_eq_false_2 in E by done.
    apply (best_sub_paid _ (id, s) (k, s')) in E; [done| |done].
    apply list_elem_of_filter. split; [done|]. by apply elem_of_map_to_list.
  - exfalso. unfold GetStripeSubscriptionByUserID in E. rewrite bool_decide_eq_false_2 in E by done.
    assert (Hin : (id, s) ∈ filter (λ kv : string * StripeSubscription, sub_UserID kv.2 = user) (map_to_list m)).
    { apply list_elem_of_filter. split; [done|]. by apply elem_of_map_to_list. }
    destruct (filter _ _) as [|w l]; [by apply not_elem_of_nil in Hin|]. simpl in E.
    destruct (best_sub l); [case_if|]; discriminate.
Qed.

Lemma update_by_id_hit f id (t : licenses) user l :
  t !! user = Some l → lic_ID l = id → update_by_id f id t !! user = Some (f l).
Proof.
  intros Hl Hid. unfold update_by_id. apply lookup_fmap_Some. exists l.
  by rewrite bool_decide_eq_true_2.
Qed.

Lemma update_by_id_miss f id (t : licenses) user l :
  t !! user = Some l → lic_ID l ≠ id → update_by_id f id t !! user = Some l.
Proof.
  intros Hl Hid. unfold update_by_id. apply lookup_fmap_Some. exists l.
  by rewrite bool_decide_eq_false_2.
Qed.

Lemma read_license_keeps t user now l :
  t !! user = Some l →
  ∃ t' l', GetLicenseByUserID t user now = (t', Some l') ∧ t' !! user = Some l' ∧
    lic_ID l' = lic_ID l ∧ lic_LegacyTier l' = lic_LegacyTier l ∧
    ∀ u x, t !! u = Some x → lic_ID x ≠ lic_ID l → t' !! u = Some x.
Proof.
  intros Hl. unfold GetLicenseByUserID. rewrite Hl. destruct (lic_ExpiresAt l) as [e|].
  2:{ exists t, l. done. }
  case_if; [|by exists t, l]. eexists _, _. split; [done|]. simpl.
  split; [by apply (update_by_id_hit _ _ _ _ l)|]. split; [done|]. split; [done|].
  intros. by apply update_by_id_miss.
Qed.

Definition fallback_tier (l : License) : Tier :=
  match lic_LegacyTier l with Some t => NormalizePlan t | None => TierBasic end.

Lemma grant_trial sub user l now b :
  license_table_of b !! user = Some l → lic_ID l = sub_LicenseID sub →
  let t := SetStripeTrialState (license_table_of b) (sub_LicenseID sub) (sub_Tier sub)
             (sub_CurrentPeriodEnd sub) now in
  (∃ l', t !! user = Some l' ∧ lic_Tier l' = NormalizePlan (sub_Tier sub)) ∧
  (∀ u x, license_table_of b !! u = Some x → lic_ID x ≠ lic_ID l → t !! u = Some x).
Proof.
  intros Hl Hid t. split.
  - eexists. split; [by apply (update_by_id_hit _ _ _ _ l)|done].
  - intros u x Hx Hne. apply update_by_id_miss; congruence.
Qed.

Lemma stored_trialing s :
  stored (sub_Status s) → SubscriptionAllowsPaidAccess (sub_Status s) = false →
  bool_decide (ToLower (sub_Status s) = SubscriptionStatusTrialing) = false.
Proof.
  intros Hs. rewrite (stored_allows _ Hs). unfold paid_status. destruct Hs as [_ ->].
  intros Hp. by bool_to_prop; apply bool_decide_eq_false_2.
Qed.


(** ** Validation of events *)

Section keeps_subs.
Context (m : gmap string StripeSubscription).
Let same (b : Billing) : Prop := subs b = m.

Lemma subs_store {A} (f : DB → DB * (WalletError + A)) : keeps same (on_store f).
Proof. intros b Hb. unfold on_store. by destruct (f (store b)) as [d [e|a]]. Qed.
Lemma subs_licenses t : keeps same (update (set_licenses t) : H ()).
Proof. by intros b. Qed.

Lemma subs_read user now : keeps same (read_license user now).
Proof. apply keeps_bind; [auto with handlers|]. intros b. destruct (GetLicenseByUserID _ _ _). auto using subs_licenses with handlers. Qed.

Lemma subs_apply sub now : keeps same (ApplyEffectiveSubscriptionEntitlement sub now).
Proof.
  apply keeps_bind; [auto with handlers|]. intros b. cbv zeta. case_if; [apply subs_licenses|].
  apply keeps_bind; [case_if; auto using subs_read with handlers|].
  intros t. apply keeps_bind; auto using subs_licenses with handlers.
Qed.
End keeps_subs.

(** What a subscription event has to satisfy before it is believed. *)
Record event_valid (getenv : string → string) (event : subscriptionEvent) (b : Billing)
    (user license : string) (tier : Tier) (interval : string) : Prop := {
  val_user : user = TrimSpace (meta (ev_Metadata event) "user_id") ∧ user ≠ ""%string;
  val_license : license = TrimSpace (meta (ev_Metadata event) "license_id") ∧ accounts b !! user = Some license;
  val_kind : TrimSpace (meta (ev_Metadata event) "kind") = "subscription"%string;
  val_tier : ToLower (TrimSpace (meta (ev_Metadata event) "tier")) = tier ∧ TestingValidPaidTier tier = true;
  val_price : ∃ it, ev_Items event = [it] ∧
    TestingConfiguredSubscriptionPrice getenv (TrimSpace (item_PriceID it)) = Some (tier, interval);
  val_period : SubscriptionAllowsPaidAccess (ToLower (TrimSpace (ev_Status event))) = true →
    is_Some (periodEndFromSubscriptionEvent event) }.

Lemma tier_metadata value tier :
  TestingTierFromMetadata value = Some tier → ToLower (TrimSpace value) = tier.
Proof. unfold TestingTierFromMetadata. repeat case_if; intros [= <-]; by bool_to_prop. Qed.

Lemma upsert_effect id new reject dbnow b b' r :
  upsertStripeSubscription id new reject dbnow b = (b', r) →
  b' = b ∧ r ≠ inr true ∨
  r = inr true ∧ ∃ row, b' = set_subs (<[id := row]> (subs b)) b ∧
    data row = data (if subs b !! id is Some old then merge_sub old new dbnow else new_sub new dbnow) ∧
    (subs b !! id = None → sub_UserID row = sub_UserID new ∧ sub_LicenseID row = sub_LicenseID new).
Proof.
  unfold upsertStripeSubscription, mbind, act_bind, ask. simpl.
  destruct (subs b !! id) as [old|].
  - case_if; [intros [= <- <-]; by left|]. unfold check, update. case_if; simpl; intros [= <- <-]; [|by left].
    right. split; [done|]. eexists. done.
  - unfold check, update. case_if; simpl; intros [= <- <-]; [|by left].
    right. split; [done|]. by eexists.
Qed.

(** A subscription event changes the database only after everything it claims
    checks out: the account exists and owns the license, the event is of a
    subscription, it holds one item, and that item's price is the configured price
    of the plan and interval named in its metadata. It then writes the one row of
    that subscription, with the plan and interval of the price. *)
Theorem subscription_event_validated getenv now dbnow event source createdAt reject b b' r :
  handleSubscriptionChanged getenv now dbnow event source createdAt reject b = (b', r) →
  b' = b ∨
  ∃ user license tier interval row,
    event_valid getenv event b user license tier interval ∧
    subs b' = <[ev_ID event := row]> (subs b) ∧
    sub_Tier row = tier ∧ sub_Interval row = interval ∧
    (subs b !! ev_ID event = None → sub_UserID row = user ∧ sub_LicenseID row = license).
Proof.
  unfold handleSubscriptionChanged. set (user := TrimSpace (meta _ "user_id")).
  set (license := TrimSpace (meta _ "license_id")). intros Hh.
  apply need_bind in Hh as [[= -> ->]|(tier & Htier & Hh)]; [by left|].
  apply check_bind in Hh as [[= -> ->]|[Hmeta Hh]]; [by left|].
  apply ask_bind in Hh.
  apply check_bind in Hh as [[= -> ->]|[Hacc Hh]]; [by left|].
  apply need_bind in Hh as [[= -> ->]|(it & Hit & Hh)]; [by left|].
  apply need_bind in Hh as [[= -> ->]|([ctier cint] & Hcat & Hh)]; [by left|]. simpl in Hh.
  apply check_bind in Hh as [[= -> ->]|[Hct Hh]]; [by left|].
  apply check_bind in Hh as [[= -> ->]|[Hci Hh]]; [by left|].
  apply check_bind in Hh as [[= -> ->]|[Hii Hh]]; [by left|].
  apply check_bind in Hh as [[= -> ->]|[Hper Hh]]; [by left|].
  match type of Hh with (upsertStripeSubscription ?i ?n ?rej ?t ≫= ?k) b = _ =>
    set (new := n) in *; set (rest := k) in *; destruct (upsertStripeSubscription i new rej t b) as [b1 r1] eqn:Eup end.
  assert (Hrest : ∀ m, keeps (λ b, subs b = m) (rest true)).
  { intros m. unfold rest. simpl. apply keeps_bind; [apply subs_apply|]. intros _.
    apply keeps_bind; [case_if; auto using subs_store with handlers|].
    intros _. apply keeps_bind; [apply subs_read|]. intros [l|]; auto using subs_store with handlers. }
  change (match upsertStripeSubscription (ev_ID event) new reject dbnow b with
          | (s', inl e) => (s', inl e) | (s', inr a) => rest a s' end = (b', r)) in Hh. rewrite Eup in Hh.
  apply upsert_effect in Eup as [[-> Hr1]|(-> & row & -> & Hdata & Hnew)].
  { left. destruct r1 as [e|[|]]; [by injection Hh|done|by injection Hh]. }
  right. exists user, license, tier, cint, row. bool_to_prop. subst ctier.
  assert (Hd : data row = data (if subs b !! ev_ID event is Some old then merge_sub old new dbnow else new_sub new dbnow)) by done.
  split; [|split; [|split; [|split]]].
  - split; auto.
    + split; [by apply tier_metadata|done].
    + exists it. split; [|done]. destruct (ev_Items event) as [|? [|? ?]]; by simplify_eq.
    + intros Hp. destruct Hper as [Hper|Hper]; bool_to_prop; [congruence|].
      destruct (periodEndFromSubscriptionEvent event); [eauto|done].
  - pose proof (Hrest _ (set_subs (<[ev_ID event := row]> (subs b)) b) eq_refl) as Hs. by rewrite Hh in Hs.
  - unfold data in Hd. destruct (subs b !! ev_ID event); simpl in Hd; congruence.
  - unfold data in Hd. destruct (subs b !! ev_ID event); simpl in Hd; congruence.
  - done.
Qed.

(** ** The fail-safe *)

(** Stale rows whose period ended before [e]. *)
Definition ended_before (e cutoff : Z) (m : gmap string StripeSubscription) : list (string * StripeSubscription) :=
  filter (λ kv, default 0 (sub_CurrentPeriodEnd kv.2) < e) (stale_subs cutoff m).

#[export] Instance by_period_end_trans : Transitive by_period_end.
Proof. intros x y z. unfold by_period_end. lia. Qed.
#[export] Instance by_period_end_total : Total by_period_end.
Proof. intros x y. unfold by_period_end. lia. Qed.

(** In a sorted list, an element among the first [n] has fewer than [n] elements
    strictly below it. *)
Lemma sorted_take_count (l : list (string * StripeSubscription)) n x :
  StronglySorted by_period_end l → x ∈ take n l →
  (length (filter (λ kv : string * StripeSubscription,
     (default 0 (sub_CurrentPeriodEnd kv.2) < default 0 (sub_CurrentPeriodEnd x.2))%Z) l) < n)%nat.
Proof.
  revert n. induction l as [|y l IH]; intros n Hs Hin; [rewrite take_nil in Hin; set_solver|].
  destruct n as [|n]; [simpl in Hin; set_solver|]. apply StronglySorted_inv in Hs as [Hs Hy].
  rewrite firstn_cons in Hin. apply elem_of_cons in Hin as [->|Hin].
  - rewrite filter_cons, decide_False by lia.
    assert (filter (λ kv : string * StripeSubscription,
      default 0 (sub_CurrentPeriodEnd kv.2) < default 0 (sub_CurrentPeriodEnd y.2)) l = []) as ->; [|simpl; lia].
    apply filter_nil_iff. intros z Hz. rewrite Forall_forall in Hy.
    specialize (Hy z Hz). unfold by_period_end in Hy. lia.
  - specialize (IH n Hs Hin). rewrite filter_cons. case_decide; simpl; lia.
Qed.

Lemma stale_license_unlisted cutoff limit m id s :
  m !! id = Some s →
  (∀ k s', m !! k = Some s' → period_ended cutoff s' = true → sub_LicenseID s' = sub_LicenseID s → k = id) →
  clamp_limit limit <= len (ended_before (default 0 (sub_CurrentPeriodEnd s)) cutoff m) →
  sub_LicenseID s ∉ stale_licenses cutoff limit m.
Proof.
  intros Hm Huniq Hlen Hin. unfold stale_licenses in Hin.
  apply list_elem_of_fmap in Hin as ([k s'] & Hlic & Hin). simpl in Hlic.
  assert (Hst : (k, s') ∈ stale_subs cutoff m).
  { rewrite <- (merge_sort_Permutation by_period_end).
    rewrite <- (take_drop (Z.to_nat (clamp_limit limit)) (merge_sort by_period_end _)).
    apply elem_of_app. by left. }
  apply list_elem_of_filter in Hst as [Hpe Hk]. apply elem_of_map_to_list in Hk. simpl in Hpe.
  assert (k = id) as -> by (eapply Huniq; eauto). assert (s' = s) as -> by congruence.
  apply sorted_take_count in Hin; [|apply StronglySorted_merge_sort; apply _].
  rewrite (merge_sort_Permutation by_period_end) in Hin. simpl in Hin.
  unfold ended_before, len in Hlen. lia.
Qed.

(** The fail-safe that downgrades licenses whose paid period ended picks its
    batch before it looks at the licenses: once as many stale rows as the batch
    holds ended earlier, the license of a later one keeps its paid plan, however
    often the job runs, since the rows in front stay in front. *)
Theorem stale_expiry_starves cutoff limit b user l id s n :
  subs b !! id = Some s → license_table_of b !! user = Some l → lic_ID l = sub_LicenseID s →
  (∀ k s', subs b !! k = Some s' → period_ended cutoff s' = true → sub_LicenseID s' = sub_LicenseID s → k = id) →
  clamp_limit limit <= len (ended_before (default 0 (sub_CurrentPeriodEnd s)) cutoff (subs b)) →
  license_table_of (Nat.iter n (ExpireStaleSubscriptionEntitlements cutoff limit) b) !! user = Some l.
Proof.
  intros Hs Hl Hid Huniq Hlen.
  assert (Hsubs : subs (Nat.iter n (ExpireStaleSubscriptionEntitlements cutoff limit) b) = subs b).
  { clear. induction n; [done|]. done. }
  induction n as [|n IH]; [done|]. simpl in *.
  unfold ExpireStaleSubscriptionEntitlements at 1, set_licenses, license_table_of at 1. simpl.
  apply lookup_fmap_Some. exists l. split; [|by apply IH].
  rewrite bool_decide_eq_false_2; [done|]. rewrite Hid, Hsubs. by apply (stale_license_unlisted _ _ _ id).
Qed.

(** ** Witnesses *)

Definition demo_sub (user status : string) (ends created : Z) (event : string) : StripeSubscription :=
  mkSub user ("lic-" +:+ user) "cus" "price" TierPro "month" status (Some ends) false None (Some created) event
    None 0 0 "" 0.
Definition demo_license (user : string) : License :=
  mkLicense ("lic-" +:+ user) TierPro LicenseStatusActive None None None.
Definition demo_billing (m : gmap string StripeSubscription) : Billing :=
  mkBilling (mkDB {["u"; "v"]}%string ∅ ∅ {["u"%string := demo_license "u"; "v"%string := demo_license "v"]} ∅ ∅ ∅ ∅)
    {["u"%string := "lic-u"%string]} m ∅ ∅ ∅.

Definition demo_events : list StripeSubscription :=
  [demo_sub "u" "active" 900 10 "e1"; demo_sub "u" "canceled" 900 20 "e2"].


Definition demo_canceled : Billing :=
  demo_billing {["s"%string := demo_sub "u" "canceled" 900 20 "e2"]}.


Definition demo_env (name : string) : string :=
  if bool_decide (name = "STRIPE_PRICE_PRO_MONTHLY"%string) then "price_1" else "".
Definition demo_event : subscriptionEvent :=
  mkSubEvent "s" "cus" "active"
    {["user_id" := "u"; "license_id" := "lic-u"; "tier" := "pro"; "interval" := "month"; "kind" := "subscription"]}%string
    900 false 0 [mkItem 0 "price_1" "month"].

Lemma subscription_event_validated_witness :
  let '(b', r) := handleSubscriptionChanged demo_env 0 0 demo_event "e1" (Some 5) true (demo_billing ∅) in
  r = inr tt ∧ ∃ row, subs b' = <["s"%string := row]> ∅ ∧ sub_Tier row = TierPro.
Proof.
  destruct (handleSubscriptionChanged demo_env 0 0 demo_event "e1" (Some 5) true (demo_billing ∅)) as [b' r] eqn:E.
  assert (Hc : bool_decide (subs (handleSubscriptionChanged demo_env 0 0 demo_event "e1" (Some 5) true
    (demo_billing ∅)).1 !! "s"%string = None) = false) by (vm_compute; reflexivity).
  assert (Hr : (handleSubscriptionChanged demo_env 0 0 demo_event "e1" (Some 5) true (demo_billing ∅)).2 = inr tt)
    by (vm_compute; reflexivity).
  rewrite E in Hc, Hr. simpl in Hc, Hr. split; [exact Hr|].
  destruct (subscription_event_validated _ _ _ _ _ _ _ _ _ _ E) as [->|(u & l & t & i & row & Hv & Hs & Ht & _)].
  - vm_compute in Hc. discriminate Hc.
  - exists row. split; [exact Hs|]. rewrite Ht. destruct (val_tier _ _ _ _ _ _ _ Hv) as [<- _]. vm_compute. reflexivity.
Defined.

Definition demo_stale : Billing :=
  demo_billing {["s1"%string := demo_sub "u" "active" 10 1 "e1"; "s2"%string := demo_sub "v" "active" 20 1 "e2"]}.

Lemma stale_expiry_starves_witness :
  license_table_of (Nat.iter 50 (ExpireStaleSubscriptionEntitlements 1000 1) demo_stale) !! "v"%string =
  Some (demo_license "v").
Proof.
  apply (stale_expiry_starves 1000 1 demo_stale "v" (demo_license "v") "s2" (demo_sub "v" "active" 20 1 "e2") 50).
  - vm_compute. reflexivity.
  - vm_compute. reflexivity.
  - reflexivity.
  - intros k s' Hk _ Hl. simpl in Hk. apply lookup_insert_Some in Hk as [[<- <-]|[_ Hk]]; [discriminate Hl|].
    apply lookup_singleton_Some in Hk as [<- _]. reflexivity.
  - vm_compute. discriminate.
Defined.
