(* ===== verification/Checkout.v ===== *)
(** * Subscription checkout and trials

    Models [subscriptions_create_checkout_session.go] and
    [subscriptions_create_stripe_portal_session.go] of [internal/billing] and the
    checkout attempts of [internal/platform/postgres/subscription_checkout.go]:
    the one open Stripe Checkout session a user may have, the replacement of a
    past-due subscription, and the start of a trial.  Stripe's API is a set of
    functions. *)
From S2P Require Import Prelude Tx GoStrings GoTime Entitlements Wallet Subscriptions.

(** ** Configuration *)

Record CheckoutConfig := mkCheckoutConfig {
  secretKey : string;
  successURL : string;
  cancelURL : string;
  portalReturnURL : string;
  TestingPrices : gmap (Tier * string) string }.

(** The configured price of each plan and interval. *)
Definition configured_prices (getenv : string → string) : list ((Tier * string) * string) :=
  (λ def : string * (Tier * string), (def.2, TrimSpace (getenv def.1))) <$> subscriptionPriceDefinitions.

Definition required_settings (getenv : string → string) : list (string * string) :=
  (λ name : string, (name, TrimSpace (getenv name))) <$>
    (["STRIPE_SECRET_KEY"; "STRIPE_CHECKOUT_SUCCESS_URL"; "STRIPE_CHECKOUT_CANCEL_URL"; "STRIPE_PORTAL_RETURN_URL"]%string
     ++ (fst <$> subscriptionPriceDefinitions)).

Definition TestingLoadStripeCheckoutConfig (getenv : string → string) : BillingError + CheckoutConfig :=
  let env name := TrimSpace (getenv name) in
  match head (filter (λ s : string * string, s.2 = ""%string) (required_settings getenv)) with
  | Some s => inl (ConfigMissing s.1)
  | None =>
      if bool_decide (NoDup (snd <$> configured_prices getenv)) then
        inr (mkCheckoutConfig (env "STRIPE_SECRET_KEY"%string) (env "STRIPE_CHECKOUT_SUCCESS_URL"%string)
               (env "STRIPE_CHECKOUT_CANCEL_URL"%string) (env "STRIPE_PORTAL_RETURN_URL"%string)
               (list_to_map (configured_prices getenv)))
      else inl PricesNotUnique
  end.

(** ** Attempts *)

Definition active_attempt (status : string) : bool :=
  bool_decide (status = "creating"%string) || bool_decide (status = "open"%string).

Definition active_of (user : string) (m : gmap string Attempt) : list (string * Attempt) :=
  filter (λ kv : string * Attempt, att_UserID kv.2 = user ∧ active_attempt (att_Status kv.2) = true) (map_to_list m).

(** [ORDER BY created_at DESC LIMIT 1]. *)
Definition newest (l : list (string * Attempt)) : option (string * Attempt) :=
  foldr (λ x acc, match acc with
                  | None => Some x
                  | Some y => if att_Created x.2 <? att_Created y.2 then Some y else Some x
                  end) None l.

(** [newID] is the fresh id; the insert does nothing when the user has an active
    attempt already, and that one is returned. *)
Definition BeginSubscriptionCheckout (newID user license : string) (tier : Tier) (interval : string)
    (now dbnow lifetime : Z) : H (string * Attempt) :=
  let lifetime := if lifetime <? 30 * Minute then 35 * Minute else lifetime in
  b ← ask;
  check (TestingValidPaidTier tier && TestingValidInterval interval) BillingSQL;;
  if bool_decide (attempts b !! newID = None) && bool_decide (active_of user (attempts b) = []) then
    let a := mkAttempt user license tier interval "creating" "" "" (now + lifetime) dbnow in
    update (set_attempts (<[newID := a]> (attempts b)));;
    mret (newID, a)
  else need (newest (active_of user (attempts b))) BillingSQL.

(** The session column is unique. *)
Definition session_free (id session : string) (m : gmap string Attempt) : bool :=
  bool_decide (filter (λ kv : string * Attempt, kv.1 ≠ id ∧ att_SessionID kv.2 = session) (map_to_list m) = []).

Definition OpenSubscriptionCheckout (id session url : string) (expiresAt : Z) : H () :=
  b ← ask;
  match attempts b !! id with
  | Some a =>
      if active_attempt (att_Status a) then
        check (session_free id session (attempts b)) BillingSQL;;
        update (set_attempts (<[id := mkAttempt (att_UserID a) (att_LicenseID a) (att_Tier a) (att_Interval a) "open"
                                        session url expiresAt (att_Created a)]> (attempts b)))
      else throw AttemptInactive
  | None => throw AttemptInactive
  end.

Definition FailSubscriptionCheckout (id : string) : H () :=
  update (λ b, set_attempts (alter (λ a,
    if bool_decide (att_Status a = "creating"%string) then set_attempt_status "failed" a else a) id (attempts b)) b).

Definition HasCompletedSubscriptionCheckoutWithoutSubscription (user : string) (b : Billing) : bool :=
  negb (bool_decide (filter (λ kv : string * Attempt,
    att_UserID kv.2 = user ∧ att_Status kv.2 = "completed"%string) (map_to_list (attempts b)) = [])) &&
  bool_decide (filter (λ kv : string * StripeSubscription, sub_UserID kv.2 = user) (map_to_list (subs b)) = []).

(** ** Purchases and customers *)

Definition HasCompletedStripePurchase (user : string) (b : Billing) : bool :=
  negb (bool_decide (filter (λ kv : string * StripePurchase,
    pur_UserID kv.2 = user ∧ pur_Status kv.2 = "completed"%string) (map_to_list (purchases b)) = [])).

Definition newest_purchase (l : list (string * StripePurchase)) : option (string * StripePurchase) :=
  foldr (λ x acc, match acc with
                  | None => Some x
                  | Some y => if pur_UpdatedAt x.2 <? pur_UpdatedAt y.2 then Some y else Some x
                  end) None l.

Definition GetStripeCustomerIDForUser (user : string) (b : Billing) : string :=
  let from_purchase :=
    match newest_purchase (filter (λ kv : string * StripePurchase,
            pur_UserID kv.2 = user ∧ pur_CustomerID kv.2 ≠ None) (map_to_list (purchases b))) with
    | Some (_, p) => default ""%string (pur_CustomerID p)
    | None => ""%string
    end in
  match GetStripeSubscriptionByUserID (subs b) user with
  | Some (_, s) => if bool_decide (sub_CustomerID s = ""%string) then from_purchase else sub_CustomerID s
  | None => from_purchase
  end.

Definition EligibleForProTrial (license : option License) (existing : option StripeSubscription)
    (hasCompletedPurchase : bool) : bool :=
  match license with
  | Some l =>
      bool_decide (lic_TrialStartedAt l = None) && bool_decide (lic_LegacyTier l = None) &&
      match existing with None => true | Some _ => false end && negb hasCompletedPurchase
  | None => false
  end.

(** ** Sessions *)

Definition ProTrialDuration : Z := 14 * 24 * Hour.

(** The parameters of a Stripe Checkout session; without a customer the user's
    mail address is sent. *)
Record SessionParams := mkSessionParams {
  sp_Metadata : gmap string string;
  sp_Price : string;
  sp_TrialPeriodDays : option Z;
  sp_Customer : option string }.

Definition TestingStripeCheckoutSessionParams (cfg : CheckoutConfig) (user license : string) (tier : Tier)
    (interval customerID : string) (trialEligible : bool) : SessionParams :=
  mkSessionParams
    (list_to_map [("user_id", user); ("license_id", license); ("tier", tier); ("interval", interval);
                  ("kind", "subscription")]%string)
    (default ""%string (TestingPrices cfg !! (tier, interval)))
    (if bool_decide (tier = TierPro) && trialEligible then Some (Z.quot ProTrialDuration (24 * Hour)) else None)
    (if bool_decide (customerID = ""%string) then None else Some customerID).

Record CheckoutSessionResult := mkSession { cs_ID : string; cs_URL : string; cs_ExpiresAt : Z }.

Section checkout.
Context (getenv : string → string) (now dbnow : Z).
(** Stripe: a new session for the parameters, its expiry in Unix seconds and an
    idempotency key; the status of a session; a subscription's status, and its
    status after cancelling it. *)
Context (new_session : SessionParams → Z → string → string + (string * string * Z))
  (get_session : string → string + option string)
  (get_subscription : string → string + (string * string))
  (cancel_subscription : string → string + option (string * string)).

Definition createStripeCheckoutSession (cfg : CheckoutConfig) (user license : string) (tier : Tier)
    (interval customerID : string) (trialEligible : bool) (key : string) (expiresAt : Z)
    : string + CheckoutSessionResult :=
  let params := TestingStripeCheckoutSessionParams cfg user license tier interval customerID trialEligible in
  match new_session params (expiresAt / Second) ("misty-subscription-checkout-" +:+ key) with
  | inl e => inl e
  | inr (id, url, expires) => inr (mkSession id url (unix expires))
  end.

Definition fetchStripeCheckoutSession (session : string) : string + option string :=
  if bool_decide (TrimSpace session = ""%string) then inl "Stripe Checkout Session id is required"%string
  else get_session session.

Definition cancelStripeSubscription (id : string) : string + option (string * string) :=
  if bool_decide (TrimSpace id = ""%string) then inl "Stripe subscription id is required"%string
  else
    match get_subscription id with
    | inl e => inl e
    | inr (sid, status) =>
        if bool_decide (status = "canceled"%string) then inr (Some (sid, status)) else cancel_subscription id
    end.

Definition replacePastDueSubscription (id : string) (existing : StripeSubscription) (attemptID : string) : H () :=
  canonical ← stripe (cancelStripeSubscription id);
  check (match canonical with
         | Some (sid, status) => bool_decide (sid = id) && bool_decide (status = "canceled"%string)
         | None => false
         end) NotCanceled;;
  let replacement :=
    mkSub (sub_UserID existing) (sub_LicenseID existing) (sub_CustomerID existing) (sub_PriceID existing)
      (sub_Tier existing) (sub_Interval existing) "canceled" (sub_CurrentPeriodEnd existing) false (Some now)
      (Some now) ("checkout-replacement:" +:+ attemptID) (sub_LastReconciledAt existing)
      (nextSubscriptionReconcileAt now (sub_CurrentPeriodEnd existing)) (sub_ReconcileFailures existing)
      (sub_LastReconcileError existing) (sub_UpdatedAt existing) in
  applied ← upsertStripeSubscription id replacement true dbnow;
  check applied ReplacementNotApplied;;
  ApplyEffectiveSubscriptionEntitlement replacement now.

(** A new session for an attempt that has none: created under the attempt's
    idempotency key, the past-due subscription replaced, the attempt opened. *)
Definition start_session (cfg : CheckoutConfig) (user license : string) (tier : Tier) (interval customerID : string)
    (trialEligible : bool) (existing : option (string * StripeSubscription)) (attempt : string * Attempt)
    : H string :=
  result ← stripe (createStripeCheckoutSession cfg user license tier interval customerID trialEligible
                     attempt.1 (att_ExpiresAt attempt.2));
  check (negb (bool_decide (cs_ID result = ""%string)) && negb (bool_decide (cs_URL result = ""%string)))
    IncompleteSession;;
  let expiresAt := if cs_ExpiresAt result =? time_zero then att_ExpiresAt attempt.2 else cs_ExpiresAt result in
  (match existing with
   | Some (id, e) =>
       if EqualFold (TrimSpace (sub_Status e)) SubscriptionStatusPastDue
       then replacePastDueSubscription id e attempt.1 else mret ()
   | None => mret ()
   end);;
  OpenSubscriptionCheckout attempt.1 (cs_ID result) (cs_URL result) expiresAt;;
  mret (cs_URL result).

(** One pass of [CreateCheckoutSession]; [None] when it calls itself again. *)
Definition checkout_pass (newID user : string) (tier : Tier) (interval : string) : H (option string) :=
  check (TestingValidPaidTier tier) ErrInvalidTier;;
  check (TestingValidInterval interval) ErrInvalidInterval;;
  b ← ask;
  license_id ← need (accounts b !! user) ErrUserNotFound;
  let existing := GetStripeSubscriptionByUserID (subs b) user in
  check (match existing with Some (_, e) => negb (SubscriptionAllowsPaidAccess (sub_Status e)) | None => true end)
    ErrSubscriptionExists;;
  check (match existing with
         | Some _ => true
         | None => negb (HasCompletedSubscriptionCheckoutWithoutSubscription user b)
         end) ErrSubscriptionExists;;
  cfg ← either (TestingLoadStripeCheckoutConfig getenv);
  let customerID := GetStripeCustomerIDForUser user b in
  license ← read_license user now;
  let hasPurchase := HasCompletedStripePurchase user b in
  let trialEligible :=
    bool_decide (tier = TierPro) && EligibleForProTrial license (snd <$> existing) hasPurchase in
  attempt ← BeginSubscriptionCheckout newID user license_id tier interval now dbnow (35 * Minute);
  let a := attempt.2 in
  check (bool_decide (att_Tier a = tier) && bool_decide (att_Interval a = interval)) ErrCheckoutInProgress;;
  if bool_decide (att_Status a = "open"%string) && negb (bool_decide (att_URL a = ""%string)) &&
     (now <? att_ExpiresAt a) then mret (Some (att_URL a))
  else if bool_decide (att_Status a = "open"%string) then
    match fetchStripeCheckoutSession (att_SessionID a) with
    | inr (Some status) =>
        if bool_decide (status = "complete"%string) then
          CompleteSubscriptionCheckoutBySessionID (att_SessionID a);; throw ErrSubscriptionExists
        else if bool_decide (status = "expired"%string) then
          ExpireSubscriptionCheckoutBySessionID (att_SessionID a);; mret None
        else throw ErrCheckoutInProgress
    | _ => throw ErrCheckoutInProgress
    end
  else
    url ← start_session cfg user license_id tier interval customerID trialEligible existing attempt;
    mret (Some url).

(** The recursion of [CreateCheckoutSession], with fuel; [newIDs] are the fresh
    ids of its passes. *)
Fixpoint CreateCheckoutSession (fuel : nat) (newIDs : nat → string) (user : string) (tier : Tier)
    (interval : string) : H string :=
  match fuel with
  | O => throw Diverges
  | S f =>
      r ← checkout_pass (newIDs f) user tier interval;
      match r with
      | Some url => mret url
      | None => CreateCheckoutSession f newIDs user tier interval
      end
  end.

Definition CreatePortalSession (create_portal : string → string → string → string + string) (user : string)
    : H string :=
  cfg ← either (TestingLoadStripeCheckoutConfig getenv);
  b ← ask;
  let customerID := GetStripeCustomerIDForUser user b in
  check (negb (bool_decide (customerID = ""%string))) ErrPortalUnavailable;;
  stripe (create_portal (secretKey cfg) customerID (portalReturnURL cfg)).

Definition StartProTrial (trialDuration : Z) (user : string) : H (option License) :=
  license ← read_license user now;
  l ← need license ErrLicenseNotFound;
  check (trial_available l) ErrTrialUnavailable;;
  b ← ask;
  check (negb (HasCompletedStripePurchase user b)) ErrTrialUnavailable;;
  let '(t, started) := StartTrialByUserID (license_table_of b) user trialDuration now in
  update (set_licenses t);;
  check started ErrTrialUnavailable;;
  read_license user now.
End checkout.
