(* ===== verification/CheckoutProps.v ===== *)
(** * Properties of checkout

    A user has one active attempt at a time, a URL handed out is that attempt's
    and never goes to a paying user, the recursion ends after two passes; and an
    attempt whose first creation failed can block the user for good. *)
From S2P Require Import Prelude Tx GoStrings GoTime Entitlements Wallet Subscriptions SubscriptionProps Checkout.

(** ** Attempts *)

Record attempts_ok (m : gmap string Attempt) : Prop := {
  ok_session : ∀ k a, m !! k = Some a → att_Status a = "open"%string → att_SessionID a ≠ ""%string;
  ok_unique : ∀ k k' a a', m !! k = Some a → m !! k' = Some a' → att_UserID a = att_UserID a' →
    active_attempt (att_Status a) = true → active_attempt (att_Status a') = true → k = k' }.

Lemma active_of_in user m k a :
  (k, a) ∈ active_of user m ↔ m !! k = Some a ∧ att_UserID a = user ∧ active_attempt (att_Status a) = true.
Proof. unfold active_of. rewrite list_elem_of_filter, elem_of_map_to_list. naive_solver. Qed.

Lemma active_of_nil user m :
  active_of user m = [] ↔ ∀ k a, m !! k = Some a → att_UserID a = user → active_attempt (att_Status a) = false.
Proof.
  split.
  - intros Hn k a Hk Hu. destruct (active_attempt (att_Status a)) eqn:E; [|done].
    assert (Hin : (k, a) ∈ active_of user m) by by apply active_of_in. rewrite Hn in Hin. set_solver.
  - intros Hall. apply filter_nil_iff. intros [k a] Hin [Hu Ha]. simpl in *.
    apply elem_of_map_to_list in Hin. rewrite (Hall k a Hin Hu) in Ha. done.
Qed.

Lemma newest_in l x : newest l = Some x → x ∈ l.
Proof.
  revert x. induction l as [|y l IH]; simpl; [done|]. intros x.
  destruct (newest l) as [z|]; [|intros [= ->]; left].
  case_if; intros [= ->]; [right; by apply IH|left].
Qed.

Lemma mark_lookup sid from to m k a' :
  mark_attempts sid from to m !! k = Some a' →
  ∃ a, m !! k = Some a ∧ (a' = a ∨ a' = set_attempt_status to a ∧ att_Status a ∈ from).
Proof.
  unfold mark_attempts. case_if; [eauto|]. rewrite lookup_fmap. destruct (m !! k) as [a|]; [|done].
  simpl. intros [= <-]. exists a. split; [done|]. case_if; [right|by left]. bool_to_prop. done.
Qed.

Lemma mark_ok sid from to m :
  to ≠ "creating"%string → to ≠ "open"%string → attempts_ok m → attempts_ok (mark_attempts sid from to m).
Proof.
  intros Hc Ho [H1 H2].
  assert (Hto : active_attempt to = false).
  { unfold active_attempt. by rewrite !bool_decide_eq_false_2. }
  split.
  - intros k a' (a & Ha & [->|[-> _]])%mark_lookup Hs; [by apply (H1 k)|]. by simpl in Hs.
  - intros k k' a1 a2 (a & Ha & [->|[-> _]])%mark_lookup; [|simpl; by rewrite Hto].
    intros (a' & Ha' & [->|[-> _]])%mark_lookup; [|simpl; by rewrite Hto]. by apply (H2 k k').
Qed.

(** An expired or completed session of the user's active attempt leaves none. *)
Lemma mark_clears sid from to m k a :
  attempts_ok m → m !! k = Some a → active_attempt (att_Status a) = true → att_SessionID a = sid →
  sid ≠ ""%string → att_Status a ∈ from → active_attempt to = false →
  active_of (att_UserID a) (mark_attempts sid from to m) = [].
Proof.
  intros [_ Hu] Hk Ha Hs Hne Hf Hto. apply active_of_nil. intros k' a' Hk' Hua.
  destruct (active_attempt (att_Status a')) eqn:E; [|done]. exfalso.
  pose proof (mark_lookup _ _ _ _ _ _ Hk') as (a0 & Ha0 & [->|[-> _]]); [|simpl in E; congruence].
  assert (k' = k) as -> by (apply (Hu k' k a0 a); congruence). assert (a0 = a) as -> by congruence.
  unfold mark_attempts in Hk'. rewrite bool_decide_eq_false_2 in Hk' by done.
  rewrite lookup_fmap, Hk in Hk'. simpl in Hk'. injection Hk' as Hk'.
  rewrite !bool_decide_eq_true_2 in Hk' by done. simpl in Hk'.
  assert (att_Status (set_attempt_status to a) = att_Status a) by congruence. simpl in *. congruence.
Qed.

Lemma put_active_ok m k a :
  attempts_ok m → (att_Status a = "open"%string → att_SessionID a ≠ ""%string) →
  (∀ k' a', m !! k' = Some a' → k' ≠ k → att_UserID a' = att_UserID a → active_attempt (att_Status a') = false) →
  attempts_ok (<[k := a]> m).
Proof.
  intros [H1 H2] Hs Hf. split.
  - intros k' a' [[<- <-]|[_ Hk']]%lookup_insert_Some; [done|by apply (H1 k')].
  - intros k1 k2 a1 a2 Ha1 Ha2 Hu Hact1 Hact2.
    apply lookup_insert_Some in Ha1 as [[<- <-]|[Hn1 Ha1]], Ha2 as [[<- <-]|[Hn2 Ha2]]; [done|..|by apply (H2 k1 k2 a1 a2)].
    + rewrite (Hf k2 a2) in Hact2; done.
    + rewrite (Hf k1 a1) in Hact1; done.
Qed.

Lemma active_cases st : active_attempt st = true → st = "creating"%string ∨ st = "open"%string.
Proof. unfold active_attempt. intros H. bool_to_prop. destruct H; bool_to_prop; auto. Qed.

Lemma begin_spec newID user license tier interval now dbnow lifetime b b' r :
  attempts_ok (attempts b) →
  BeginSubscriptionCheckout newID user license tier interval now dbnow lifetime b = (b', r) →
  attempts_ok (attempts b') ∧ subs b' = subs b ∧ r ≠ inl Diverges ∧
  ∀ k a, r = inr (k, a) →
    attempts b' !! k = Some a ∧ att_UserID a = user ∧ active_attempt (att_Status a) = true ∧
    (active_of user (attempts b) = [] → att_Status a = "creating"%string).
Proof.
  intros Hok. unfold BeginSubscriptionCheckout. intros Hb. apply ask_bind in Hb.
  apply check_bind in Hb as [[= -> ->]|[_ Hb]]; [done|]. case_if; bool_to_prop.
  - injection Hb as <- <-. simpl.
    split; [apply put_active_ok; [done|done|]|split; [done|split; [done|]]].
    + intros k' a' Hk' _ Hu. by apply (proj1 (active_of_nil _ _) ltac:(eassumption) k').
    + intros k a [= <- <-]. split; [apply lookup_insert_eq|done].
  - unfold need in Hb. destruct (newest _) as [[k0 a0]|] eqn:En; injection Hb as <- <-; [|done].
    split; [done|]. split; [done|]. split; [done|]. intros k a [= <- <-].
    apply newest_in in En. pose proof En as En'. apply active_of_in in En as (Hk & Hu & Ha).
    split; [done|]. split; [done|]. split; [done|]. intros Hn. rewrite Hn in En'. set_solver.
Qed.

(** ** Handlers that leave the attempts alone *)

Section keeps_attempts.
Context (m : gmap string Attempt).
Let same (b : Billing) : Prop := attempts b = m.

Lemma att_licenses t : keeps same (update (set_licenses t) : H ()).
Proof. by intros b. Qed.

Lemma att_read user now : keeps same (read_license user now).
Proof. apply keeps_bind; [auto with handlers|]. intros b. destruct (GetLicenseByUserID _ _ _). auto using att_licenses with handlers. Qed.

Lemma att_apply sub now : keeps same (ApplyEffectiveSubscriptionEntitlement sub now).
Proof.
  apply keeps_bind; [auto with handlers|]. intros b. cbv zeta. case_if; [apply att_licenses|].
  apply keeps_bind; [case_if; auto using att_read with handlers|].
  intros t. apply keeps_bind; auto using att_licenses with handlers.
Qed.

Lemma att_upsert id new reject dbnow : keeps same (upsertStripeSubscription id new reject dbnow).
Proof.
  intros b Hb. destruct (upsertStripeSubscription id new reject dbnow b) as [b' r] eqn:E.
  apply upsert_effect in E as [[-> _]|(_ & row & -> & _)]; done.
Qed.

Lemma att_stripe {A} (r : string + A) : keeps same (stripe r).
Proof. destruct r; by intros b. Qed.

Lemma att_replace now dbnow get cancel id existing attempt :
  keeps same (replacePastDueSubscription now dbnow get cancel id existing attempt).
Proof.
  unfold replacePastDueSubscription. apply keeps_bind; [apply att_stripe|]. intros c.
  apply keeps_bind; [auto with handlers|]. intros _. cbv zeta. apply keeps_bind; [apply att_upsert|]. intros ap.
  apply keeps_bind; auto using att_apply with handlers.
Qed.
End keeps_attempts.

Definition finite (e : BillingError) : Prop := e ≠ Diverges.

Lemma throws_stripe {A} (r : string + A) : throws finite (stripe r).
Proof. destruct r; [by intros b e [= <-]|by intros b e]. Qed.
Lemma stripe_bind {A B} (o : string + A) (k : A → H B) b r :
  (x ← stripe o; k x) b = r → (∃ m, r = (b, inl (StripeFailed m))) ∨ ∃ x, o = inr x ∧ k x b = r.
Proof. destruct o; [intros <-; left; eexists; done|right; eauto]. Qed.
Lemma throws_read user now : throws finite (read_license user now).
Proof. intros b e. unfold read_license, mbind, act_bind, ask. by destruct (GetLicenseByUserID _ _ _). Qed.
Lemma throws_apply sub now : throws finite (ApplyEffectiveSubscriptionEntitlement sub now).
Proof.
  apply throws_bind; [auto with handlers|]. intros b. cbv zeta. case_if; [auto with handlers|].
  apply throws_bind; [case_if; auto using throws_read with handlers|]. auto with handlers.
Qed.
Lemma throws_upsert id new reject dbnow : throws finite (upsertStripeSubscription id new reject dbnow).
Proof.
  apply throws_bind; [auto with handlers|]. intros b. destruct (subs b !! id); [case_if|]; [auto with handlers| |];
    (apply throws_bind; [by apply throws_check|auto with handlers]).
Qed.
Lemma throws_replace now dbnow get cancel id existing attempt :
  throws finite (replacePastDueSubscription now dbnow get cancel id existing attempt).
Proof.
  unfold replacePastDueSubscription. apply throws_bind; [apply throws_stripe|]. intros c.
  apply throws_bind; [by apply throws_check|]. intros _. cbv zeta.
  apply throws_bind; [apply throws_upsert|]. intros ap.
  apply throws_bind; [by apply throws_check|]. auto using throws_apply.
Qed.

Lemma open_spec id a session url expires b b' r :
  attempts_ok (attempts b) → attempts b !! id = Some a → active_attempt (att_Status a) = true →
  session ≠ ""%string →
  OpenSubscriptionCheckout id session url expires b = (b', r) →
  attempts_ok (attempts b') ∧ r ≠ inl Diverges ∧ subs b' = subs b ∧
  (r = inr tt → attempts b' !! id =
     Some (mkAttempt (att_UserID a) (att_LicenseID a) (att_Tier a) (att_Interval a) "open" session url expires
             (att_Created a))).
Proof.
  intros Hok Hid Ha Hs Ho. unfold OpenSubscriptionCheckout in Ho. apply ask_bind in Ho. rewrite Hid, Ha in Ho.
  apply check_bind in Ho as [[= -> ->]|[_ Ho]]; [done|]. injection Ho as <- <-. simpl.
  split; [|split; [done|split; [done|intros _; apply lookup_insert_eq]]].
  apply put_active_ok; [done|done|]. simpl. intros k' a' Hk' Hne Hu.
  destruct (active_attempt (att_Status a')) eqn:E; [|done].
  exfalso. apply Hne. by apply (ok_unique _ Hok k' id a' a).
Qed.

Section pass.
Context (getenv : string → string) (now dbnow : Z)
  (new_session : SessionParams → Z → string → string + (string * string * Z))
  (get_session : string → string + option string)
  (get_subscription : string → string + (string * string))
  (cancel_subscription : string → string + option (string * string)).

(** The user's open attempt that a URL belongs to. *)
Definition url_of (user : string) (tier : Tier) (interval url : string) (m : gmap string Attempt) : Prop :=
  ∃ id a, m !! id = Some a ∧ att_UserID a = user ∧ att_Status a = "open"%string ∧ att_URL a = url ∧
    att_Tier a = tier ∧ att_Interval a = interval.

Lemma start_spec cfg user license tier interval customer trial existing id a b b' r :
  attempts_ok (attempts b) → attempts b !! id = Some a → active_attempt (att_Status a) = true →
  att_UserID a = user → att_Tier a = tier → att_Interval a = interval →
  start_session now dbnow new_session get_subscription cancel_subscription cfg user license tier interval customer
    trial existing (id, a) b = (b', r) →
  attempts_ok (attempts b') ∧ r ≠ inl Diverges ∧ ∀ url, r = inr url → url_of user tier interval url (attempts b').
Proof.
  intros Hok Hid Ha Hu Ht Hi. unfold start_session. intros Hs.
  apply stripe_bind in Hs as [(m & [= -> ->])|(res & Hc & Hs)]; [done|].
  apply check_bind in Hs as [[= -> ->]|[Hne Hs]]; [done|]. cbv zeta in Hs.
  assert (Hsid : cs_ID res ≠ ""%string) by (by bool_to_prop).
  match type of Hs with (?m ≫= _) _ = _ =>
    assert (Hrep : keeps (λ b0, attempts b0 = attempts b) m ∧ throws finite m) end.
  { destruct existing as [[eid ex]|]; [case_if|]; split;
      auto using att_replace, throws_replace with handlers. }
  destruct Hrep as [Hk Hf].
  apply act_bind_cases in Hs as [(s2 & e & Hr & [= -> ->])|(s2 & [] & Hr & Hs)];
    specialize (Hk b eq_refl); rewrite Hr in Hk; simpl in Hk.
  { rewrite Hk. split; [done|]. split; [|done]. intros [= ->]. by apply (Hf _ _ (f_equal snd Hr)). }
  rewrite <- Hk in Hok, Hid.
  apply act_bind_cases in Hs as [(s3 & e & Ho & [= -> ->])|(s3 & [] & Ho & [= <- <-])];
    destruct (open_spec _ _ _ _ _ _ _ _ Hok Hid Ha Hsid Ho) as (Hok' & Hd & _ & Hl).
  - split; [done|]. split; [congruence|done].
  - split; [done|]. split; [done|]. intros url [= <-]. specialize (Hl eq_refl). simpl in Hl.
    eexists _, _. split; [exact Hl|]. simpl. done.
Qed.

(** A subscription that grants access is seen as granting. *)
Lemma paid_allows status : paid_status status = true → SubscriptionAllowsPaidAccess status = true.
Proof. unfold paid_status. intros H. bool_to_prop. destruct H as [H|H]; bool_to_prop; subst; reflexivity. Qed.

Lemma refused_paid user b :
  TrimSpace user ≠ ""%string →
  match GetStripeSubscriptionByUserID (subs b) user with
  | Some (_, e) => negb (SubscriptionAllowsPaidAccess (sub_Status e))
  | None => true
  end = true → ∀ s, ¬ grants user (subs b) s.
Proof.
  intros Hu Hb s Hs. destruct (user_best_paid _ _ _ Hu Hs) as (k & s' & Eb & _ & _ & Hp).
  rewrite Eb, (paid_allows _ Hp) in Hb. done.
Qed.

(** What one pass does. *)
Definition pass_post (user : string) (tier : Tier) (interval : string) (b b' : Billing)
    (r : BillingError + option string) : Prop :=
  attempts_ok (attempts b') ∧ r ≠ inl Diverges ∧
  (r = inr None → subs b' = subs b ∧ active_of user (attempts b') = [] ∧ active_of user (attempts b) ≠ []) ∧
  (∀ url, r = inr (Some url) → (∀ s, ¬ grants user (subs b) s) ∧ url_of user tier interval url (attempts b')).

Lemma pass_stop user tier interval b b' e :
  attempts_ok (attempts b') → e ≠ Diverges → pass_post user tier interval b b' (inl e).
Proof. intros Hok He. split; [done|]. split; [congruence|done]. Qed.

Lemma pass_open user tier interval b b1 id a r b' :
  attempts_ok (attempts b1) → subs b1 = subs b → attempts b1 !! id = Some a → att_UserID a = user →
  att_Status a = "open"%string → active_of user (attempts b) ≠ [] →
  match fetchStripeCheckoutSession get_session (att_SessionID a) with
  | inr (Some status) =>
      if bool_decide (status = "complete"%string) then
        CompleteSubscriptionCheckoutBySessionID (att_SessionID a);; throw ErrSubscriptionExists
      else if bool_decide (status = "expired"%string) then
        ExpireSubscriptionCheckoutBySessionID (att_SessionID a);; mret None
      else throw ErrCheckoutInProgress
  | _ => throw ErrCheckoutInProgress
  end b1 = (b', r) →
  pass_post user tier interval b b' r.
Proof.
  intros Hok Hsub Hid Hu Hst Hact. destruct (fetchStripeCheckoutSession _ _) as [e|[status|]];
    [by intros [= <- <-]; apply pass_stop| |by intros [= <- <-]; apply pass_stop].
  case_if; [intros [= <- <-]; apply pass_stop; [|done]; by apply mark_ok|].
  case_if; intros [= <- <-]; [|by apply pass_stop].
  split; [by apply mark_ok|]. split; [done|]. split; [|done]. intros _. split; [done|]. split; [|done].
  subst user. simpl. apply (mark_clears _ _ _ _ id a); try done; [by rewrite Hst|by apply (ok_session _ Hok id)|].
  rewrite Hst. set_solver.
Qed.

Lemma read_license_attempts user b b1 l :
  read_license user now b = (b1, l) → attempts b1 = attempts b ∧ subs b1 = subs b.
Proof.
  intros Hr. pose proof (att_read (attempts b) user now b eq_refl) as Ha.
  pose proof (subs_read (subs b) user now b eq_refl) as Hs. by rewrite Hr in Ha, Hs.
Qed.

Lemma pass_spec newID user tier interval b b' r :
  TrimSpace user ≠ ""%string → attempts_ok (attempts b) →
  checkout_pass getenv now dbnow new_session get_session get_subscription cancel_subscription
    newID user tier interval b = (b', r) →
  pass_post user tier interval b b' r.
Proof.
  intros Hne Hok. unfold checkout_pass. intros Hp.
  apply check_bind in Hp as [[= -> ->]|[_ Hp]]; [by apply pass_stop|].
  apply check_bind in Hp as [[= -> ->]|[_ Hp]]; [by apply pass_stop|].
  apply ask_bind in Hp.
  apply need_bind in Hp as [[= -> ->]|(license & _ & Hp)]; [by apply pass_stop|]. cbv zeta in Hp.
  apply check_bind in Hp as [[= -> ->]|[Hpaid Hp]]; [by apply pass_stop|].
  apply check_bind in Hp as [[= -> ->]|[_ Hp]]; [by apply pass_stop|].
  apply either_bind in Hp as [(e & Hcfg & [= -> ->])|(cfg & _ & Hp)].
  { apply pass_stop; [done|]. intros ->. unfold TestingLoadStripeCheckoutConfig in Hcfg.
    destruct (head _); [done|]. by case_if. }
  pose proof (refused_paid user b Hne Hpaid) as Hng. clear Hpaid.
  apply act_bind_cases in Hp as [(b1 & e & Hr & [= -> ->])|(b1 & lic & Hr & Hp)];
    destruct (read_license_attempts _ _ _ _ Hr) as [Ha1 Hs1].
  { apply pass_stop; [by rewrite Ha1|]. apply (throws_read user now b). by rewrite Hr. }
  rewrite <- Ha1 in Hok.
  apply act_bind_cases in Hp as [(b2 & e & Hb & [= -> ->])|(b2 & [id a] & Hb & Hp)];
    destruct (begin_spec _ _ _ _ _ _ _ _ _ _ _ Hok Hb) as (Hok2 & Hs2 & Hd & Hl).
  { apply pass_stop; [done|congruence]. }
  destruct (Hl _ _ eq_refl) as (Hid & Hu & Hact & Hfresh). rewrite Ha1 in Hfresh.
  apply check_bind in Hp as [[= -> ->]|[Hti Hp]]; [by apply pass_stop|]. cbn [fst snd] in Hti, Hp. bool_to_prop.
  destruct (bool_decide (att_Status a = "open"%string)) eqn:Eopen; bool_to_prop; cbn [andb] in Hp.
  - assert (Hprev : active_of user (attempts b) ≠ []) by (intros Hn; rewrite Hfresh in Eopen by done; done).
    case_if.
    + injection Hp as <- <-. split; [done|]. split; [done|]. split; [done|]. intros url [= <-].
      split; [done|]. exists id, a. done.
    + apply (pass_open _ _ _ _ b2 id a); [done|congruence|done..].
  - apply act_bind_cases in Hp as [(b3 & e & Hst & [= -> ->])|(b3 & url & Hst & [= <- <-])];
      destruct (start_spec _ _ _ _ _ _ _ _ _ _ _ _ _ Hok2 Hid Hact Hu ltac:(eassumption) ltac:(eassumption) Hst) as (H1 & H2 & H3).
    + apply pass_stop; [done|congruence].
    + split; [done|]. split; [done|]. split; [done|]. intros u [= <-]. split; [done|]. by apply H3.
Qed.
End pass.

(** C38: Checkout hands out one session at a time. Whatever Stripe answers, a call
    keeps the table in order (one active attempt per user, with a session once it
    is open) and ends after at most two passes; a URL it returns is that of the
    user's open attempt for the plan and interval asked for, and is never returned
    to a user whose subscription grants paid access. *)
Theorem checkout_sound getenv now dbnow new_session get_session get_subscription cancel_subscription
    fuel newIDs user tier interval b b' r :
  TrimSpace user ≠ ""%string → attempts_ok (attempts b) → (2 <= fuel)%nat →
  CreateCheckoutSession getenv now dbnow new_session get_session get_subscription cancel_subscription
    fuel newIDs user tier interval b = (b', r) →
  attempts_ok (attempts b') ∧ r ≠ inl Diverges ∧
  ∀ url, r = inr url → (∀ s, ¬ grants user (subs b) s) ∧ url_of user tier interval url (attempts b').
Proof.
  intros Hne Hok Hf. destruct fuel as [|[|fuel]]; [lia|lia|]. intros Hc. simpl in Hc.
  apply act_bind_cases in Hc as [(b1 & e & Hp & [= -> ->])|(b1 & o & Hp & Hc)];
    apply pass_spec in Hp as (Hok1 & Hd & Hnone & Hurl); try done.
  { split; [done|]. split; [congruence|done]. }
  destruct o as [url|].
  { injection Hc as <- <-. split; [done|]. split; [done|]. intros u [= <-]. by apply Hurl. }
  destruct (Hnone eq_refl) as (Hs & Hno & _).
  apply act_bind_cases in Hc as [(b2 & e & Hp & [= -> ->])|(b2 & o & Hp & Hc)];
    apply pass_spec in Hp as (Hok2 & Hd2 & Hnone2 & Hurl2); try done.
  { split; [done|]. split; [congruence|done]. }
  destruct o as [url|]; [|by destruct (Hnone2 eq_refl) as (_ & _ & [])].
  injection Hc as <- <-. split; [done|]. split; [done|]. intros u [= <-]. rewrite <- Hs. by apply Hurl2.
Qed.

(** ** An attempt that never opens *)

Lemma begin_existing newID user license tier interval now dbnow lifetime b id a :
  attempts_ok (attempts b) → attempts b !! id = Some a → att_UserID a = user →
  active_attempt (att_Status a) = true →
  BeginSubscriptionCheckout newID user license tier interval now dbnow lifetime b =
  (b, if TestingValidPaidTier tier && TestingValidInterval interval then inr (id, a) else inl BillingSQL).
Proof.
  intros Hok Hid Hu Ha. unfold BeginSubscriptionCheckout, mbind, act_bind, ask, check.
  destruct (_ && TestingValidInterval _); [simpl|done].
  assert (Hin : (id, a) ∈ active_of user (attempts b)) by by apply active_of_in.
  rewrite (bool_decide_eq_false_2 (active_of user (attempts b) = [])) by (intros Hn; rewrite Hn in Hin; set_solver).
  rewrite andb_false_r. destruct (newest _) as [[k a']|] eqn:En.
  - apply newest_in, active_of_in in En as (Hk & Hu' & Ha').
    assert (k = id) as -> by (apply (ok_unique _ Hok k id a' a); congruence).
    assert (a' = a) as -> by congruence. done.
  - destruct (active_of user (attempts b)) as [|x l]; [set_solver|]. simpl in En.
    destruct (newest l); [case_if|]; done.
Qed.

(** An attempt that never opened blocks its user for good. Stripe refuses a
    session that would expire within thirty minutes; once an attempt that is still
    being created is that close to its own expiry, every later call for any plan
    fails and leaves the attempt as it is, since nothing retires it. *)
Theorem creating_attempt_sticks getenv now dbnow new_session get_session get_subscription cancel_subscription
    fuel newIDs user tier interval b id a :
  attempts_ok (attempts b) → attempts b !! id = Some a → att_UserID a = user →
  att_Status a = "creating"%string → att_ExpiresAt a < now + 30 * Minute →
  (∀ params expires key, unix expires < now + 30 * Minute → ∃ m, new_session params expires key = inl m) →
  (0 < fuel)%nat →
  ∃ b' e, CreateCheckoutSession getenv now dbnow new_session get_session get_subscription cancel_subscription
    fuel newIDs user tier interval b = (b', inl e) ∧ attempts b' = attempts b.
Proof.
  intros Hok Hid Hu Hst Hexp Hstripe Hf. destruct fuel as [|fuel]; [lia|]. simpl.
  destruct (checkout_pass getenv now dbnow new_session get_session get_subscription cancel_subscription
    (newIDs fuel) user tier interval b) as [b' r] eqn:Hp.
  assert (Hr : (∃ e, r = inl e) ∧ attempts b' = attempts b).
  2:{ destruct Hr as [[e ->] Hatt]. exists b', e. unfold mbind, act_bind. by rewrite Hp. }
  unfold checkout_pass in Hp.
  apply check_bind in Hp as [[= -> ->]|[_ Hp]]; [eauto|].
  apply check_bind in Hp as [[= -> ->]|[_ Hp]]; [eauto|]. apply ask_bind in Hp.
  apply need_bind in Hp as [[= -> ->]|(license & _ & Hp)]; [eauto|]. cbv zeta in Hp.
  apply check_bind in Hp as [[= -> ->]|[_ Hp]]; [eauto|].
  apply check_bind in Hp as [[= -> ->]|[_ Hp]]; [eauto|].
  apply either_bind in Hp as [(e & _ & [= -> ->])|(cfg & _ & Hp)]; [eauto|].
  apply act_bind_cases in Hp as [(b1 & e & Hr & [= -> ->])|(b1 & lic & Hr & Hp)];
    destruct (read_license_attempts _ _ _ _ _ Hr) as [Ha1 _]; [eauto|].
  rewrite <- Ha1 in Hok, Hid |- *.
  apply act_bind_cases in Hp as [(b2 & e & Hb & [= -> ->])|(b2 & [k x] & Hb & Hp)];
    rewrite (begin_existing _ _ _ _ _ _ _ _ _ id a Hok Hid Hu) in Hb by (by rewrite Hst).
  { case_if; simplify_eq; eauto. }
  destruct (TestingValidPaidTier tier && TestingValidInterval interval); [|done]. injection Hb as <- <- <-.
  apply check_bind in Hp as [[= -> ->]|[_ Hp]]; [eauto|]. cbn [fst snd] in Hp. rewrite Hst in Hp. simpl in Hp.
  unfold start_session, createStripeCheckoutSession in Hp. cbn [fst snd] in Hp.
  edestruct (Hstripe) as [m Hm]; [|rewrite Hm in Hp; injection Hp as <- <-; eauto].
  unfold unix, Second in *. pose proof (Z.mul_div_le (att_ExpiresAt a) 1000000000). lia.
Qed.

(** ** From checkout to subscription *)

Lemma configured_price getenv cfg tier interval :
  TestingLoadStripeCheckoutConfig getenv = inr cfg →
  (∀ def, def ∈ subscriptionPriceDefinitions → TrimSpace (getenv def.1) = getenv def.1) →
  TestingValidPaidTier tier = true → TestingValidInterval interval = true →
  ∃ price, TestingPrices cfg !! (tier, interval) = Some price ∧ TrimSpace price = price ∧
    TestingConfiguredSubscriptionPrice getenv price = Some (tier, interval).
Proof.
  unfold TestingLoadStripeCheckoutConfig. intros Hc Htrim Ht Hi.
  destruct (head _) as [?|] eqn:Eh; [done|]. case_if; [|done]. 
  match type of Hc with inr ?c = _ => assert (Hcfg : cfg = c) by congruence; rewrite Hcfg; clear Hc Hcfg end.
  bool_to_prop. cbn [TestingPrices].
  assert (Hset : ∀ def, def ∈ subscriptionPriceDefinitions → getenv def.1 ≠ ""%string).
  { intros def Hdef Hempty. assert (filter (λ s : string * string, s.2 = ""%string) (required_settings getenv) = []) as Hn.
    { destruct (filter _ _); done. }
    rewrite filter_nil_iff in Hn. apply (Hn (def.1, TrimSpace (getenv def.1))); [|by rewrite Htrim].
    apply list_elem_of_fmap. exists def.1. split; [done|]. apply elem_of_app. right.
    apply list_elem_of_fmap. by exists def. }
  assert (Hdef : ∃ def, def ∈ subscriptionPriceDefinitions ∧ def.2 = (tier, interval)).
  { unfold TestingValidPaidTier in Ht. unfold TestingValidInterval in Hi. bool_to_prop.
    destruct Ht as [Ht|Ht], Hi as [Hi|Hi]; bool_to_prop; subst.
    all: match goal with |- ∃ d, _ ∧ _ = ?key =>
      assert (Hex : existsb (λ d, bool_decide (d.2 = key)) subscriptionPriceDefinitions = true) by reflexivity end.
    all: apply existsb_exists in Hex as (d & Hd & Hk); exists d; rewrite list_elem_of_In; by bool_to_prop. }
  destruct Hdef as (def & Hdef & Hkey). exists (getenv def.1).
  match goal with Hd : NoDup _ |- _ => rename Hd into Hnd end.
  assert (Hinj : ∀ y, y ∈ subscriptionPriceDefinitions → TrimSpace (getenv y.1) = TrimSpace (getenv def.1) → y = def).
  { intros y Hy He. unfold configured_prices in Hnd. rewrite <- list_fmap_compose in Hnd.
    by apply (NoDup_fmap_inj _ _ y def Hnd). }
  split; [|split; [by apply Htrim|]].
  - apply elem_of_list_to_map.
    + unfold configured_prices. rewrite <- list_fmap_compose. apply (bool_decide_unpack _). vm_compute. exact I.
    + apply list_elem_of_fmap. exists def. rewrite Hkey, (Htrim def Hdef). done.
  - unfold TestingConfiguredSubscriptionPrice.
    rewrite (filter_unique _ _ def); [by rewrite Hkey| |done| |].
    + apply (bool_decide_unpack _). vm_compute. exact I.
    + split; [by rewrite Htrim; [apply Hset|]|done].
    + intros y Hy [_ He]. by apply Hinj.
Qed.

Lemma handle_valid getenv now dbnow event source at' reject b user license tier interval price pe :
  TestingTierFromMetadata (meta (ev_Metadata event) "tier") = Some tier →
  TrimSpace (meta (ev_Metadata event) "user_id") = user → user ≠ ""%string →
  TrimSpace (meta (ev_Metadata event) "license_id") = license → license ≠ ""%string →
  ToLower (TrimSpace (meta (ev_Metadata event) "interval")) = interval →
  TestingValidPaidTier tier = true → TestingValidInterval interval = true →
  TrimSpace (meta (ev_Metadata event) "kind") = "subscription"%string →
  accounts b !! user = Some license → ev_Items event = [mkItem pe price interval] →
  ToLower (TrimSpace interval) = interval → TrimSpace price = price →
  TestingConfiguredSubscriptionPrice getenv price = Some (tier, interval) →
  is_Some (periodEndFromSubscriptionEvent event) →
  subs b !! ev_ID event = None → alone (ev_ID event) user (subs b) →
  ∃ row, subs (handleSubscriptionChanged getenv now dbnow event source at' reject b).1 =
           <[ev_ID event := row]> (subs b) ∧
    sub_UserID row = user ∧ sub_LicenseID row = license ∧ sub_Tier row = tier ∧ sub_Interval row = interval.
Proof.
  intros Ht Hu Hun Hl Hln Hi Hvt Hvi Hk Hacc Hit Hii Hp Hcat [pd Hpd] Hnone Halone.
  unfold handleSubscriptionChanged, H. cbv zeta. rewrite Hu, Hl, Hi, Hk, Hpd.
  rewrite (need_some _ _ _ _ _ Ht). cbv beta.
  rewrite check_true by (by rewrite Hvt, Hvi, (bool_decide_eq_false_2 (user = ""%string)), (bool_decide_eq_false_2 (license = ""%string))).
  rewrite ask_step. cbv beta. rewrite check_true by (by rewrite bool_decide_eq_true_2).
  erewrite need_some by (by rewrite Hit). cbn [item_PriceID item_Interval]. rewrite Hp.
  rewrite (need_some _ _ _ _ _ Hcat). cbn [fst snd].
  rewrite check_true by (by rewrite bool_decide_eq_true_2).
  rewrite check_true by (by rewrite bool_decide_eq_true_2).
  rewrite check_true by (by rewrite Hii, (bool_decide_eq_true_2 (interval = interval)), orb_true_r).
  rewrite check_true by (by rewrite bool_decide_eq_false_2, orb_true_r).
  match goal with |- context [upsertStripeSubscription _ ?n _ _] => set (new := n) end.
  assert (Hup : upsertStripeSubscription (ev_ID event) new reject dbnow b =
    (set_subs (<[ev_ID event := new_sub new dbnow]> (subs b)) b, inr true)).
  { unfold upsertStripeSubscription, mbind, act_bind, ask. rewrite Hnone.
    unfold check. by rewrite (alone_one_live _ user). }
  exists (new_sub new dbnow). split; [|done].
  unfold mbind at 1, act_bind at 1. rewrite Hup. cbn [negb].
  match goal with |- subs (?m ?s).1 = ?x => assert (Hm : keeps (λ b0, subs b0 = x) m) end.
  { apply keeps_bind; [apply subs_apply|]. intros _.
    apply keeps_bind; [case_if; auto using subs_store with handlers|].
    intros _. apply keeps_bind; [apply subs_read|]. intros [l|]; auto using subs_store with handlers. }
  by apply Hm.
Qed.

(** What checkout sends to Stripe comes back as a subscription. If the
    configuration loads, the subscription event that carries the metadata and the
    price of a checkout session for one of the plans passes every check of the
    webhook handler and is stored for that user with that plan and interval. *)
Theorem checkout_roundtrip getenv cfg now dbnow user license tier interval customer trial event source at' b pe :
  TestingLoadStripeCheckoutConfig getenv = inr cfg →
  (∀ def, def ∈ subscriptionPriceDefinitions → TrimSpace (getenv def.1) = getenv def.1) →
  TestingValidPaidTier tier = true → TestingValidInterval interval = true →
  TrimSpace user = user → user ≠ ""%string → TrimSpace license = license → license ≠ ""%string →
  accounts b !! user = Some license →
  let params := TestingStripeCheckoutSessionParams cfg user license tier interval customer trial in
  ev_Metadata event = sp_Metadata params → ev_Items event = [mkItem pe (sp_Price params) interval] →
  is_Some (periodEndFromSubscriptionEvent event) →
  subs b !! ev_ID event = None → alone (ev_ID event) user (subs b) →
  ∃ row, subs (handleSubscriptionChanged getenv now dbnow event source at' true b).1 = <[ev_ID event := row]> (subs b) ∧
    sub_UserID row = user ∧ sub_LicenseID row = license ∧ sub_Tier row = tier ∧ sub_Interval row = interval.
Proof.
  intros Hcfg Htrim Ht Hi Hu Hun Hl Hln Hacc params Hmeta Hit Hpe Hnone Halone.
  destruct (configured_price _ _ _ _ Hcfg Htrim Ht Hi) as (price & Hlook & Hp & Hcat).
  assert (Hprice : sp_Price params = price) by (unfold params; simpl; by rewrite Hlook).
  rewrite Hprice in Hit.
  assert (Hnorm : ToLower (TrimSpace interval) = interval ∧ TestingTierFromMetadata tier = Some tier).
  { unfold TestingValidPaidTier in Ht. unfold TestingValidInterval in Hi. bool_to_prop.
    destruct Ht as [Ht|Ht], Hi as [Hi|Hi]; bool_to_prop; subst; by split. }
  assert (Hm : meta (ev_Metadata event) "user_id" = user ∧ meta (ev_Metadata event) "license_id" = license ∧
    meta (ev_Metadata event) "tier" = tier ∧ meta (ev_Metadata event) "interval" = interval ∧
    meta (ev_Metadata event) "kind" = "subscription"%string) by (rewrite Hmeta; repeat split; reflexivity).
  destruct Hnorm, Hm as (M1 & M2 & M3 & M4 & M5).
  apply (handle_valid _ _ _ _ _ _ _ _ _ _ _ _ price pe); rewrite ?M1, ?M2, ?M3, ?M4, ?M5; done.
Qed.

(** ** Witnesses *)

Definition shop_env (name : string) : string :=
  if bool_decide (name = "STRIPE_PRICE_PRO_MONTHLY"%string) then "price_1"
  else if bool_decide (name = "STRIPE_PRICE_PRO_YEARLY"%string) then "price_2"
  else if bool_decide (name = "STRIPE_PRICE_MAX_MONTHLY"%string) then "price_3"
  else if bool_decide (name = "STRIPE_PRICE_MAX_YEARLY"%string) then "price_4"
  else "set".
Definition shop_config : CheckoutConfig :=
  mkCheckoutConfig "set" "set" "set" "set"
    (list_to_map [((TierPro, "month"), "price_1"); ((TierPro, "year"), "price_2");
                  ((TierMax, "month"), "price_3"); ((TierMax, "year"), "price_4")]%string).

(** A Stripe that opens sessions that live long enough. *)
Definition shop_new (_ : SessionParams) (expires : Z) (_ : string) : string + (string * string * Z) :=
  if expires <? 1800 then inl "expires_at is too soon"%string else inr ("cs_1", "https://pay", expires)%string.
Definition shop_get (_ : string) : string + option string := inr (Some "expired"%string).
Definition shop_sub (id : string) : string + (string * string) := inr (id, "canceled"%string).
Definition shop_cancel (id : string) : string + option (string * string) := inr (Some (id, "canceled"%string)).

Lemma attempts_ok_empty : attempts_ok ∅.
Proof. split; intros; by simplify_map_eq. Qed.

Lemma checkout_sound_witness :
  let '(b', r) := CreateCheckoutSession shop_env 0 0 shop_new shop_get shop_sub shop_cancel 2 (λ _, "a1"%string)
    "u" TierPro "month" (demo_billing ∅) in
  r = inr "https://pay"%string ∧ url_of "u" TierPro "month" "https://pay" (attempts b').
Proof.
  destruct (CreateCheckoutSession _ _ _ _ _ _ _ _ _ _ _ _ _) as [b' r] eqn:E.
  assert (Hr : r = inr "https://pay"%string) by (apply (f_equal snd) in E; vm_compute in E; symmetry; exact E).
  split; [exact Hr|].
  eapply (checkout_sound shop_env 0 0 shop_new shop_get shop_sub shop_cancel 2 (λ _, "a1"%string) "u" TierPro "month"
    (demo_billing ∅)); [vm_compute; discriminate|apply attempts_ok_empty|lia|exact E|exact Hr].
Defined.

Definition stuck_attempt : Attempt := mkAttempt "u" "lic-u" TierPro "month" "creating" "" "" (35 * Minute) 0.
Definition stuck_billing : Billing := set_attempts {["a1"%string := stuck_attempt]} (demo_billing ∅).

Lemma creating_attempt_sticks_witness :
  ∃ b' e, CreateCheckoutSession shop_env (40 * Minute) 0 (λ _ _ _, inl "expires_at is too soon"%string) shop_get
    shop_sub shop_cancel 1 (λ _, "a2"%string) "u" TierPro "month" stuck_billing = (b', inl e) ∧
    attempts b' = attempts stuck_billing.
Proof.
  apply (creating_attempt_sticks shop_env (40 * Minute) 0 (λ _ _ _, inl "expires_at is too soon"%string) shop_get shop_sub
    shop_cancel 1 (λ _, "a2"%string) "u" TierPro "month" stuck_billing "a1" stuck_attempt).
  - split.
    + intros k a Hk. simpl in Hk. apply lookup_singleton_Some in Hk as [_ <-]. discriminate.
    + intros k k' a a' Hk Hk' _ _ _. simpl in Hk, Hk'.
      apply lookup_singleton_Some in Hk as [<- _]. apply lookup_singleton_Some in Hk' as [<- _]. reflexivity.
  - vm_compute. reflexivity.
  - reflexivity.
  - reflexivity.
  - vm_compute. reflexivity.
  - intros. eexists. reflexivity.
  - lia.
Defined.

Definition shop_event : subscriptionEvent :=
  mkSubEvent "s" "cus" "active"
    (sp_Metadata (TestingStripeCheckoutSessionParams shop_config "u" "lic-u" TierMax "year" "cus" false))
    900 false 0 [mkItem 0 "price_4" "year"].

Lemma checkout_roundtrip_witness :
  ∃ row, subs (handleSubscriptionChanged shop_env 0 0 shop_event "e1" (Some 5) true (demo_billing ∅)).1 =
    <["s"%string := row]> ∅ ∧ sub_Tier row = TierMax.
Proof.
  destruct (checkout_roundtrip shop_env shop_config 0 0 "u" "lic-u" TierMax "year" "cus" false shop_event "e1" (Some 5)
    (demo_billing ∅) 0) as (row & Hs & _ & _ & Ht & _).
  - vm_compute. reflexivity.
  - intros def Hdef. apply list_elem_of_In in Hdef. repeat (destruct Hdef as [<-|Hdef]; [vm_compute; reflexivity|]).
    destruct Hdef.
  - reflexivity.
  - reflexivity.
  - vm_compute. reflexivity.
  - discriminate.
  - vm_compute. reflexivity.
  - discriminate.
  - vm_compute. reflexivity.
  - reflexivity.
  - reflexivity.
  - eexists. vm_compute. reflexivity.
  - vm_compute. reflexivity.
  - intros k s Hk. discriminate Hk.
  - exists row. split; [exact Hs|exact Ht].
Defined.
