(* ===== verification/Graph.v ===== *)
(** * Topological order

    The two copies of Kahn's algorithm in [internal/workflows]: the cycle check
    at the end of [validate] ([validate.go]) and [topologicalOrder]
    ([engine_execute_for_each.go]).  They differ in how the queue is kept, which
    is a parameter here. *)
From S2P Require Import Prelude.

Section kahn.
(** What happens to the queue when it grows: nothing, or a sort. *)
Context (reorder : list string → list string).

(** [indegree]: zero for every node, plus one for every edge that ends there. *)
Definition degrees (ids : list string) (edges : list (string * string)) : gmap string Z :=
  fold_left (λ m e, <[e.2 := default 0 (m !! e.2) + 1]> m) edges
    (fold_left (λ m id, <[id := 0]> m) ids ∅).

Definition outgoing (edges : list (string * string)) (id : string) : list string :=
  snd <$> filter (λ e : string * string, e.1 = id) edges.

(** The loop over the targets of a node taken off the queue. *)
Fixpoint release (targets queue : list string) (indegree : gmap string Z) : list string * gmap string Z :=
  match targets with
  | [] => (queue, indegree)
  | t :: targets =>
      let d := default 0 (indegree !! t) - 1 in
      let indegree := <[t := d]> indegree in
      if d =? 0 then release targets (reorder (queue ++ [t])) indegree
      else release targets queue indegree
  end.

(** The loop over the queue; fuel for one pass per node. *)
Fixpoint drain (fuel : nat) (edges : list (string * string)) (queue : list string) (indegree : gmap string Z)
    (out : list string) : list string :=
  match fuel, queue with
  | S f, id :: queue =>
      let '(queue, indegree) := release (outgoing edges id) queue indegree in
      drain f edges queue indegree (out ++ [id])
  | _, _ => out
  end.

Definition start (indegree : gmap string Z) : list string :=
  fst <$> filter (λ kv : string * Z, kv.2 = 0) (map_to_list indegree).

Definition kahn (ids : list string) (edges : list (string * string)) : list string :=
  let indegree := degrees ids edges in
  drain (size indegree) edges (reorder (start indegree)) indegree [].

(** ** Counting *)

Definition deg_of (m : gmap string Z) (v : string) : Z := default 0 (m !! v).
Definition cnt (v : string) (l : list string) : Z := len (filter (λ x, x = v) l).

Lemma cnt_cons v x l : cnt v (x :: l) = (if decide (x = v) then 1 else 0) + cnt v l.
Proof. unfold cnt. rewrite filter_cons. case_decide; [by rewrite len_cons|lia]. Qed.
Lemma cnt_nonneg v l : 0 <= cnt v l.
Proof. apply len_nonneg. Qed.
Lemma cnt_zero v l : cnt v l = 0 ↔ v ∉ l.
Proof.
  unfold cnt. split.
  - intros H Hin. apply len_zero_nil in H. rewrite filter_nil_iff in H. by apply (H v).
  - intros H. assert (filter (λ x, x = v) l = []) as ->; [|done]. apply filter_nil_iff. by intros x Hx ->.
Qed.

(** Edges into [v] from nodes not taken yet. *)
Definition waiting (edges : list (string * string)) (out : list string) (v : string) : Z :=
  len (filter (λ e : string * string, e.2 = v ∧ e.1 ∉ out) edges).

Lemma waiting_cons e edges out v :
  waiting (e :: edges) out v = (if decide (e.2 = v ∧ e.1 ∉ out) then 1 else 0) + waiting edges out v.
Proof. unfold waiting. rewrite filter_cons. case_decide; [by rewrite len_cons|lia]. Qed.

Lemma outgoing_cons e edges id :
  outgoing (e :: edges) id = (if decide (e.1 = id) then [e.2] else []) ++ outgoing edges id.
Proof. unfold outgoing. rewrite filter_cons. by case_decide. Qed.

Lemma waiting_take edges out id v :
  id ∉ out → waiting edges out v = waiting edges (out ++ [id]) v + cnt v (outgoing edges id).
Proof.
  intros Hid. induction edges as [|[s t] edges IH]; [done|].
  rewrite !waiting_cons, outgoing_cons. simpl. rewrite IH.
  destruct (decide (s = id)) as [->|Hs]; simpl; rewrite ?cnt_cons.
  - rewrite (decide_False (P := t = v ∧ id ∉ out ++ [id])) by set_solver.
    destruct (decide (t = v)); [rewrite decide_True by done|rewrite decide_False by naive_solver]; lia.
  - assert (s ∉ out ++ [id] ↔ s ∉ out) as Hiff by set_solver.
    destruct (decide (t = v ∧ s ∉ out)) as [H|H];
      [rewrite decide_True by naive_solver|rewrite decide_False by naive_solver]; lia.
Qed.

Lemma degrees_nodes ids v : deg_of (fold_left (λ m id, <[id := 0]> m) ids ∅) v = 0.
Proof.
  assert (Hgen : ∀ m : gmap string Z, deg_of m v = 0 → deg_of (fold_left (λ m id, <[id := 0]> m) ids m) v = 0).
  { induction ids as [|x ids IH]; [done|]. intros m Hm. simpl. apply IH. unfold deg_of in *.
    destruct (decide (x = v)) as [->|]; [by rewrite lookup_insert_eq|by rewrite lookup_insert_ne]. }
  by apply Hgen.
Qed.

Lemma degrees_deg ids edges v : deg_of (degrees ids edges) v = waiting edges [] v.
Proof.
  assert (Hgen : ∀ m : gmap string Z,
    deg_of (fold_left (λ m e, <[e.2 := default 0 (m !! e.2) + 1]> m) edges m) v = deg_of m v + waiting edges [] v).
  { induction edges as [|[s t] edges IH]; intros m; [change (waiting [] [] v) with 0; simpl; lia|].
    simpl. rewrite IH, waiting_cons. unfold deg_of. simpl.
    destruct (decide (t = v)) as [->|].
    - rewrite lookup_insert_eq, decide_True by set_solver. simpl. lia.
    - rewrite lookup_insert_ne, decide_False by naive_solver. lia. }
  unfold degrees. rewrite Hgen, degrees_nodes. lia.
Qed.

Lemma degrees_dom ids edges :
  (∀ e, e ∈ edges → e.2 ∈ ids) → ∀ v, is_Some (degrees ids edges !! v) ↔ v ∈ ids.
Proof.
  intros He v. unfold degrees.
  assert (H0 : is_Some (fold_left (λ m id, <[id := 0]> m) ids (∅ : gmap string Z) !! v) ↔ v ∈ ids).
  { assert (Hgen : ∀ m : gmap string Z,
      is_Some (fold_left (λ m id, <[id := 0]> m) ids m !! v) ↔ v ∈ ids ∨ is_Some (m !! v)).
    { clear He. induction ids as [|x ids IH]; [set_solver|]. intros m. simpl. rewrite IH, lookup_insert_is_Some.
      rewrite elem_of_cons. destruct (decide (x = v)) as [->|]; naive_solver. }
    rewrite Hgen, lookup_empty. split; [intros [?|[? ?]]; done|auto]. }
  revert H0. generalize (fold_left (λ m id, <[id := 0]> m) ids (∅ : gmap string Z)) as m.
  revert He. induction edges as [|[s t] edges IH]; intros He m H0; [done|]. simpl.
  apply IH; [intros; apply He; by right|]. rewrite lookup_insert_is_Some.
  pose proof (He (s, t) ltac:(left)). simpl in *. destruct (decide (t = v)) as [->|]; naive_solver.
Qed.

(** ** One pass *)

Hypothesis Hreorder : ∀ l, reorder l ≡ₚ l.

Lemma release_spec targets : ∀ queue indegree queue' indegree',
  release targets queue indegree = (queue', indegree') →
  NoDup queue → (∀ v, cnt v targets <= deg_of indegree v) → (∀ v, v ∈ queue → v ∉ targets) →
  NoDup queue' ∧
  (∀ v, v ∈ queue' ↔ v ∈ queue ∨ (v ∈ targets ∧ deg_of indegree v = cnt v targets)) ∧
  (∀ v, deg_of indegree' v = deg_of indegree v - cnt v targets).
Proof.
  induction targets as [|t targets IH]; intros queue m queue' m' Hr Hnd Hle Hq.
  - injection Hr as <- <-. split; [done|]. split; [set_solver|]. intros v. change (cnt v []) with 0. lia.
  - simpl in Hr. set (d := default 0 (m !! t) - 1) in *.
    assert (Hd : deg_of m t = d + 1) by (unfold d, deg_of; lia).
    assert (Hdeg : ∀ v, deg_of (<[t := d]> m) v = deg_of m v - (if decide (t = v) then 1 else 0)).
    { intros v. case_decide as Ht; unfold deg_of; [subst; rewrite lookup_insert_eq; simpl; unfold deg_of in Hd; lia|].
      rewrite lookup_insert_ne by done. lia. }
    assert (Hle' : ∀ v, cnt v targets <= deg_of (<[t := d]> m) v).
    { intros v. specialize (Hle v). rewrite cnt_cons in Hle. rewrite Hdeg. lia. }
    destruct (Z.eqb_spec d 0) as [Hz|Hz].
    + assert (Htn : t ∉ targets).
      { apply cnt_zero. pose proof (cnt_nonneg t targets). specialize (Hle' t). rewrite Hdeg, decide_True in Hle' by done. lia. }
      destruct (IH _ _ _ _ Hr) as (H1 & H2 & H3).
      * rewrite Hreorder. apply NoDup_app. split; [done|]. split; [|apply NoDup_singleton].
        intros x Hx Hxt. apply list_elem_of_singleton in Hxt as ->. apply (Hq t Hx). left.
      * done.
      * intros v. rewrite Hreorder. rewrite elem_of_app, list_elem_of_singleton. intros [Hv| ->]; [|done].
        specialize (Hq v Hv). set_solver.
      * split; [done|]. split.
        -- intros v. rewrite H2, Hreorder, elem_of_app, list_elem_of_singleton, Hdeg, elem_of_cons, cnt_cons.
           case_decide as Ht; [subst v|].
           ++ pose proof (proj2 (cnt_zero t targets) Htn). naive_solver lia.
           ++ naive_solver lia.
        -- intros v. rewrite H3, Hdeg, cnt_cons. lia.
    + destruct (IH _ _ _ _ Hr Hnd Hle') as (H1 & H2 & H3); [intros v Hv; specialize (Hq v Hv); set_solver|].
      split; [done|]. split.
      * intros v. rewrite H2, Hdeg, elem_of_cons, cnt_cons. case_decide as Ht; [subst v|naive_solver lia].
        destruct (decide (t ∈ targets)); [naive_solver lia|].
        pose proof (proj2 (cnt_zero t targets) ltac:(done)). naive_solver lia.
      * intros v. rewrite H3, Hdeg, cnt_cons. lia.
Qed.

(** ** The loop *)

Context (ids : list string) (edges : list (string * string)).

(** Every edge runs between two different nodes. *)
Definition well_formed : Prop := NoDup ids ∧ ∀ e, e ∈ edges → e.1 ∈ ids ∧ e.2 ∈ ids.

(** Every edge into a node comes from a node before it. *)
Definition ordered (l : list string) : Prop :=
  ∀ l1 v l2, l = l1 ++ v :: l2 → ∀ s, (s, v) ∈ edges → s ∈ l1.

Record kahn_inv (out queue : list string) (indegree : gmap string Z) : Prop := {
  ki_nodup : NoDup (out ++ queue);
  ki_ids : ∀ v, v ∈ out ++ queue → v ∈ ids;
  ki_deg : ∀ v, deg_of indegree v = waiting edges out v;
  ki_queue : ∀ v, v ∈ ids → v ∉ out → (v ∈ queue ↔ waiting edges out v = 0);
  ki_order : ordered out }.

Lemma ordered_snoc l v : ordered l → (∀ s, (s, v) ∈ edges → s ∈ l) → ordered (l ++ [v]).
Proof.
  intros Ho Hv l1 w l2 Heq s Hs.
  destruct (decide (l2 = [])) as [->|Hl2].
  - apply app_inj_tail in Heq as [<- <-]. by apply Hv.
  - destruct (exists_last Hl2) as (l3 & x & ->). rewrite app_comm_cons, app_assoc in Heq.
    apply app_inj_tail in Heq as [Heq _]. by apply (Ho l1 w l3).
Qed.

Lemma waiting_zero out v : waiting edges out v = 0 ↔ ∀ s, (s, v) ∈ edges → s ∈ out.
Proof.
  unfold waiting. split.
  - intros Hz s Hs. apply len_zero_nil in Hz. rewrite filter_nil_iff in Hz.
    destruct (decide (s ∈ out)); [done|]. exfalso. by apply (Hz (s, v)).
  - intros Hall. assert (filter (λ e : string * string, e.2 = v ∧ e.1 ∉ out) edges = []) as ->; [|done].
    apply filter_nil_iff. intros [s t] Hin [Ht Hs]. simpl in *. subst. by apply Hs, Hall.
Qed.

Lemma kahn_step out id queue m queue' m' :
  well_formed → kahn_inv out (id :: queue) m → release (outgoing edges id) queue m = (queue', m') →
  kahn_inv (out ++ [id]) queue' m'.
Proof.
  intros [Hids Hedges] [Hnd Hin Hdeg Hq Hord] Hr.
  assert (Hid : id ∉ out).
  { apply NoDup_app in Hnd as (_ & Hd & _). intros Hx. apply (Hd id Hx). left. }
  assert (Hidin : id ∈ ids) by (apply Hin; set_solver).
  assert (Hz : waiting edges out id = 0) by (apply Hq; set_solver).
  assert (Hndq : NoDup queue ∧ id ∉ queue) by (apply NoDup_app in Hnd as (_ & _ & Hn); apply NoDup_cons in Hn; tauto).
  assert (Hout : ∀ v, v ∈ out → v ∉ queue) by (intros v Hv Hvq; apply NoDup_app in Hnd as (_ & Hd & _); apply (Hd v Hv); by right).
  assert (Htgt : ∀ v, v ∈ outgoing edges id ↔ (id, v) ∈ edges).
  { intros v. unfold outgoing. rewrite list_elem_of_fmap. split.
    - intros ([s t] & -> & [Hs He]%list_elem_of_filter). simpl in *. by subst.
    - intros He. exists (id, v). split; [done|]. by apply list_elem_of_filter. }
  pose proof (λ v, waiting_take edges out id v Hid) as Htake.
  destruct (release_spec _ _ _ _ _ Hr) as (H1 & H2 & H3).
  - tauto.
  - intros v. rewrite Hdeg, Htake. pose proof (len_nonneg (filter (λ e : string * string, e.2 = v ∧ e.1 ∉ out ++ [id]) edges)).
    unfold waiting. lia.
  - intros v Hv Ht. apply Htgt in Ht. destruct (decide (v ∈ out)) as [Ho|Ho]; [by apply (Hout v Ho)|].
    assert (Hw : waiting edges out v = 0) by (apply Hq; [apply Hin; set_solver|done|by right]).
    rewrite waiting_zero in Hw. specialize (Hw id Ht). done.
  - assert (Hself : (id, id) ∉ edges) by (intros Hs; rewrite waiting_zero in Hz; by apply Hid, Hz).
    assert (Hnew : ∀ v, v ∈ queue' → (v ∉ (out ++ [id])) ∧ v ∈ ids).
    { intros v [Hv|[Hv Hc]]%H2.
      - split; [set_solver|apply Hin; set_solver].
      - apply Htgt in Hv. split; [|by apply (Hedges (id, v))]. rewrite elem_of_app, list_elem_of_singleton.
        intros [Ho| ->]; [|done].
        apply list_elem_of_split in Ho as (l1 & l2 & ->).
        apply Hid. pose proof (Hord l1 v l2 eq_refl id Hv). set_solver. }
    split.
    + apply NoDup_app. split; [|split; [|done]].
      * apply NoDup_app in Hnd as (Hn & _ & _). apply NoDup_app. split; [done|]. split; [set_solver|apply NoDup_singleton].
      * intros v Hv Hq'. by apply (Hnew v Hq').
    + intros v [Hv|Hv]%elem_of_app; [|by apply Hnew]. apply Hin. set_solver.
    + intros v. rewrite H3, Hdeg, Htake. lia.
    + intros v Hv Hvo. rewrite H2, Hdeg, Htake.
      assert (Hvq : v ∈ queue ↔ waiting edges out v = 0).
      { rewrite <- Hq by set_solver. set_solver. }
      rewrite Hvq, Htake. pose proof (cnt_nonneg v (outgoing edges id)).
      pose proof (len_nonneg (filter (λ e : string * string, e.2 = v ∧ e.1 ∉ out ++ [id]) edges)) as Hn.
      fold (waiting edges (out ++ [id]) v) in Hn.
      destruct (decide (v ∈ outgoing edges id)) as [Ht|Ht].
      * assert (cnt v (outgoing edges id) ≠ 0) by (rewrite cnt_zero; tauto). naive_solver lia.
      * apply cnt_zero in Ht as Hc. naive_solver lia.
    + apply ordered_snoc; [done|]. by apply waiting_zero.
Qed.

Lemma inv_length out queue m : NoDup ids → kahn_inv out queue m → (length out + length queue <= length ids)%nat.
Proof.
  intros Hids Hinv. rewrite <- length_app. apply submseteq_length, NoDup_submseteq; [apply Hinv|].
  intros v Hv. by apply (ki_ids _ _ _ Hinv).
Qed.

Lemma drain_spec fuel : ∀ out queue m,
  well_formed → kahn_inv out queue m → (length ids <= length out + fuel)%nat →
  ∃ m', kahn_inv (drain fuel edges queue m out) [] m'.
Proof.
  induction fuel as [|fuel IH]; intros out queue m Hwf Hinv Hf.
  - pose proof (inv_length _ _ _ (proj1 Hwf) Hinv). destruct queue; [|simpl in *; lia]. exists m. done.
  - destruct queue as [|id queue]; [exists m; done|]. simpl.
    destruct (release (outgoing edges id) queue m) as [queue' m'] eqn:Hr.
    apply (IH _ _ m' Hwf); [by apply (kahn_step _ _ queue m)|]. rewrite length_app. simpl. lia.
Qed.

Lemma start_inv : well_formed → kahn_inv [] (reorder (start (degrees ids edges))) (degrees ids edges).
Proof.
  intros [Hids Hedges].
  assert (Hdom : ∀ v, is_Some (degrees ids edges !! v) ↔ v ∈ ids) by (apply degrees_dom; apply Hedges).
  assert (Hst : ∀ v, v ∈ start (degrees ids edges) ↔ v ∈ ids ∧ waiting edges [] v = 0).
  { intros v. unfold start. rewrite list_elem_of_fmap, <- Hdom, <- (degrees_deg ids). unfold deg_of. split.
    - intros ([k d] & -> & [Hd Hk]%list_elem_of_filter). apply elem_of_map_to_list in Hk. simpl in *.
      rewrite Hk. split; [eauto|done].
    - intros [[d Hd] Hz]. rewrite Hd in Hz. simpl in Hz. subst d. exists (v, 0). split; [done|].
      apply list_elem_of_filter. split; [done|]. by apply elem_of_map_to_list. }
  split; simpl.
  - rewrite Hreorder. unfold start. apply (NoDup_fmap_fst _). 
    + intros x y1 y2 [_ H1]%list_elem_of_filter [_ H2]%list_elem_of_filter.
      apply elem_of_map_to_list in H1, H2. congruence.
    + apply NoDup_filter, NoDup_map_to_list.
  - intros v. rewrite Hreorder. by intros [? _]%Hst.
  - intros v. apply degrees_deg.
  - intros v Hv _. rewrite Hreorder, Hst. tauto.
  - intros l1 v l2 H. by destruct l1.
Qed.

Lemma degrees_size : well_formed → size (degrees ids edges) = length ids.
Proof.
  intros [Hids Hedges]. rewrite <- size_dom.
  assert (dom (degrees ids edges) = (list_to_set ids : gset string)) as ->.
  { apply set_eq. intros v. rewrite elem_of_dom, elem_of_list_to_set. apply degrees_dom. apply Hedges. }
  by apply size_list_to_set.
Qed.

(** The result: nodes without repetition, each after all its predecessors, and
    no node left that has all its predecessors in the result. *)
Lemma kahn_result : well_formed →
  NoDup (kahn ids edges) ∧ (∀ v, v ∈ kahn ids edges → v ∈ ids) ∧ ordered (kahn ids edges) ∧
  ∀ v, v ∈ ids → (∀ s, (s, v) ∈ edges → s ∈ kahn ids edges) → v ∈ kahn ids edges.
Proof.
  intros Hwf. unfold kahn.
  destruct (drain_spec (size (degrees ids edges)) [] (reorder (start (degrees ids edges))) (degrees ids edges) Hwf)
    as [m' [Hnd Hin _ Hq Hord]]; [by apply start_inv|rewrite degrees_size by done; simpl; lia|].
  rewrite app_nil_r in Hnd, Hin. split; [done|]. split; [done|]. split; [done|].
  intros v Hv Hall. set (l := drain _ _ _ _ _) in *. destruct (decide (v ∈ l)) as [|Hn]; [done|]. exfalso.
  apply (not_elem_of_nil v). apply Hq; [done|done|]. by apply waiting_zero.
Qed.

Lemma kahn_full : well_formed → length (kahn ids edges) = length ids → kahn ids edges ≡ₚ ids.
Proof.
  intros Hwf Hlen. destruct (kahn_result Hwf) as (Hnd & Hin & _).
  apply (submseteq_length_Permutation _ _); [by apply NoDup_submseteq|]. lia.
Qed.

(** A graph whose edges all climb some ranking is taken completely. *)
Lemma kahn_acyclic (rank : string → nat) :
  well_formed → (∀ s t, (s, t) ∈ edges → (rank s < rank t)%nat) → kahn ids edges ≡ₚ ids.
Proof.
  intros Hwf Hrank. apply kahn_full; [done|].
  destruct (kahn_result Hwf) as (Hnd & Hin & _ & Hall).
  assert (Hsub : ∀ n v, (rank v < n)%nat → v ∈ ids → v ∈ kahn ids edges).
  { induction n as [|n IH]; [lia|]. intros v Hn Hv. apply Hall; [done|]. intros s Hs.
    apply IH; [specialize (Hrank s v Hs); lia|]. by apply (proj2 Hwf (s, v)). }
  apply Nat.le_antisymm; apply submseteq_length, NoDup_submseteq; try done; [apply Hwf|].
  intros v Hv. apply (Hsub (S (rank v))); [lia|done].
Qed.
End kahn.
