(* ===== verification/Json.v ===== *)
(** * JSON values and schemas

    Decoded JSON as the workflow engine handles it ([map[string]any] and its
    kin), and the schema checks of [internal/workflows]
    ([engine_resolve_node_input.go], [engine_schema_number.go],
    [validate.go]). *)
From S2P Require Import Prelude GoStrings.

Set Warnings "-register-all".

(** A finite [float64]: an integer, or the fraction [m / 2^k] with [m] odd and
    [k] positive. *)
Inductive number := NInt (z : Z) | NFrac (m : Z) (k : positive).

(** An object is kept sorted by key and without repeated keys, the form in which
    [json.Marshal] prints it, so equality of values is equality of encodings. *)
Inductive json :=
  | JNull
  | JBool (b : bool)
  | JNum (n : number)
  | JStr (s : string)
  | JArr (l : list json)
  | JObj (l : list (string * json)).

Definition object := list (string * json).

Fixpoint get_field (o : object) (key : string) : option json :=
  match o with
  | [] => None
  | (k, v) :: o => if String.eqb k key then Some v else get_field o key
  end.

(** Assignment to a key. *)
Fixpoint set_field (o : object) (key : string) (v : json) : object :=
  match o with
  | [] => [(key, v)]
  | (k, x) :: r =>
      if String.eqb k key then (k, v) :: r
      else if String.ltb key k then (key, v) :: o
      else (k, x) :: set_field r key v
  end.

#[export] Instance number_eq_dec : EqDecision number.
Proof. solve_decision. Defined.

Fixpoint json_eqb (a b : json) : bool :=
  let fix all (l k : list json) : bool :=
    match l, k with
    | [], [] => true
    | x :: l, y :: k => json_eqb x y && all l k
    | _, _ => false
    end in
  let fix fields (l k : list (string * json)) : bool :=
    match l, k with
    | [], [] => true
    | (n, x) :: l, (m, y) :: k => String.eqb n m && json_eqb x y && fields l k
    | _, _ => false
    end in
  match a, b with
  | JNull, JNull => true
  | JBool x, JBool y => Bool.eqb x y
  | JNum x, JNum y => bool_decide (x = y)
  | JStr x, JStr y => String.eqb x y
  | JArr l, JArr k => all l k
  | JObj l, JObj k => fields l k
  | _, _ => false
  end.

(** A JSON document as bytes: absent, not JSON, or a value. *)
Inductive raw := RNil | RBad | RJson (v : json).

Definition unmarshal (r : raw) : option json :=
  match r with RJson v => Some v | _ => None end.

(** ** Schemas

    A schema is an object; [None] is the nil map. *)
Definition JSONSchema := option object.
Definition schema_of (s : JSONSchema) : object := default [] s.

Definition schemaNumber (v : option json) : option number :=
  match v with Some (JNum n) => Some n | _ => None end.
Definition schemaMap (v : option json) : option object :=
  match v with Some (JObj o) => Some o | _ => None end.
Definition schemaValues (v : option json) : option (list json) :=
  match v with Some (JArr l) => Some l | _ => None end.

Definition schemaStrings (v : option json) : option (list string) :=
  match v with
  | Some (JArr l) => mapM (λ x, match x with JStr s => Some s | _ => None end) l
  | _ => None
  end.

(** [float64(n) < x] and [float64(n) > x] for a length. *)
Definition below (n : Z) (x : number) : bool :=
  match x with NInt z => n <? z | NFrac m k => n * 2 ^ Zpos k <? m end.
Definition above (n : Z) (x : number) : bool :=
  match x with NInt z => z <? n | NFrac m k => m <? n * 2 ^ Zpos k end.

(** [number == float64(int64(number))]: out of range the conversion yields the
    smallest [int64], as amd64 has it. *)
Definition is_integer (n : number) : bool :=
  match n with NInt z => bool_decide (in64 z) | NFrac _ _ => false end.

Definition within (n : Z) (minimum maximum : option number) : bool :=
  negb (match minimum with Some x => below n x | None => false end) &&
  negb (match maximum with Some x => above n x | None => false end).

(** [object[name] == nil]: the key is missing or its value is null. *)
Definition present (o : object) (name : string) : bool :=
  match get_field o name with Some JNull | None => false | Some _ => true end.

(** Nesting depth, the fuel of [matchesSchema]. *)
Fixpoint depth (v : json) : nat :=
  let fix all (l : list json) : nat := match l with [] => O | x :: l => Nat.max (depth x) (all l) end in
  let fix fields (l : list (string * json)) : nat :=
    match l with [] => O | (_, x) :: l => Nat.max (depth x) (fields l) end in
  match v with
  | JArr l => S (all l)
  | JObj l => S (fields l)
  | _ => 1%nat
  end.

(** One level of [matchesSchema] on a non-empty schema; [sub] is the recursive
    call. *)
Definition matches_body (sub : object → json → bool) (schema : object) (value : json) : bool :=
      let enum :=
        match schemaValues (get_field schema "enum") with
        | Some choices => existsb (λ c, json_eqb c value) choices
        | None => true
        end in
      let expected := match get_field schema "type" with Some (JStr s) => s | _ => ""%string end in
      enum &&
      (if String.eqb expected "" || String.eqb expected "any" then true
       else if String.eqb expected "object" then
         match value with
         | JObj o =>
             let properties := default [] (schemaMap (get_field schema "properties")) in
             (match schemaStrings (get_field schema "required") with
              | Some names => forallb (present o) names
              | None => true
              end) &&
             forallb (λ p : string * json,
               match get_field o p.1 with
               | None => true
               | Some child => match schemaMap (Some p.2) with Some s => sub s child | None => false end
               end) properties &&
             (match get_field schema "additionalProperties" with
              | Some (JBool false) =>
                  forallb (λ p : string * json, match get_field properties p.1 with Some _ => true | None => false end) o
              | _ => true
              end)
         | _ => false
         end
       else if String.eqb expected "array" then
         match value with
         | JArr l =>
             within (len l) (schemaNumber (get_field schema "minItems")) (schemaNumber (get_field schema "maxItems")) &&
             (match schemaMap (get_field schema "items") with
              | Some s => forallb (sub s) l
              | None => true
              end)
         | _ => false
         end
       else if String.eqb expected "string" then
         match value with
         | JStr s =>
             within (rune_count s) (schemaNumber (get_field schema "minLength"))
               (schemaNumber (get_field schema "maxLength"))
         | _ => false
         end
       else if String.eqb expected "number" then match value with JNum _ => true | _ => false end
       else if String.eqb expected "integer" then match value with JNum n => is_integer n | _ => false end
       else if String.eqb expected "boolean" then match value with JBool _ => true | _ => false end
       else if String.eqb expected "null" then match value with JNull => true | _ => false end
       else false).

Fixpoint matches (fuel : nat) (schema : object) (value : json) : bool :=
  match schema with
  | [] => true
  | _ => matches_body (match fuel with O => λ _ _, false | S f => matches f end) schema value
  end.

(** The schema's depth is fuel enough: [matchesSchema_eq] below. *)
Definition matchesSchema (schema : JSONSchema) (value : json) : bool :=
  matches (depth (JObj (schema_of schema))) (schema_of schema) value.

Definition validateOutput (schema : JSONSchema) (output : raw) : bool :=
  match unmarshal output with Some v => matchesSchema schema v | None => false end.

(** ** Paths *)

Fixpoint walk (current : json) (segments : list string) : option json :=
  match segments with
  | [] => Some current
  | segment :: segments =>
      match current with
      | JObj o => next ← get_field o segment; walk next segments
      | JArr l =>
          match ParseInt segment with
          | Some index => if index <? 0 then None else next ← l !! Z.to_nat index; walk next segments
          | None => None
          end
      | _ => None
      end
  end.

Definition workflowPathValue (root : json) (path : string) : option json :=
  let path := Trim1 (ReplaceAll1 path "/" ".") "." in
  if String.eqb path "" then Some root else walk root (Split path ".").

Definition schemaHasPort (schema : JSONSchema) (port : string) : bool :=
  if String.eqb port "output" || String.eqb port "input" then true
  else
    match schemaMap (get_field (schema_of schema) "properties") with
    | Some [] | None => true
    | Some properties => match get_field properties port with Some _ => true | None => false end
    end.

(** ** Enough fuel *)

Lemma depth_field o key v : get_field o key = Some v → (depth v < depth (JObj o))%nat.
Proof.
  induction o as [|[k x] o IH]; simpl; [done|]. destruct (String.eqb k key).
  - intros [= ->]. lia.
  - intros Hg. specialize (IH Hg). simpl in IH. lia.
Qed.

Lemma depth_in o p : p ∈ o → (depth p.2 < depth (JObj o))%nat.
Proof.
  induction o as [|[k x] o IH]; [set_solver|]. simpl.
  intros [->|Hin]%elem_of_cons; [simpl; lia|]. specialize (IH Hin). simpl in IH. lia.
Qed.

Lemma depth_properties schema key properties p s :
  schemaMap (get_field schema key) = Some properties → p ∈ properties → p.2 = JObj s →
  (depth (JObj s) < depth (JObj schema))%nat.
Proof.
  intros Hm Hp Hs. unfold schemaMap in Hm. destruct (get_field schema key) as [[| | | | |o]|] eqn:E; simplify_eq.
  apply depth_field in E. apply depth_in in Hp. rewrite Hs in Hp. lia.
Qed.

Lemma forallb_ext_in {A} (f g : A → bool) l : (∀ x, x ∈ l → f x = g x) → forallb f l = forallb g l.
Proof.
  induction l as [|x l IH]; [done|]. intros H. simpl. rewrite (H x) by left. f_equal. apply IH.
  intros y Hy. apply H. by right.
Qed.

Lemma matches_body_ext sub sub' schema value :
  (∀ s v, (depth (JObj s) < depth (JObj schema))%nat → sub s v = sub' s v) →
  matches_body sub schema value = matches_body sub' schema value.
Proof.
  intros Hsub. unfold matches_body. cbv zeta. f_equal.
  destruct (_ || _); [done|]. destruct (String.eqb _ "object").
  - destruct value as [| | | | |o]; try done. f_equal. f_equal.
    destruct (schemaMap (get_field schema "properties")) as [properties|] eqn:Ep; [|done]. simpl.
    apply forallb_ext_in. intros q Hq. destruct (get_field o q.1); [|done].
    destruct q.2 as [| | | | |s] eqn:Eq2; try done. apply Hsub. by apply (depth_properties _ _ _ _ _ Ep Hq).
  - destruct (String.eqb _ "array"); [|done]. destruct value as [| | | |l|]; try done. f_equal.
    destruct (schemaMap (get_field schema "items")) as [s|] eqn:Es; [|done].
    apply forallb_ext_in. intros v _. apply Hsub.
    unfold schemaMap in Es. destruct (get_field schema "items") as [[| | | | |o]|] eqn:E; simplify_eq.
    by apply depth_field in E.
Qed.

(** Any fuel from the schema's depth on gives the same answer. *)
Lemma matches_fuel n : ∀ m schema value,
  (depth (JObj schema) <= n)%nat → (depth (JObj schema) <= m)%nat → matches n schema value = matches m schema value.
Proof.
  induction n as [|n IH]; intros m schema value Hn Hm; [simpl in Hn; lia|].
  destruct m as [|m]; [simpl in Hm; lia|].
  destruct schema as [|p schema]; [done|]. cbn [matches].
  apply matches_body_ext. intros s v Hd. apply IH; lia.
Qed.

(** The equation of [matchesSchema]: its recursive calls are itself. *)
Lemma matchesSchema_eq schema value :
  matchesSchema schema value =
  match schema_of schema with
  | [] => true
  | _ => matches_body (λ s v, matchesSchema (Some s) v) (schema_of schema) value
  end.
Proof.
  unfold matchesSchema. destruct (schema_of schema) as [|p o]; [done|].
  destruct (depth (JObj (p :: o))) as [|n] eqn:E; [simpl in E; lia|]. cbn [matches].
  apply matches_body_ext. intros s v Hd. 
  apply (matches_fuel n (depth (JObj s)) s v); [|done].
  rewrite E in Hd. exact (proj1 (Nat.lt_succ_r _ _) Hd).
Qed.

(** ** Induction and equality *)

Lemma json_induction (P : json → Prop) :
  P JNull → (∀ b, P (JBool b)) → (∀ n, P (JNum n)) → (∀ s, P (JStr s)) →
  (∀ l, Forall P l → P (JArr l)) → (∀ o, Forall (λ kv : string * json, P kv.2) o → P (JObj o)) → ∀ v, P v.
Proof.
  intros Hnull Hbool Hnum Hstr Harr Hobj. fix IH 1. intros [|b|n|s|l|o].
  - exact Hnull.
  - apply Hbool.
  - apply Hnum.
  - apply Hstr.
  - apply Harr. induction l as [|x l IHl]; constructor; [apply IH|exact IHl].
  - apply Hobj. induction o as [|[k x] o IHo]; constructor; [apply IH|exact IHo].
Qed.

Lemma json_eqb_eq a : ∀ b, json_eqb a b = true ↔ a = b.
Proof.
  induction a as [|x|n|s|l IH|o IH] using json_induction; intros [|y|m|t|k|p]; try (split; done); simpl.
  - rewrite Bool.eqb_true_iff. naive_solver.
  - rewrite bool_decide_eq_true. naive_solver.
  - rewrite String.eqb_eq. naive_solver.
  - revert k. induction IH as [|x l Hx _ IH]; intros [|y k]; try (split; done).
    rewrite andb_true_iff, Hx, IH. naive_solver.
  - revert p. induction IH as [|[n x] o Hx _ IH]; intros [|[m y] p]; try (split; done).
    rewrite !andb_true_iff, String.eqb_eq, IH. simpl in Hx. rewrite Hx. naive_solver.
Qed.

#[export] Instance json_eq_dec : EqDecision json.
Proof. refine (λ a b, cast_if (decide (json_eqb a b = true))); by rewrite <- json_eqb_eq. Defined.

(** ** Fields *)

Lemma get_set_field o k v : get_field (set_field o k v) k = Some v.
Proof.
  induction o as [|[j x] o IH]; simpl; [by rewrite String.eqb_refl|].
  destruct (String.eqb j k) eqn:E; simpl; [by rewrite E|].
  destruct (String.ltb k j); simpl; [by rewrite String.eqb_refl|by rewrite E].
Qed.

Lemma get_set_field_ne o k k' v : k ≠ k' → get_field (set_field o k v) k' = get_field o k'.
Proof.
  intros Hne. induction o as [|[j x] o IH]; simpl; [by rewrite (proj2 (String.eqb_neq k k') Hne)|].
  destruct (String.eqb j k) eqn:E; simpl; [apply String.eqb_eq in E as ->; by rewrite (proj2 (String.eqb_neq k k') Hne)|].
  destruct (String.ltb k j); simpl; [by rewrite (proj2 (String.eqb_neq k k') Hne)|by rewrite IH].
Qed.

(** Mutation of the value under a key that is there. *)
Fixpoint update_field (o : object) (key : string) (f : json → json) : object :=
  match o with
  | [] => []
  | (k, v) :: o => if String.eqb k key then (k, f v) :: o else (k, v) :: update_field o key f
  end.

Lemma get_update_field o k f : get_field (update_field o k f) k = f <$> get_field o k.
Proof. induction o as [|[j x] o IH]; [done|]. simpl. destruct (String.eqb j k) eqn:E; simpl; rewrite E; [done|exact IH]. Qed.

Lemma get_update_field_ne o k k' f : k ≠ k' → get_field (update_field o k f) k' = get_field o k'.
Proof.
  intros Hne. induction o as [|[j x] o IH]; simpl; [done|]. destruct (String.eqb j k) eqn:E; simpl; [apply String.eqb_eq in E as ->; by rewrite (proj2 (String.eqb_neq k k') Hne)|by rewrite IH].
Qed.

Lemma update_field_id o k f : f <$> get_field o k = get_field o k → update_field o k f = o.
Proof.
  induction o as [|[j x] o IH]; simpl; [done|]. destruct (String.eqb j k).
  - intros [= ->]. done.
  - intros H. by rewrite IH.
Qed.
