(* ===== verification/Workflow.v ===== *)
(** * Workflow definitions

    Models [contracts.go], [registry.go] and [validate.go] of
    [internal/workflows]: the graph a workflow is published as, the providers its
    nodes name, and the validation that publication and execution run.  A node's
    configuration arrives decoded; error values keep the sentinel they wrap and
    not their text. *)
From S2P Require Import Prelude GoStrings Json Graph.

Set Warnings "-register-all".

Definition FormatVersion : Z := 2.
Definition RiskRead : string := "read".
Definition RiskWrite : string := "write".
Definition RiskDestructive : string := "destructive".
Definition LocationCloud : string := "cloud".
Definition LocationDevice : string := "device".
Definition LocationEither : string := "either".

Record CapabilityRequirement := mkCapability { cap_Capability : string; cap_Risk : string }.
Record RetryPolicy := mkRetry { MaxAttempts : Z; CooldownSeconds : Z }.
Record ErrorPolicy := mkErrors { Mode : string; AcceptsPartial : bool }.
Record Binding := mkBinding {
  SourceNode : string; SourcePort : string; InputPath : string; Literal : option json }.
Record Edge := mkEdge {
  edge_ID : string; edge_Source : string; edge_SourcePort : string;
  edge_Target : string; edge_TargetPort : string }.
Record WorkflowDependency := mkDependency {
  dep_WorkflowID : string; dep_VersionID : string; dep_Checksum : string }.

Definition DefaultRetryPolicy : RetryPolicy := mkRetry 3 60.

(** A node, its configuration (whether it is a JSON object, the
    [workflowVersionId] and the [for_each] settings it decodes to), and the graph
    itself, which a [for_each] node may embed. *)
Inductive Node :=
  mkNode (ID Kind : string) (KindVersion : Z) (Config : NodeConfig) (Inputs : list (string * Binding))
    (OutputSchema : JSONSchema) (Retry : RetryPolicy) (Errors : ErrorPolicy)
with NodeConfig :=
  mkConfig (isObject : bool) (call : option string) (forEach : option ForEachConfig)
with ForEachConfig :=
  mkForEach (WorkflowVersionID : string) (ChildGraph : option WorkflowDefinition) (Concurrency MaximumItems : Z)
    (Sequential : bool) (ErrorMode : string)
with WorkflowDefinition :=
  mkDefinition (formatVersion : Z) (Capabilities : list CapabilityRequirement) (Nodes : list Node)
    (Edges : list Edge) (Dependencies : list WorkflowDependency).

Definition node_ID (n : Node) := let 'mkNode x _ _ _ _ _ _ _ := n in x.
Definition node_Kind (n : Node) := let 'mkNode _ x _ _ _ _ _ _ := n in x.
Definition node_KindVersion (n : Node) := let 'mkNode _ _ x _ _ _ _ _ := n in x.
Definition node_Config (n : Node) := let 'mkNode _ _ _ x _ _ _ _ := n in x.
Definition node_Inputs (n : Node) := let 'mkNode _ _ _ _ x _ _ _ := n in x.
Definition node_OutputSchema (n : Node) := let 'mkNode _ _ _ _ _ x _ _ := n in x.
Definition node_Retry (n : Node) := let 'mkNode _ _ _ _ _ _ x _ := n in x.
Definition node_Errors (n : Node) := let 'mkNode _ _ _ _ _ _ _ x := n in x.
Definition cfg_isObject (c : NodeConfig) := let 'mkConfig x _ _ := c in x.
Definition cfg_call (c : NodeConfig) := let 'mkConfig _ x _ := c in x.
Definition cfg_forEach (c : NodeConfig) := let 'mkConfig _ _ x := c in x.
Definition fe_VersionID (f : ForEachConfig) := let 'mkForEach x _ _ _ _ _ := f in x.
Definition fe_ChildGraph (f : ForEachConfig) := let 'mkForEach _ x _ _ _ _ := f in x.
Definition fe_Concurrency (f : ForEachConfig) := let 'mkForEach _ _ x _ _ _ := f in x.
Definition fe_MaximumItems (f : ForEachConfig) := let 'mkForEach _ _ _ x _ _ := f in x.
Definition fe_Sequential (f : ForEachConfig) := let 'mkForEach _ _ _ _ x _ := f in x.
Definition fe_ErrorMode (f : ForEachConfig) := let 'mkForEach _ _ _ _ _ x := f in x.
Definition def_FormatVersion (d : WorkflowDefinition) := let 'mkDefinition x _ _ _ _ := d in x.
Definition def_Capabilities (d : WorkflowDefinition) := let 'mkDefinition _ x _ _ _ := d in x.
Definition def_Nodes (d : WorkflowDefinition) := let 'mkDefinition _ _ x _ _ := d in x.
Definition def_Edges (d : WorkflowDefinition) := let 'mkDefinition _ _ _ x _ := d in x.
Definition def_Dependencies (d : WorkflowDefinition) := let 'mkDefinition _ _ _ _ x := d in x.

(** The sentinel errors, and the others by what they report. *)
Inductive wf_error :=
  | ErrInvalidDefinition
  | ErrProviderMissing
  | ErrCapabilityDenied
  | ErrOutputInvalid
  | ErrAwaitingApproval
  | errBranchNotSelected
  | PartialUpstream (node : string)
  | MissingUpstream (node : string)
  | MissingInput (path : string)
  | MissingPort (port : string)
  | ForEachFailed
  | ContextCanceled
  | EngineDiverges
  | OtherError (text : string).
#[export] Instance wf_error_eq_dec : EqDecision wf_error.
Proof. solve_decision. Defined.

(** ** Tokens *)

Definition token_char (a : ascii) : bool :=
  let c := code a in
  bool_decide (a = "-"%char) || bool_decide (a = "_"%char) || bool_decide (a = "."%char) || bool_decide (a = ":"%char) ||
  (48 <=? c) && (c <=? 57) || (97 <=? c) && (c <=? 122) || (65 <=? c) && (c <=? 90).

Fixpoint all_token_chars (s : string) : bool :=
  match s with EmptyString => true | String a s => token_char a && all_token_chars s end.

(** A byte outside ASCII is part of a rune that is refused as well. *)
Definition validToken (value : string) (maximum : Z) : bool :=
  let value := TrimSpace value in
  negb (bool_decide (value = ""%string)) && negb (maximum <? strlen value) && all_token_chars value.

Definition validRisk (risk : string) : bool :=
  bool_decide (risk = RiskRead) || bool_decide (risk = RiskWrite) || bool_decide (risk = RiskDestructive).

Definition riskRank (risk : string) : Z :=
  if bool_decide (risk = RiskDestructive) then 3 else if bool_decide (risk = RiskWrite) then 2 else 1.

(** ** Providers

    A provider acts on the world [W]: the services, journals and clocks outside
    the engine. *)
Record Invocation := mkInvocation {
  inv_RunID : string; inv_NodeID : string; inv_Attempt : Z; inv_Key : string;
  inv_UserID : string; inv_SpaceID : string; inv_Config : NodeConfig; inv_Input : raw }.

Record NodeDescriptor (W : Type) := mkDescriptor {
  d_Kind : string;
  d_Version : Z;
  d_Capability : string;
  d_Risk : string;
  d_Location : string;
  d_InputSchema : JSONSchema;
  d_OutputSchema : JSONSchema;
  d_Idempotent : bool;
  d_SupportsReconcile : bool;
  d_HealthCheck : option (W → W * option wf_error);
  d_Cancel : option (Invocation → W → W);
  d_Execute : option (Invocation → W → W * (wf_error + raw));
  d_Reconcile : option (Invocation → W → W * (wf_error + (raw * bool))) }.
Arguments mkDescriptor {W}.
Arguments d_Kind {W}.
Arguments d_Version {W}.
Arguments d_Capability {W}.
Arguments d_Risk {W}.
Arguments d_Location {W}.
Arguments d_InputSchema {W}.
Arguments d_OutputSchema {W}.
Arguments d_Idempotent {W}.
Arguments d_SupportsReconcile {W}.
Arguments d_HealthCheck {W}.
Arguments d_Cancel {W}.
Arguments d_Execute {W}.
Arguments d_Reconcile {W}.

Section workflow.
Context {W : Type}.
(** [len(json.Marshal(schema))]. *)
Context (marshal_len : object → Z).

Definition Registry := gmap string (NodeDescriptor W).

Definition registryKey (kind : string) (version : Z) : string := kind +:+ "@" +:+ Itoa version.

Definition validSchema (schema : JSONSchema) : bool :=
  match schema with None => false | Some o => marshal_len o <=? 256 * 1024 end.

Definition is_set {A} (o : option A) : bool := match o with Some _ => true | None => false end.

Definition Register (registry : Registry) (d : NodeDescriptor W) : wf_error + Registry :=
  if negb (validToken (d_Kind d) 120) || (d_Version d <? 1) || bool_decide (d_Capability d = ""%string) ||
     negb (validRisk (d_Risk d)) ||
     negb (bool_decide (d_Location d = LocationCloud)) && negb (bool_decide (d_Location d = LocationDevice)) &&
       negb (bool_decide (d_Location d = LocationEither)) ||
     negb (is_set (d_Execute d)) || negb (validSchema (d_InputSchema d)) || negb (validSchema (d_OutputSchema d)) ||
     negb (is_set (d_HealthCheck d)) || negb (is_set (d_Cancel d))
  then inl ErrInvalidDefinition
  else if negb (bool_decide (d_Risk d = RiskRead)) && negb (d_Idempotent d) && negb (d_SupportsReconcile d)
  then inl ErrInvalidDefinition
  else
    let key := registryKey (d_Kind d) (d_Version d) in
    match registry !! key with
    | Some _ => inl ErrInvalidDefinition
    | None => inr (<[key := d]> registry)
    end.

Definition Resolve (registry : Registry) (kind : string) (version : Z) : option (NodeDescriptor W) :=
  registry !! registryKey kind version.

(** ** Validation *)

(** [ResolveWorkflowVersion]: workflow id, checksum and graph of a version. *)
Definition Resolver := string → option (string * string * WorkflowDefinition).

Context (registry : option Registry) (dependencies : option Resolver).

Definition res := (wf_error + ())%type.
Definition ok : res := inr ().

(** Runs the checks of a list in order and stops at the first error. *)
Fixpoint each {A} (f : A → res) (l : list A) : res :=
  match l with
  | [] => ok
  | x :: l => match f x with inl e => inl e | inr _ => each f l end
  end.

Definition require_ (b : bool) (e : wf_error) : res := if b then ok else inl e.

Fixpoint capability_map (l : list CapabilityRequirement) (m : gmap string string) : gmap string string :=
  match l with [] => m | c :: l => capability_map l (<[cap_Capability c := cap_Risk c]> m) end.

(** The check of one node against the nodes before it. *)
Definition check_node (capabilities : gmap string string) (seen : list Node) (node : Node) : res :=
  if negb (validToken (node_ID node) 160 && validToken (node_Kind node) 120 && negb (node_KindVersion node <? 1) &&
           negb (bool_decide (node_ID node ∈ node_ID <$> seen)) && cfg_isObject (node_Config node) &&
           validSchema (node_OutputSchema node))
  then inl ErrInvalidDefinition
  else
    let retry := node_Retry node in
    let retry := if (MaxAttempts retry =? 0) && (CooldownSeconds retry =? 0) then DefaultRetryPolicy else retry in
    if negb ((MaxAttempts retry =? 3) && (CooldownSeconds retry =? 60)) then inl ErrInvalidDefinition
    else if negb (bool_decide (Mode (node_Errors node) ∈ [""; "fail"; "continue"; "collect"]%string))
    then inl ErrInvalidDefinition
    else
      match registry with
      | None => ok
      | Some r =>
          match Resolve r (node_Kind node) (node_KindVersion node) with
          | None => inl ErrProviderMissing
          | Some d =>
              match capabilities !! d_Capability d with
              | Some granted => require_ (negb (riskRank granted <? riskRank (d_Risk d))) ErrCapabilityDenied
              | None => inl ErrCapabilityDenied
              end
          end
      end.

Fixpoint check_nodes (capabilities : gmap string string) (seen nodes : list Node) : res :=
  match nodes with
  | [] => ok
  | node :: nodes =>
      match check_node capabilities seen node with
      | inl e => inl e
      | inr _ => check_nodes capabilities (seen ++ [node]) nodes
      end
  end.

Definition find_node (nodes : list Node) (id : string) : option Node :=
  head (filter (λ n, node_ID n = id) nodes).

(** [descriptors[id].InputSchema]; nil without a registry. *)
Definition input_schema (nodes : list Node) (id : string) : JSONSchema :=
  r ← registry; n ← find_node nodes id; d ← Resolve r (node_Kind n) (node_KindVersion n); d_InputSchema d.

Definition check_binding (nodes : list Node) (node : Node) (input : string * Binding) : res :=
  let '(name, b) := input in
  if negb (validToken name 120) then inl ErrInvalidDefinition
  else
    let from_node := negb (bool_decide (SourceNode b = ""%string)) in
    let from_input := negb (bool_decide (InputPath b = ""%string)) in
    if from_node &&
       negb (match find_node nodes (SourceNode b) with
             | Some upstream => validToken (SourcePort b) 120 && schemaHasPort (node_OutputSchema upstream) (SourcePort b)
             | None => false
             end)
    then inl ErrInvalidDefinition
    else if from_input && negb (validToken (InputPath b) 200) then inl ErrInvalidDefinition
    else
      let sources := Z.b2z from_node + Z.b2z from_input + Z.b2z (is_set (Literal b)) in
      require_ ((sources =? 1) && schemaHasPort (input_schema nodes (node_ID node)) name) ErrInvalidDefinition.

Definition portKey (e : Edge) : string := edge_Target e +:+ ":" +:+ edge_TargetPort e.

Definition check_edge (nodes : list Node) (seen : list Edge) (e : Edge) : res :=
  match find_node nodes (edge_Source e), find_node nodes (edge_Target e) with
  | Some source, Some _ =>
      if negb (validToken (edge_ID e) 200 && negb (bool_decide (edge_ID e ∈ edge_ID <$> seen)) &&
               negb (bool_decide (edge_Source e = edge_Target e)) && validToken (edge_SourcePort e) 120 &&
               validToken (edge_TargetPort e) 120)
      then inl ErrInvalidDefinition
      else if bool_decide (portKey e ∈ portKey <$> seen) then inl ErrInvalidDefinition
      else require_ (schemaHasPort (node_OutputSchema source) (edge_SourcePort e) &&
                     schemaHasPort (input_schema nodes (edge_Target e)) (edge_TargetPort e)) ErrInvalidDefinition
  | _, _ => inl ErrInvalidDefinition
  end.

Fixpoint check_edges (nodes : list Node) (seen edges : list Edge) : res :=
  match edges with
  | [] => ok
  | e :: edges =>
      match check_edge nodes seen e with
      | inl err => inl err
      | inr _ => check_edges nodes (seen ++ [e]) edges
      end
  end.

Definition graph_edges (d : WorkflowDefinition) : list (string * string) :=
  (λ e, (edge_Source e, edge_Target e)) <$> def_Edges d.
Definition graph_ids (d : WorkflowDefinition) : list string := node_ID <$> def_Nodes d.

(** The cycle check: all nodes are visited. *)
Definition check_acyclic (d : WorkflowDefinition) : res :=
  require_ (Nat.eqb (length (kahn id (graph_ids d) (graph_edges d))) (length (def_Nodes d))) ErrInvalidDefinition.

(** The configuration of [call_workflow] and [for_each] nodes; [child] validates
    an embedded graph. *)
Definition check_kind (child : WorkflowDefinition → res) (declared : list string) (node : Node) : res :=
  if bool_decide (node_Kind node = "call_workflow"%string) then
    match cfg_call (node_Config node) with
    | Some version =>
        require_ (negb (bool_decide (version = ""%string)) && bool_decide (version ∈ declared)) ErrInvalidDefinition
    | None => inl ErrInvalidDefinition
    end
  else if bool_decide (node_Kind node = "for_each"%string) then
    match cfg_forEach (node_Config node) with
    | None => inl ErrInvalidDefinition
    | Some f =>
        if Bool.eqb (negb (is_set (fe_ChildGraph f))) (bool_decide (fe_VersionID f = ""%string))
        then inl ErrInvalidDefinition
        else if negb (bool_decide (fe_VersionID f = ""%string)) && negb (bool_decide (fe_VersionID f ∈ declared))
        then inl ErrInvalidDefinition
        else match fe_ChildGraph f with Some g => child g | None => ok end
    end
  else ok.

Definition check_dependency (child : WorkflowDefinition → gset string → res) (ancestry : gset string)
    (dep : WorkflowDependency) : res :=
  match dependencies with
  | None => inl ErrInvalidDefinition
  | Some resolve =>
      if negb (validToken (dep_WorkflowID dep) 200 && validToken (dep_VersionID dep) 200 &&
               (strlen (dep_Checksum dep) =? 64))
      then inl ErrInvalidDefinition
      else
        match resolve (dep_VersionID dep) with
        | Some (workflowID, checksum, graph) =>
            if bool_decide (workflowID = dep_WorkflowID dep) && bool_decide (checksum = dep_Checksum dep) &&
               negb (bool_decide (dep_VersionID dep ∈ ancestry))
            then child graph ({[dep_VersionID dep]} ∪ ancestry)
            else inl ErrInvalidDefinition
        | None => inl ErrInvalidDefinition
        end
  end.

Definition andThen (a b : res) : res := match a with inl e => inl e | inr _ => b end.

(** [validate] with [17 - depth] levels left: a graph nested deeper than 16 is
    refused, so the recursion ends there. *)
Fixpoint validate (levels : nat) (d : WorkflowDefinition) (ancestry : gset string) : res :=
  match levels with
  | O => inl ErrInvalidDefinition
  | S levels =>
      let nodes := def_Nodes d in
      let capabilities := capability_map (def_Capabilities d) ∅ in
      let declared := dep_VersionID <$> def_Dependencies d in
      andThen (require_ ((def_FormatVersion d =? FormatVersion) && negb (len nodes =? 0) && negb (1000 <? len nodes) &&
                     negb (5000 <? len (def_Edges d))) ErrInvalidDefinition)
      (andThen (each (λ c, require_ (validToken (cap_Capability c) 160 && validRisk (cap_Risk c)) ErrInvalidDefinition)
              (def_Capabilities d))
      (andThen (check_nodes capabilities [] nodes)
      (andThen (each (check_kind (λ g, validate levels g ancestry) declared) nodes)
      (andThen (each (λ node, each (check_binding nodes node) (node_Inputs node)) nodes)
      (andThen (check_edges nodes [] (def_Edges d))
      (andThen (check_acyclic d)
      (each (check_dependency (validate levels) ancestry) (def_Dependencies d))))))))
  end.

Definition Validate (d : WorkflowDefinition) : res := validate 17 d ∅.
End workflow.
