(* ===== verification/Engine.v ===== *)
(** * Workflow engine

    Models [engine_errors.go], [engine_execute_for_each.go],
    [engine_resolve_node_input.go] and [engine_schema_number.go] of
    [internal/workflows]: input resolution, the attempt loop of a node with
    health check, reconciliation, validation and cooldown, sub-workflows and
    [for_each], and the run over the topological order.  Providers, the
    coordinator's callbacks and the context act on a world [W].  The items of a
    [for_each] run one after the other in an order the scheduler picks. *)
From S2P Require Import Prelude GoStrings Json Graph Workflow.

Inductive StepState :=
  StepRunning | StepCooldown | StepCompleted | StepCompletedWithErrors | StepAwaitingApproval | StepFailed.

Inductive RunState :=
  | RunQueued | RunRunning | RunCooldown | RunAwaitingApproval | RunCompleted | RunCompletedWithErrors
  | RunFailed | RunCanceled | RunRejected.
#[export] Instance RunState_eq_dec : EqDecision RunState.
Proof. solve_decision. Defined.

Definition run_state_text (s : RunState) : string :=
  match s with
  | RunQueued => "queued" | RunRunning => "running" | RunCooldown => "cooldown"
  | RunAwaitingApproval => "awaiting_approval" | RunCompleted => "completed"
  | RunCompletedWithErrors => "completed_with_errors" | RunFailed => "failed"
  | RunCanceled => "canceled" | RunRejected => "rejected"
  end.

Definition Terminal (s : RunState) : bool :=
  bool_decide (s = RunCompleted) || bool_decide (s = RunCompletedWithErrors) || bool_decide (s = RunFailed) ||
  bool_decide (s = RunCanceled) || bool_decide (s = RunRejected).

Record StepEvent := mkEvent {
  evt_NodeID : string; evt_State : StepState; evt_Attempt : Z; evt_Input : raw; evt_Output : raw;
  evt_Error : option wf_error }.

Record ExecutionRequest := mkRequest {
  req_RunID : string; req_UserID : string; req_SpaceID : string; req_Input : raw; req_NodePrefix : string;
  req_Completed : gmap string raw }.

Record ExecutionResult := mkResult {
  result_State : RunState; result_Outputs : gmap string raw; result_Errors : gmap string wf_error }.

(** ** Inputs *)

Definition conditionalWorkflowNode (d : WorkflowDefinition) (id : string) : bool :=
  match find_node (def_Nodes d) id with
  | Some n => bool_decide (node_Kind n = "condition"%string) || bool_decide (node_Kind n = "switch"%string)
  | None => false
  end.

Definition workflowPortValue (r : raw) (port : string) : wf_error + json :=
  match unmarshal r with
  | None => inl ErrOutputInvalid
  | Some v =>
      if bool_decide (port = ""%string) || bool_decide (port = "output"%string) then inr v
      else match workflowPathValue v port with Some x => inr x | None => inl (MissingPort port) end
  end.

(** The value a node reads from another one. *)
Definition source_value (d : WorkflowDefinition) (node : Node) (source port : string)
    (outputs : gmap string raw) (partials skipped : gset string) : wf_error + json :=
  if bool_decide (source ∈ skipped) then inl errBranchNotSelected
  else if bool_decide (source ∈ partials) && negb (AcceptsPartial (node_Errors node)) then inl (PartialUpstream source)
  else
    match outputs !! source with
    | None => inl (MissingUpstream source)
    | Some r =>
        match workflowPortValue r port with
        | inr v => inr v
        | inl e =>
            if conditionalWorkflowNode d source && negb (bool_decide (port = "output"%string))
            then inl errBranchNotSelected else inl e
        end
    end.

Definition binding_value (d : WorkflowDefinition) (node : Node) (runInput : raw) (outputs : gmap string raw)
    (partials skipped : gset string) (b : Binding) : wf_error + json :=
  if negb (bool_decide (SourceNode b = ""%string)) then
    source_value d node (SourceNode b) (SourcePort b) outputs partials skipped
  else if negb (bool_decide (InputPath b = ""%string)) then
    match unmarshal runInput with
    | None => inl ErrInvalidDefinition
    | Some root =>
        match workflowPathValue root (InputPath b) with Some v => inr v | None => inl (MissingInput (InputPath b)) end
    end
  else inr (default JNull (Literal b)).

(** Fills the input object, stopping at the first error. *)
Fixpoint fill {A} (f : A → wf_error + (string * json)) (l : list A) (value : object) : wf_error + object :=
  match l with
  | [] => inr value
  | x :: l =>
      match f x with
      | inl e => inl e
      | inr (name, v) => fill f l (set_field value name v)
      end
  end.

Definition TestingResolveNodeInput (d : WorkflowDefinition) (node : Node) (runInput : raw)
    (outputs : gmap string raw) (partials skipped : gset string) : wf_error + raw :=
  let named (name : string) (r : wf_error + json) : wf_error + (string * json) :=
    match r with inl e => inl e | inr v => inr (name, v) end in
  match fill (λ i : string * Binding, named i.1 (binding_value d node runInput outputs partials skipped i.2))
          (node_Inputs node) [] with
  | inl e => inl e
  | inr value =>
      let incoming := filter (λ e, edge_Target e = node_ID node) (def_Edges d) in
      match fill (λ e, named (edge_TargetPort e)
                         (source_value d node (edge_Source e) (edge_SourcePort e) outputs partials skipped))
              incoming value with
      | inl e => inl e
      | inr [] => inr (match runInput with RNil => RJson (JObj []) | r => r end)
      | inr value => inr (RJson (JObj value))
      end
  end.

(** ** Order *)

Definition sort_strings (l : list string) : list string := merge_sort String.le l.

Definition topologicalOrder (d : WorkflowDefinition) : list Node :=
  omap (find_node (def_Nodes d)) (kahn sort_strings (graph_ids d) (graph_edges d)).

(** ** Items of a loop *)

Fixpoint find_items (fuel : nat) (v : json) : option (list json) :=
  match fuel, v with
  | _, JArr l => Some l
  | S f, JObj o =>
      let try key := v ← get_field o key; find_items f v in
      match try "items"%string with
      | Some l => Some l
      | None => match try "events"%string with Some l => Some l | None => try "value"%string end
      end
  | _, _ => None
  end.

Definition workflowItems (r : raw) : wf_error + list raw :=
  match v ← unmarshal r; find_items (depth v) v with
  | Some l => inr (RJson <$> l)
  | None => inl ErrOutputInvalid
  end.

(** A raw message inside a marshalled value. *)
Definition raw_value (r : raw) : json := match r with RJson v => v | _ => JNull end.

Definition object_of {A} (f : A → json) (m : gmap string A) : json :=
  JObj (fold_left (λ o (kv : string * A), set_field o kv.1 (f kv.2)) (map_to_list m) []).

Record itemResult := mkItemResult {
  it_Index : Z; it_Input : raw; it_Outputs : gmap string raw; it_Errors : gmap string wf_error; it_Error : string }.
Definition no_item : itemResult := mkItemResult 0 RNil ∅ ∅ "".

Definition node_prefix_item (id : string) (index : nat) : string :=
  let digits := Itoa (Z.of_nat index) in
  let zeros := String.concat "" (repeat "0"%string (6 - String.length digits)%nat) in
  id +:+ ".item_" +:+ zeros +:+ digits +:+ ".".

(** ** The engine *)

Record Engine (W : Type) := mkEngine {
  eng_Registry : @Registry W;
  eng_Resolver : option Resolver;
  eng_Checkpoint : option (StepEvent → W → W * option wf_error);
  eng_Cooldown : option (StepEvent → Z → W → W * option wf_error);
  eng_ItemCheckpoint : option (string → raw → ExecutionResult → option wf_error → W → W * option wf_error) }.
Arguments mkEngine {W}.
Arguments eng_Registry {W}.
Arguments eng_Resolver {W}.
Arguments eng_Checkpoint {W}.
Arguments eng_Cooldown {W}.
Arguments eng_ItemCheckpoint {W}.

(** How a run of attempts ends: with an output (and the attempt recorded for it),
    with an error, or by ending the whole run. *)
Inductive node_outcome :=
  | Succeeded (output : raw) (completedAttempt : Z) (partial : bool)
  | GaveUp (e : wf_error)
  | Halted (state : RunState) (e : wf_error).

Section engine.
Context {W : Type} (marshal_len : object → Z) (errorText : wf_error → string) (sha256_hex : string → string)
  (canceled : W → bool).
(** The scheduler of a loop: the order in which items get the semaphore, and
    which of them still start after the loop was cancelled. *)
Context (schedule : string → nat → list nat) (late : string → nat → bool).
Context (engine : Engine W).

Definition errors_object (m : gmap string wf_error) : json := object_of (λ e, JStr (errorText e)) m.

Definition marshalExecutionResult (r : ExecutionResult) : raw :=
  RJson (JObj [("errors", errors_object (result_Errors r)); ("outputs", object_of raw_value (result_Outputs r));
               ("state", JStr (run_state_text (result_State r)))]%string).

Definition item_json (r : itemResult) : json :=
  let o : object := [("index", JNum (NInt (it_Index r))); ("input", raw_value (it_Input r))]%string in
  let o := if bool_decide (it_Outputs r = ∅) then o else set_field o "outputs" (object_of raw_value (it_Outputs r)) in
  let o := if bool_decide (it_Errors r = ∅) then o else set_field o "errors" (errors_object (it_Errors r)) in
  JObj (if bool_decide (it_Error r = ""%string) then o else set_field o "error" (JStr (it_Error r))).

Definition idempotencyKey (runID nodeID : string) : string := sha256_hex (runID +:+ ":" +:+ nodeID).

Definition checkpoint (event : StepEvent) (w : W) : W * option wf_error :=
  match eng_Checkpoint engine with Some f => f event w | None => (w, None) end.

Definition cooldown (event : StepEvent) (seconds : Z) (w : W) : W * option wf_error :=
  match eng_Cooldown engine with Some f => f event seconds w | None => (w, None) end.

(** [rec] executes a child graph; its flag says that the context was cancelled by
    the loop. *)
Section child.
Context (rec : WorkflowDefinition → ExecutionRequest → bool → W → W * (ExecutionResult * option wf_error)).

Definition executeCallWorkflow (parent : ExecutionRequest) (dead : bool) (inv : Invocation) (w : W)
    : W * (wf_error + raw) :=
  match cfg_call (inv_Config inv), eng_Resolver engine with
  | Some version, Some resolve =>
      if bool_decide (version = ""%string) then (w, inl ErrInvalidDefinition)
      else
        match resolve version with
        | None => (w, inl ErrInvalidDefinition)
        | Some (_, _, child) =>
            match rec child (mkRequest (req_RunID parent) (req_UserID parent) (req_SpaceID parent) (inv_Input inv)
                               (inv_NodeID inv +:+ ".") (req_Completed parent)) dead w with
            | (w, (_, Some e)) => (w, inl e)
            | (w, (result, None)) => (w, inr (marshalExecutionResult result))
            end
        end
  | _, _ => (w, inl ErrInvalidDefinition)
  end.

Definition childDefinition (f : ForEachConfig) : wf_error + WorkflowDefinition :=
  match fe_ChildGraph f with
  | Some g => if bool_decide (fe_VersionID f = ""%string) then inr g else inl ErrInvalidDefinition
  | None =>
      if bool_decide (fe_VersionID f = ""%string) then inl ErrInvalidDefinition
      else
        match eng_Resolver engine with
        | None => inl ErrInvalidDefinition
        | Some resolve =>
            match resolve (fe_VersionID f) with Some (_, _, g) => inr g | None => inl ErrInvalidDefinition end
        end
  end.

(** One item: the child run, the item checkpoint, and whether it cancels the
    loop. *)
Definition run_item (parent : ExecutionRequest) (inv : Invocation) (child : WorkflowDefinition) (failFast dead : bool)
    (index : nat) (item : raw) (w : W) : W * (itemResult * bool) :=
  match rec child (mkRequest (req_RunID parent) (req_UserID parent) (req_SpaceID parent) item
                     (node_prefix_item (inv_NodeID inv) index) (req_Completed parent)) dead w with
  | (w, (result, executeErr)) =>
      let '(w, executeErr) :=
        match eng_ItemCheckpoint engine with
        | None => (w, executeErr)
        | Some f =>
            match f (inv_NodeID inv) item result executeErr w with
            | (w, Some e) => (w, match executeErr with None => Some e | Some _ => executeErr end)
            | (w, None) => (w, executeErr)
            end
        end in
      let failed := match executeErr with Some _ => true | None => negb (bool_decide (result_State result = RunCompleted)) end in
      (w, (mkItemResult (Z.of_nat index) item (result_Outputs result) (result_Errors result)
             (match executeErr with Some e => errorText e | None => ""%string end),
           failed && failFast))
  end.

Fixpoint run_items (parent : ExecutionRequest) (inv : Invocation) (child : WorkflowDefinition) (failFast dead : bool)
    (items : list raw) (order : list nat) (results : list itemResult) (w : W) : W * list itemResult :=
  match order with
  | [] => (w, results)
  | index :: order =>
      match items !! index with
      | None => run_items parent inv child failFast dead items order results w
      | Some item =>
          if (dead || canceled w) && negb (late (inv_NodeID inv) index)
          then run_items parent inv child failFast dead items order results w
          else
            let '(w, (r, cancel)) := run_item parent inv child failFast dead index item w in
            run_items parent inv child failFast (dead || cancel) items order (<[index := r]> results) w
      end
  end.

Definition item_failed (r : itemResult) : bool :=
  negb (bool_decide (it_Error r = ""%string)) || negb (bool_decide (it_Errors r = ∅)).

Definition forEachOutput (results : list itemResult) (partial : bool) : raw :=
  let errors := fold_left (λ o (p : nat * itemResult),
    if item_failed p.2 then
      set_field o (Itoa (Z.of_nat p.1))
        (JStr (if bool_decide (it_Error p.2 = ""%string) then "completed_with_errors"%string else it_Error p.2))
    else o) (imap pair results) [] in
  RJson (JObj [("errors", JObj errors); ("items", JArr (item_json <$> results)); ("partial", JBool partial)]%string).

(** The second component is [nodePartial]. *)
Definition executeForEach (parent : ExecutionRequest) (dead : bool) (inv : Invocation) (w : W)
    : W * (bool * (wf_error + raw)) :=
  match cfg_forEach (inv_Config inv) with
  | None => (w, (false, inl ErrInvalidDefinition))
  | Some f =>
      match childDefinition f, workflowItems (inv_Input inv) with
      | inl e, _ => (w, (false, inl e))
      | _, inl e => (w, (false, inl e))
      | inr child, inr items =>
          let maximum := if fe_MaximumItems f =? 0 then 1000 else fe_MaximumItems f in
          let concurrency := if fe_Sequential f then 1 else fe_Concurrency f in
          let concurrency := if concurrency =? 0 then 4 else concurrency in
          let mode := if bool_decide (fe_ErrorMode f = ""%string) then "collect"%string else fe_ErrorMode f in
          if (maximum <? 1) || (10000 <? maximum) || (maximum <? len items) || (concurrency <? 1) || (32 <? concurrency) ||
             negb (bool_decide (mode ∈ ["collect"; "continue"; "fail_fast"]%string))
          then (w, (false, inl ErrInvalidDefinition))
          else
            let failFast := bool_decide (mode = "fail_fast"%string) in
            let '(w, results) :=
              run_items parent inv child failFast dead items (schedule (inv_NodeID inv) (length items))
                (repeat no_item (length items)) w in
            let partial := existsb item_failed results in
            if partial && failFast then (w, (true, inl ForEachFailed))
            else (w, (partial, inr (forEachOutput results partial)))
      end
  end.

(** [Execute] of the provider, or the engine's own node kinds. *)
Definition run_provider (request : ExecutionRequest) (dead : bool) (node : Node) (d : NodeDescriptor W)
    (inv : Invocation) (partial : bool) (w : W) : W * (bool * (wf_error + raw)) :=
  if bool_decide (node_Kind node = "call_workflow"%string) then
    let '(w, r) := executeCallWorkflow request dead inv w in (w, (partial, r))
  else if bool_decide (node_Kind node = "for_each"%string) then executeForEach request dead inv w
  else
    match d_Execute d with
    | Some f => let '(w, r) := f inv w in (w, (partial, r))
    | None => (w, (partial, inl ErrProviderMissing))
    end.

Definition valid_for (node : Node) (d : NodeDescriptor W) (output : raw) : bool :=
  validateOutput (d_OutputSchema d) output && validateOutput (node_OutputSchema node) output.

(** What one attempt yields: reconciled output, executed output, or an error;
    and [nodePartial]. *)
Inductive attempt_result := Reconciled (output : raw) | Executed (output : raw) | AttemptFailed (e : wf_error).

(** Runs the provider unless reconciliation left an output, and validates it. *)
Definition execute_unless (request : ExecutionRequest) (dead : bool) (node : Node) (d : NodeDescriptor W)
    (inv : Invocation) (partial : bool) (output : raw) (w : W) : W * (bool * attempt_result) :=
  let checked (o : raw) := if valid_for node d o then Executed o else AttemptFailed ErrOutputInvalid in
  match output with
  | RNil =>
      let '(w, (partial, r)) := run_provider request dead node d inv partial w in
      (w, (partial, match r with inl e => AttemptFailed e | inr o => checked o end))
  | o => (w, (partial, checked o))
  end.

Definition attempt_once (request : ExecutionRequest) (dead : bool) (node : Node) (d : NodeDescriptor W)
    (inv : Invocation) (partial : bool) (w : W) : W * (bool * attempt_result) :=
  if negb (validateOutput (d_InputSchema d) (inv_Input inv)) then (w, (partial, AttemptFailed ErrOutputInvalid))
  else
    let '(w, unhealthy) := match d_HealthCheck d with Some f => f w | None => (w, None) end in
    match unhealthy with
    | Some e => (w, (partial, AttemptFailed e))
    | None =>
        match d_Reconcile d with
        | Some f =>
            if negb (bool_decide (d_Risk d = RiskRead)) && (1 <? inv_Attempt inv) && d_SupportsReconcile d then
              match f inv w with
              | (w, inl e) => (w, (partial, AttemptFailed e))
              | (w, inr (o, true)) =>
                  (w, (partial, if valid_for node d o then Reconciled o else AttemptFailed ErrOutputInvalid))
              | (w, inr (o, false)) => execute_unless request dead node d inv partial o w
              end
            else execute_unless request dead node d inv partial RNil w
        | None => execute_unless request dead node d inv partial RNil w
        end
    end.

Definition is_canceled (dead : bool) (w : W) : bool := dead || canceled w.

(** The attempt loop, [attempts] tries left. *)
Fixpoint run_attempts (attempts : nat) (maxAttempts : Z) (request : ExecutionRequest) (dead : bool) (node : Node)
    (d : NodeDescriptor W) (input : raw) (attempt : Z) (partial : bool) (w : W) : W * node_outcome :=
  match attempts with
  | O => (w, Succeeded RNil 0 partial)
  | S attempts =>
      let id := req_NodePrefix request +:+ node_ID node in
      if is_canceled dead w then
        let inv := mkInvocation (req_RunID request) (node_ID node) attempt "" (req_UserID request) (req_SpaceID request)
                     (mkConfig true None None) RNil in
        (match d_Cancel d with Some f => f inv w | None => w end, Halted RunCanceled ContextCanceled)
      else
        match checkpoint (mkEvent id StepRunning attempt input RNil None) w with
        | (w, Some e) => (w, Halted RunFailed e)
        | (w, None) =>
            let inv := mkInvocation (req_RunID request) id attempt (idempotencyKey (req_RunID request) id)
                         (req_UserID request) (req_SpaceID request) (node_Config node) input in
            match attempt_once request dead node d inv partial w with
            | (w, (partial, Reconciled o)) => (w, Succeeded o 0 partial)
            | (w, (partial, Executed o)) => (w, Succeeded o attempt partial)
            | (w, (partial, AttemptFailed e)) =>
                if bool_decide (e = ErrAwaitingApproval) then
                  ((checkpoint (mkEvent id StepAwaitingApproval attempt input RNil (Some e)) w).1,
                   Halted RunAwaitingApproval e)
                else if attempt <? maxAttempts then
                  let event := mkEvent id StepCooldown attempt input RNil (Some e) in
                  match checkpoint event w with
                  | (w, Some e) => (w, Halted RunFailed e)
                  | (w, None) =>
                      match cooldown event (CooldownSeconds (node_Retry node)) w with
                      | (w, Some e) => (w, Halted RunFailed e)
                      | (w, None) =>
                          run_attempts attempts maxAttempts request dead node d input (attempt + 1) partial w
                      end
                  end
                else (w, GaveUp e)
            end
        end
  end.

Definition tolerant (node : Node) : bool :=
  bool_decide (Mode (node_Errors node) = "continue"%string) || bool_decide (Mode (node_Errors node) = "collect"%string).

Definition max_attempts (node : Node) : Z :=
  if MaxAttempts (node_Retry node) =? 0 then 3 else MaxAttempts (node_Retry node).

(** The run over the nodes in order. *)
Fixpoint run_nodes (d : WorkflowDefinition) (request : ExecutionRequest) (dead : bool) (order : list Node)
    (outputs : gmap string raw) (failures : gmap string wf_error) (partials skipped : gset string) (w : W)
    : W * (ExecutionResult * option wf_error) :=
  match order with
  | [] =>
      (w, (mkResult (if bool_decide (failures = ∅) then RunCompleted else RunCompletedWithErrors) outputs failures, None))
  | node :: order =>
      let id := req_NodePrefix request +:+ node_ID node in
      let stop (w : W) (state : RunState) (failures : gmap string wf_error) (e : wf_error) :=
        (w, (mkResult state outputs failures, Some e)) in
      let descriptor := Resolve (eng_Registry engine) (node_Kind node) (node_KindVersion node) in
      match req_Completed request !! id with
      | Some checkpointed =>
          match descriptor with
          | Some desc =>
              if valid_for node desc checkpointed
              then run_nodes d request dead order (<[node_ID node := checkpointed]> outputs) failures partials skipped w
              else stop w RunFailed failures ErrOutputInvalid
          | None => stop w RunFailed failures ErrOutputInvalid
          end
      | None =>
          match TestingResolveNodeInput d node (req_Input request) outputs partials skipped with
          | inl e =>
              if bool_decide (e = errBranchNotSelected)
              then run_nodes d request dead order outputs failures partials ({[node_ID node]} ∪ skipped) w
              else
                let failures := <[node_ID node := e]> failures in
                if tolerant node then run_nodes d request dead order outputs failures partials skipped w
                else stop w RunFailed failures e
          | inr input =>
              match descriptor with
              | None => stop w RunFailed failures ErrProviderMissing
              | Some desc =>
                  let maxAttempts := max_attempts node in
                  match run_attempts (Z.to_nat maxAttempts) maxAttempts request dead node desc input 1 false w with
                  | (w, Halted state e) => stop w state failures e
                  | (w, GaveUp e) =>
                      let failures := <[node_ID node := e]> failures in
                      let w := (checkpoint (mkEvent id StepFailed maxAttempts input RNil (Some e)) w).1 in
                      if tolerant node then run_nodes d request dead order outputs failures partials skipped w
                      else stop w RunFailed failures e
                  | (w, Succeeded output attempt partial) =>
                      let outputs := <[node_ID node := output]> outputs in
                      let failures :=
                        if partial then <[node_ID node := OtherError "one or more items failed"]> failures else failures in
                      let partials := if partial then {[node_ID node]} ∪ partials else partials in
                      let state := if partial then StepCompletedWithErrors else StepCompleted in
                      match checkpoint (mkEvent id state attempt input output None) w with
                      | (w, Some e) => (w, (mkResult RunFailed outputs failures, Some e))
                      | (w, None) => run_nodes d request dead order outputs failures partials skipped w
                      end
                  end
              end
          end
      end
  end.
End child.

(** [Execute], with fuel for the nesting of child runs. *)
Fixpoint Execute (fuel : nat) (d : WorkflowDefinition) (request : ExecutionRequest) (dead : bool) (w : W)
    : W * (ExecutionResult * option wf_error) :=
  match fuel with
  | O => (w, (mkResult RunFailed ∅ ∅, Some EngineDiverges))
  | S fuel =>
      match Validate marshal_len (Some (eng_Registry engine)) (eng_Resolver engine) d with
      | inl e => (w, (mkResult RunFailed ∅ ∅, Some e))
      | inr _ => run_nodes (Execute fuel) d request dead (topologicalOrder d) ∅ ∅ ∅ ∅ w
      end
  end.
End engine.

(** ** The coordinator's cooldown

    [workflow_runtime_v2_execute_workflow_v2.go] waits a minute between attempts
    and accepts no other delay; [wait] is that minute, cut short when the context
    is cancelled. *)
Definition coordinatorCooldown {W} (wait : W → W * bool) (event : StepEvent) (seconds : Z) (w : W)
    : W * option wf_error :=
  if negb (seconds =? 60) then (w, Some ErrInvalidDefinition)
  else let '(w, cut) := wait w in (w, if cut : bool then Some ContextCanceled else None).

(** [CompletedWorkflowStepOutputs]: the outputs of the steps recorded as complete,
    with or without errors. *)
Definition CompletedWorkflowStepOutputs (steps : gmap string (string * raw)) : gmap string raw :=
  omap (λ s : string * raw,
    if bool_decide (s.1 ∈ ["completed"; "completed_with_errors"]%string) then Some s.2 else None) steps.
