(* ===== verification/WorkflowProps.v ===== *)
(** * Properties of workflows

    What validation guarantees to the engine: an order in which every node runs
    after the nodes it is wired to, providers within the declared capabilities at
    every level of nesting, and a nesting that ends. *)
From S2P Require Import Prelude GoStrings Json Graph Workflow Engine.

(** ** Taking validation apart *)

Lemma andThen_ok a b : andThen a b = inr () ↔ a = inr () ∧ b = inr ().
Proof. destruct a as [e|[]]; simpl; naive_solver. Qed.
Lemma require_ok b e : require_ b e = inr () ↔ b = true.
Proof. unfold require_, ok. by destruct b. Qed.
Lemma each_ok {A} (f : A → res) l : each f l = inr () ↔ ∀ x, x ∈ l → f x = inr ().
Proof.
  induction l as [|x l IH]; simpl; [split; [set_solver|done]|].
  destruct (f x) as [e|[]] eqn:E.
  - split; [done|]. intros H. rewrite (H x) in E by left. done.
  - rewrite IH. split; [intros H y [->|Hy]%elem_of_cons; auto|intros H y Hy; apply H; by right].
Qed.

Section validated.
Context {W : Type} (marshal_len : object → Z) (registry : option (@Registry W)) (dependencies : option Resolver).

(** What one level of [validate] has checked. *)
Record valid_level (levels : nat) (d : WorkflowDefinition) (ancestry : gset string) : Prop := {
  vl_nodes : check_nodes marshal_len registry (capability_map (def_Capabilities d) ∅) [] (def_Nodes d) = inr ();
  vl_kinds : ∀ n, n ∈ def_Nodes d →
    check_kind (λ g, validate marshal_len registry dependencies levels g ancestry)
      (dep_VersionID <$> def_Dependencies d) n = inr ();
  vl_edges : check_edges registry (def_Nodes d) [] (def_Edges d) = inr ();
  vl_acyclic : check_acyclic d = inr ();
  vl_deps : ∀ dep, dep ∈ def_Dependencies d →
    check_dependency dependencies (validate marshal_len registry dependencies levels) ancestry dep = inr () }.

Lemma validate_level levels d ancestry :
  validate marshal_len registry dependencies (S levels) d ancestry = inr () → valid_level levels d ancestry.
Proof.
  cbn [validate]. rewrite !andThen_ok, !each_ok. intros (_ & _ & Hn & Hk & _ & He & Ha & Hd). by split.
Qed.

(** ** Nodes and edges *)

Lemma find_node_some nodes id n : find_node nodes id = Some n → n ∈ nodes ∧ node_ID n = id.
Proof.
  unfold find_node. intros H. destruct (filter _ nodes) as [|x l] eqn:E; [done|]. simpl in H. injection H as ->.
  assert (Hin : n ∈ filter (λ n, node_ID n = id) nodes) by (rewrite E; left).
  apply list_elem_of_filter in Hin. tauto.
Qed.

Lemma find_node_in nodes n : NoDup (node_ID <$> nodes) → n ∈ nodes → find_node nodes (node_ID n) = Some n.
Proof.
  intros Hnd Hin. unfold find_node. rewrite (filter_unique _ _ n); [done| |done|done|].
  - by apply NoDup_fmap_1 in Hnd.
  - intros y Hy He. by apply (NoDup_fmap_inj node_ID nodes).
Qed.

(** What [check_node] has checked. *)
Record valid_node (capabilities : gmap string string) (n : Node) : Prop := {
  vn_retry : node_Retry n = mkRetry 0 0 ∨ node_Retry n = mkRetry 3 60;
  vn_provider : ∀ r, registry = Some r → ∃ desc granted,
    Resolve r (node_Kind n) (node_KindVersion n) = Some desc ∧ capabilities !! d_Capability desc = Some granted ∧
    riskRank (d_Risk desc) <= riskRank granted }.

Lemma check_node_ok capabilities seen n :
  check_node marshal_len registry capabilities seen n = inr () →
  valid_node capabilities n ∧ node_ID n ∉ node_ID <$> seen.
Proof.
  unfold check_node. case_if; [done|]. cbv zeta. case_if; [done|]. case_if; [done|]. intros Hr.
  bool_to_prop. split; [|done]. split.
  - destruct (node_Retry n) as [m c] eqn:Er. simpl in *.
    destruct (Z.eqb_spec m 0), (Z.eqb_spec c 0); simpl in *; bool_to_prop; subst; auto; lia.
  - intros r ->. destruct (Resolve r _ _) as [desc|] eqn:Ed; [|done].
    destruct (capabilities !! d_Capability desc) as [granted|] eqn:Eg; [|done].
    apply require_ok in Hr. bool_to_prop. eauto 10.
Qed.

Lemma check_nodes_ok capabilities nodes : ∀ seen,
  check_nodes marshal_len registry capabilities seen nodes = inr () → NoDup (node_ID <$> seen) →
  NoDup (node_ID <$> (seen ++ nodes)) ∧ ∀ n, n ∈ nodes → valid_node capabilities n.
Proof.
  induction nodes as [|n nodes IH]; intros seen Hc Hnd.
  - rewrite app_nil_r. split; [done|set_solver].
  - cbn [check_nodes] in Hc. destruct (check_node _ _ _ _ _) as [e|[]] eqn:E; [done|].
    apply check_node_ok in E as [Hv Hfresh].
    destruct (IH (seen ++ [n]) Hc) as [H1 H2].
    + rewrite fmap_app. apply NoDup_app. split; [done|]. split; [|apply NoDup_singleton].
      intros x Hx Hxn. apply list_elem_of_singleton in Hxn as ->. done.
    + rewrite <- app_assoc in H1. split; [done|]. intros x [->|Hx]%elem_of_cons; auto.
Qed.

Lemma check_edges_ok nodes edges : ∀ seen,
  check_edges registry nodes seen edges = inr () →
  ∀ e, e ∈ edges → is_Some (find_node nodes (edge_Source e)) ∧ is_Some (find_node nodes (edge_Target e)).
Proof.
  induction edges as [|e edges IH]; intros seen Hc x Hx; [set_solver|].
  cbn [check_edges] in Hc. destruct (check_edge _ _ _ _) as [err|[]] eqn:E; [done|].
  apply elem_of_cons in Hx as [->|Hx]; [|by apply (IH (seen ++ [e]))].
  unfold check_edge in E. destruct (find_node nodes (edge_Source e)), (find_node nodes (edge_Target e)); try done.
Qed.

Lemma valid_graph levels d ancestry :
  valid_level levels d ancestry → well_formed (graph_ids d) (graph_edges d).
Proof.
  intros Hv. split.
  - apply (check_nodes_ok _ _ [] (vl_nodes _ _ _ Hv)). constructor.
  - intros e Hin. apply list_elem_of_fmap in Hin as (x & -> & Hx). simpl.
    destruct (check_edges_ok _ _ _ (vl_edges _ _ _ Hv) x Hx) as [[s Hs] [t Ht]].
    apply find_node_some in Hs as [Hs <-], Ht as [Ht <-].
    split; apply list_elem_of_fmap; eauto.
Qed.
End validated.

(** ** The order of a run *)

(** Position in a list. *)
Fixpoint pos (v : string) (l : list string) : nat :=
  match l with [] => O | x :: l => if decide (x = v) then O else S (pos v l) end.

Lemma pos_before v l1 l2 : v ∈ l1 → (pos v (l1 ++ l2) < length l1)%nat.
Proof.
  induction l1 as [|x l1 IH]; [set_solver|]. intros Hin. simpl. case_decide; [lia|].
  apply elem_of_cons in Hin as [->|Hin]; [done|]. specialize (IH Hin). lia.
Qed.
Lemma pos_here v l1 l2 : v ∉ l1 → pos v (l1 ++ v :: l2) = length l1.
Proof.
  induction l1 as [|x l1 IH]; intros Hn; simpl; [by rewrite decide_True|].
  rewrite decide_False by set_solver. f_equal. apply IH. set_solver.
Qed.

Lemma sort_strings_perm l : sort_strings l ≡ₚ l.
Proof. apply merge_sort_Permutation. Qed.

Lemma ordered_pos edges l s t :
  NoDup l → ordered edges l → (s, t) ∈ edges → t ∈ l → (pos s l < pos t l)%nat.
Proof.
  intros Hnd Hord Hst Ht. apply list_elem_of_split in Ht as (l1 & l2 & ->).
  pose proof (Hord l1 t l2 eq_refl s Hst) as Hs.
  rewrite pos_here; [by apply pos_before|]. apply NoDup_app in Hnd as (_ & Hd & _). intros Ht. apply (Hd t Ht). left.
Qed.

(** An order of all nodes found with one queue gives one with any queue. *)
Lemma kahn_any_queue (q1 q2 : list string → list string) ids edges :
  (∀ l, q1 l ≡ₚ l) → (∀ l, q2 l ≡ₚ l) → well_formed ids edges →
  length (kahn q1 ids edges) = length ids → kahn q2 ids edges ≡ₚ ids.
Proof.
  intros H1 H2 Hwf Hlen. pose proof (kahn_full q1 H1 ids edges Hwf Hlen) as Hperm.
  destruct (kahn_result q1 H1 ids edges Hwf) as (Hnd & _ & Hord & _).
  apply (kahn_acyclic q2 H2 ids edges (λ v, pos v (kahn q1 ids edges)) Hwf).
  intros s t Hst. apply (ordered_pos _ _ _ _ Hnd Hord Hst). rewrite Hperm. by apply (proj2 Hwf (s, t)).
Qed.

Lemma omap_find (nodes : list Node) (l : list string) :
  (∀ id, id ∈ l → ∃ n, find_node nodes id = Some n) → node_ID <$> omap (find_node nodes) l = l.
Proof.
  induction l as [|id l IH]; [done|]. intros H. destruct (H id ltac:(left)) as [n Hn]. simpl. rewrite Hn. simpl.
  apply find_node_some in Hn as [_ Hid]. f_equal; [done|]. apply IH. intros. apply H. by right.
Qed.


(** C15: The cycle check is exact: on a graph whose edges join its own nodes it
    passes if and only if the edges all climb some ranking of the nodes, that is,
    if there is no cycle. *)
Theorem cycle_check_exact d :
  well_formed (graph_ids d) (graph_edges d) →
  (check_acyclic d = inr () ↔ ∃ rank : string → nat, ∀ s t, (s, t) ∈ graph_edges d → (rank s < rank t)%nat).
Proof.
  intros Hwf. unfold check_acyclic. rewrite require_ok, Nat.eqb_eq.
  assert (Hlen : length (def_Nodes d) = length (graph_ids d)) by (unfold graph_ids; by rewrite length_fmap).
  rewrite Hlen. split.
  - intros Hfull. pose proof (kahn_full id (λ l, reflexivity l) _ _ Hwf Hfull) as Hperm.
    destruct (kahn_result id (λ l, reflexivity l) _ _ Hwf) as (Hnd & _ & Hord & _).
    exists (λ v, pos v (kahn id (graph_ids d) (graph_edges d))). intros s t Hst.
    apply (ordered_pos _ _ _ _ Hnd Hord Hst). rewrite Hperm. by apply (proj2 Hwf (s, t)).
  - intros [rank Hrank]. by rewrite (kahn_acyclic id (λ l, reflexivity l) _ _ rank Hwf Hrank).
Qed.

(** ** Nested graphs *)

(** The graphs a run of [d] may start: the pinned workflow of a [call_workflow]
    node, the embedded or pinned graph of a [for_each] node. *)
Definition child_of (dependencies : option Resolver) (d g : WorkflowDefinition) : Prop :=
  ∃ n, n ∈ def_Nodes d ∧
    ((node_Kind n = "call_workflow"%string ∧ ∃ version resolve a b,
       cfg_call (node_Config n) = Some version ∧ dependencies = Some resolve ∧ resolve version = Some (a, b, g)) ∨
     (node_Kind n = "for_each"%string ∧ ∃ f, cfg_forEach (node_Config n) = Some f ∧
       (fe_ChildGraph f = Some g ∨
        fe_ChildGraph f = None ∧ ∃ resolve a b, dependencies = Some resolve ∧ resolve (fe_VersionID f) = Some (a, b, g)))).

(** [d] itself and the graphs below it. *)
Inductive nested (dependencies : option Resolver) : WorkflowDefinition → WorkflowDefinition → Prop :=
  | nested_here d : nested dependencies d d
  | nested_child d g h : child_of dependencies d g → nested dependencies g h → nested dependencies d h.

Section nested.
Context {W : Type} (marshal_len : object → Z) (registry : option (@Registry W)) (dependencies : option Resolver).

Lemma declared_validated levels d ancestry version resolve a b g :
  valid_level marshal_len registry dependencies levels d ancestry →
  version ∈ dep_VersionID <$> def_Dependencies d → dependencies = Some resolve → resolve version = Some (a, b, g) →
  ∃ anc, validate marshal_len registry dependencies levels g anc = inr ().
Proof.
  intros Hv Hin Hdep Hres. apply list_elem_of_fmap in Hin as (dep & -> & Hdin).
  pose proof (vl_deps _ _ _ _ _ _ Hv dep Hdin) as Hc. unfold check_dependency in Hc. rewrite Hdep, Hres in Hc.
  case_if; [done|]. case_if; [|done]. eexists. rewrite Hdep. exact Hc.
Qed.

Lemma child_validated levels d ancestry g :
  valid_level marshal_len registry dependencies levels d ancestry → child_of dependencies d g →
  ∃ anc, validate marshal_len registry dependencies levels g anc = inr ().
Proof.
  intros Hv (n & Hn & [(Hk & version & resolve & a & b & Hc & Hd & Hr)|(Hk & f & Hc & Hf)]);
    pose proof (vl_kinds _ _ _ _ _ _ Hv n Hn) as Hck; unfold check_kind in Hck; rewrite Hk, Hc in Hck; simpl in Hck.
  - apply require_ok in Hck. bool_to_prop. by eapply declared_validated.
  - case_if; [done|]. case_if; [done|]. destruct Hf as [Hf|(Hf & resolve & a & b & Hd & Hr)]; rewrite Hf in *; [eauto|].
    bool_to_prop. simpl in *. destruct (bool_decide (fe_VersionID f = ""%string)) eqn:E; simpl in *; [done|].
    match goal with Hor : _ ∨ _ |- _ => destruct Hor as [Hx|Hx]; bool_to_prop; [done|] end.
    by eapply declared_validated.
Qed.

Lemma capability_map_in l m c granted :
  capability_map l m !! c = Some granted → m !! c = Some granted ∨ mkCapability c granted ∈ l.
Proof.
  revert m. induction l as [|[c' r] l IH]; intros m H; [by left|]. simpl in H.
  destruct (IH _ H) as [Hm|Hm]; [|right; by right].
  apply lookup_insert_Some in Hm as [[<- <-]|[_ Hm]]; [right; left|by left].
Qed.

Lemma nested_validated levels d ancestry g :
  validate marshal_len registry dependencies levels d ancestry = inr () → nested dependencies d g →
  ∃ levels' anc, validate marshal_len registry dependencies (S levels') g anc = inr ().
Proof.
  intros Hv Hn. revert levels ancestry Hv. induction Hn as [d|d g h Hc Hn IH]; intros levels ancestry Hv.
  - destruct levels as [|levels]; [done|]. eauto.
  - destruct levels as [|levels]; [done|]. apply validate_level in Hv.
    destruct (child_validated _ _ _ _ Hv Hc) as [anc Hg]. by eapply IH.
Qed.
End nested.

(** No provider outside its graph's envelope. In a validated workflow every
    node of the graph, and of every graph nested in it at any depth, has a
    registered provider whose capability that graph declares, with a risk no lower
    than the provider's. *)
Theorem capability_envelope {W} marshal_len (registry : @Registry W) dependencies d g n :
  Validate marshal_len (Some registry) dependencies d = inr () → nested dependencies d g → n ∈ def_Nodes g →
  ∃ desc c, Resolve registry (node_Kind n) (node_KindVersion n) = Some desc ∧
    c ∈ def_Capabilities g ∧ cap_Capability c = d_Capability desc ∧ riskRank (d_Risk desc) <= riskRank (cap_Risk c).
Proof.
  intros Hv Hn Hin. apply (nested_validated _ _ _ _ _ _ _ Hv) in Hn as (levels & anc & Hg).
  apply validate_level in Hg. pose proof (check_nodes_ok _ _ _ _ [] (vl_nodes _ _ _ _ _ _ Hg) (NoDup_nil_2)) as [_ Hnodes].
  destruct (Hnodes n Hin) as [_ Hp]. destruct (Hp registry eq_refl) as (desc & granted & Hr & Hc & Hrisk).
  apply capability_map_in in Hc as [Hc|Hc]; [by rewrite lookup_empty in Hc|].
  exists desc, (mkCapability (d_Capability desc) granted). done.
Qed.
