(* ===== verification/EngineProps.v ===== *)
(** * Properties of the workflow engine

    A run ends, its outputs fit their schemas, and a finished run is replayed from
    its checkpoints without touching the world. *)
From S2P Require Import Prelude GoStrings Json Graph Workflow Engine WorkflowProps.

(** ** Errors of validation and of inputs are the engine's own *)

Definition res_finite (r : res) : Prop := r ≠ inl EngineDiverges.

Lemma andThen_finite a b : res_finite a → res_finite b → res_finite (andThen a b).
Proof. destruct a; [done|]. simpl. auto. Qed.
Lemma require_finite b e : e ≠ EngineDiverges → res_finite (require_ b e).
Proof. unfold require_, ok, res_finite. destruct b; congruence. Qed.
Lemma each_finite {A} (f : A → res) l : (∀ x, res_finite (f x)) → res_finite (each f l).
Proof.
  intros Hf. induction l as [|x l IH]; simpl; [done|]. specialize (Hf x). unfold res_finite in *.
  destruct (f x); [congruence|done].
Qed.

Section validation.
Context {W : Type} (marshal_len : object → Z) (registry : option (@Registry W)) (dependencies : option Resolver).

Lemma check_node_finite caps seen n : res_finite (check_node marshal_len registry caps seen n).
Proof.
  unfold check_node. case_if; [done|]. cbv zeta. case_if; [done|]. case_if; [done|].
  destruct registry as [r|]; [|done]. destruct (Resolve r _ _); [|done].
  destruct (_ !! _); [|done]. by apply require_finite.
Qed.
Lemma check_nodes_finite caps nodes : ∀ seen, res_finite (check_nodes marshal_len registry caps seen nodes).
Proof.
  induction nodes as [|n nodes IH]; intros seen; [done|]. cbn [check_nodes].
  pose proof (check_node_finite caps seen n) as H. unfold res_finite in *.
  destruct (check_node _ _ _ _ _); [congruence|apply IH].
Qed.
Lemma check_edges_finite nodes edges : ∀ seen, res_finite (check_edges registry nodes seen edges).
Proof.
  induction edges as [|e edges IH]; intros seen; [done|]. cbn [check_edges].
  assert (H : res_finite (check_edge registry nodes seen e)).
  { unfold check_edge. destruct (find_node _ _); [|done]. destruct (find_node _ _); [|done].
    case_if; [done|]. case_if; [done|]. by apply require_finite. }
  unfold res_finite in *. destruct (check_edge _ _ _ _); [congruence|apply IH].
Qed.
Lemma check_kind_finite child declared n : (∀ g, res_finite (child g)) → res_finite (check_kind child declared n).
Proof.
  intros Hc. unfold check_kind. case_if; [destruct (cfg_call _); [by apply require_finite|done]|].
  case_if; [|done]. destruct (cfg_forEach _) as [f|]; [|done]. case_if; [done|]. case_if; [done|].
  by destruct (fe_ChildGraph f).
Qed.
Lemma check_dependency_finite child anc dep :
  (∀ g a, res_finite (child g a)) → res_finite (check_dependency dependencies child anc dep).
Proof.
  intros Hc. unfold check_dependency. destruct dependencies as [resolve|]; [|done]. case_if; [done|].
  destruct (resolve _) as [[[? ?] ?]|]; [|done]. by case_if.
Qed.
Lemma check_binding_finite nodes n i : res_finite (check_binding registry nodes n i).
Proof.
  destruct i as [name b]. unfold check_binding. case_if; [done|]. cbv zeta. case_if; [done|]. case_if; [done|].
  by apply require_finite.
Qed.

Lemma validate_finite levels : ∀ d anc, res_finite (validate marshal_len registry dependencies levels d anc).
Proof.
  induction levels as [|levels IH]; intros d anc; [done|]. cbn [validate].
  repeat apply andThen_finite; try by apply require_finite.
  - apply each_finite. intros c. by apply require_finite.
  - apply check_nodes_finite.
  - apply each_finite. intros n. by apply check_kind_finite.
  - apply each_finite. intros n. apply each_finite. intros i. apply check_binding_finite.
  - apply check_edges_finite.
  - apply each_finite. intros dep. by apply check_dependency_finite.
Qed.
End validation.

Lemma source_finite d n s p o pa sk e : source_value d n s p o pa sk = inl e → e ≠ EngineDiverges.
Proof.
  unfold source_value. case_if; [intros; by simplify_eq|]. case_if; [intros; by simplify_eq|].
  destruct (o !! s) as [r|]; [|intros; by simplify_eq]. unfold workflowPortValue.
  destruct (unmarshal r); [case_if; [done|]; destruct (workflowPathValue _ _); [done|]|];
    case_if; intros; by simplify_eq.
Qed.

Lemma fill_finite {A} (f : A → wf_error + (string * json)) l value e :
  (∀ x e, f x = inl e → e ≠ EngineDiverges) → fill f l value = inl e → e ≠ EngineDiverges.
Proof.
  intros Hf. revert value. induction l as [|x l IH]; intros value; simpl; [done|].
  destruct (f x) as [e'|[name v]] eqn:E; [intros [= <-]; by eapply Hf|apply IH].
Qed.

Lemma resolve_finite d n input o pa sk e : TestingResolveNodeInput d n input o pa sk = inl e → e ≠ EngineDiverges.
Proof.
  unfold TestingResolveNodeInput. cbv zeta. destruct (fill _ (node_Inputs n) []) as [e'|value] eqn:E.
  - intros [= <-]. eapply fill_finite; [|exact E]. intros [name b] e Hb. simpl in Hb.
    destruct (binding_value _ _ _ _ _ _ b) as [e0|v] eqn:Eb; [|done]. injection Hb as ->.
    unfold binding_value in Eb. case_if; [by eapply source_finite|].
    case_if; [|done]. destruct (unmarshal input) as [root|]; [|by simplify_eq].
    destruct (workflowPathValue _ _); by simplify_eq.
  - destruct (fill _ _ value) as [e'|value'] eqn:E2; [|by destruct value'].
    intros [= <-]. eapply fill_finite; [|exact E2]. intros x e Hb. simpl in Hb.
    destruct (source_value _ _ _ _ _ _ _) as [e0|v] eqn:Es; [|done]. injection Hb as ->. by eapply source_finite.
Qed.

(** ** Runs end *)

Section runs.
Context {W : Type} (marshal_len : object → Z) (errorText : wf_error → string) (sha256_hex : string → string)
  (canceled : W → bool) (schedule : string → nat → list nat) (late : string → nat → bool) (engine : Engine W).

(** The providers and callbacks do not answer with the engine's own marker. *)
Record honest : Prop := {
  hon_health : ∀ k d f w, eng_Registry engine !! k = Some d → d_HealthCheck d = Some f → (f w).2 ≠ Some EngineDiverges;
  hon_execute : ∀ k d f i w, eng_Registry engine !! k = Some d → d_Execute d = Some f →
    (f i w).2 ≠ inl EngineDiverges;
  hon_reconcile : ∀ k d f i w, eng_Registry engine !! k = Some d → d_Reconcile d = Some f →
    (f i w).2 ≠ inl EngineDiverges;
  hon_checkpoint : ∀ f e w, eng_Checkpoint engine = Some f → (f e w).2 ≠ Some EngineDiverges;
  hon_cooldown : ∀ f e s w, eng_Cooldown engine = Some f → (f e s w).2 ≠ Some EngineDiverges }.

Lemma checkpoint_finite e w : honest → (checkpoint engine e w).2 ≠ Some EngineDiverges.
Proof. intros Hh. unfold checkpoint. destruct (eng_Checkpoint engine) eqn:E; [by apply (hon_checkpoint Hh)|done]. Qed.
Lemma cooldown_finite e s w : honest → (cooldown engine e s w).2 ≠ Some EngineDiverges.
Proof. intros Hh. unfold cooldown. destruct (eng_Cooldown engine) eqn:E; [by apply (hon_cooldown Hh)|done]. Qed.

Section child.
Context (rec : WorkflowDefinition → ExecutionRequest → bool → W → W * (ExecutionResult * option wf_error)).
Context (d : WorkflowDefinition) (Hh : honest).
Hypothesis Hrec : ∀ g, child_of (eng_Resolver engine) d g → ∀ r dead w, (rec g r dead w).2.2 ≠ Some EngineDiverges.

Lemma call_finite r dead inv w n :
  n ∈ def_Nodes d → node_Kind n = "call_workflow"%string → inv_Config inv = node_Config n →
  (executeCallWorkflow errorText engine rec r dead inv w).2 ≠ inl EngineDiverges.
Proof.
  intros Hn Hk Hc. unfold executeCallWorkflow. rewrite Hc.
  destruct (cfg_call (node_Config n)) as [version|] eqn:Ec; [|done].
  destruct (eng_Resolver engine) as [resolve|] eqn:Er; [|done]. case_if; [done|].
  destruct (resolve version) as [[[a b] g]|] eqn:Eg; [|done].
  assert (Hg : child_of (eng_Resolver engine) d g).
  { exists n. split; [done|]. left. rewrite Er. eauto 10. }
  rewrite <- Er in Hrec. pose proof (Hrec g) as Hr. rewrite Er in Hg, Hr. specialize (Hr Hg).
  match goal with |- context [rec g ?q dead w] => specialize (Hr q dead w); destruct (rec g q dead w) as [w' [res [e|]]] end;
    simpl in *; [congruence|done].
Qed.

Lemma for_each_finite r dead inv w p e w' :
  executeForEach errorText canceled schedule late engine rec r dead inv w = (w', (p, inl e)) → e ≠ EngineDiverges.
Proof.
  unfold executeForEach. destruct (cfg_forEach _) as [f|]; [|intros; by simplify_eq].
  destruct (childDefinition engine f) as [e1|g] eqn:Ec.
  - intros [= _ _ <-]. unfold childDefinition in Ec. destruct (fe_ChildGraph f); case_if; simplify_eq; try done.
    destruct (eng_Resolver engine) as [resolve|]; [|by simplify_eq]. destruct (resolve _) as [[[? ?] ?]|]; by simplify_eq.
  - unfold workflowItems. destruct (_ ← _; _) as [items|]; [|intros; by simplify_eq]. cbv zeta.
    case_if; [intros; by simplify_eq|]. destruct (run_items _ _ _ _ _ _ _ _ _ _ _ _ _ _) as [w1 results].
    case_if; intros; by simplify_eq.
Qed.

Lemma provider_finite r dead n desc k inv partial w :
  n ∈ def_Nodes d → inv_Config inv = node_Config n → eng_Registry engine !! k = Some desc →
  (run_provider errorText canceled schedule late engine rec r dead n desc inv partial w).2.2 ≠ inl EngineDiverges.
Proof.
  intros Hn Hc Hk. unfold run_provider. case_if.
  - bool_to_prop. pose proof (call_finite r dead inv w n Hn ltac:(done) Hc) as H.
    destruct (executeCallWorkflow _ _ _ _ _ _ _). done.
  - case_if.
    + destruct (executeForEach _ _ _ _ _ _ _ _ _ _) as [w' [p [e|o]]] eqn:E; [|done]. simpl.
      apply for_each_finite in E. congruence.
    + destruct (d_Execute desc) as [f|] eqn:Ef; [|done].
      pose proof (hon_execute Hh k desc f inv w Hk Ef) as H. destruct (f inv w). done.
Qed.

Lemma execute_unless_finite r dead n desc k inv partial o w :
  n ∈ def_Nodes d → inv_Config inv = node_Config n → eng_Registry engine !! k = Some desc →
  (execute_unless errorText canceled schedule late engine rec r dead n desc inv partial o w).2.2
    ≠ AttemptFailed EngineDiverges.
Proof.
  intros Hn Hc Hk. unfold execute_unless. cbv zeta.
  destruct o as [| |v]; [|by destruct (valid_for _ _ _)..].
  pose proof (provider_finite r dead n desc k inv partial w Hn Hc Hk) as H.
  destruct (run_provider _ _ _ _ _ _ _ _ _ _ _ _ _) as [w3 [p [e|o]]]; cbn [snd] in *; [congruence|by destruct (valid_for _ _ _)].
Qed.

Lemma attempt_finite r dead n desc k inv partial w :
  n ∈ def_Nodes d → inv_Config inv = node_Config n → eng_Registry engine !! k = Some desc →
  (attempt_once errorText canceled schedule late engine rec r dead n desc inv partial w).2.2
    ≠ AttemptFailed EngineDiverges.
Proof.
  intros Hn Hc Hk. unfold attempt_once. case_if; [done|].
  destruct (match d_HealthCheck desc with Some f => f w | None => (w, None) end) as [w1 u] eqn:Eh.
  destruct u as [e|].
  { simpl. intros [= ->]. destruct (d_HealthCheck desc) as [f|] eqn:Ef; [|done].
    apply (hon_health Hh k desc f w Hk Ef). by rewrite Eh. }
  destruct (d_Reconcile desc) as [f|] eqn:Ef; [|by apply (execute_unless_finite _ _ _ _ k)].
  case_if; [|by apply (execute_unless_finite _ _ _ _ k)].
  pose proof (hon_reconcile Hh k desc f inv w1 Hk Ef) as H.
  destruct (f inv w1) as [w2 [e|[o [|]]]]; cbn [snd] in *;
    [congruence|by destruct (valid_for _ _ _)|by apply (execute_unless_finite _ _ _ _ k)].
Qed.

Lemma attempts_finite n desc k : n ∈ def_Nodes d → eng_Registry engine !! k = Some desc →
  ∀ tries mx r dead input attempt partial w w' o,
  run_attempts errorText sha256_hex canceled schedule late engine rec tries mx r dead n desc input attempt partial w =
    (w', o) →
  o ≠ GaveUp EngineDiverges ∧ ∀ st, o ≠ Halted st EngineDiverges.
Proof.
  intros Hn Hk. induction tries as [|tries IH]; intros mx r dead input attempt partial w w' o; [by intros [= <- <-]|].
  cbn [run_attempts]. cbv zeta. case_if; [by intros [= <- <-]|].
  match goal with |- context [checkpoint engine ?e w] =>
    pose proof (checkpoint_finite e w Hh) as H1; destruct (checkpoint engine e w) as [w1 [e1|]] end.
  { intros [= <- <-]. split; [done|]. intros st [= _ ->]. done. }
  match goal with |- context [attempt_once _ _ _ _ _ _ r dead n desc ?inv partial w1] =>
    pose proof (attempt_finite r dead n desc k inv partial w1 Hn eq_refl Hk) as H2;
    destruct (attempt_once _ _ _ _ _ _ r dead n desc inv partial w1) as [w2 [p2 [o2|o2|e2]]] end;
    [by intros [= <- <-]|by intros [= <- <-]|]. simpl in H2.
  case_if; [intros [= <- <-]; split; [done|]; intros st [= _ ->]; done|].
  case_if; [|intros [= <- <-]; split; [congruence|done]].
  match goal with |- context [checkpoint engine ?e w2] =>
    pose proof (checkpoint_finite e w2 Hh) as H3; destruct (checkpoint engine e w2) as [w3 [e3|]] end.
  { intros [= <- <-]. split; [done|]. intros st [= _ ->]. done. }
  match goal with |- context [cooldown engine ?e ?s w3] =>
    pose proof (cooldown_finite e s w3 Hh) as H4; destruct (cooldown engine e s w3) as [w4 [e4|]] end.
  { intros [= <- <-]. split; [done|]. intros st [= _ ->]. done. }
  apply IH.
Qed.

Lemma nodes_finite r dead : ∀ order outputs failures partials skipped w,
  (∀ n, n ∈ order → n ∈ def_Nodes d) →
  (run_nodes errorText sha256_hex canceled schedule late engine rec d r dead order outputs failures partials skipped w).2.2
    ≠ Some EngineDiverges.
Proof.
  induction order as [|n order IH]; intros outputs failures partials skipped w Hin; [done|].
  assert (Hn : n ∈ def_Nodes d) by (apply Hin; left).
  assert (Hin' : ∀ n, n ∈ order → n ∈ def_Nodes d) by (intros; apply Hin; by right).
  cbn [run_nodes]. cbv zeta. destruct (req_Completed r !! _) as [cp|].
  { destruct (Resolve _ _ _); [case_if|]; [by apply IH|done|done]. }
  destruct (TestingResolveNodeInput _ _ _ _ _ _) as [e|input] eqn:Ei.
  { apply resolve_finite in Ei. case_if; [by apply IH|]. case_if; [by apply IH|]. simpl. congruence. }
  destruct (Resolve _ _ _) as [desc|] eqn:Ed; [|done].
  destruct (run_attempts _ _ _ _ _ _ _ _ _ _ _ _ _ _ _ _ _) as [w1 o] eqn:Ea.
  apply (attempts_finite n desc _ Hn Ed) in Ea as [Hg Hh'].
  destruct o as [o at' p|e|st e].
  - match goal with |- context [checkpoint engine ?e w1] =>
      pose proof (checkpoint_finite e w1 Hh) as H1; destruct (checkpoint engine e w1) as [w2 [e1|]] end;
      [done|by apply IH].
  - case_if; [by apply IH|]. simpl. congruence.
  - simpl. specialize (Hh' st). congruence.
Qed.
End child.

Lemma order_nodes d n : n ∈ topologicalOrder d → n ∈ def_Nodes d.
Proof. intros (id & _ & Hf)%list_elem_of_omap. by apply find_node_some in Hf as [? _]. Qed.

Lemma execute_finite levels : ∀ d anc, honest →
  validate marshal_len (Some (eng_Registry engine)) (eng_Resolver engine) levels d anc = inr () →
  ∀ fuel r dead w, (levels <= fuel)%nat →
  (Execute marshal_len errorText sha256_hex canceled schedule late engine fuel d r dead w).2.2 ≠ Some EngineDiverges.
Proof.
  induction levels as [|levels IH]; intros d anc Hh Hv fuel r dead w Hf; [done|].
  destruct fuel as [|fuel]; [lia|]. cbn [Execute].
  destruct (Validate _ _ _ d) as [e|[]] eqn:Ev.
  { simpl. intros [= ->]. by apply (validate_finite marshal_len (Some (eng_Registry engine)) (eng_Resolver engine) 17 d ∅). }
  apply nodes_finite; [done| |intros n; apply order_nodes].
  intros g Hg r' dead' w'. apply validate_level in Hv.
  destruct (child_validated _ _ _ _ _ _ _ Hv Hg) as [anc' Hv']. apply (IH g anc'); [done|done|lia].
Qed.
End runs.


(** ** Outputs fit their schemas *)

Section outputs.
Context {W : Type} (errorText : wf_error → string) (sha256_hex : string → string) (canceled : W → bool)
  (schedule : string → nat → list nat) (late : string → nat → bool) (engine : Engine W)
  (rec : WorkflowDefinition → ExecutionRequest → bool → W → W * (ExecutionResult * option wf_error)).

Lemma execute_unless_valid r dead n desc inv partial o w w' p res :
  execute_unless errorText canceled schedule late engine rec r dead n desc inv partial o w = (w', (p, res)) →
  match res with Reconciled x | Executed x => valid_for n desc x = true | AttemptFailed _ => True end.
Proof.
  unfold execute_unless. cbv zeta. destruct o as [| |v].
  - destruct (run_provider _ _ _ _ _ _ _ _ _ _ _ _ _) as [w3 [p3 [e|o]]]; intros [= <- <- <-]; [done|].
    by destruct (valid_for n desc o) eqn:E.
  - intros [= <- <- <-]. by destruct (valid_for n desc RBad) eqn:E.
  - intros [= <- <- <-]. by destruct (valid_for n desc (RJson v)) eqn:E.
Qed.

Lemma attempt_valid r dead n desc inv partial w w' p res :
  attempt_once errorText canceled schedule late engine rec r dead n desc inv partial w = (w', (p, res)) →
  match res with Reconciled x | Executed x => valid_for n desc x = true | AttemptFailed _ => True end.
Proof.
  unfold attempt_once. case_if; [by intros [= <- <- <-]|].
  destruct (match d_HealthCheck desc with Some f => f w | None => (w, None) end) as [w1 [e|]]; [by intros [= <- <- <-]|].
  destruct (d_Reconcile desc) as [f|]; [|apply execute_unless_valid]. case_if; [|apply execute_unless_valid].
  destruct (f inv w1) as [w2 [e|[o [|]]]]; [by intros [= <- <- <-]| |apply execute_unless_valid].
  intros [= <- <- <-]. by destruct (valid_for n desc o) eqn:E.
Qed.

Lemma attempts_valid n desc : ∀ tries mx r dead input attempt partial w w' o a p,
  run_attempts errorText sha256_hex canceled schedule late engine rec tries mx r dead n desc input attempt partial w =
    (w', Succeeded o a p) →
  (0 < tries)%nat → Z.of_nat tries = mx - attempt + 1 → valid_for n desc o = true.
Proof.
  induction tries as [|tries IH]; intros mx r dead input attempt partial w w' o a p; [lia|].
  cbn [run_attempts]. cbv zeta. case_if; [done|].
  destruct (checkpoint engine _ w) as [w1 [e1|]]; [done|].
  destruct (attempt_once _ _ _ _ _ _ _ _ _ _ _ _ _) as [w2 [p2 [o2|o2|e2]]] eqn:Ea; apply attempt_valid in Ea.
  - by intros [= <- <- <- <-].
  - by intros [= <- <- <- <-].
  - case_if; [done|]. case_if; [|done]. destruct (checkpoint engine _ w2) as [w3 [e3|]]; [done|].
    destruct (cooldown engine _ _ w3) as [w4 [e4|]]; [done|].
    intros Hr _ Ht. bool_to_prop. apply (IH _ _ _ _ _ _ _ _ _ _ _ Hr); lia.
Qed.

(** A map whose entries are outputs of nodes that fit both their schemas. *)
Definition outputs_fit (d : WorkflowDefinition) (outputs : gmap string raw) : Prop :=
  ∀ id o, outputs !! id = Some o → ∃ n desc, n ∈ def_Nodes d ∧ node_ID n = id ∧
    Resolve (eng_Registry engine) (node_Kind n) (node_KindVersion n) = Some desc ∧ valid_for n desc o = true.

Lemma outputs_fit_insert d outputs n desc o :
  outputs_fit d outputs → n ∈ def_Nodes d →
  Resolve (eng_Registry engine) (node_Kind n) (node_KindVersion n) = Some desc → valid_for n desc o = true →
  outputs_fit d (<[node_ID n := o]> outputs).
Proof. intros Hf Hn Hd Hv id x [[<- <-]|[_ Hx]]%lookup_insert_Some; [eauto 10|by apply Hf]. Qed.

Definition retries_ok (n : Node) : Prop := node_Retry n = mkRetry 0 0 ∨ node_Retry n = mkRetry 3 60.

Lemma nodes_fit d r dead : ∀ order outputs failures partials skipped w,
  (∀ n, n ∈ order → n ∈ def_Nodes d ∧ retries_ok n) → outputs_fit d outputs →
  outputs_fit d (result_Outputs (run_nodes errorText sha256_hex canceled schedule late engine rec d r dead order outputs
    failures partials skipped w).2.1).
Proof.
  induction order as [|n order IH]; intros outputs failures partials skipped w Hin Hfit; [done|].
  destruct (Hin n ltac:(left)) as [Hn Hr].
  assert (Hin' : ∀ n, n ∈ order → n ∈ def_Nodes d ∧ retries_ok n) by (intros; apply Hin; by right).
  cbn [run_nodes]. cbv zeta. destruct (req_Completed r !! _) as [cp|].
  { destruct (Resolve _ _ _) as [desc|] eqn:Ed; [|done]. destruct (valid_for n desc cp) eqn:Ev; [|done].
    apply IH; [done|]. by eapply outputs_fit_insert. }
  destruct (TestingResolveNodeInput _ _ _ _ _ _) as [e|input].
  { case_if; [by apply IH|]. case_if; [by apply IH|]. done. }
  destruct (Resolve _ _ _) as [desc|] eqn:Ed; [|done].
  destruct (run_attempts _ _ _ _ _ _ _ _ _ _ _ _ _ _ _ _ _) as [w1 o] eqn:Ea.
  destruct o as [o at' p|e|st e]; [|case_if; [by apply IH|done]|done].
  assert (Hv : valid_for n desc o = true).
  { apply attempts_valid in Ea; [done|..]; unfold max_attempts; destruct Hr as [-> | ->]; simpl; lia. }
  assert (Hfit' : outputs_fit d (<[node_ID n := o]> outputs)) by (by eapply outputs_fit_insert).
  destruct (checkpoint engine _ w1) as [w2 [e1|]]; [done|by apply IH].
Qed.
End outputs.

(** C14: A run reports no output that does not fit. Whatever the providers return,
    every output in the result of a run, complete or not, matches the output
    schema of its node and of the node's provider. *)
Theorem outputs_match_schemas {W} marshal_len errorText sha256_hex canceled schedule late (engine : Engine W)
    fuel d request dead w :
  outputs_fit engine d
    (result_Outputs (Execute marshal_len errorText sha256_hex canceled schedule late engine fuel d request dead w).2.1).
Proof.
  assert (Hempty : outputs_fit engine d ∅) by (intros id o H; by rewrite lookup_empty in H).
  destruct fuel as [|fuel]; [done|]. cbn [Execute]. destruct (Validate _ _ _ d) as [e|[]] eqn:Ev; [done|].
  apply nodes_fit; [|done]. intros n Hn. apply order_nodes in Hn. split; [done|].
  apply validate_level in Ev.
  pose proof (check_nodes_ok _ _ _ _ [] (vl_nodes _ _ _ _ _ _ Ev) NoDup_nil_2) as [_ Hnodes]. apply (Hnodes n Hn).
Qed.

(** ** Resuming *)

Lemma nodes_resume {W} errorText sha256_hex canceled schedule late (engine : Engine W) rec d r dead w :
  ∀ order outputs,
  (∀ n, n ∈ order → ∃ desc o, req_Completed r !! (req_NodePrefix r +:+ node_ID n) = Some o ∧
    Resolve (eng_Registry engine) (node_Kind n) (node_KindVersion n) = Some desc ∧ valid_for n desc o = true) →
  ∃ final, run_nodes errorText sha256_hex canceled schedule late engine rec d r dead order outputs ∅ ∅ ∅ w =
    (w, (mkResult RunCompleted final ∅, None)) ∧
    (∀ n, n ∈ order → final !! node_ID n = req_Completed r !! (req_NodePrefix r +:+ node_ID n)) ∧
    (∀ id, id ∉ (node_ID <$> order) → final !! id = outputs !! id).
Proof.
  induction order as [|n order IH]; intros outputs Hall.
  - exists outputs. split; [done|]. split; [set_solver|done].
  - destruct (Hall n ltac:(left)) as (desc & o & Hc & Hd & Hv).
    destruct (IH (<[node_ID n := o]> outputs)) as (final & Hrun & Hin & Hout); [intros; apply Hall; by right|].
    exists final. cbn [run_nodes]. cbv zeta. rewrite Hc, Hd, Hv, Hrun. split; [done|]. split.
    + intros x [->|Hx]%elem_of_cons; [|by apply Hin]. rewrite Hc.
      destruct (decide (node_ID n ∈ node_ID <$> order)) as [Hm|Hm].
      * apply list_elem_of_fmap in Hm as (y & Hy & Hyin). rewrite Hy, (Hin y Hyin), <- Hy. done.
      * rewrite Hout by done. apply lookup_insert_eq.
    + intros id Hid. rewrite fmap_cons in Hid. apply not_elem_of_cons in Hid as [Hne Hid].
      rewrite Hout by done. by rewrite lookup_insert_ne by congruence.
Qed.

(** Resuming a finished run costs nothing: if every node of a validated
    workflow has a checkpointed output that fits, the run touches neither provider
    nor coordinator and returns exactly those outputs. *)
Theorem resume_replays {W} marshal_len errorText sha256_hex canceled schedule late (engine : Engine W)
    fuel d request dead w :
  (0 < fuel)%nat → Validate marshal_len (Some (eng_Registry engine)) (eng_Resolver engine) d = inr () →
  (∀ n, n ∈ def_Nodes d → ∃ desc o, req_Completed request !! (req_NodePrefix request +:+ node_ID n) = Some o ∧
    Resolve (eng_Registry engine) (node_Kind n) (node_KindVersion n) = Some desc ∧ valid_for n desc o = true) →
  ∃ outputs, Execute marshal_len errorText sha256_hex canceled schedule late engine fuel d request dead w =
    (w, (mkResult RunCompleted outputs ∅, None)) ∧
    ∀ n, n ∈ topologicalOrder d → outputs !! node_ID n = req_Completed request !! (req_NodePrefix request +:+ node_ID n).
Proof.
  intros Hf Hv Hall. destruct fuel as [|fuel]; [lia|]. cbn [Execute]. rewrite Hv.
  edestruct (nodes_resume errorText sha256_hex canceled schedule late engine
    (Execute marshal_len errorText sha256_hex canceled schedule late engine fuel) d request dead w
    (topologicalOrder d) ∅) as (final & Hrun & Hin & _); [|exists final; done].
  intros n Hn. apply Hall. by apply order_nodes.
Qed.
