(* ===== verification/EngineCases.v ===== *)
(** * The engine and its surroundings

    Three places where the engine departs from what validation and the
    coordinator expect of it, and concrete workflows for the properties of the
    engine. *)
From S2P Require Import Prelude GoStrings Json Graph Workflow Engine WorkflowProps EngineProps.

(** An omitted retry policy is no retry policy. Validation reads a node
    without one as three attempts a minute apart, but the engine hands the
    coordinator the stored zero seconds, which it refuses: the first failure of
    such a node ends the run as an invalid definition. *)
Theorem default_retry_never_retries {W} errorText sha256_hex canceled schedule late (engine : Engine W) rec wait
    request dead n desc input w w2 p e :
  node_Retry n = mkRetry 0 0 → eng_Cooldown engine = Some (coordinatorCooldown wait) →
  (∀ ev w, (checkpoint engine ev w).2 = None) → is_canceled canceled dead w = false →
  let id := req_NodePrefix request +:+ node_ID n in
  let inv := mkInvocation (req_RunID request) id 1 (idempotencyKey sha256_hex (req_RunID request) id)
               (req_UserID request) (req_SpaceID request) (node_Config n) input in
  attempt_once errorText canceled schedule late engine rec request dead n desc inv false
    (checkpoint engine (mkEvent id StepRunning 1 input RNil None) w).1 = (w2, (p, AttemptFailed e)) →
  e ≠ ErrAwaitingApproval →
  max_attempts n = 3 ∧
  (run_attempts errorText sha256_hex canceled schedule late engine rec (Z.to_nat (max_attempts n)) (max_attempts n)
     request dead n desc input 1 false w).2 = Halted RunFailed ErrInvalidDefinition.
Proof.
  intros Hr Hc Hck Hl id inv Ha He. assert (Hm : max_attempts n = 3) by (unfold max_attempts; by rewrite Hr).
  split; [done|]. rewrite Hm. change (Z.to_nat 3) with 3%nat. cbn [run_attempts]. cbv zeta. rewrite Hl.
  fold id inv. pose proof (Hck (mkEvent id StepRunning 1 input RNil None) w) as H1.
  destruct (checkpoint engine (mkEvent id StepRunning 1 input RNil None) w) as [w1 o1]. simpl in H1, Ha. subst o1.
  rewrite Ha. rewrite bool_decide_eq_false_2 by done. cbn [Z.ltb Z.compare Pos.compare Pos.compare_cont].
  pose proof (Hck (mkEvent id StepCooldown 1 input RNil (Some e)) w2) as H2.
  destruct (checkpoint engine (mkEvent id StepCooldown 1 input RNil (Some e)) w2) as [w3 o3]. simpl in H2. subst o3.
  unfold cooldown. rewrite Hc, Hr. done.
Qed.

(** A small registry: [emit] yields its input, [work] fails on the item 2. *)
Definition log := list string.
Definition demo_provider (kind : string) (exec : raw → wf_error + raw) : NodeDescriptor log :=
  mkDescriptor kind 1 "demo" RiskRead LocationCloud (Some []) (Some []) true false
    (Some (λ w, (w, None))) (Some (λ _ w, w)) (Some (λ i w, (inv_NodeID i :: w, exec (inv_Input i)))) None.
Definition demo_work (input : raw) : wf_error + raw :=
  match input with RJson (JNum (NInt 2)) => inl (OtherError "two") | _ => inr input end.
Definition demo_registry : gmap string (NodeDescriptor log) :=
  {["emit@1"%string := demo_provider "emit" inr; "work@1"%string := demo_provider "work" demo_work;
    "for_each@1"%string := demo_provider "for_each" inr]}.
Definition demo_engine : Engine log := mkEngine demo_registry None None None None.
Definition demo_caps : list CapabilityRequirement := [mkCapability "demo" RiskRead].
Definition demo_node (id kind mode : string) (config : NodeConfig) (inputs : list (string * Binding)) : Node :=
  mkNode id kind 1 config inputs (Some []) (mkRetry 0 0) (mkErrors mode false).
Definition plain : NodeConfig := mkConfig true None None.
Definition demo_execute (fuel : nat) (d : WorkflowDefinition) (input : raw) (completed : gmap string raw) (w : log) :=
  Execute (λ _, 2) (λ _, "error"%string) id (λ _, false) (λ _ n, List.seq 0 n) (λ _ _, false) demo_engine fuel d
    (mkRequest "run" "user" "space" input "" completed) false w.

(** A node bound to another one without an edge between them. *)
Definition bound_workflow : WorkflowDefinition :=
  mkDefinition 2 demo_caps
    [demo_node "a" "emit" "" plain [("input", mkBinding "b" "output" "" None)]%string; demo_node "b" "emit" "" plain []]
    [] [].

(** A binding does not order its nodes. Input bindings name their source node,
    but neither the cycle check nor the order of a run looks at them: a workflow
    whose first node is bound to its second is valid and fails in every run. *)
Theorem binding_is_not_ordered (input : json) (w : log) :
  Validate (λ _, 2) (Some demo_registry) None bound_workflow = inr () ∧
  (demo_execute 17 bound_workflow (RJson input) ∅ w).2 =
    (mkResult RunFailed ∅ {["a"%string := MissingUpstream "b"]}, Some (MissingUpstream "b")).
Proof. split; vm_compute; reflexivity. Qed.

(** A loop whose item 2 fails, and a node behind it that wants a full result. *)
Definition loop_workflow : WorkflowDefinition :=
  mkDefinition 2 demo_caps
    [demo_node "loop" "for_each" ""
       (mkConfig true None (Some (mkForEach "" (Some (mkDefinition 2 demo_caps
          [demo_node "w" "work" "continue" plain []] [] [])) 1 0 false "")))
       [];
     demo_node "use" "emit" "" plain []]
    [mkEdge "e" "loop" "output" "use" "input"] [].
Definition loop_input : raw := RJson (JArr [JNum (NInt 1); JNum (NInt 2)]).

(** A resumed run forgets that an output was partial. The first run stops at
    the node that does not accept a partial result; resumed from the recorded
    steps, in which the loop is complete with errors, the run executes that node
    and reports complete success. *)
Theorem resume_forgets_partial :
  let first := (demo_execute 17 loop_workflow loop_input ∅ []).2 in
  let resumed output :=
    (demo_execute 17 loop_workflow loop_input
      (CompletedWorkflowStepOutputs {["loop"%string := ("completed_with_errors"%string, output)]}) []).2 in
  first.2 = Some (PartialUpstream "loop") ∧
  ∃ output, result_Outputs first.1 !! "loop"%string = Some output ∧
    result_State (resumed output).1 = RunCompleted ∧ result_Errors (resumed output).1 = ∅ ∧
    is_Some (result_Outputs (resumed output).1 !! "use"%string) ∧ (resumed output).2 = None.
Proof.
  cbv zeta. split; [vm_compute; reflexivity|]. eexists. split; [vm_compute; reflexivity|].
  split; [vm_compute; reflexivity|]. split; [vm_compute; reflexivity|].
  split; [eexists; vm_compute; reflexivity|vm_compute; reflexivity].
Qed.

(** ** Witnesses *)

Lemma loop_valid : Validate (λ _, 2) (Some demo_registry) None loop_workflow = inr ().
Proof. vm_compute. reflexivity. Qed.


Lemma loop_well_formed : well_formed (graph_ids loop_workflow) (graph_edges loop_workflow).
Proof. apply (valid_graph (λ _, 2) (Some demo_registry) None 16 loop_workflow ∅), validate_level, loop_valid. Qed.

Lemma cycle_check_exact_witness :
  ∃ rank : string → nat, ∀ s t, (s, t) ∈ graph_edges loop_workflow → (rank s < rank t)%nat.
Proof. apply (cycle_check_exact loop_workflow loop_well_formed). vm_compute. reflexivity. Defined.

Definition loop_child : WorkflowDefinition := mkDefinition 2 demo_caps [demo_node "w" "work" "continue" plain []] [] [].

Lemma capability_envelope_witness :
  ∃ desc c, Resolve demo_registry "work" 1 = Some desc ∧ c ∈ demo_caps ∧ cap_Capability c = d_Capability desc ∧
    riskRank (d_Risk desc) <= riskRank (cap_Risk c).
Proof.
  apply (capability_envelope (λ _, 2) demo_registry None loop_workflow loop_child
    (demo_node "w" "work" "continue" plain [])).
  - vm_compute. reflexivity.
  - apply (nested_child None loop_workflow loop_child loop_child); [|apply nested_here].
    eexists. split; [left|]. right. split; [reflexivity|]. eexists. split; [reflexivity|]. left. reflexivity.
  - left.
Defined.

Lemma demo_registered k d : demo_registry !! k = Some d → ∃ kind exec,
  d = demo_provider kind exec ∧ ∀ r, exec r ≠ inl EngineDiverges.
Proof.
  unfold demo_registry. intros Hk.
  apply lookup_insert_Some in Hk as [[_ <-]|[_ Hk]]; [by eexists _, _|].
  apply lookup_insert_Some in Hk as [[_ <-]|[_ Hk]].
  - eexists _, demo_work. split; [done|]. intros r. unfold demo_work.
    destruct r as [| |[| |[z|]| | |]]; try done. destruct (decide (z = 2)) as [->|]; [done|].
    by destruct z as [|[|[]|]|].
  - apply lookup_singleton_Some in Hk as [_ <-]. by eexists _, _.
Qed.

Lemma demo_honest : honest demo_engine.
Proof.
  split; [intros k d f w Hk|intros k d f i w Hk|intros k d f i w Hk|done|done];
    destruct (demo_registered k d Hk) as (kind & exec & -> & Hex); simpl; intros; simplify_eq; try done. apply Hex.
Qed.


Definition done_request : ExecutionRequest :=
  mkRequest "run" "user" "space" loop_input "" {["loop"%string := RJson JNull; "use"%string := RJson (JBool true)]}.

Lemma resume_replays_witness :
  ∃ outputs, demo_execute 17 loop_workflow loop_input (req_Completed done_request) [] =
    ([], (mkResult RunCompleted outputs ∅, None)).
Proof.
  destruct (resume_replays (λ _, 2) (λ _, "error"%string) id (λ _, false) (λ _ n, List.seq 0 n) (λ _ _, false)
    demo_engine 17 loop_workflow done_request false []) as (outputs & Hrun & _).
  - lia.
  - vm_compute. reflexivity.
  - intros n Hn. apply list_elem_of_In in Hn.
    destruct Hn as [<-|[<-|[]]]; eexists _, _; (split; [vm_compute; reflexivity|]); split; vm_compute; reflexivity.
  - exists outputs. exact Hrun.
Defined.

Definition minute_engine : Engine log :=
  mkEngine demo_registry None None (Some (coordinatorCooldown (λ w, (w, false)))) None.
Definition demo_fail_node : Node := demo_node "w" "work" "" plain [].
Definition two : raw := RJson (JNum (NInt 2)).

Lemma default_retry_never_retries_witness :
  (run_attempts (λ _, "error"%string) id (λ _ : log, false) (λ _ n, List.seq 0 n) (λ _ _, false) minute_engine
     (λ _ _ _ w, (w, (mkResult RunFailed ∅ ∅, None))) 3 3 (mkRequest "run" "user" "space" two "" ∅) false demo_fail_node
     (demo_provider "work" demo_work) two 1 false []).2 = Halted RunFailed ErrInvalidDefinition.
Proof.
  refine (proj2 (default_retry_never_retries (λ _, "error"%string) id (λ _ : log, false) (λ _ n, List.seq 0 n)
    (λ _ _, false) minute_engine (λ _ _ _ w, (w, (mkResult RunFailed ∅ ∅, None))) (λ w, (w, false))
    (mkRequest "run" "user" "space" two "" ∅) false demo_fail_node (demo_provider "work" demo_work) two [] ["w"%string]
    false (OtherError "two") _ _ _ _ _ _)).
  - reflexivity.
  - reflexivity.
  - intros. reflexivity.
  - reflexivity.
  - vm_compute. reflexivity.
  - discriminate.
Defined.
