(* ===== verification/SlidingWindow.v ===== *)
(** * Sliding-window request limiter

    Models [SlidingWindowLimiter] of
    [internal/platform/httpapi/rate_limit_sliding_window_limiter.go]: a per-key
    log of admitted request times, pruned to the current window on every call,
    with a cap on the number of keys it tracks. *)
From S2P Require Import Prelude.

Record SlidingWindowLimiter := mkLimiter {
  limit : Z;
  window : Z;
  history : gmap string (list Z);
  TestingMaxKeys : Z }.

Definition set_history (h : gmap string (list Z)) (l : SlidingWindowLimiter) : SlidingWindowLimiter :=
  mkLimiter (limit l) (window l) h (TestingMaxKeys l).

Definition defaultLimiterMaxKeys : Z := 20000.

Definition NewSlidingWindowLimiter (lim win : Z) : SlidingWindowLimiter :=
  let lim := if lim <=? 0 then 5 else lim in
  let win := if win <=? 0 then Minute else win in
  mkLimiter lim win ∅ defaultLimiterMaxKeys.

(** Timestamps strictly after the cutoff ([ts.After(cutoff)]). *)
Definition live (cutoff : Z) (ts : list Z) : list Z := filter (λ t, cutoff < t) ts.

(** Drops the callers with no activity inside the current window. *)
Definition purgeExpired (cutoff : Z) (h : gmap string (list Z)) : gmap string (list Z) :=
  filter (λ kv, live cutoff kv.2 ≠ []) h.

Definition tracked (h : gmap string (list Z)) : Z := Z.of_nat (size h).

Definition TrackedKeys (l : SlidingWindowLimiter) : Z := tracked (history l).

(** One call: the next state, whether the request is admitted, and the delay to
    announce.  [requests[0]] is read only when [limit <= len requests]; a
    limiter made by the constructor has a positive limit, so the slice is then
    not empty ([Allow_index_in_range]). *)
Definition Allow (l : SlidingWindowLimiter) (key : string) (now : Z)
    : SlidingWindowLimiter * (bool * Z) :=
  let cutoff := now - window l in
  let requests := live cutoff (slot (history l) key) in
  let h :=
    if bool_decide (requests = []) && (TestingMaxKeys l <=? tracked (history l))
    then purgeExpired cutoff (history l) else history l in
  if bool_decide (requests = []) && (TestingMaxKeys l <=? tracked h)
  then (set_history h l, (false, window l))
  else if limit l <=? len requests
  then (set_history (<[key := requests]> h) l,
        (false, Z.max 0 (time_sub (hd 0 requests + window l) now)))
  else (set_history (<[key := requests ++ [now]]> h) l, (true, 0)).

(** ** A log-based specification

    The specification keeps every admitted call and admits a request exactly
    when fewer than [limit] admissions of that key lie in the window. *)

Definition admission := (string * Z)%type.

Definition admitted_at (key : string) (adm : list admission) : list Z :=
  (filter (λ a : admission, a.1 = key) adm).*2.

Definition in_window (win t : Z) (ts : list Z) : list Z :=
  filter (λ u, t - win < u ∧ u <= t) ts.

Definition spec_admits (lim win : Z) (adm : list admission) (key : string) (now : Z) : bool :=
  len (live (now - win) (admitted_at key adm)) <? lim.

Definition record (adm : list admission) (key : string) (now : Z) (ok : bool) : list admission :=
  if ok then adm ++ [(key, now)] else adm.

(** The states a limiter goes through when its callers read a clock that does
    not run backwards, with the calls it admitted on the way. *)
Inductive reachable (lim win : Z) : SlidingWindowLimiter → list admission → Z → Prop :=
| reach_new now : reachable lim win (NewSlidingWindowLimiter lim win) [] now
| reach_call l adm now key now' :
    reachable lim win l adm now → now <= now' →
    reachable lim win (Allow l key now').1 (record adm key now' (Allow l key now').2.1) now'.

(** The table is full of callers active in the window and [key] is not one of
    them. *)
Definition saturated (l : SlidingWindowLimiter) (key : string) (now : Z) : bool :=
  bool_decide (live (now - window l) (slot (history l) key) = [])
  && (TestingMaxKeys l <=? tracked (purgeExpired (now - window l) (history l))).

(** ** Structural lemmas *)

Lemma live_sub c c' ts : c <= c' → live c' (live c ts) = live c' ts.
Proof. intros. apply filter_idemp_sub. intros; lia. Qed.

Lemma live_app c ts us : live c (ts ++ us) = live c ts ++ live c us.
Proof. apply filter_app. Qed.

Lemma live_last c now : c < now → live c [now] = [now].
Proof. intros. unfold live. by rewrite filter_cons_True. Qed.

Lemma live_elem c t ts : t ∈ live c ts ↔ c < t ∧ t ∈ ts.
Proof. unfold live. by rewrite list_elem_of_filter. Qed.

Lemma purge_slot cutoff h key : live cutoff (slot (purgeExpired cutoff h) key) = live cutoff (slot h key).
Proof.
  unfold slot, purgeExpired. rewrite map_lookup_filter.
  destruct (h !! key) as [ts|]; simpl; [|done].
  case_guard as Hg; simpl; [done|].
  destruct (decide (live cutoff ts = [])) as [E|E]; [by rewrite E|]. by destruct Hg.
Qed.

Lemma purge_size cutoff h : (size (purgeExpired cutoff h) <= size h)%nat.
Proof. apply map_size_filter. Qed.

Lemma admitted_at_app key adm a :
  admitted_at key (adm ++ [a]) =
  admitted_at key adm ++ (if decide (a.1 = key) then [a.2] else []).
Proof.
  unfold admitted_at. rewrite filter_app, fmap_app, filter_cons, filter_nil.
  by case_decide.
Qed.

(** The four outcomes of a call, as one case principle: every later proof
    about [Allow] goes through it. *)
Inductive allow_case (l : SlidingWindowLimiter) (key : string) (now : Z)
    : SlidingWindowLimiter * (bool * Z) → Prop :=
| allow_saturated h :
    live (now - window l) (slot (history l) key) = [] →
    (h = purgeExpired (now - window l) (history l)) →
    TestingMaxKeys l <= tracked h →
    allow_case l key now (set_history h l, (false, window l))
| allow_limited h r0 rs :
    live (now - window l) (slot (history l) key) = r0 :: rs →
    h = history l →
    limit l <= len (r0 :: rs) →
    allow_case l key now
      (set_history (<[key := r0 :: rs]> h) l,
       (false, Z.max 0 (time_sub (r0 + window l) now)))
| allow_admitted h requests :
    live (now - window l) (slot (history l) key) = requests →
    (h = history l ∨ h = purgeExpired (now - window l) (history l)) →
    (requests = [] → tracked h < TestingMaxKeys l) →
    (requests ≠ [] → h = history l) →
    len requests < limit l →
    allow_case l key now (set_history (<[key := requests ++ [now]]> h) l, (true, 0)).

Lemma Allow_index_in_range l key now :
  0 < limit l →
  limit l <= len (live (now - window l) (slot (history l) key)) →
  live (now - window l) (slot (history l) key) ≠ [].
Proof. intros ? H E. rewrite E, len_nil in H. lia. Qed.

Lemma Allow_cases l key now : 0 < limit l → allow_case l key now (Allow l key now).
Proof.
  intros Hlim. unfold Allow. cbv zeta.
  destruct (live (now - window l) (slot (history l) key)) as [|r0 rs] eqn:Hreq.
  - rewrite bool_decide_true by done. simpl andb.
    destruct (TestingMaxKeys l <=? tracked (history l)) eqn:Hfull.
    + destruct (TestingMaxKeys l <=? tracked (purgeExpired _ _)) eqn:Hfull'; bool_to_prop.
      * by eapply allow_saturated.
      * rewrite (proj2 (Z.leb_gt _ _)) by (rewrite len_nil; lia).
        eapply allow_admitted; eauto; rewrite ?len_nil; try done; lia.
    + rewrite Hfull. bool_to_prop.
      rewrite (proj2 (Z.leb_gt _ _)) by (rewrite len_nil; lia).
      eapply allow_admitted; eauto; rewrite ?len_nil; try done; lia.
  - rewrite bool_decide_false by done. simpl andb. cbn [hd].
    destruct (limit l <=? len (r0 :: rs)) eqn:Hl; bool_to_prop.
    + by eapply allow_limited.
    + eapply allow_admitted; eauto; done.
Qed.

Lemma Allow_config l key now :
  limit (Allow l key now).1 = limit l ∧ window (Allow l key now).1 = window l ∧
  TestingMaxKeys (Allow l key now).1 = TestingMaxKeys l.
Proof. unfold Allow. cbv zeta. repeat case_if; done. Qed.

(** ** The state invariant *)

(** The limiter's log agrees with the specification's on every instant that can
    still matter, and nothing recorded lies in the future. *)
Record agrees (l : SlidingWindowLimiter) (adm : list admission) (now : Z) : Prop := {
  ag_live : ∀ key t, now <= t →
    live (t - window l) (slot (history l) key) = live (t - window l) (admitted_at key adm);
  ag_past : ∀ key t, t ∈ admitted_at key adm → t <= now }.

Definition sized (l : SlidingWindowLimiter) : Prop :=
  0 < limit l ∧ 0 < window l ∧ TrackedKeys l <= Z.max 0 (TestingMaxKeys l).

Lemma New_sized lim win : sized (NewSlidingWindowLimiter lim win).
Proof.
  unfold sized, NewSlidingWindowLimiter, TrackedKeys, tracked, Minute, Second; simpl.
  rewrite map_size_empty. repeat case_if; bool_to_prop; unfold defaultLimiterMaxKeys; lia.
Qed.

Lemma New_agrees lim win now : agrees (NewSlidingWindowLimiter lim win) [] now.
Proof. split; [done|]. intros key t H. by apply not_elem_of_nil in H. Qed.

Lemma agrees_mono l adm now now' : now <= now' → agrees l adm now → agrees l adm now'.
Proof. intros ? [H1 H2]. split; intros; [apply H1; lia|]. etrans; [by eapply H2|done]. Qed.

Lemma purge_slot_later cutoff c h key :
  cutoff <= c → live c (slot (purgeExpired cutoff h) key) = live c (slot h key).
Proof. intros. by rewrite <- (live_sub cutoff c), purge_slot, live_sub. Qed.

(** Whatever branch is taken, the stored log of every key keeps the live part
    it had, plus the new request when it is admitted. *)
Lemma Allow_slot l key now k c :
  0 < limit l → now - window l <= c →
  live c (slot (history (Allow l key now).1) k) =
  live c (slot (history l) k) ++
    (if (Allow l key now).2.1 then if decide (key = k) then live c [now] else [] else []).
Proof.
  intros Hlim Hc. destruct (Allow_cases l key now Hlim) as
    [h Hr -> _|h r0 rs Hr -> _|h requests Hr Hh _ _ _]; simpl.
  - by rewrite purge_slot_later, app_nil_r.
  - rewrite app_nil_r. destruct (decide (key = k)) as [<-|Hne].
    + by rewrite slot_insert_eq, <- Hr, live_sub.
    + by rewrite slot_insert_ne.
  - assert (Hold : live c (slot h k) = live c (slot (history l) k)).
    { destruct Hh as [->| ->]; [done|]. by apply purge_slot_later. }
    case_decide as Hk; [subst k|].
    + rewrite slot_insert_eq, live_app. by rewrite <- Hr, live_sub.
    + by rewrite slot_insert_ne, Hold, app_nil_r by done.
Qed.

Lemma live_admitted c adm key now ok k :
  live c (admitted_at k (record adm key now ok)) =
  live c (admitted_at k adm) ++ (if ok then if decide (key = k) then live c [now] else [] else []).
Proof.
  destruct ok; simpl; [|by rewrite app_nil_r].
  rewrite admitted_at_app, live_app. simpl. by case_decide.
Qed.

Lemma admitted_past adm key now now0 ok :
  now0 <= now →
  (∀ k t, t ∈ admitted_at k adm → t <= now0) →
  ∀ k t, t ∈ admitted_at k (record adm key now ok) → t <= now.
Proof.
  intros Hle Hp k t. destruct ok; simpl; [|intros Ht; specialize (Hp _ _ Ht); lia].
  rewrite admitted_at_app, elem_of_app. simpl. intros [Ht|Ht]; [specialize (Hp _ _ Ht); lia|].
  case_decide; [apply list_elem_of_singleton in Ht; lia|by apply not_elem_of_nil in Ht].
Qed.

Lemma Allow_agrees l adm now0 key now :
  0 < limit l → now0 <= now → agrees l adm now0 →
  agrees (Allow l key now).1 (record adm key now (Allow l key now).2.1) now.
Proof.
  intros Hlim Hle [Hl Hp]. destruct (Allow_config l key now) as (_ & Hw & _). split.
  - intros k t Ht. rewrite Hw, Allow_slot, live_admitted, Hl by lia. done.
  - by eapply admitted_past.
Qed.

Lemma Allow_sized l key now : sized l → sized (Allow l key now).1.
Proof.
  intros (Hlim & Hwin & Hsz). destruct (Allow_config l key now) as (Hc1 & Hc2 & Hc3).
  unfold sized. rewrite Hc1, Hc2, Hc3. split_and!; [done..|].
  unfold TrackedKeys, tracked in *.
  pose proof (purge_size (now - window l) (history l)) as Hpurge.
  destruct (Allow_cases l key now Hlim) as
    [h Hr -> _|h r0 rs Hr -> _|h requests Hr Hh Hroom Hold _]; simpl; [lia| |].
  - assert (is_Some (history l !! key)) as Hin.
    { unfold slot in Hr. destruct (history l !! key); [eauto|done]. }
    rewrite map_size_insert_Some by done. lia.
  - destruct (decide (requests = [])) as [->|Hne].
    + specialize (Hroom eq_refl). unfold tracked in Hroom.
      assert (size (<[key:=[] ++ [now]]> h) <= S (size h))%nat as Hs.
      { destruct (h !! key) eqn:E;
          [rewrite map_size_insert_Some by eauto|rewrite map_size_insert_None by done]; lia. }
      lia.
    + rewrite (Hold Hne) in *. assert (is_Some (history l !! key)) as Hin.
      { unfold slot in Hr. destruct (history l !! key); [eauto|]. by rewrite <- Hr in Hne. }
      rewrite map_size_insert_Some by done. lia.
Qed.

Lemma Allow_room l key now :
  0 < limit l → (Allow l key now).2.1 = true →
  len (live (now - window l) (slot (history l) key)) < limit l.
Proof.
  intros Hlim. destruct (Allow_cases l key now Hlim) as
    [h Hr -> _|h r0 rs Hr -> _|h requests Hr _ _ _ Hroom]; simpl; try discriminate.
  intros _. by rewrite Hr.
Qed.

Lemma in_window_app win t ts us : in_window win t (ts ++ us) = in_window win t ts ++ in_window win t us.
Proof. apply filter_app. Qed.

Lemma in_window_live win t c ts : c <= t - win → len (in_window win t ts) <= len (live c ts).
Proof. intros. apply len_filter_mono. intros; lia. Qed.

Definition wbounded (l : SlidingWindowLimiter) (adm : list admission) : Prop :=
  ∀ key t, len (in_window (window l) t (admitted_at key adm)) <= limit l.

Lemma Allow_wbounded l adm now0 key now :
  0 < limit l → now0 <= now → agrees l adm now0 → wbounded l adm →
  wbounded (Allow l key now).1 (record adm key now (Allow l key now).2.1).
Proof.
  intros Hlim Hle [Hl _] Hb k t. destruct (Allow_config l key now) as (-> & -> & _).
  destruct (Allow l key now).2.1 eqn:Hok; [|apply Hb].
  apply Allow_room in Hok; [|done]. rewrite Hl in Hok by lia. simpl.
  rewrite admitted_at_app, in_window_app, len_app. simpl.
  case_decide as Hk; [subst k|change (len (in_window (window l) t [])) with 0; specialize (Hb k t); lia].
  unfold in_window at 2. rewrite filter_cons, filter_nil. case_decide as Hin.
  - pose proof (in_window_live (window l) t (now - window l) (admitted_at key adm) ltac:(lia)).
    change (len [now]) with 1. lia.
  - rewrite (len_nil (A:=Z)). specialize (Hb key t). lia.
Qed.

(** Everything the theorems need about a reachable limiter. *)
Record good (lim win : Z) (l : SlidingWindowLimiter) (adm : list admission) (now : Z) : Prop := {
  good_agrees : agrees l adm now;
  good_sized : sized l;
  good_bounded : wbounded l adm;
  good_limit : limit l = limit (NewSlidingWindowLimiter lim win);
  good_window : window l = window (NewSlidingWindowLimiter lim win);
  good_max : TestingMaxKeys l = defaultLimiterMaxKeys }.

Lemma reachable_good lim win l adm now : reachable lim win l adm now → good lim win l adm now.
Proof.
  induction 1 as [now|l adm now key now' _ [Ha Hs Hb H1 H2 H3] Hle].
  - split; [apply New_agrees|apply New_sized| |done..].
    intros key t. pose proof (New_sized lim win) as (? & _).
    change (len (in_window _ t (admitted_at key []))) with 0. lia.
  - destruct (Allow_config l key now') as (E1 & E2 & E3).
    pose proof (proj1 Hs). split; [by eapply Allow_agrees|by apply Allow_sized
      |by eapply Allow_wbounded|congruence..].
Qed.

Lemma Allow_decision l key now :
  0 < limit l →
  (Allow l key now).2.1 =
  (len (live (now - window l) (slot (history l) key)) <? limit l) && negb (saturated l key now).
Proof.
  intros Hlim. unfold saturated. destruct (Allow_cases l key now Hlim) as
    [h Hr -> Hsat|h r0 rs Hr -> Hl|h requests Hr Hh Hroom _ Hl]; simpl; rewrite Hr.
  - rewrite bool_decide_true by done. apply Z.leb_le in Hsat. rewrite Hsat. by rewrite andb_false_r.
  - by rewrite (proj2 (Z.ltb_ge _ _)) by done.
  - rewrite (proj2 (Z.ltb_lt _ _)) by done. simpl. symmetry. apply negb_true_iff.
    destruct (decide (requests = [])) as [E|E]; [|by rewrite bool_decide_false].
    rewrite bool_decide_true by done. simpl. apply Z.leb_gt. specialize (Hroom E).
    pose proof (purge_size (now - window l) (history l)). unfold tracked in *.
    destruct Hh as [->| ->]; lia.
Qed.

Lemma purge_size_lt c h key ts :
  h !! key = Some ts → live c ts = [] → (size (purgeExpired c h) < size h)%nat.
Proof.
  intros Hk Hl. unfold purgeExpired. rewrite <- (map_filter_delete_not _ h key).
  - pose proof (map_size_filter (λ kv : string * list Z, live c kv.2 ≠ []) (delete key h)).
    rewrite map_size_delete_Some in H by eauto.
    assert (size h ≠ 0%nat) by (intros E%map_size_empty_inv; subst; done). lia.
  - intros y Hy. simpl. naive_solver.
Qed.

(** The log of a reachable limiter holds at most [limit] live requests, and a
    live request is recent. *)
Lemma good_live lim win l adm now key now' :
  good lim win l adm now → now <= now' →
  len (live (now' - window l) (slot (history l) key)) <= limit l ∧
  ∀ r, r ∈ live (now' - window l) (slot (history l) key) → now' - window l < r <= now.
Proof.
  intros [[Hl Hp] _ Hb _ _ _] Hle. rewrite Hl by done. split.
  - specialize (Hb key now'). unfold in_window in Hb. etrans; [|exact Hb].
    apply len_filter_mono. intros r Hr ?. apply Hp in Hr. lia.
  - intros r [? Hr]%live_elem. apply Hp in Hr. lia.
Qed.

(** ** Properties *)

(** C39: in every run of a limiter under a clock that does not go backwards, each
    window of the configured length contains at most [limit] admitted requests
    of each key. *)
Theorem window_bound lim win l adm now key t :
  reachable lim win l adm now →
  len (in_window (window l) t (admitted_at key adm)) <= limit (NewSlidingWindowLimiter lim win).
Proof. intros H%reachable_good. rewrite <- (good_limit _ _ _ _ _ H). apply (good_bounded _ _ _ _ _ H). Qed.

(** C40: a reachable limiter decides exactly as the log-based specification,
    except that it refuses a caller with no live request while its table is
    full of live callers. *)
Theorem Allow_refines_spec lim win l adm now key now' :
  reachable lim win l adm now → now <= now' →
  (Allow l key now').2.1 =
  spec_admits (limit l) (window l) adm key now' && negb (saturated l key now').
Proof.
  intros H%reachable_good Hle. rewrite Allow_decision by apply (good_sized _ _ _ _ _ H).
  unfold spec_admits. by rewrite (ag_live _ _ _ (good_agrees _ _ _ _ _ H)).
Qed.

(** the table never tracks more callers than [defaultLimiterMaxKeys], however
    the keys vary. *)
Theorem tracked_bound lim win l adm now :
  reachable lim win l adm now → TrackedKeys l <= defaultLimiterMaxKeys.
Proof.
  intros H%reachable_good. destruct (good_sized _ _ _ _ _ H) as (_ & _ & Hs).
  rewrite (good_max _ _ _ _ _ H) in Hs. unfold defaultLimiterMaxKeys in *. lia.
Qed.

(** the announced delay is exact: a caller refused because of its own
    requests, and who then stays silent, is admitted at the announced instant. *)
Theorem retry_after_admits lim win l adm now key now' :
  reachable lim win l adm now → now <= now' → win <= MaxInt64 →
  (Allow l key now').2.1 = false → saturated l key now' = false →
  (Allow (Allow l key now').1 key (now' + (Allow l key now').2.2)).2.1 = true.
Proof.
  intros H%reachable_good Hle Hmax Hno Hsat.
  destruct (good_live _ _ _ _ _ key now' H Hle) as [Hlen Hrec].
  destruct (good_sized _ _ _ _ _ H) as (Hlim & Hwin & _).
  assert (Hwmax : window l <= MaxInt64).
  { rewrite (good_window _ _ _ _ _ H). simpl. unfold Minute, Second, MaxInt64 in *.
    case_if; lia. }
  pose proof (Allow_sized l key now' (good_sized _ _ _ _ _ H)) as (_ & _ & Hsz).
  destruct (Allow_cases l key now' Hlim) as
    [h Hr -> Hfull|h r0 rs Hr -> Hl|h requests Hr Hh Hroom _ Hl]; simpl in *; [| |done].
  { unfold saturated in Hsat. rewrite Hr, bool_decide_true in Hsat by done.
    simpl in Hsat. bool_to_prop. lia. }
  rewrite Hr in *. destruct (Hrec r0 ltac:(left)) as [Hr1 Hr2].
  replace (now' + _) with (r0 + window l)
    by (unfold time_sub, MaxInt64, MinInt64 in *; lia).
  assert (Hlive : len (live r0 (r0 :: rs)) < limit l).
  { unfold live. rewrite filter_cons_False by lia. rewrite len_cons in *.
    pose proof (len_filter_le (λ t, r0 < t) rs). lia. }
  rewrite Allow_decision by done. simpl. rewrite slot_insert_eq.
  replace (r0 + window l - window l) with r0 by lia.
  rewrite (proj2 (Z.ltb_lt _ _) Hlive). simpl. unfold saturated. simpl.
  rewrite slot_insert_eq. replace (r0 + window l - window l) with r0 by lia.
  case_bool_decide as Hnil; [simpl; apply negb_true_iff, Z.leb_gt|done].
  pose proof (purge_size_lt r0 (<[key:=r0 :: rs]> (history l)) key (r0 :: rs)
    (lookup_insert_eq _ _ _) Hnil) as Hlt.
  unfold TrackedKeys, tracked in *. simpl in *.
  rewrite (good_max _ _ _ _ _ H) in *. unfold defaultLimiterMaxKeys in *. lia.
Qed.

(** ** Witnesses *)

(** One caller, limit 1, window 10: admitted at 5, refused at 9. *)
Definition demo_new : SlidingWindowLimiter := NewSlidingWindowLimiter 1 10.
Definition demo_after : SlidingWindowLimiter := (Allow demo_new "a" 5).1.

Lemma demo_reach : reachable 1 10 demo_after [("a", 5)] 5.
Proof. exact (reach_call 1 10 demo_new [] 0 "a" 5 (reach_new 1 10 0) ltac:(lia)). Qed.

Lemma window_bound_witness :
  reachable 1 10 demo_after [("a", 5)] 5 ∧
  len (in_window (window demo_after) 9 (admitted_at "a" [("a", 5)])) <= 1.
Proof. split; [exact demo_reach|exact (window_bound 1 10 _ _ _ "a" 9 demo_reach)]. Defined.

Lemma Allow_refines_spec_witness :
  (Allow demo_after "a" 9).2.1 = false ∧ spec_admits 1 10 [("a", 5)] "a" 9 = false ∧
  (Allow demo_after "a" 9).2.1 =
  spec_admits 1 10 [("a", 5)] "a" 9 && negb (saturated demo_after "a" 9).
Proof.
  split_and!; [vm_compute; reflexivity..|].
  exact (Allow_refines_spec 1 10 demo_after [("a", 5)] 5 "a" 9 demo_reach ltac:(lia)).
Defined.

Lemma tracked_bound_witness : TrackedKeys demo_after = 1 ∧ TrackedKeys demo_after <= 20000.
Proof. split; [vm_compute; reflexivity|exact (tracked_bound 1 10 _ _ _ demo_reach)]. Defined.

Lemma retry_after_admits_witness :
  (Allow demo_after "a" 9).2 = (false, 6) ∧
  (Allow (Allow demo_after "a" 9).1 "a" (9 + 6)).2.1 = true.
Proof.
  split; [vm_compute; reflexivity|].
  exact (retry_after_admits 1 10 demo_after [("a", 5)] 5 "a" 9 demo_reach ltac:(lia)
    ltac:(unfold MaxInt64; lia) ltac:(vm_compute; reflexivity) ltac:(vm_compute; reflexivity)).
Defined.
