(* ===== verification/AbuseGuard.v ===== *)
(** * Abuse guard

    Models [AbuseGuard] of [internal/platform/httpapi/abuse_guard.go] and the
    table of blocks of [internal/platform/postgres/abuse_blocks.go]: the total
    request ceiling of a caller, the strikes that escalate to a block, and the
    blocks that outlive the process. *)
From S2P Require Import Prelude SlidingWindow.

Record AbusePolicy := mkPolicy {
  TotalLimit : Z; TotalWindow : Z;
  StrikesBeforeBlock : Z; StrikeWindow : Z;
  BaseBlock : Z; MaxBlock : Z }.

Record abuseRecord := mkRecord {
  strikes : Z; firstStrike : Z; blockedUntil : Z; blockLength : Z }.

(** A row of [abuse_blocks] ([db.AbuseBlock]). *)
Record AbuseBlock := mkBlock {
  Key : string; BlockedUntil : Z; BlockSeconds : Z; Reason : string }.

Record AbuseGuard := mkGuard {
  total : SlidingWindowLimiter;
  records : gmap string abuseRecord;
  guardMaxKeys : Z;
  policy : AbusePolicy;
  hasStore : bool }.

Definition set_records (m : gmap string abuseRecord) (g : AbuseGuard) : AbuseGuard :=
  mkGuard (total g) m (guardMaxKeys g) (policy g) (hasStore g).

Definition DefaultAbusePolicy : AbusePolicy :=
  mkPolicy 600 Minute 60 (5 * Minute) Minute (30 * Minute).

Definition NewAbuseGuard (p : AbusePolicy) : AbuseGuard :=
  let p := if TotalLimit p <=? 0 then DefaultAbusePolicy else p in
  mkGuard (NewSlidingWindowLimiter (TotalLimit p) (TotalWindow p)) ∅ defaultLimiterMaxKeys p false.

(** Whether a caller is serving a block, and for how long still. *)
Definition Blocked (g : AbuseGuard) (key : string) (now : Z) : bool * Z :=
  match records g !! key with
  | None => (false, 0)
  | Some record =>
      if now <? blockedUntil record then (true, time_sub (blockedUntil record) now) else (false, 0)
  end.

Definition AllowTotal (g : AbuseGuard) (key : string) (now : Z) : AbuseGuard * (bool * Z) :=
  let '(t, verdict) := Allow (total g) key now in
  (mkGuard t (records g) (guardMaxKeys g) (policy g) (hasStore g), verdict).

(** Drops the records that are neither blocked nor recently active. *)
Definition purgeLocked (p : AbusePolicy) (now : Z) (m : gmap string abuseRecord) : gmap string abuseRecord :=
  filter (λ kv, now < blockedUntil kv.2 ∨ time_sub now (firstStrike kv.2) <= StrikeWindow p) m.

Definition count (m : gmap string abuseRecord) : Z := Z.of_nat (size m).

(** The record of [key], created when absent; [None] when tracking is full even
    after a purge.  The first component is the table the caller continues with. *)
Definition findRecord (g : AbuseGuard) (key : string) (now : Z)
    : gmap string abuseRecord * option abuseRecord :=
  match records g !! key with
  | Some record => (records g, Some record)
  | None =>
      let m := if guardMaxKeys g <=? count (records g)
               then purgeLocked (policy g) now (records g) else records g in
      if guardMaxKeys g <=? count m then (m, None)
      else let record := mkRecord 0 now time_zero 0 in (<[key := record]> m, Some record)
  end.

(** The next block length: doubled, then clamped to the policy's bounds. *)
Definition nextBlockLength (p : AbusePolicy) (length : Z) : Z :=
  let length := wrap64 (length * 2) in
  let length := if length <? BaseBlock p then BaseBlock p else length in
  if MaxBlock p <? length then MaxBlock p else length.

(** The row written for a fresh block, when a store is attached. *)
Definition persistBlock (g : AbuseGuard) (key : string) (record : abuseRecord) : option AbuseBlock :=
  if hasStore g then
    let seconds := Z.quot (blockLength record) Second in
    Some (mkBlock key (blockedUntil record)
            (if seconds <=? 0 then 60 else seconds) "rate_limit_abuse")
  else None.

(** One refusal charged to a caller: the next state and the row to persist. *)
Definition RecordRejection (g : AbuseGuard) (key : string) (now : Z)
    : AbuseGuard * option AbuseBlock :=
  let '(m, found) := findRecord g key now in
  match found with
  | None => (set_records m g, None)
  | Some record =>
      let p := policy g in
      let record :=
        if StrikeWindow p <? time_sub now (firstStrike record)
        then mkRecord 0 now (blockedUntil record) (blockLength record) else record in
      let record :=
        mkRecord (strikes record + 1) (firstStrike record) (blockedUntil record) (blockLength record) in
      if strikes record <? StrikesBeforeBlock p
      then (set_records (<[key := record]> m) g, None)
      else
        let length := nextBlockLength p (blockLength record) in
        let record := mkRecord 0 now (now + length) length in
        (set_records (<[key := record]> m) g, persistBlock g key record)
  end.

(** ** The table of blocks *)

(** [INSERT ... ON CONFLICT DO UPDATE] keeps the later end and the longer
    duration; an empty key or a non-positive duration is refused. *)
Definition SaveAbuseBlock (table : gmap string AbuseBlock) (block : AbuseBlock)
    : option (gmap string AbuseBlock) :=
  if bool_decide (Key block = ""%string) || (BlockSeconds block <=? 0) then None
  else
    Some (match table !! Key block with
          | None => <[Key block := block]> table
          | Some row =>
              <[Key block := mkBlock (Key block)
                  (Z.max (BlockedUntil row) (BlockedUntil block))
                  (Z.max (BlockSeconds row) (BlockSeconds block)) (Reason block)]> table
          end).

(** Prunes the rows that ended more than a day ago and returns the live ones. *)
Definition ActiveAbuseBlocks (table : gmap string AbuseBlock) (now : Z)
    : gmap string AbuseBlock * list AbuseBlock :=
  let table := filter (λ kv, ¬ BlockedUntil kv.2 < now - 24 * Hour) table in
  (table, (map_to_list (filter (λ kv, now < BlockedUntil kv.2) table)).*2).

Definition ClearAbuseBlock (table : gmap string AbuseBlock) (key : string) : gmap string AbuseBlock :=
  delete key table.

(** ** Refreshing from the table *)

Definition refreshOne (maxKeys now : Z) (m : gmap string abuseRecord) (block : AbuseBlock)
    : gmap string abuseRecord :=
  let extend record :=
    let until := if blockedUntil record <? BlockedUntil block then BlockedUntil block
                 else blockedUntil record in
    let stored := wrap64 (BlockSeconds block * Second) in
    let length := if blockLength record <? stored then stored else blockLength record in
    mkRecord (strikes record) (firstStrike record) until length in
  match m !! Key block with
  | Some record => <[Key block := extend record]> m
  | None =>
      if maxKeys <=? count m then m
      else <[Key block := extend (mkRecord 0 now time_zero 0)]> m
  end.

(** [blocks] is [None] when the query failed: the blocks held stay as they are. *)
Definition Refresh (g : AbuseGuard) (blocks : option (list AbuseBlock)) (now : Z) : AbuseGuard :=
  if hasStore g then
    match blocks with
    | None => g
    | Some blocks => set_records (foldl (refreshOne (guardMaxKeys g) now) (records g) blocks) g
    end
  else g.

Definition WithStore (g : AbuseGuard) (blocks : option (list AbuseBlock)) (now : Z) : AbuseGuard :=
  Refresh (mkGuard (total g) (records g) (guardMaxKeys g) (policy g) true) blocks now.

(** ** The middleware *)

Definition retryAfterSeconds (duration : Z) : Z :=
  if duration <=? 0 then 1
  else
    let seconds := Z.quot duration Second in
    let seconds := if Z.rem duration Second =? 0 then seconds else seconds + 1 in
    if seconds <? 1 then 1 else seconds.

(** What a middleware does with a request. *)
Inductive verdict :=
| Next
| TooManyRequests (retryAfter : Z) (message : string).

(** [exempt] is [r.Method == OPTIONS || isAgentRuntimeCallback(r)], [key] the
    client address. *)
Definition GuardMiddleware (g : AbuseGuard) (exempt : bool) (key : string) (now : Z)
    : AbuseGuard * option AbuseBlock * verdict :=
  if exempt then (g, None, Next)
  else
    let '(blocked, retryAfter) := Blocked g key now in
    if blocked then (g, None, TooManyRequests (retryAfterSeconds retryAfter) "temporarily blocked")
    else
      let '(g, (allowed, retryAfter)) := AllowTotal g key now in
      if allowed then (g, None, Next)
      else
        let '(g, row) := RecordRejection g key now in
        (g, row, TooManyRequests (retryAfterSeconds retryAfter) "too many requests").

(** ** Lemmas *)

Definition sane (p : AbusePolicy) : Prop :=
  1 <= StrikesBeforeBlock p ∧ 0 <= StrikeWindow p ∧ 0 < BaseBlock p <= MaxBlock p ∧
  MaxBlock p * 2 <= MaxInt64.

Lemma DefaultAbusePolicy_sane : sane DefaultAbusePolicy.
Proof. unfold sane, MaxInt64. simpl. unfold Minute, Second. lia. Qed.

Lemma nextBlockLength_spec p length :
  sane p → 0 <= length <= MaxBlock p →
  nextBlockLength p length = Z.min (MaxBlock p) (Z.max (BaseBlock p) (2 * length)) ∧
  BaseBlock p <= nextBlockLength p length <= MaxBlock p.
Proof.
  intros (_ & _ & Hb & Hm) Hl. unfold nextBlockLength.
  rewrite wrap64_id by word.
  destruct (length * 2 <? BaseBlock p) eqn:E1; bool_to_prop;
    destruct (MaxBlock p <? _) eqn:E2; bool_to_prop; lia.
Qed.

Lemma findRecord_some g key now r : records g !! key = Some r → findRecord g key now = (records g, Some r).
Proof. intros H. unfold findRecord. by rewrite H. Qed.

Lemma findRecord_fresh g key now :
  records g !! key = None → count (records g) < guardMaxKeys g →
  findRecord g key now =
    (<[key := mkRecord 0 now time_zero 0]> (records g), Some (mkRecord 0 now time_zero 0)).
Proof.
  intros H Hroom. unfold findRecord. rewrite H.
  rewrite (proj2 (Z.leb_gt _ _) Hroom). by rewrite (proj2 (Z.leb_gt _ _) Hroom).
Qed.

(** The purge keeps every record that is blocked after [now]. *)
Lemma purgeLocked_blocked p now m key r :
  now < blockedUntil r → purgeLocked p now m !! key = Some r ↔ m !! key = Some r.
Proof.
  intros Hb. unfold purgeLocked. rewrite map_lookup_filter_Some. simpl. intuition.
Qed.

Lemma findRecord_other g key now k r :
  k ≠ key → now < blockedUntil r →
  (findRecord g key now).1 !! k = Some r ↔ records g !! k = Some r.
Proof.
  intros Hk Hb. unfold findRecord. destruct (records g !! key); [done|].
  assert (Hm : (if guardMaxKeys g <=? count (records g)
                then purgeLocked (policy g) now (records g) else records g) !! k = Some r
               ↔ records g !! k = Some r).
  { case_if; [by apply purgeLocked_blocked|done]. }
  cbv zeta. set (m := if _ <=? _ then _ else _) in *.
  destruct (guardMaxKeys g <=? count m); simpl; [done|]. by rewrite lookup_insert_ne.
Qed.

Lemma RecordRejection_policy g key now :
  policy (RecordRejection g key now).1 = policy g ∧
  hasStore (RecordRejection g key now).1 = hasStore g ∧
  guardMaxKeys (RecordRejection g key now).1 = guardMaxKeys g.
Proof.
  unfold RecordRejection. destruct (findRecord g key now) as [m [r|]]; [|done].
  cbv zeta. case_match; done.
Qed.

Lemma RecordRejection_other g key now k r :
  k ≠ key → now < blockedUntil r →
  records (RecordRejection g key now).1 !! k = Some r ↔ records g !! k = Some r.
Proof.
  intros Hk Hb. rewrite <- (findRecord_other g key now k r Hk Hb). unfold RecordRejection.
  destruct (findRecord g key now) as [m [r'|]]; simpl; [|done].
  cbv zeta. case_match; simpl; by rewrite lookup_insert_ne.
Qed.

Lemma Blocked_true g key now d :
  Blocked g key now = (true, d) ↔
  ∃ r, records g !! key = Some r ∧ now < blockedUntil r ∧ d = time_sub (blockedUntil r) now.
Proof.
  unfold Blocked. destruct (records g !! key) as [r|]; [|naive_solver].
  destruct (now <? blockedUntil r) eqn:E; bool_to_prop; split.
  - intros [= <-]. eauto.
  - intros (? & [= <-] & ? & ->). done.
  - done.
  - intros (? & [= <-] & ? & ->). lia.
Qed.

Lemma Blocked_false g key now :
  (∀ r, records g !! key = Some r → blockedUntil r <= now) → Blocked g key now = (false, 0).
Proof.
  intros H. unfold Blocked. destruct (records g !! key) as [r|]; [|done].
  by rewrite (proj2 (Z.ltb_ge _ _)) by eauto.
Qed.

(** The strikes before a block are counted in one record. *)
Definition rejectAll (g : AbuseGuard) (key : string) (ts : list Z) : AbuseGuard :=
  foldl (λ g t, (RecordRejection g key t).1) g ts.

Lemma RecordRejection_strike g key now r :
  records g !! key = Some r →
  time_sub now (firstStrike r) <= StrikeWindow (policy g) →
  strikes r + 1 < StrikesBeforeBlock (policy g) →
  records (RecordRejection g key now).1 !! key =
    Some (mkRecord (strikes r + 1) (firstStrike r) (blockedUntil r) (blockLength r)).
Proof.
  intros Hr Hw Hs. unfold RecordRejection. rewrite (findRecord_some _ _ _ _ Hr).
  rewrite (proj2 (Z.ltb_ge _ _) Hw). cbv zeta. simpl.
  rewrite (proj2 (Z.ltb_lt _ _) Hs). simpl. by rewrite lookup_insert_eq.
Qed.

Lemma RecordRejection_blocks g key now r :
  records g !! key = Some r →
  time_sub now (firstStrike r) <= StrikeWindow (policy g) →
  StrikesBeforeBlock (policy g) <= strikes r + 1 →
  let L := nextBlockLength (policy g) (blockLength r) in
  records (RecordRejection g key now).1 !! key = Some (mkRecord 0 now (now + L) L).
Proof.
  intros Hr Hw Hs. unfold RecordRejection. rewrite (findRecord_some _ _ _ _ Hr).
  rewrite (proj2 (Z.ltb_ge _ _) Hw). cbv zeta. simpl.
  rewrite (proj2 (Z.ltb_ge _ _) Hs). simpl. by rewrite lookup_insert_eq.
Qed.

Lemma rejectAll_config g key ts :
  policy (rejectAll g key ts) = policy g ∧ guardMaxKeys (rejectAll g key ts) = guardMaxKeys g.
Proof.
  unfold rejectAll. induction ts as [|t ts IH] using rev_ind; [done|].
  rewrite foldl_snoc. simpl. destruct (RecordRejection_policy
    (foldl (λ g t, (RecordRejection g key t).1) g ts) key t) as (-> & _ & ->). done.
Qed.

(** A fresh record behaves from its first strike on as if it had been stored
    with no strike. *)
Lemma RecordRejection_fresh g key now :
  records g !! key = None → count (records g) < guardMaxKeys g →
  (RecordRejection g key now).1 =
  (RecordRejection (set_records (<[key := mkRecord 0 now time_zero 0]> (records g)) g) key now).1.
Proof.
  intros Hn Hroom. unfold RecordRejection. rewrite findRecord_fresh by done.
  rewrite (findRecord_some _ _ _ (mkRecord 0 now time_zero 0)) by apply lookup_insert_eq.
  cbv zeta. simpl. case_match; done.
Qed.

Lemma rejectAll_strikes g key t0 ts n :
  sane (policy g) →
  records g !! key = Some (mkRecord n t0 time_zero 0) →
  Forall (λ t, t0 <= t <= t0 + StrikeWindow (policy g)) ts →
  n + len ts < StrikesBeforeBlock (policy g) → StrikeWindow (policy g) <= MaxInt64 →
  records (rejectAll g key ts) !! key = Some (mkRecord (n + len ts) t0 time_zero 0).
Proof.
  intros Hp Hr Hts Hlen Hmax. unfold rejectAll.
  induction ts as [|t ts IH] using rev_ind; [by rewrite len_nil, Z.add_0_r|].
  rewrite foldl_snoc. apply Forall_app in Hts as [Hts Ht]. rewrite Forall_singleton in Ht.
  rewrite len_app in *. change (len [t]) with 1 in *.
  specialize (IH Hts ltac:(lia)). destruct (rejectAll_config g key ts) as [E1 _].
  unfold rejectAll in E1. erewrite RecordRejection_strike; [|exact IH|..]; simpl; rewrite ?E1.
  - f_equal. f_equal. lia.
  - unfold time_sub, MinInt64, MaxInt64 in *. lia.
  - lia.
Qed.

(** ** Rows and refresh *)

Lemma refreshOne_keeps maxKeys now m block k r :
  m !! k = Some r →
  ∃ r', refreshOne maxKeys now m block !! k = Some r' ∧ blockedUntil r <= blockedUntil r'
        ∧ (k = Key block → BlockedUntil block <= blockedUntil r').
Proof.
  intros Hr. unfold refreshOne. cbv zeta.
  destruct (decide (k = Key block)) as [->|Hk].
  - rewrite Hr, lookup_insert_eq. eexists. split; [done|]. simpl.
    destruct (blockedUntil r <? BlockedUntil block) eqn:E; bool_to_prop; lia.
  - exists r. case_match; [|case_match]; rewrite ?lookup_insert_ne by done; naive_solver lia.
Qed.

Lemma refreshOne_adds maxKeys now m block :
  count m < maxKeys →
  ∃ r, refreshOne maxKeys now m block !! Key block = Some r ∧ BlockedUntil block <= blockedUntil r.
Proof.
  intros Hroom. destruct (m !! Key block) as [r|] eqn:E.
  - destruct (refreshOne_keeps maxKeys now m block _ r E) as (r' & H & _ & H'). eauto.
  - unfold refreshOne. cbv zeta. rewrite E, (proj2 (Z.leb_gt _ _) Hroom), lookup_insert_eq.
    eexists. split; [done|]. simpl.
    destruct (time_zero <? BlockedUntil block) eqn:E'; bool_to_prop; lia.
Qed.

Lemma refreshOne_count maxKeys now m block : count (refreshOne maxKeys now m block) <= count m + 1.
Proof.
  unfold refreshOne, count. cbv zeta. destruct (m !! Key block) eqn:E.
  - rewrite map_size_insert_Some by eauto. lia.
  - case_if; [lia|]. rewrite map_size_insert_None by done. lia.
Qed.

Lemma refresh_keeps maxKeys now blocks m k r :
  m !! k = Some r →
  ∃ r', foldl (refreshOne maxKeys now) m blocks !! k = Some r' ∧ blockedUntil r <= blockedUntil r'.
Proof.
  revert m r. induction blocks as [|b blocks IH]; intros m r Hr; simpl; [by exists r|].
  destruct (refreshOne_keeps maxKeys now m b k r Hr) as (r1 & H1 & Hle & _).
  destruct (IH _ _ H1) as (r' & H' & Hle'). exists r'. split; [done|lia].
Qed.

Lemma refresh_adds maxKeys now blocks m b :
  b ∈ blocks → count m + len blocks <= maxKeys →
  ∃ r, foldl (refreshOne maxKeys now) m blocks !! Key b = Some r ∧ BlockedUntil b <= blockedUntil r.
Proof.
  revert m. induction blocks as [|b' blocks IH]; intros m Hin Hroom; [by apply not_elem_of_nil in Hin|].
  rewrite len_cons in Hroom. pose proof (len_nonneg blocks). simpl.
  apply elem_of_cons in Hin as [->|Hin].
  - destruct (refreshOne_adds maxKeys now m b') as (r & H1 & Hle); [lia|].
    destruct (refresh_keeps maxKeys now blocks _ _ _ H1) as (r' & H' & Hle'). exists r'. split; [done|lia].
  - apply IH; [done|]. pose proof (refreshOne_count maxKeys now m b'). lia.
Qed.

(** Rows are stored under their own key. *)
Definition table_ok (table : gmap string AbuseBlock) : Prop :=
  ∀ k b, table !! k = Some b → Key b = k.

Lemma SaveAbuseBlock_row table block table' :
  SaveAbuseBlock table block = Some table' →
  ∃ row, table' !! Key block = Some row ∧ Key row = Key block ∧ BlockedUntil block <= BlockedUntil row.
Proof.
  unfold SaveAbuseBlock. case_if; [done|]. intros [= <-].
  case_match; rewrite lookup_insert_eq; eexists; split_and!; try done; simpl; lia.
Qed.

(** ** Properties *)

(** The guard that has just seen its first refusal of [key], as the guard that
    already holds an empty record of it. *)
Lemma rejectAll_fresh g key t0 ts :
  records g !! key = None → count (records g) < guardMaxKeys g →
  rejectAll g key (t0 :: ts) =
  rejectAll (set_records (<[key := mkRecord 0 t0 time_zero 0]> (records g)) g) key (t0 :: ts).
Proof. intros. unfold rejectAll. simpl. by rewrite RecordRejection_fresh. Qed.

(** Escalation is exact.  A caller the guard does not know, refused at
    instants within one strike window of the first refusal, is not blocked by
    fewer than [StrikesBeforeBlock] refusals; the refusal that reaches the
    threshold blocks it for exactly [BaseBlock]. *)
Theorem strikes_escalate g key t0 ts t now :
  sane (policy g) → StrikeWindow (policy g) <= MaxInt64 →
  records g !! key = None → count (records g) < guardMaxKeys g →
  Forall (λ u, t0 <= u <= t0 + StrikeWindow (policy g)) (t0 :: ts) →
  t0 <= t <= t0 + StrikeWindow (policy g) → time_zero <= now →
  (len (t0 :: ts) < StrikesBeforeBlock (policy g) →
     Blocked (rejectAll g key (t0 :: ts)) key now = (false, 0)) ∧
  (len (t0 :: ts) + 1 = StrikesBeforeBlock (policy g) →
     t <= now < t + BaseBlock (policy g) →
     Blocked (rejectAll g key ((t0 :: ts) ++ [t])) key now =
       (true, t + BaseBlock (policy g) - now)).
Proof.
  intros Hp Hw Hnone Hroom Hts Ht Hnow.
  set (g1 := set_records (<[key := mkRecord 0 t0 time_zero 0]> (records g)) g).
  assert (Hpre : len (t0 :: ts) < StrikesBeforeBlock (policy g) →
    records (rejectAll g key (t0 :: ts)) !! key =
      Some (mkRecord (0 + len (t0 :: ts)) t0 time_zero 0)).
  { intros Hlen. rewrite rejectAll_fresh by done. fold g1.
    apply rejectAll_strikes; try done. apply lookup_insert_eq. }
  split.
  - intros Hlen. apply Blocked_false. rewrite Hpre by done. intros r [= <-]. done.
  - intros Hlen Hnow'. specialize (Hpre ltac:(lia)).
    unfold rejectAll in *. rewrite foldl_snoc.
    destruct (rejectAll_config g key (t0 :: ts)) as [E1 _]. unfold rejectAll in E1.
    pose proof (nextBlockLength_spec (policy g) 0 Hp) as HL. destruct Hp as (_ & ? & ? & ?).
    destruct HL as [HL _]; [lia|]. rewrite Z.mul_0_r, Z.max_l, Z.min_r in HL by lia.
    apply Blocked_true. erewrite RecordRejection_blocks; [|exact Hpre|..]; rewrite ?E1; simpl.
    + eexists. split; [done|]. simpl. rewrite HL.
      split; [lia|]. unfold time_sub, MinInt64, MaxInt64 in *. lia.
    + unfold time_sub, MinInt64, MaxInt64 in *. lia.
    + lia.
Qed.

(** Reloading the table never shortens or lifts a block that is already in
    force, whatever the table holds and even when the query fails. *)
Theorem refresh_monotone g blocks t key now d :
  Blocked g key now = (true, d) →
  ∃ d', Blocked (Refresh g blocks t) key now = (true, d') ∧ d <= d'.
Proof.
  intros H. unfold Refresh. destruct (hasStore g); [|by exists d]. destruct blocks as [blocks|]; [|by exists d].
  apply Blocked_true in H as (r & Hr & Hlt & ->).
  destruct (refresh_keeps (guardMaxKeys g) t blocks _ _ _ Hr) as (r' & H' & Hle).
  exists (time_sub (blockedUntil r') now). split.
  - apply Blocked_true. exists r'. split_and!; [done|lia|done].
  - unfold time_sub. lia.
Qed.

Lemma active_rows table now b :
  table !! Key b = Some b → now < BlockedUntil b → b ∈ (ActiveAbuseBlocks table now).2.
Proof.
  intros Hb Hlive. unfold ActiveAbuseBlocks. simpl. apply list_elem_of_fmap.
  exists (Key b, b). split; [done|]. apply elem_of_map_to_list.
  rewrite !map_lookup_filter_Some. simpl. split_and!; try done.
  unfold Hour, Minute, Second. lia.
Qed.

Lemma active_count table now : len (ActiveAbuseBlocks table now).2 <= Z.of_nat (size table).
Proof.
  unfold ActiveAbuseBlocks, len. simpl. rewrite length_fmap, length_map_to_list.
  etrans; [apply inj_le, map_size_filter|apply inj_le, map_size_filter].
Qed.

(** a block survives a restart.  When a refusal raises a block, writing its
    row to the table and starting a new guard from that table at any later
    instant still blocks the caller, at least as long as the first guard would. *)
Theorem block_survives_restart g key now row table table' p now' t d :
  key ≠ ""%string →
  (RecordRejection g key now).2 = Some row →
  SaveAbuseBlock table row = Some table' →
  Z.of_nat (size table') <= defaultLimiterMaxKeys →
  now' <= t →
  Blocked (RecordRejection g key now).1 key t = (true, d) →
  ∃ d', Blocked (WithStore (NewAbuseGuard p) (Some (ActiveAbuseBlocks table' now').2) now') key t
        = (true, d') ∧ d <= d'.
Proof.
  intros Hkey Hrow Hsave Hsize Ht Hblk.
  assert (Hk : Key row = key ∧ ∃ r, records (RecordRejection g key now).1 !! key = Some r ∧
    BlockedUntil row = blockedUntil r).
  { unfold RecordRejection in *. destruct (findRecord g key now) as [m [r|]]; [|done].
    cbv zeta in *. destruct (_ <? StrikesBeforeBlock _); [done|]. simpl in *.
    unfold persistBlock in Hrow. destruct (hasStore g); simplify_eq. simpl.
    split; [done|]. rewrite lookup_insert_eq. eauto. }
  destruct Hk as (Hk & r & Hr & Hend). apply Blocked_true in Hblk as (r' & Hr' & Hlt & ->).
  rewrite Hr in Hr'. injection Hr' as <-.
  destruct (SaveAbuseBlock_row _ _ _ Hsave) as (b & Hb & Hbk & Hle).
  rewrite <- Hbk in Hb. pose proof (active_rows table' now' b Hb ltac:(lia)) as Hin.
  pose proof (active_count table' now') as Hcount.
  destruct (refresh_adds defaultLimiterMaxKeys now' (ActiveAbuseBlocks table' now').2 ∅ b Hin)
    as (r2 & Hr2 & Hle2).
  { unfold count. rewrite map_size_empty. lia. }
  exists (time_sub (blockedUntil r2) t). split; [|unfold time_sub; lia].
  apply Blocked_true. exists r2. rewrite Hbk, Hk in Hr2. unfold WithStore, Refresh. simpl.
  split_and!; [exact Hr2|lia|done].
Qed.

(** Refusals charged to one key leave the blocks of every other key alone. *)
Lemma RecordRejection_blocked_other g key now k now' :
  k ≠ key → now <= now' → Blocked (RecordRejection g key now).1 k now' = Blocked g k now'.
Proof.
  intros Hk Hle. destruct (Blocked g k now') as [[|] d] eqn:E.
  - apply Blocked_true in E as (r & Hr & Hlt & ->). apply Blocked_true. exists r.
    rewrite RecordRejection_other by (done || lia). done.
  - assert (d = 0) as ->. { unfold Blocked in E. repeat case_match; naive_solver. }
    apply Blocked_false. intros r Hr. destruct (decide (now' < blockedUntil r)); [|lia].
    rewrite RecordRejection_other in Hr by (done || lia).
    unfold Blocked in E. rewrite Hr in E. rewrite (proj2 (Z.ltb_lt _ _)) in E by done. done.
Qed.

(** ** Witnesses *)

Definition demo_policy : AbusePolicy := mkPolicy 600 Minute 3 100 10 40.
Definition demo_guard : AbuseGuard := WithStore (NewAbuseGuard demo_policy) None 0.

Lemma demo_sane : sane demo_policy.
Proof. unfold sane, MaxInt64. simpl. lia. Qed.

Lemma strikes_escalate_witness :
  Blocked (rejectAll demo_guard "ip" [0; 1]) "ip" 2 = (false, 0) ∧
  Blocked (rejectAll demo_guard "ip" [0; 1; 2]) "ip" 5 = (true, 7).
Proof.
  split.
  - refine (proj1 (strikes_escalate demo_guard "ip" 0 [1] 2 2 demo_sane _ _ _ _ _ _) _);
      first [reflexivity | unfold time_zero, Second, MaxInt64; simpl; lia
            | repeat constructor; simpl; lia].
  - refine (proj2 (strikes_escalate demo_guard "ip" 0 [1] 2 5 demo_sane _ _ _ _ _ _) _ _);
      first [reflexivity | unfold time_zero, Second, MaxInt64; simpl; lia
            | repeat constructor; simpl; lia].
Defined.

Definition demo_blocked : AbuseGuard := rejectAll demo_guard "ip" [0; 1; 2].

Lemma refresh_monotone_witness :
  ∃ d', Blocked (Refresh demo_blocked (Some [mkBlock "ip" 50 20 ""]) 3) "ip" 5 = (true, d') ∧ 7 <= d'.
Proof. apply (refresh_monotone demo_blocked _ 3 "ip" 5 7). vm_compute. reflexivity. Defined.

Lemma block_survives_restart_witness :
  ∃ d', Blocked (WithStore (NewAbuseGuard demo_policy)
    (Some (ActiveAbuseBlocks {["ip" := mkBlock "ip" 12 60 "rate_limit_abuse"]} 4).2) 4) "ip" 5
    = (true, d') ∧ 7 <= d'.
Proof.
  apply (block_survives_restart (rejectAll demo_guard "ip" [0; 1]) "ip" 2
    (mkBlock "ip" 12 60 "rate_limit_abuse") ∅ {["ip" := mkBlock "ip" 12 60 "rate_limit_abuse"]}
    demo_policy 4 5 7); first [discriminate | vm_compute; reflexivity | vm_compute; discriminate | lia].
Defined.
