(* ===== verification/RateLimit.v ===== *)
(** * Per-route rate limits

    Models [APIRateLimiter] of [internal/platform/httpapi]: the route policies
    and middleware of [rate_limit_sliding_window_limiter.go], the limiter table
    and path templates of [rate_limit_limiter_for.go] and the identities of
    [rate_limit_identity.go]. *)
From S2P Require Import Prelude SlidingWindow GoStrings AbuseGuard.

Record RateLimitPolicy := mkRatePolicy { Limit : Z; Window : Z }.

Record APIRateLimiter := mkAPI {
  defaultGET : RateLimitPolicy;
  defaultWrite : RateLimitPolicy;
  TestingRoutePolicies : gmap string RateLimitPolicy;
  TestingLimiters : gmap string SlidingWindowLimiter }.

Definition set_limiters (m : gmap string SlidingWindowLimiter) (l : APIRateLimiter) : APIRateLimiter :=
  mkAPI (defaultGET l) (defaultWrite l) (TestingRoutePolicies l) m.

Definition perMinute (n : Z) : RateLimitPolicy := mkRatePolicy n Minute.

Definition routePolicies : list (string * RateLimitPolicy) := [
  ("POST /mcp", perMinute 6000);
  ("POST /register", perMinute 10);
  ("POST /login", perMinute 20);
  ("POST /waitlist", perMinute 10);
  ("POST /auth/forgot", perMinute 8);
  ("GET /auth/reset/start", perMinute 20);
  ("GET /auth/reset/validate", perMinute 20);
  ("POST /auth/reset", perMinute 10);
  ("POST /auth/handoff", perMinute 20);
  ("GET /auth/handoff/start", perMinute 20);
  ("POST /me/export", mkRatePolicy 3 Hour);
  ("POST /me/deletion", mkRatePolicy 3 Hour);
  ("POST /account/deletion/status", perMinute 20);
  ("POST /billing/trial/start", perMinute 10);
  ("POST /billing/checkout-session", perMinute 10);
  ("POST /billing/credit-checkout-session", perMinute 10);
  ("POST /billing/portal-session", perMinute 20);
  ("POST /stripe/webhook", perMinute 120);
  ("POST /ai/complete", perMinute 12);
  ("POST /ai/media-search/chunks", perMinute 60);
  ("POST /ai/media-search/search", perMinute 60);
  ("POST /spaces/{spaceID}/library/reauthenticate", perMinute 5);
  ("POST /spaces/{spaceID}/notes/{id}/collaboration-ticket", perMinute 30);
  ("POST /spaces/{spaceID}/drawings/{id}/collaboration-ticket", perMinute 30);
  ("POST /spaces/{spaceID}/notes/{id}/assets/uploads", perMinute 20);
  ("POST /spaces/{spaceID}/drawings/{id}/assets/uploads", perMinute 20);
  ("POST /spaces/{spaceID}/notes/{id}/assets/uploads/{id}/finalize", perMinute 30);
  ("POST /spaces/{spaceID}/drawings/{id}/assets/uploads/{id}/finalize", perMinute 30);
  ("POST /spaces/{spaceID}/integrations/discord/link", perMinute 5);
  ("POST /spaces/{spaceID}/integrations/discord/link/{id}/sync", perMinute 10);
  ("POST /spaces/{spaceID}/integrations/discord/link/{id}/publish", perMinute 20);
  ("POST /spaces/{spaceID}/integrations/discord/links", perMinute 5);
  ("POST /spaces/{spaceID}/integrations/discord/links/{id}/sync", perMinute 10);
  ("POST /spaces/{spaceID}/integrations/discord/links/{id}/publish", perMinute 20);
  ("GET /spaces/{spaceID}/integrations/notion/sources", perMinute 10);
  ("GET /spaces/{spaceID}/integrations/notion/search", perMinute 20);
  ("POST /spaces/{spaceID}/integrations/notion/pages", perMinute 20);
  ("POST /spaces/{spaceID}/calendar/sync", perMinute 6);
  ("POST /spaces/{spaceID}/integrations/{provider}/authorize", perMinute 10)]%string.

Definition NewAPIRateLimiter : APIRateLimiter :=
  mkAPI (perMinute 120) (perMinute 30) (list_to_map routePolicies) ∅.

Definition policyFor (l : APIRateLimiter) (method path : string) : RateLimitPolicy :=
  match TestingRoutePolicies l !! (method +:+ " " +:+ path) with
  | Some p => p
  | None => if bool_decide (method = "GET"%string) then defaultGET l else defaultWrite l
  end.

Definition TestingMaxTrackedRoutes : Z := 512.
Definition overflowRouteKey : string := "{overflow}".

(** The limiter for a route: the next table and the key the limiter is stored
    under.  The code returns the limiter by reference, so a later [Allow]
    through it is an update of the table at that key. *)
Definition limiterFor (l : APIRateLimiter) (method path : string) (policy : RateLimitPolicy)
    : APIRateLimiter * string :=
  let create key :=
    (set_limiters (<[key := NewSlidingWindowLimiter (Limit policy) (Window policy)]> (TestingLimiters l)) l, key) in
  let key := method +:+ " " +:+ path in
  match TestingLimiters l !! key with
  | Some _ => (l, key)
  | None =>
      if TestingMaxTrackedRoutes <=? Z.of_nat (size (TestingLimiters l)) then
        let key := method +:+ " " +:+ overflowRouteKey in
        match TestingLimiters l !! key with
        | Some _ => (l, key)
        | None => create key
        end
      else create key
  end.

Definition costBearingRoutes : list string := [
  "/ai/complete"; "/ai/media-search/chunks"; "/ai/media-search/search";
  "/spaces/{spaceID}/calendar/sync";
  "/spaces/{spaceID}/integrations/discord/link";
  "/spaces/{spaceID}/integrations/discord/link/{id}/sync";
  "/spaces/{spaceID}/integrations/discord/link/{id}/publish";
  "/spaces/{spaceID}/integrations/discord/links";
  "/spaces/{spaceID}/integrations/discord/links/{id}/sync";
  "/spaces/{spaceID}/integrations/discord/links/{id}/publish";
  "/spaces/{spaceID}/integrations/notion/sources";
  "/spaces/{spaceID}/integrations/notion/search";
  "/spaces/{spaceID}/integrations/notion/pages";
  "/spaces/{spaceID}/integrations/{provider}/authorize";
  "/spaces/{spaceID}/library/exports/download";
  "/spaces/{spaceID}/library/items/{id}/download";
  "/spaces/{spaceID}/attachments/{id}/download";
  "/spaces/{spaceID}/library/shared/{id}/download";
  "/spaces/{spaceID}/notes/{id}/assets/uploads";
  "/spaces/{spaceID}/drawings/{id}/assets/uploads";
  "/spaces/{spaceID}/notes/{id}/assets/uploads/{id}/finalize";
  "/spaces/{spaceID}/drawings/{id}/assets/uploads/{id}/finalize"]%string.

Definition fixedRatePathSegments : list string := ["collaboration-ticket"%string].

Definition is_hex (a : ascii) : bool :=
  is_digit a || ((97 <=? code a) && (code a <=? 102)) || ((65 <=? code a) && (code a <=? 70)).

Fixpoint all_hex (s : string) : bool :=
  match s with EmptyString => true | String a r => is_hex a && all_hex r end.

(** Whether a path segment is a generated id rather than a route word. *)
Definition looksLikeRatePathIdentifier (segment : string) : bool :=
  if bool_decide (segment ∈ fixedRatePathSegments) then false
  else if strlen segment <? 16 then false
  else if ContainsByte segment "_" || ContainsByte segment "-" then true
  else all_hex segment.

Definition templateSegment (segment : string) : string :=
  if looksLikeRatePathIdentifier segment then "{id}" else segment.

(** The template of a split path; [trimmed] is the path it was split from. *)
Definition templateOf (parts : list string) (trimmed : string) : string :=
  match parts with
  | [p0; _; p2; p3] =>
      if bool_decide (p0 = "spaces" ∧ p2 = "library" ∧ p3 = "reauthenticate")%string
      then "/spaces/{spaceID}/library/reauthenticate"%string
      else if bool_decide (p0 = "spaces"%string)
      then "/"%string +:+ Join (p0 :: "{spaceID}"%string :: map templateSegment [p2; p3]) "/"
      else trimmed
  | p0 :: _ :: rest =>
      if bool_decide (p0 = "spaces"%string) then
        let rest :=
          match rest with
          | [p2; p3; p4] =>
              if bool_decide (p2 = "integrations" ∧ p4 = "authorize")%string
              then [p2; "{provider}"%string; p4] else rest
          | _ => rest
          end in
        "/"%string +:+ Join (p0 :: "{spaceID}"%string :: map templateSegment rest) "/"
      else trimmed
  | _ => trimmed
  end.

(** Drops one leading [/api] or [/v1]; [None] when nothing else is left. *)
Definition stripPrefixes (trimmed : string) : option string :=
  if bool_decide (trimmed = "/api"%string) then None
  else if HasPrefix trimmed "/api/" then Some (string_drop 4 trimmed)
  else if bool_decide (trimmed = "/v1"%string) then None
  else if HasPrefix trimmed "/v1/" then Some (string_drop 3 trimmed)
  else Some trimmed.

Definition TestingNormalizeRateLimitPath (path : string) : string :=
  let trimmed := TrimSpace path in
  if bool_decide (trimmed = ""%string) then "/"%string
  else
    match stripPrefixes trimmed with
    | None => "/"%string
    | Some trimmed => templateOf (Split (Trim1 trimmed "/") "/") trimmed
    end.

(** What the limiter reads of a request: its method and path, the address
    [TestingClientIPFromRequest] resolves, and the credential
    [requestCredential] finds, empty when there is none. *)
Record Request := mkRequest {
  Method : string; Path : string; clientIP : string; credential : string }.

Definition isAgentRuntimeCallback (r : Request) : bool :=
  bool_decide (Method r = "POST"%string) && HasPrefix (Path r) "/internal/agent-runtime/runs/".

Section identity.
(** [hex.EncodeToString(sha256.Sum256(_))]. *)
Variable sha256hex : string → string.

Definition TestingRateLimitIdentity (r : Request) : string :=
  if bool_decide (credential r = ""%string) then "ip:" +:+ clientIP r
  else "acct:" +:+ String.substring 0 24 (sha256hex (credential r)).

(** The key a request is charged to. *)
Definition chargeKey (r : Request) (path : string) : string :=
  if bool_decide (path ∈ costBearingRoutes) then TestingRateLimitIdentity r else clientIP r.

(** One request through the limiter: the next limiter, the next abuse guard
    with the row it persists, and the outcome. *)
Definition Middleware (l : APIRateLimiter) (guard : option AbuseGuard) (r : Request) (now : Z)
    : APIRateLimiter * option AbuseGuard * option AbuseBlock * verdict :=
  if bool_decide (Method r = "OPTIONS"%string) || isAgentRuntimeCallback r
  then (l, guard, None, Next)
  else
    let path := TestingNormalizeRateLimitPath (Path r) in
    let '(l, slot) := limiterFor l (Method r) path (policyFor l (Method r) path) in
    let key := chargeKey r path in
    match TestingLimiters l !! slot with
    | None => (l, guard, None, Next)
    | Some limiter =>
        let '(limiter, (allowed, retryAfter)) := Allow limiter key now in
        let l := set_limiters (<[slot := limiter]> (TestingLimiters l)) l in
        if allowed then (l, guard, None, Next)
        else
          let rejection := TooManyRequests (retryAfterSeconds retryAfter) "too many requests" in
          match guard with
          | None => (l, None, None, rejection)
          | Some g =>
              let '(g, row) := RecordRejection g key now in (l, Some g, row, rejection)
          end
    end.
End identity.

Definition TestingIdentityIsAccount (key : string) : bool := HasPrefix key "acct:".

Example normalize1 :
  TestingNormalizeRateLimitPath "/api/spaces/s1/notes/msg_0123456789abcdef/collaboration-ticket"
  = "/spaces/{spaceID}/notes/{id}/collaboration-ticket"%string.
Proof. vm_compute. reflexivity. Qed.
Example normalize2 :
  TestingNormalizeRateLimitPath " /v1/spaces/s1/integrations/discord/authorize/ "
  = "/spaces/{spaceID}/integrations/{provider}/authorize"%string.
Proof. vm_compute. reflexivity. Qed.
Example normalize3 : TestingNormalizeRateLimitPath "/v1" = "/"%string.
Proof. vm_compute. reflexivity. Qed.

(** ** Runs of the middleware

    The requests a limiter has served, oldest first, with the admissions logged
    per table slot. *)

Definition slotOf (method path : string) : string := method +:+ " " +:+ path.
Definition overflowSlot (method : string) : string := slotOf method overflowRouteKey.

(** An HTTP method is a token: it holds no space. *)
Definition token (m : string) : Prop := ContainsByte m " " = false.

Section runs.
Variable sha256hex : string → string.
Implicit Types (l : APIRateLimiter) (g : option AbuseGuard).

(** The table slot a request is charged in, [None] when it is exempt. *)
Definition chargedSlot l (r : Request) : option string :=
  if bool_decide (Method r = "OPTIONS"%string) || isAgentRuntimeCallback r then None
  else
    let path := TestingNormalizeRateLimitPath (Path r) in
    Some (limiterFor l (Method r) path (policyFor l (Method r) path)).2.

Definition logged l g r now (log : list (string * admission)) : list (string * admission) :=
  match chargedSlot l r, (Middleware sha256hex l g r now).2 with
  | Some slot, Next =>
      log ++ [(slot, (chargeKey sha256hex r (TestingNormalizeRateLimitPath (Path r)), now))]
  | _, _ => log
  end.

Inductive served : APIRateLimiter → option AbuseGuard → list Request → list (string * admission) → Z → Prop :=
| served_new g now : served NewAPIRateLimiter g [] [] now
| served_request l g rs log now r now' l' g' row v :
    served l g rs log now → now <= now' → token (Method r) →
    Middleware sha256hex l g r now' = (l', g', row, v) →
    served l' g' (rs ++ [r]) (logged l g r now' log) now'.

Definition slot_log (slot : string) (log : list (string * admission)) : list admission :=
  (filter (λ e : string * admission, e.1 = slot) log).*2.
End runs.

(** ** Lemmas *)

Lemma slotOf_inj m m' p p' : token m → token m' → slotOf m p = slotOf m' p' → m = m' ∧ p = p'.
Proof.
  unfold token, slotOf. revert m'. induction m as [|a m IH]; intros m' Hm Hm' H;
    destruct m' as [|a' m']; simpl in *; simplify_eq; auto; bool_to_prop; simplify_eq.
  destruct (IH m') as [-> ->]; auto.
Qed.

Inductive limiter_case (l : APIRateLimiter) (m p : string) (pol : RateLimitPolicy)
    : APIRateLimiter * string → Prop :=
| lc_known : is_Some (TestingLimiters l !! slotOf m p) → limiter_case l m p pol (l, slotOf m p)
| lc_overflow :
    TestingLimiters l !! slotOf m p = None →
    is_Some (TestingLimiters l !! overflowSlot m) →
    TestingMaxTrackedRoutes <= Z.of_nat (size (TestingLimiters l)) →
    limiter_case l m p pol (l, overflowSlot m)
| lc_create slot :
    TestingLimiters l !! slot = None →
    (slot = slotOf m p ∧ Z.of_nat (size (TestingLimiters l)) < TestingMaxTrackedRoutes
     ∨ slot = overflowSlot m) →
    limiter_case l m p pol
      (set_limiters (<[slot := NewSlidingWindowLimiter (Limit pol) (Window pol)]> (TestingLimiters l)) l, slot).

Lemma limiterFor_cases l m p pol : limiter_case l m p pol (limiterFor l m p pol).
Proof.
  unfold limiterFor. cbv zeta. fold (slotOf m p).
  change (m +:+ " " +:+ overflowRouteKey) with (overflowSlot m).
  destruct (TestingLimiters l !! slotOf m p) eqn:E1; [by apply lc_known; rewrite E1|].
  destruct (TestingMaxTrackedRoutes <=? _) eqn:E2; bool_to_prop.
  - destruct (TestingLimiters l !! overflowSlot m) eqn:E3.
    + apply lc_overflow; [done|by rewrite E3|done].
    + apply lc_create; auto.
  - apply lc_create; auto.
Qed.

Lemma limiterFor_present l m p pol :
  is_Some (TestingLimiters (limiterFor l m p pol).1 !! (limiterFor l m p pol).2).
Proof.
  destruct (limiterFor_cases l m p pol); simpl; auto. rewrite lookup_insert_eq. eauto.
Qed.

Lemma policyFor_limiters l m p lim : policyFor (set_limiters lim l) m p = policyFor l m p.
Proof. done. Qed.

Lemma limiterFor_policy l m p pol m' p' :
  policyFor (limiterFor l m p pol).1 m' p' = policyFor l m' p'.
Proof. by destruct (limiterFor_cases l m p pol). Qed.

(** The outcome of a request, with the limiter it is charged to. *)
Lemma Middleware_spec sha l g r now :
  let path := TestingNormalizeRateLimitPath (Path r) in
  match chargedSlot l r with
  | None => Middleware sha l g r now = (l, g, None, Next)
  | Some slot =>
      ∃ l1 lim,
        limiterFor l (Method r) path (policyFor l (Method r) path) = (l1, slot) ∧
        TestingLimiters l1 !! slot = Some lim ∧
        (Middleware sha l g r now).1.1.1 =
          set_limiters (<[slot := (Allow lim (chargeKey sha r path) now).1]> (TestingLimiters l1)) l1 ∧
        ((Middleware sha l g r now).2 = Next ↔ (Allow lim (chargeKey sha r path) now).2.1 = true)
  end.
Proof.
  cbv zeta. unfold chargedSlot, Middleware. case_if; [done|].
  set (path := TestingNormalizeRateLimitPath (Path r)).
  pose proof (limiterFor_present l (Method r) path (policyFor l (Method r) path)) as [lim Hlim].
  destruct (limiterFor l (Method r) path (policyFor l (Method r) path)) as [l1 slot] eqn:El.
  simpl in *. exists l1, lim. rewrite Hlim.
  destruct (Allow lim (chargeKey sha r path) now) as [lim' [[|] d]] eqn:EA; simpl; [done|].
  destruct g as [g|]; [|done]. destruct (RecordRejection g _ now) as [g' row]. done.
Qed.

(** ** Invariants of a run *)

(** Every stored limiter was made for the policy of a route it serves and has
    been through exactly the admissions logged for its slot. *)
Definition limiter_ok (l : APIRateLimiter) (slot : string) (lim : SlidingWindowLimiter)
    (log : list (string * admission)) (now : Z) : Prop :=
  ∃ m p now0,
    token m ∧ (slot = slotOf m p ∨ slot = overflowSlot m) ∧ now0 <= now ∧
    reachable (Limit (policyFor l m p)) (Window (policyFor l m p)) lim (slot_log slot log) now0.

Record run_inv (l : APIRateLimiter) (rs : list Request) (log : list (string * admission)) (now : Z) : Prop := {
  ri_policies : ∀ m p, policyFor l m p = policyFor NewAPIRateLimiter m p;
  ri_limiters : ∀ slot lim, TestingLimiters l !! slot = Some lim → limiter_ok l slot lim log now;
  ri_absent : ∀ slot, TestingLimiters l !! slot = None → slot_log slot log = [];
  ri_size : ∃ N : gset string,
    (size N <= 512)%nat ∧ N ⊆ dom (TestingLimiters l) ∧
    dom (TestingLimiters l) ⊆ N ∪ list_to_set (overflowSlot <$> (Method <$> rs)) }.

Lemma slot_log_app slot log e :
  slot_log slot (log ++ [e]) = slot_log slot log ++ (if decide (e.1 = slot) then [e.2] else []).
Proof.
  unfold slot_log. rewrite filter_app, fmap_app, filter_cons, filter_nil. by case_decide.
Qed.

Lemma limiter_ok_later l slot lim log now now' :
  now <= now' → limiter_ok l slot lim log now → limiter_ok l slot lim log now'.
Proof. intros ? (m & p & n0 & ? & ? & ? & ?). exists m, p, n0. split_and!; [done..|lia|done]. Qed.

Lemma run_inv_later l rs rs' log now now' :
  now <= now' → run_inv l rs log now → run_inv l (rs ++ rs') log now'.
Proof.
  intros Hle [H1 H2 H3 (N & HN1 & HN2 & HN3)]. split; [done| |done|].
  - intros slot lim Hs. eapply limiter_ok_later; eauto.
  - exists N. split_and!; [done..|]. rewrite !fmap_app, list_to_set_app. clear -HN3.
    revert HN3. generalize (list_to_set (C := gset string) (overflowSlot <$> (Method <$> rs))). set_solver.
Qed.

Lemma cover_own (D N A : gset string) s :
  N ⊆ D → D ⊆ N ∪ A → {[s]} ∪ N ⊆ {[s]} ∪ D ∧ {[s]} ∪ D ⊆ ({[s]} ∪ N) ∪ A.
Proof. set_solver. Qed.
Lemma cover_overflow (D N A : gset string) s :
  N ⊆ D → D ⊆ N ∪ A → s ∈ A → N ⊆ {[s]} ∪ D ∧ {[s]} ∪ D ⊆ N ∪ A.
Proof. set_solver. Qed.

Lemma limiterFor_inv l rs log now r p l1 slot :
  token (Method r) → run_inv l rs log now →
  limiterFor l (Method r) p (policyFor l (Method r) p) = (l1, slot) →
  run_inv l1 (rs ++ [r]) log now.
Proof.
  intros Htok Hinv E. pose proof (limiterFor_cases l (Method r) p (policyFor l (Method r) p)) as Hc.
  rewrite E in Hc. inversion Hc as [?|?|slot' Hnone Hslot]; subst; [by eapply run_inv_later..|].
  destruct (run_inv_later l rs [r] log now now ltac:(lia) Hinv) as [H1 H2 H3 (N & HN1 & HN2 & HN3)].
  split; [done|..]; simpl.
  - intros k lim Hk. destruct (decide (k = slot)) as [->|Hne].
    + rewrite lookup_insert_eq in Hk. injection Hk as <-.
      exists (Method r), p, now. rewrite H3 by done.
      split_and!; [done|naive_solver|lia|]. apply reach_new.
    + rewrite lookup_insert_ne in Hk by done. by apply H2.
  - intros k Hk. apply lookup_insert_None in Hk as [Hk _]. auto.
  - rewrite dom_insert_L. destruct Hslot as [[-> Hsz]| ->].
    + exists ({[slotOf (Method r) p]} ∪ N). split; [|by apply cover_own].
      assert (size N <= size (TestingLimiters l))%nat.
      { rewrite <- size_dom. by apply subseteq_size. }
      pose proof (size_union_alt {[slotOf (Method r) p]} N).
      pose proof (subseteq_size (N ∖ {[slotOf (Method r) p]}) N ltac:(set_solver)).
      rewrite size_singleton in *. unfold TestingMaxTrackedRoutes in Hsz. lia.
    + exists N. split; [done|]. apply cover_overflow; [done..|].
      apply elem_of_list_to_set, list_elem_of_fmap. exists (Method r). split; [done|].
      rewrite fmap_app. apply elem_of_app. right. by left.
Qed.

Lemma Allow_inv l rs log now slot lim key now' :
  run_inv l rs log now → now <= now' → TestingLimiters l !! slot = Some lim →
  run_inv (set_limiters (<[slot := (Allow lim key now').1]> (TestingLimiters l)) l) rs
    (if (Allow lim key now').2.1 then log ++ [(slot, (key, now'))] else log) now'.
Proof.
  intros [H1 H2 H3 H4] Hle Hs. split; [done|..]; simpl.
  - intros k lim' Hk. destruct (decide (k = slot)) as [->|Hne].
    + rewrite lookup_insert_eq in Hk. injection Hk as <-.
      destruct (H2 slot lim Hs) as (m & p & n0 & Ht & Hsl & Hn & Hr).
      exists m, p, now'. split_and!; [done..|lia|].
      pose proof (reach_call _ _ _ _ _ key now' Hr ltac:(lia)) as Hc.
      destruct (Allow lim key now').2.1; [|done].
      rewrite slot_log_app. simpl. by rewrite decide_True.
    + rewrite lookup_insert_ne in Hk by done.
      destruct (limiter_ok_later _ _ _ _ _ now' Hle (H2 k lim' Hk)) as (m & p & n0 & ? & ? & ? & Hr).
      exists m, p, n0. split_and!; [done..|]. destruct (Allow lim key now').2.1; [|done].
      rewrite slot_log_app. simpl. rewrite decide_False by done. by rewrite app_nil_r.
  - intros k Hk. apply lookup_insert_None in Hk as [Hk Hne].
    destruct (Allow lim key now').2.1; [|auto].
    rewrite slot_log_app. simpl. rewrite decide_False by done. rewrite app_nil_r. auto.
  - destruct H4 as (N & ? & ? & ?). exists N.
    rewrite dom_insert_lookup_L by eauto. done.
Qed.

Lemma served_inv sha l g rs log now : served sha l g rs log now → run_inv l rs log now.
Proof.
  induction 1 as [g now|l g rs log now r now' l' g' row v Hs IH Hle Htok E].
  - split; [done|by intros ? ? ?| done|]. exists ∅. simpl.
    split_and!; [apply Nat.le_0_l|set_solver..].
  - pose proof (Middleware_spec sha l g r now') as Hm. cbv zeta in Hm. unfold logged.
    destruct (chargedSlot l r) as [slot|] eqn:Ec.
    + destruct Hm as (l1 & lim & E1 & Hlim & Hl' & Hok). rewrite E in Hl', Hok |- *. simpl in *. subst l'.
      pose proof (Allow_inv l1 _ log now slot lim
        (chargeKey sha r (TestingNormalizeRateLimitPath (Path r))) now'
        (limiterFor_inv l rs log now r _ l1 slot Htok IH E1) Hle Hlim) as Hnew.
      destruct (Allow lim _ now').2.1; destruct v; try done; naive_solver.
    + rewrite E in Hm. simplify_eq. by eapply run_inv_later.
Qed.

(** ** Properties *)

Lemma size_overflow (ms : list string) :
  (size (list_to_set (overflowSlot <$> ms) : gset string) <= size (list_to_set ms : gset string))%nat.
Proof.
  assert ((list_to_set (overflowSlot <$> ms) : gset string) = set_map overflowSlot (list_to_set ms : gset string)) as ->.
  { induction ms as [|m ms IH]; [done|].
    rewrite fmap_cons, !list_to_set_cons, IH, set_map_union_L, set_map_singleton_L. done. }
  generalize (list_to_set ms : gset string). intros X.
  induction X as [|x X Hx IH] using set_ind_L; [done|].
  rewrite set_map_union_L, set_map_singleton_L.
  rewrite (size_union {[x]} X), size_singleton by set_solver.
  pose proof (size_union_alt {[overflowSlot x]} (set_map overflowSlot X : gset string)) as Hu.
  pose proof (subseteq_size (set_map overflowSlot X ∖ {[overflowSlot x]})
    (set_map overflowSlot X : gset string) ltac:(set_solver)).
  rewrite size_singleton in Hu. lia.
Qed.

(** whatever paths callers invent, a run of the middleware holds at most
    [TestingMaxTrackedRoutes] limiters plus one overflow limiter per method
    used. *)
Theorem limiters_bounded sha l g rs log now :
  served sha l g rs log now →
  (size (TestingLimiters l) <= 512 + size (list_to_set (Method <$> rs) : gset string))%nat.
Proof.
  intros H%served_inv. destruct (ri_size _ _ _ _ H) as (N & HN & _ & Hd).
  rewrite <- size_dom. etrans; [by apply subseteq_size|].
  rewrite size_union_alt. pose proof (size_overflow (Method <$> rs)).
  pose proof (subseteq_size (list_to_set (overflowSlot <$> (Method <$> rs)) ∖ N)
    (list_to_set (overflowSlot <$> (Method <$> rs)) : gset string) ltac:(set_solver)). lia.
Qed.

(** End to end, the middleware lets through at most the route's limit of
    requests per caller and window: the requests it passed on, in any order and
    interleaved with any other routes and callers, never exceed the policy of
    their route, as long as the route has its own limiter. *)
Theorem route_budget sha l g rs log now m p key t :
  served sha l g rs log now → token m → p ≠ overflowRouteKey →
  let pol := policyFor NewAPIRateLimiter m p in
  len (in_window (window (NewSlidingWindowLimiter (Limit pol) (Window pol))) t
        (admitted_at key (slot_log (slotOf m p) log)))
  <= limit (NewSlidingWindowLimiter (Limit pol) (Window pol)).
Proof.
  intros H%served_inv Hm Hp pol.
  destruct (TestingLimiters l !! slotOf m p) as [lim|] eqn:E.
  - destruct (ri_limiters _ _ _ _ H _ _ E) as (m' & p' & n0 & Hm' & Hsl & _ & Hr).
    destruct Hsl as [Hsl|Hsl].
    + apply slotOf_inj in Hsl as [<- <-]; [|done..].
      rewrite (ri_policies _ _ _ _ H) in Hr. fold pol in Hr.
      pose proof (reachable_good _ _ _ _ _ Hr) as Hg. pose proof (good_bounded _ _ _ _ _ Hg key t) as Hb.
      by rewrite (good_window _ _ _ _ _ Hg), (good_limit _ _ _ _ _ Hg) in Hb.
    + apply slotOf_inj in Hsl as [_ ?]; done.
  - rewrite (ri_absent _ _ _ _ H _ E).
    change (len (in_window _ t (admitted_at key []))) with 0.
    pose proof (New_sized (Limit pol) (Window pol)) as (? & _). lia.
Qed.

(** A path below a space. *)
Definition spacePath (space rest : string) : string := "/spaces/" +:+ space +:+ "/" +:+ rest.

Lemma normalize_spacePath space rest :
  TrimSpace (spacePath space rest) = spacePath space rest →
  ContainsByte space "/" = false → TrimRight1 rest "/" ≠ ""%string →
  TestingNormalizeRateLimitPath (spacePath space rest) =
  templateOf ("spaces"%string :: space :: Split (TrimRight1 rest "/") "/") (spacePath space rest).
Proof.
  intros Htrim Hs Hr. unfold TestingNormalizeRateLimitPath. rewrite Htrim.
  rewrite bool_decide_false by done.
  assert (stripPrefixes (spacePath space rest) = Some (spacePath space rest)) as ->.
  { unfold stripPrefixes, spacePath. rewrite !bool_decide_false by done. done. }
  f_equal. unfold Trim1, spacePath.
  change (TrimLeft1 _ _) with ("spaces/" +:+ (space +:+ ("/" +:+ rest)))%string.
  assert (Hone : ∀ s, TrimRight1 s "/" ≠ ""%string → TrimRight1 ("/" +:+ s) "/" = ("/" +:+ TrimRight1 s "/")%string)
    by (intros; by apply TrimRight1_app).
  assert (Happ : ∀ a s, TrimRight1 s "/" ≠ ""%string → TrimRight1 (a +:+ s) "/" ≠ ""%string).
  { intros a s H. rewrite TrimRight1_app by done. destruct a; [done|by intros ?]. }
  rewrite TrimRight1_app, TrimRight1_app, Hone by auto.
  change ("spaces/" +:+ ?s) with ("spaces" +:+ String "/" s)%string.
  rewrite Split_app by done. f_equal. rewrite app_cons_str, app_nil_l_str. by rewrite Split_app.
Qed.

(** requests to the same route of different Spaces share one template, so
    a caller gets one budget per route shape rather than one per Space. *)
Theorem one_template_per_route space space' rest :
  TrimSpace (spacePath space rest) = spacePath space rest →
  TrimSpace (spacePath space' rest) = spacePath space' rest →
  ContainsByte space "/" = false → ContainsByte space' "/" = false →
  TrimRight1 rest "/" ≠ ""%string →
  TestingNormalizeRateLimitPath (spacePath space rest) =
  TestingNormalizeRateLimitPath (spacePath space' rest).
Proof.
  intros. rewrite !normalize_spacePath by done. unfold templateOf.
  rewrite !(bool_decide_true ("spaces"%string = "spaces"%string)) by done.
  destruct (Split (TrimRight1 rest "/") "/") as [|p2 [|p3 [|p4 rest']]]; try done.
Qed.

(** The requests of one client that the limiter charges to an account. *)
Definition chargedToAccount (ip : string) (r : Request) : Prop :=
  clientIP r = ip ∧ credential r ≠ ""%string ∧
  TestingNormalizeRateLimitPath (Path r) ∈ costBearingRoutes.

Fixpoint serveAll (sha : string → string) (l : APIRateLimiter) (g : AbuseGuard) (now : Z)
    (rs : list Request) : APIRateLimiter * AbuseGuard :=
  match rs with
  | [] => (l, g)
  | r :: rs =>
      let '(l, g', _, _) := Middleware sha l (Some g) r now in
      serveAll sha l (default g g') now rs
  end.

Lemma Middleware_blocked_other sha l g r now k t :
  chargeKey sha r (TestingNormalizeRateLimitPath (Path r)) ≠ k → now <= t →
  Blocked (default g (Middleware sha l (Some g) r now).1.1.2) k t = Blocked g k t.
Proof.
  intros Hk Ht. unfold Middleware. case_if; [done|].
  destruct (limiterFor l _ _ _) as [l1 slot]. destruct (TestingLimiters l1 !! slot); [|done].
  destruct (Allow s _ now) as [lim [[|] d]]; [done|].
  pose proof (RecordRejection_blocked_other g
    (chargeKey sha r (TestingNormalizeRateLimitPath (Path r))) now k t ltac:(congruence) Ht) as Hb.
  destruct (RecordRejection g _ now) as [g' row]. exact Hb.
Qed.

(** refusals on cost-bearing routes never escalate.  They are charged to
    the account, while the abuse guard looks a caller up by address: no number
    of refused requests makes the guard block the client that sends them. *)
Theorem account_refusals_never_block sha l g now rs ip t :
  TestingIdentityIsAccount ip = false → Forall (chargedToAccount ip) rs → now <= t →
  Blocked (serveAll sha l g now rs).2 ip t = Blocked g ip t.
Proof.
  intros Hip Hrs Ht. revert l g. induction Hrs as [|r rs (Hc & Hcred & Hroute) _ IH]; intros l g; [done|].
  simpl. pose proof (Middleware_blocked_other sha l g r now ip t) as Hb.
  destruct (Middleware sha l (Some g) r now) as [[[l' g'] row] v]. simpl in Hb.
  rewrite IH. apply Hb; [|done]. unfold chargeKey. rewrite bool_decide_true by done.
  unfold TestingRateLimitIdentity. rewrite bool_decide_false by done.
  intros E. rewrite <- E in Hip. unfold TestingIdentityIsAccount in Hip. by rewrite HasPrefix_app in Hip.
Qed.

(** ** Witnesses *)

Definition demo_request : Request := mkRequest "POST" "/api/ai/complete" "203.0.113.9" "token".
Definition demo_sha (s : string) : string := s.

Lemma demo_served :
  ∃ l g log, served demo_sha l g ([] ++ [demo_request]) log 7.
Proof.
  destruct (Middleware demo_sha NewAPIRateLimiter None demo_request 7) as [[[l g] row] v] eqn:E.
  eexists l, g, _. eapply served_request; [apply (served_new demo_sha None 0)|lia|reflexivity|exact E].
Defined.

Lemma limiters_bounded_witness :
  ∃ l g log, served demo_sha l g [demo_request] log 7 ∧ (size (TestingLimiters l) <= 512 + 1)%nat.
Proof.
  destruct demo_served as (l & g & log & H). exists l, g, log. split; [exact H|].
  exact (limiters_bounded demo_sha l g [demo_request] log 7 H).
Defined.

Lemma route_budget_witness :
  ∃ l g log, served demo_sha l g [demo_request] log 7 ∧
    len (in_window Minute 7 (admitted_at "acct:token" (slot_log (slotOf "POST" "/ai/complete") log))) <= 12.
Proof.
  destruct demo_served as (l & g & log & H). exists l, g, log. split; [exact H|].
  exact (route_budget demo_sha l g [demo_request] log 7 "POST" "/ai/complete" "acct:token" 7 H
    eq_refl ltac:(discriminate)).
Defined.

Lemma one_template_per_route_witness :
  TestingNormalizeRateLimitPath (spacePath "s1" "notes") = "/spaces/{spaceID}/notes"%string ∧
  TestingNormalizeRateLimitPath (spacePath "s1" "notes") =
  TestingNormalizeRateLimitPath (spacePath "another-space" "notes").
Proof.
  split; [vm_compute; reflexivity|].
  apply one_template_per_route; vm_compute; [reflexivity..|discriminate].
Defined.

Lemma account_refusals_never_block_witness :
  Blocked (serveAll demo_sha NewAPIRateLimiter (NewAbuseGuard DefaultAbusePolicy) 7
    (replicate 3 demo_request)).2 "203.0.113.9" 8 = (false, 0).
Proof.
  rewrite account_refusals_never_block; [reflexivity|reflexivity| |lia].
  apply Forall_replicate. unfold chargedToAccount. split; [reflexivity|]. split; [discriminate|].
  vm_compute. left.
Defined.
