(* ===== verification/RunStore.v ===== *)
(** * Agent runs and their store

    The tables of [internal/platform/postgres] that agent runs share: the runs
    themselves ([space_runs] and [ai_invocations]; the prefix of an id tells the
    table), the journal of tool actions, the claims of model turns, the receipts
    of runtime starts, and the rows of routine runs.  The updates of a run's state
    go through [update_state], which is the statement with the trigger of
    [migrations/20261227000000_agent_execution_clocks.sql].

    Also the checks every run operation makes: membership of the Space
    ([spaces_limits.go], [sdk_targets.go]) and the authority of the app a run was
    admitted for ([app_execution_authority.go]). *)
From S2P Require Import Prelude Tx GoStrings Json.

Inductive run_error :=
  | ErrSpaceInvalid
  | ErrSpaceConflict
  | ErrSpaceForbidden
  | ErrSpaceNotFound
  | ErrSpaceLimit
  | ErrNoRows
  | ErrAppRuntimeForbidden
  | ErrAgentExecutionTimeLimit
  | ErrAgentModelTurnLimit
  | PendingRunEffect (key : string)
  | ErrActionInProgress
  | ErrActionTerminal
  | ErrActionUnknown
  | ErrNotAttempted
  | ErrInvalid
  | ErrSDKVersionConflict
  | ErrSDKPublisherChanged
  | ErrSDKProviderUnavailable
  | ErrSDKTargetClarification
  | ErrAppDependencies
  | ErrAppNotInstalled
  | ErrLibraryForbidden
  | ErrDeviceNotFound
  | ErrConstraint (name : string)
  | ToolError (message : string).

#[export] Instance run_error_eq_dec : EqDecision run_error.
Proof. solve_decision. Defined.

(** ** Apps acting for a user *)

Record AppExecutionAuthority := mkAuthority {
  au_Generation : Z; au_AppID : string; au_UserID : string; au_SpaceID : string; au_Scopes : list string }.

(** A row of [space_app_installations] whose state is [installed]. *)
Record Installation := mkInstallation { in_Generation : Z; in_Scopes : list string }.

(** A run's stored request: decoded, or not the JSON it should be. *)
Record Payload := mkPayload {
  pl_valid : bool;
  pl_Authority : option AppExecutionAuthority;
  pl_Routine : bool }.

(** ** Runs *)

Record Run := mkRun {
  run_Owner : string;
  run_SpaceID : string;
  run_State : string;
  run_RuntimeID : string;
  run_AdapterVersion : string;
  run_CallbackEndpoint : string;
  run_SurfaceID : string;
  run_AgentRunID : string;
  run_Payload : Payload;
  run_ExpiresAt : Z;
  run_ModelBudgetVersion : Z;
  run_ModelTurnLimit : Z;
  run_BudgetVersion : Z;
  run_LimitMS : Z;
  run_ConsumedMS : Z;
  run_ActiveAt : option Z }.

(** The columns an operation may change. *)
Definition with_clock (consumed : Z) (active : option Z) (r : Run) : Run :=
  mkRun (run_Owner r) (run_SpaceID r) (run_State r) (run_RuntimeID r) (run_AdapterVersion r)
    (run_CallbackEndpoint r) (run_SurfaceID r) (run_AgentRunID r) (run_Payload r) (run_ExpiresAt r)
    (run_ModelBudgetVersion r) (run_ModelTurnLimit r) (run_BudgetVersion r) (run_LimitMS r) consumed active.
Definition with_state (state : string) (r : Run) : Run :=
  mkRun (run_Owner r) (run_SpaceID r) state (run_RuntimeID r) (run_AdapterVersion r)
    (run_CallbackEndpoint r) (run_SurfaceID r) (run_AgentRunID r) (run_Payload r) (run_ExpiresAt r)
    (run_ModelBudgetVersion r) (run_ModelTurnLimit r) (run_BudgetVersion r) (run_LimitMS r)
    (run_ConsumedMS r) (run_ActiveAt r).
Definition with_runtime (runtime : string) (r : Run) : Run :=
  mkRun (run_Owner r) (run_SpaceID r) (run_State r) runtime (run_AdapterVersion r)
    (run_CallbackEndpoint r) (run_SurfaceID r) (run_AgentRunID r) (run_Payload r) (run_ExpiresAt r)
    (run_ModelBudgetVersion r) (run_ModelTurnLimit r) (run_BudgetVersion r) (run_LimitMS r)
    (run_ConsumedMS r) (run_ActiveAt r).
Definition with_expiry (t : Z) (r : Run) : Run :=
  mkRun (run_Owner r) (run_SpaceID r) (run_State r) (run_RuntimeID r) (run_AdapterVersion r)
    (run_CallbackEndpoint r) (run_SurfaceID r) (run_AgentRunID r) (run_Payload r) t
    (run_ModelBudgetVersion r) (run_ModelTurnLimit r) (run_BudgetVersion r) (run_LimitMS r)
    (run_ConsumedMS r) (run_ActiveAt r).

(** Whole milliseconds of a duration, rounded up, and none before the start. *)
Definition ceil_ms (d : Z) : Z := Z.max 0 ((d + Millisecond - 1) / Millisecond).

(** [misty_pause_agent_execution_clock]. *)
Definition pause_clock (clock : Z) (old : Run) (new : Run) : Run :=
  match run_ActiveAt old with
  | Some since =>
      if bool_decide (run_State new = "running"%string) then new
      else with_clock (Z.min (run_LimitMS old) (run_ConsumedMS old + ceil_ms (clock - since))) None new
  | None => new
  end.

(** [UPDATE ... SET state=...] with its trigger. *)
Definition update_state (clock : Z) (state : string) (r : Run) : Run := pause_clock clock r (with_state state r).

Definition terminal (state : string) : bool :=
  bool_decide (state = "completed"%string) || bool_decide (state = "failed"%string) ||
  bool_decide (state = "canceled"%string).

(** ** The journal of tool actions *)

(** A row of [agent_toolbox_action_journal]. *)
Record JournalRow := mkJournal {
  jr_UserID : string; jr_RunID : string; jr_ToolName : string; jr_Risk : string; jr_State : string;
  jr_Request : raw; jr_Fingerprint : string; jr_Result : raw; jr_Ciphertext : option string;
  jr_ErrorCode : string; jr_CreatedAt : Z }.

(** ** Routine runs *)

Record RoutineRun := mkRoutineRun {
  rr_UserID : string; rr_RoutineID : string;
  rr_CancelRequested : bool; rr_Outcome : string; rr_Report : json;
  rr_AgentTools : list (string * string * string) (** step, call namespace, tool name *) }.

Record RoutineWait := mkWait {
  rw_WaitID : string; rw_State : string; rw_Until : option Z; rw_ExpiresAt : option Z }.

Record AgentStep := mkAgentStep {
  as_CallNamespace : string; as_ModelID : string; as_MaxTurns : Z; as_State : string;
  as_Ciphertext : option string; as_Fingerprint : string }.

Record AgentCall := mkAgentCall {
  ac_StepID : string; ac_ToolName : string; ac_Fingerprint : string; ac_EffectID : string }.

Record TurnClaim := mkClaim { tc_UserID : string; tc_RuntimeID : string; tc_Usage : option json }.

Record StartReceipt := mkReceipt { sr_Token : string; sr_RuntimeID : string }.

(** A row of [agent_runtime_deliveries]. *)
Record Delivery := mkDelivery { dl_UserID : string; dl_RunID : string; dl_Operation : string; dl_RuntimeID : string }.

(** Rows are keyed by their primary keys: a run, a (run, step), a (run, call), a
    (run, node).  The owner, part of those keys in the schema, is a function of
    the run and is checked where the queries name it. *)
Record Store := mkStore {
  members : gset (string * string);
  installations : gmap (string * string) Installation;
  runs : gmap string Run;
  journal : gmap string JournalRow;
  routine_runs : gmap string RoutineRun;
  waits : gmap (string * string) RoutineWait;
  agent_steps : gmap (string * string) AgentStep;
  agent_calls : gmap (string * string) AgentCall;
  turn_claims : gmap (string * string) TurnClaim;
  start_receipts : gmap string StartReceipt;
  deliveries : gmap string Delivery;
  run_events : list (string * string * string) (** run, receipt key, type *) }.

Definition set_runs (x : gmap string Run) (s : Store) : Store :=
  mkStore (members s) (installations s) x (journal s) (routine_runs s) (waits s) (agent_steps s)
    (agent_calls s) (turn_claims s) (start_receipts s) (deliveries s) (run_events s).
Definition set_journal (x : gmap string JournalRow) (s : Store) : Store :=
  mkStore (members s) (installations s) (runs s) x (routine_runs s) (waits s) (agent_steps s)
    (agent_calls s) (turn_claims s) (start_receipts s) (deliveries s) (run_events s).
Definition set_routine_runs (x : gmap string RoutineRun) (s : Store) : Store :=
  mkStore (members s) (installations s) (runs s) (journal s) x (waits s) (agent_steps s)
    (agent_calls s) (turn_claims s) (start_receipts s) (deliveries s) (run_events s).
Definition set_waits (x : gmap (string * string) RoutineWait) (s : Store) : Store :=
  mkStore (members s) (installations s) (runs s) (journal s) (routine_runs s) x (agent_steps s)
    (agent_calls s) (turn_claims s) (start_receipts s) (deliveries s) (run_events s).
Definition set_agent_steps (x : gmap (string * string) AgentStep) (s : Store) : Store :=
  mkStore (members s) (installations s) (runs s) (journal s) (routine_runs s) (waits s) x
    (agent_calls s) (turn_claims s) (start_receipts s) (deliveries s) (run_events s).
Definition set_agent_calls (x : gmap (string * string) AgentCall) (s : Store) : Store :=
  mkStore (members s) (installations s) (runs s) (journal s) (routine_runs s) (waits s) (agent_steps s)
    x (turn_claims s) (start_receipts s) (deliveries s) (run_events s).
Definition set_turn_claims (x : gmap (string * string) TurnClaim) (s : Store) : Store :=
  mkStore (members s) (installations s) (runs s) (journal s) (routine_runs s) (waits s) (agent_steps s)
    (agent_calls s) x (start_receipts s) (deliveries s) (run_events s).
Definition set_start_receipts (x : gmap string StartReceipt) (s : Store) : Store :=
  mkStore (members s) (installations s) (runs s) (journal s) (routine_runs s) (waits s) (agent_steps s)
    (agent_calls s) (turn_claims s) x (deliveries s) (run_events s).
Definition set_deliveries (x : gmap string Delivery) (s : Store) : Store :=
  mkStore (members s) (installations s) (runs s) (journal s) (routine_runs s) (waits s) (agent_steps s)
    (agent_calls s) (turn_claims s) (start_receipts s) x (run_events s).
Definition set_run_events (x : list (string * string * string)) (s : Store) : Store :=
  mkStore (members s) (installations s) (runs s) (journal s) (routine_runs s) (waits s) (agent_steps s)
    (agent_calls s) (turn_claims s) (start_receipts s) (deliveries s) x.

Definition T := tx Store run_error.

(** ** Shared statements *)

Definition is_invocation (runID : string) : bool := HasPrefix runID "invocation_".

(** [SELECT ... WHERE id=$1 AND owner=$2 FOR UPDATE]. *)
Definition owned_run (s : Store) (runID userID : string) : option Run :=
  r ← runs s !! runID; guard (run_Owner r = userID);; Some r.

(** [SET state=...] on one run. *)
Definition set_run_state (clock : Z) (runID state : string) (s : Store) : Store :=
  set_runs (alter (update_state clock state) runID (runs s)) s.

(** Appends an event unless the run has one with that receipt key. *)
Definition add_event (runID key type : string) (s : Store) : Store :=
  if bool_decide (Exists (λ e : string * string * string, e.1 = (runID, key)) (run_events s)) then s
  else set_run_events (run_events s ++ [(runID, key, type)]) s.

(** [queueAgentContinuationTx]: the id makes a delivery idempotent. *)
Definition queueAgentContinuation (userID runID operation identity runtime : string) (s : Store) : Store :=
  let id := operation +:+ ":" +:+ runID +:+ ":" +:+ identity in
  match deliveries s !! id with
  | Some _ => s
  | None => set_deliveries (<[id := mkDelivery userID runID operation runtime]> (deliveries s)) s
  end.

(** [requireSpaceMemberTx]: [members] holds the pairs of an active Space and a
    member of it. *)
Definition requireSpaceMemberTx (spaceID userID : string) : T () :=
  s ← get; guard_tx (bool_decide ((spaceID, userID) ∈ members s)) ErrSpaceForbidden.

Definition sdkTargetSpaceAccessTx (userID spaceID : string) : T () :=
  when (negb (bool_decide (spaceID = ""%string))) (requireSpaceMemberTx spaceID userID).

(** [AppAuthorityFromPayload]. *)
Definition AppAuthorityFromPayload (p : Payload) : T (option AppExecutionAuthority) :=
  guard_tx (pl_valid p) ErrSpaceInvalid;;
  match pl_Authority p with
  | Some a =>
      guard_tx (negb (bool_decide (au_UserID a = ""%string) || bool_decide (au_AppID a = ""%string)))
        ErrAppRuntimeForbidden;;
      mret (Some a)
  | None => mret None
  end.

Definition all_granted (scopes granted : list string) : bool :=
  forallb (λ scope, bool_decide (scope ∈ granted)) scopes.

Definition validateAppExecutionAuthorityTx (authority : option AppExecutionAuthority) (userID spaceID : string)
    (scopes : list string) : T () :=
  match authority with
  | None => mret ()
  | Some a =>
      s ← get;
      guard_tx (negb ((au_Generation a <=? 0) || negb (bool_decide (au_UserID a = userID)) ||
                      bool_decide (au_SpaceID a = ""%string) || negb (bool_decide (au_SpaceID a = spaceID))))
        ErrAppRuntimeForbidden;;
      guard_tx (negb (bool_decide (""%string ∈ scopes)) && all_granted scopes (au_Scopes a)) ErrAppRuntimeForbidden;;
      guard_tx (bool_decide ((spaceID, userID) ∈ members s)) ErrAppRuntimeForbidden;;
      i ← require (installations s !! (spaceID, au_AppID a)) ErrAppRuntimeForbidden;
      guard_tx (in_Generation i =? au_Generation a) ErrAppRuntimeForbidden;;
      guard_tx (all_granted scopes (in_Scopes i)) ErrAppRuntimeForbidden
  end.
