(* ===== verification/ActionJournal.v ===== *)
(** * The journal of tool actions

    Models [JournalAgentToolboxAction] of
    [internal/platform/postgres/agent_toolbox_action_journal.go] and the recheck
    [routineAgentEffectClaimTx] of [routine_agent_steps.go].  A call is two
    transactions around the tool's execution: [claimTx] decides whether this call
    may execute, [finishTx] records the outcome.  [step] interleaves any number of
    such calls, the crash of a process between its transactions, and whatever else
    changes the runs. *)
From S2P Require Import Prelude Tx GoStrings Json RunStore.

Record AgentToolboxAction := mkAction {
  ta_IdempotencyKey : string;
  ta_RequireSettledRun : bool;
  ta_LegacyIdempotencyKey : string;
  ta_UserID : string;
  ta_RunID : string;
  ta_ToolName : string;
  ta_AuditEvent : string;
  ta_Risk : string;
  ta_Request : raw;
  ta_RedactPayload : bool;
  ta_ProtectResult : option (raw → option string);
  ta_RestoreResult : option (string → option raw) }.

Definition validJSONObject (r : raw) : bool :=
  match unmarshal r with Some (JObj _) => true | _ => false end.

Definition trimmed (a : AgentToolboxAction) : AgentToolboxAction :=
  mkAction (TrimSpace (ta_IdempotencyKey a)) (ta_RequireSettledRun a) (ta_LegacyIdempotencyKey a)
    (TrimSpace (ta_UserID a)) (ta_RunID a) (TrimSpace (ta_ToolName a)) (ta_AuditEvent a) (ta_Risk a)
    (ta_Request a) (ta_RedactPayload a) (ta_ProtectResult a) (ta_RestoreResult a).

Definition with_key (key : string) (a : AgentToolboxAction) : AgentToolboxAction :=
  mkAction key (ta_RequireSettledRun a) (ta_LegacyIdempotencyKey a) (ta_UserID a) (ta_RunID a) (ta_ToolName a)
    (ta_AuditEvent a) (ta_Risk a) (ta_Request a) (ta_RedactPayload a) (ta_ProtectResult a) (ta_RestoreResult a).

(** The checks before the first transaction. *)
Definition admissible (a : AgentToolboxAction) : bool :=
  negb (bool_decide (ta_IdempotencyKey a = ""%string) || bool_decide (ta_UserID a = ""%string) ||
        bool_decide (ta_ToolName a = ""%string) || bool_decide (ta_AuditEvent a = ""%string)) &&
  bool_decide (ta_Risk a ∈ ["read"; "write"; "dangerous"]%string) && validJSONObject (ta_Request a) &&
  negb (ta_RedactPayload a && (bool_decide (ta_ProtectResult a = None) || bool_decide (ta_RestoreResult a = None))).

Definition empty_object : raw := RJson (JObj []).

(** ** The claim *)

(** Rows that keep a run from starting another effect. *)
Definition unsettled (r : JournalRow) : bool :=
  negb (bool_decide (jr_Risk r = "read"%string)) &&
  (bool_decide (jr_State r ∈ ["started"; "unknown"]%string) ||
   bool_decide (jr_State r = "failed"%string) && negb (bool_decide (jr_ErrorCode r = "tool_not_attempted"%string))).

Definition blocks (userID runID key : string) (kv : string * JournalRow) : bool :=
  bool_decide (jr_RunID kv.2 = runID) && bool_decide (jr_UserID kv.2 = userID) &&
  negb (bool_decide (kv.1 = key)) && unsettled kv.2.

(** [ORDER BY created_at,idempotency_key LIMIT 1]. *)
Definition earliest (l : list (string * JournalRow)) : option string :=
  fst <$> foldr (λ x acc, match acc with
                  | None => Some x
                  | Some y => if (jr_CreatedAt y.2 <? jr_CreatedAt x.2) ||
                                 (jr_CreatedAt y.2 =? jr_CreatedAt x.2) && String.ltb y.1 x.1
                              then Some y else Some x
                  end) None l.

Definition pending_effect (userID runID key : string) (j : gmap string JournalRow) : option string :=
  earliest (filter (λ kv, blocks userID runID key kv = true) (map_to_list j)).

Definition effect_key (effectID : string) : string := "sdk-agent-effect:" +:+ effectID.

Definition confirmed (r : JournalRow) : bool :=
  bool_decide (jr_State r = "completed"%string) && bool_decide (jr_Ciphertext r ≠ None).

(** The state of the agent step whose call has this effect. *)
Definition call_step_state (runID key : string) (s : Store) : option string :=
  call ← head (filter (λ kv : (string * string) * AgentCall,
            kv.1.1 = runID ∧ effect_key (ac_EffectID kv.2) = key) (map_to_list (agent_calls s)));
  as_State <$> agent_steps s !! (runID, ac_StepID call.2).

Definition routineAgentEffectClaimTx (a : AgentToolboxAction) : T () :=
  s ← get;
  match call_step_state (ta_RunID a) (ta_IdempotencyKey a) s with
  | None => mret ()
  | Some state =>
      if bool_decide (state = "running"%string) then mret ()
      else
        guard_tx (match journal s !! ta_IdempotencyKey a with
                  | Some r => bool_decide (jr_UserID r = ta_UserID a) && bool_decide (jr_RunID r = ta_RunID a) &&
                              confirmed r
                  | None => false
                  end) ErrSpaceConflict
  end.

Definition cancel_requested (s : Store) (runID userID : string) : bool :=
  match routine_runs s !! runID with
  | Some r => bool_decide (rr_UserID r = userID) && rr_CancelRequested r
  | None => false
  end.

(** [if action.RequireSettledRun]. *)
Definition settledTx (a : AgentToolboxAction) : T () :=
  s ← get;
  r ← require (owned_run s (ta_RunID a) (ta_UserID a)) ErrNoRows;
  guard_tx (negb (cancel_requested s (ta_RunID a) (ta_UserID a))) ErrSpaceConflict;;
  guard_tx (bool_decide (run_State r = "running"%string)) ErrSpaceConflict;;
  routineAgentEffectClaimTx a;;
  match pending_effect (ta_UserID a) (ta_RunID a) (ta_IdempotencyKey a) (journal s) with
  | Some key => fail (PendingRunEffect key)
  | None => mret ()
  end.

(** The key under which the action is journaled already, if any. *)
Definition resolved_key (a : AgentToolboxAction) (j : gmap string JournalRow) : string :=
  if bool_decide (ta_LegacyIdempotencyKey a = ""%string) then ta_IdempotencyKey a
  else if bool_decide (is_Some (j !! ta_IdempotencyKey a)) then ta_IdempotencyKey a
  else if bool_decide (is_Some (j !! ta_LegacyIdempotencyKey a)) then ta_LegacyIdempotencyKey a
  else ta_IdempotencyKey a.

Inductive claim :=
  | Claimed (key : string)
  | Existing (key : string) (row : JournalRow).

Section journal.
(** The SHA-256 digest, in hexadecimal, of a value's canonical JSON. *)
Context (fingerprint : json → string).

Definition request_fingerprint (a : AgentToolboxAction) : string :=
  match unmarshal (ta_Request a) with Some v => fingerprint v | None => "" end.

Definition persisted_request (a : AgentToolboxAction) : raw :=
  if ta_RedactPayload a then empty_object else ta_Request a.

Definition new_row (a : AgentToolboxAction) (now : Z) : JournalRow :=
  mkJournal (ta_UserID a) (ta_RunID a) (ta_ToolName a) (ta_Risk a) "started" (persisted_request a)
    (request_fingerprint a) empty_object None "" now.

(** The [UPDATE] that lets a failed action run again. *)
Definition restarted (a : AgentToolboxAction) (r : JournalRow) : JournalRow :=
  mkJournal (jr_UserID r) (jr_RunID r) (jr_ToolName r) (jr_Risk r) "started" (persisted_request a)
    (request_fingerprint a) empty_object (jr_Ciphertext r) "" (jr_CreatedAt r).

Definition retryable (a : AgentToolboxAction) (r : JournalRow) : bool :=
  bool_decide (jr_State r = "failed"%string) &&
  (bool_decide (jr_ErrorCode r = "tool_not_attempted"%string) ||
   bool_decide (ta_Risk a = "read"%string) && negb (ta_RedactPayload a)).

(** The first transaction. *)
Definition claimTx (a : AgentToolboxAction) (now : Z) : T claim :=
  when (ta_RequireSettledRun a) (settledTx a);;
  s ← get;
  let key := resolved_key a (journal s) in
  match journal s !! key with
  | None =>
      modify (set_journal (<[key := new_row a now]> (journal s)));;
      mret (Claimed key)
  | Some r =>
      guard_tx (bool_decide (jr_UserID r = ta_UserID a) && bool_decide (jr_ToolName r = ta_ToolName a) &&
                bool_decide (jr_RunID r = ta_RunID a) && bool_decide (jr_Risk r = ta_Risk a)) ErrSpaceForbidden;;
      guard_tx (bool_decide (jr_Fingerprint r = ""%string) ||
                bool_decide (jr_Fingerprint r = request_fingerprint a)) ErrSpaceConflict;;
      if retryable a r then
        modify (set_journal (<[key := restarted a r]> (journal s)));;
        mret (Claimed key)
      else mret (Existing key r)
  end.

(** What a caller is told about an action that is journaled already. *)
Definition replay (a : AgentToolboxAction) (r : JournalRow) : run_error + raw :=
  if bool_decide (jr_State r = "completed"%string) then
    if negb (ta_RedactPayload a) then inr (jr_Result r)
    else
      match jr_Ciphertext r, ta_RestoreResult a with
      | Some c, Some restore =>
          if bool_decide (c = ""%string) then inl ErrActionUnknown
          else match restore c with Some (RJson v) => inr (RJson v) | _ => inl ErrActionUnknown end
      | _, _ => inl ErrActionUnknown
      end
  else if bool_decide (jr_State r = "unknown"%string) then inl ErrActionUnknown
  else if bool_decide (jr_State r = "failed"%string) then inl ErrActionTerminal
  else inl ErrActionInProgress.

(** ** The outcome *)

(** The tool's result and error, as the journal takes them. *)
Definition settled_outcome (out : raw * option run_error) : raw * option run_error :=
  match out with
  | (RJson v, e) => (RJson v, e)
  | (_, None) => (empty_object, Some (ToolError "tool returned no valid execution result"))
  | (_, Some e) => (empty_object, Some e)
  end.

Definition outcome_state (risk : string) (e : option run_error) : string * string :=
  match e with
  | None => ("completed", "")
  | Some ErrNotAttempted => ("failed", "tool_not_attempted")
  | Some _ =>
      if bool_decide (risk = "read"%string) then ("failed", "tool_execution_failed")
      else ("unknown", "tool_outcome_unknown")
  end%string.

Definition finished (a : AgentToolboxAction) (out : raw * option run_error) (cipher : option string)
    (r : JournalRow) : JournalRow :=
  let '(result, e) := settled_outcome out in
  let '(state, code) := outcome_state (ta_Risk a) e in
  mkJournal (jr_UserID r) (jr_RunID r) (jr_ToolName r) (jr_Risk r) state (jr_Request r) (jr_Fingerprint r)
    (if ta_RedactPayload a then empty_object else result) cipher code (jr_CreatedAt r).

(** The second transaction: it takes effect only on a row still [started]. *)
Definition finishTx (a : AgentToolboxAction) (key : string) (out : raw * option run_error) (cipher : option string)
    : T () :=
  s ← get;
  match journal s !! key with
  | Some r =>
      guard_tx (bool_decide (jr_UserID r = ta_UserID a) && bool_decide (jr_State r = "started"%string)) ErrActionUnknown;;
      modify (set_journal (<[key := finished a out cipher r]> (journal s)))
  | None => fail ErrActionUnknown
  end.

(** The protected result, [None] when the encryption failed. *)
Definition protected (a : AgentToolboxAction) (out : raw * option run_error) : option (option string) :=
  match settled_outcome out with
  | (result, None) =>
      if ta_RedactPayload a then
        match ta_ProtectResult a with
        | Some protect => Some <$> protect result
        | None => None
        end
      else Some None
  | _ => Some None
  end.

(** From the tool's return to the caller's: the store is left alone when the
    result cannot be protected. *)
Definition finish (a : AgentToolboxAction) (key : string) (out : raw * option run_error) (s : Store)
    : Store * (run_error + raw) :=
  match protected a out with
  | None => (s, inl ErrActionUnknown)
  | Some cipher =>
      match run (finishTx a key out cipher) s with
      | (s, inl _) => (s, inl ErrActionUnknown)
      | (s, inr _) =>
          let '(result, e) := settled_outcome out in
          (s, match e with
              | None => inr result
              | Some e => if bool_decide ((outcome_state (ta_Risk a) (Some e)).1 = "unknown"%string)
                          then inl ErrActionUnknown else inl e
              end)
      end
  end.

(** [JournalAgentToolboxAction], run by itself; the tool acts on a world [W]. *)
Definition JournalAgentToolboxAction {W} (a : AgentToolboxAction) (execute : W → W * (raw * option run_error))
    (now : Z) (s : Store) (w : W) : Store * W * (run_error + raw) :=
  let a := trimmed a in
  if negb (admissible a) then (s, w, inl ErrSpaceInvalid)
  else
    match run (claimTx a now) s with
    | (s, inl e) => (s, w, inl e)
    | (s, inr (Existing _ r)) => (s, w, replay a r)
    | (s, inr (Claimed key)) =>
        let '(w, out) := execute w in
        let '(s, r) := finish a key out s in (s, w, r)
    end.
(** ** Interleaved calls

    [sys_inflight] holds the claimed calls whose tool is running, [sys_log] what
    became of the others: whether the tool was attempted. *)
Record Sys := mkSys {
  sys_store : Store;
  sys_inflight : list (string * AgentToolboxAction);
  sys_log : list (string * bool) }.

Definition attempted (out : raw * option run_error) : bool := negb (bool_decide (out.2 = Some ErrNotAttempted)).

Inductive step (allowed : AgentToolboxAction → Prop) : Sys → Sys → Prop :=
  | step_claim a now s key s' fl lg :
      allowed a → admissible a = true → run (claimTx a now) s = (s', inr (Claimed key)) →
      step allowed (mkSys s fl lg) (mkSys s' ((key, a) :: fl) lg)
  | step_finish a key out s s' r fl1 fl2 lg :
      finish a key out s = (s', r) →
      step allowed (mkSys s (fl1 ++ (key, a) :: fl2) lg) (mkSys s' (fl1 ++ fl2) ((key, attempted out) :: lg))
  | step_crash a key s fl1 fl2 lg :
      step allowed (mkSys s (fl1 ++ (key, a) :: fl2) lg) (mkSys s (fl1 ++ fl2) ((key, true) :: lg))
  | step_other s s' fl lg :
      journal s' = journal s → step allowed (mkSys s fl lg) (mkSys s' fl lg).

Definition reach (allowed : AgentToolboxAction → Prop) : Sys → Sys → Prop := rtc (step allowed).

(** ** Inversions *)

Lemma guards_keep_store (a : AgentToolboxAction) s u s' : settledTx a s = inr (u, s') → s' = s.
Proof.
  unfold settledTx, routineAgentEffectClaimTx. intros H. tx_inv H.
  all: repeat case_match; tx_inv H; tx_inv H3; by simplify_eq.
Qed.

Lemma claim_cases a now s c s' :
  claimTx a now s = inr (c, s') →
  let key := resolved_key a (journal s) in
  (journal s !! key = None ∧ c = Claimed key ∧ s' = set_journal (<[key := new_row a now]> (journal s)) s) ∨
  (∃ r, journal s !! key = Some r ∧ jr_UserID r = ta_UserID a ∧ jr_ToolName r = ta_ToolName a ∧
        jr_RunID r = ta_RunID a ∧ jr_Risk r = ta_Risk a ∧
        (retryable a r = true ∧ c = Claimed key ∧ s' = set_journal (<[key := restarted a r]> (journal s)) s ∨
         retryable a r = false ∧ c = Existing key r ∧ s' = s)).
Proof.
  unfold claimTx. intros H. apply bind_inr in H as ([] & s1 & Hg & H).
  assert (s1 = s) as -> by (destruct (ta_RequireSettledRun a); [by apply guards_keep_store in Hg|by injection Hg]).
  apply bind_inr in H as (? & ? & Hget & H). injection Hget as <- <-.
  destruct (journal s !! resolved_key a (journal s)) as [r|] eqn:E.
  - right. exists r. apply bind_inr in H as ([] & ? & H1 & H). apply guard_inr in H1 as [H1 ->].
    apply bind_inr in H as ([] & ? & H2 & H). apply guard_inr in H2 as [H2 ->].
    bool_to_prop. split_and!; [done..|]. destruct (retryable a r); tx_inv H; simplify_eq; eauto.
  - left. tx_inv H. by simplify_eq.
Qed.
Lemma set_journal_id s k r : journal s !! k = Some r → set_journal (<[k := r]> (journal s)) s = s.
Proof. intros H. rewrite insert_id by done. by destruct s. Qed.

(** A finish whose call is recorded as started takes effect. *)
Lemma finish_effect a key out s s' v r :
  finish a key out s = (s', v) → journal s !! key = Some r → jr_State r = "started"%string → jr_UserID r = ta_UserID a →
  (protected a out = None ∧ s' = s ∧ v = inl ErrActionUnknown) ∨
  ∃ cipher, protected a out = Some cipher ∧ s' = set_journal (<[key := finished a out cipher r]> (journal s)) s.
Proof.
  unfold finish. intros H Hr Hs Hu. destruct (protected a out) as [cipher|] eqn:Hp; [right|left; by simplify_eq].
  exists cipher. split; [done|].
  unfold run, finishTx, mbind, tx_bind, get, modify in H. rewrite Hr, Hs, Hu, !bool_decide_eq_true_2 in H by done.
  simpl in H. destruct (settled_outcome out) as [res [e|]]; by injection H as <- <-.
Qed.

Lemma finished_keeps a out cipher r :
  let r' := finished a out cipher r in
  jr_UserID r' = jr_UserID r ∧ jr_RunID r' = jr_RunID r ∧ jr_Risk r' = jr_Risk r ∧ jr_ToolName r' = jr_ToolName r ∧
  jr_Fingerprint r' = jr_Fingerprint r.
Proof.
  unfold finished. destruct (settled_outcome out) as [res e], (outcome_state (ta_Risk a) e) as [st code]. done.
Qed.

Lemma settled_error out e : (settled_outcome out).2 = e → out.2 = Some ErrNotAttempted ↔ e = Some ErrNotAttempted.
Proof. destruct out as [[| |v] [err|]]; simpl; intros <-; split; congruence. Qed.

(** Only a tool that was not dispatched is recorded as not attempted. *)
Lemma finished_not_attempted a out cipher r :
  jr_State (finished a out cipher r) = "failed"%string →
  jr_ErrorCode (finished a out cipher r) = "tool_not_attempted"%string → attempted out = false.
Proof.
  unfold finished, attempted. destruct (settled_outcome out) as [res e] eqn:E.
  assert (out.2 = Some ErrNotAttempted ↔ e = Some ErrNotAttempted) as Hiff by (apply settled_error; by rewrite E).
  unfold outcome_state. destruct e as [e|]; [|done]. destruct e; try (case_bool_decide; done).
  intros _ _. rewrite bool_decide_eq_true_2; [done|]. by apply Hiff.
Qed.

(** The outcome of an effect is not [failed] unless it was not dispatched. *)
Lemma finished_failed a out cipher r :
  ta_Risk a ≠ "read"%string → jr_State (finished a out cipher r) = "failed"%string →
  jr_ErrorCode (finished a out cipher r) = "tool_not_attempted"%string.
Proof.
  unfold finished. destruct (settled_outcome out) as [res e]. unfold outcome_state. intros Hr.
  destruct e as [e|]; [|done]. rewrite bool_decide_eq_false_2 by done. by destruct e.
Qed.

(** ** At most one execution of an effect *)

Definition attempts (k : string) (lg : list (string * bool)) : Z := len (filter (λ e, e = (k, true)) lg).
Definition active (k : string) (fl : list (string * AgentToolboxAction)) : Z := len (filter (λ c, c.1 = k) fl).

Definition started_for (s : Store) (k : string) (a : AgentToolboxAction) : Prop :=
  ∃ r, journal s !! k = Some r ∧ jr_State r = "started"%string ∧ jr_UserID r = ta_UserID a ∧ jr_Risk r = ta_Risk a.

Record sys_inv (x : Sys) : Prop := {
  si_started : ∀ k a, (k, a) ∈ sys_inflight x → started_for (sys_store x) k a;
  si_distinct : ∀ k, active k (sys_inflight x) <= 1;
  si_fresh : ∀ k, journal (sys_store x) !! k = None → attempts k (sys_log x) = 0;
  si_effects : ∀ k r, journal (sys_store x) !! k = Some r → jr_Risk r ≠ "read"%string →
    attempts k (sys_log x) + active k (sys_inflight x) <= 1 ∧
    (jr_State r = "failed"%string → jr_ErrorCode r = "tool_not_attempted"%string → attempts k (sys_log x) = 0) }.

Lemma active_cons k c fl : active k (c :: fl) = (if decide (c.1 = k) then 1 else 0) + active k fl.
Proof. unfold active. rewrite filter_cons. case_decide; [by rewrite len_cons|lia]. Qed.
Lemma active_remove k c fl1 fl2 : active k (fl1 ++ c :: fl2) = active k (c :: fl1 ++ fl2).
Proof. unfold active. rewrite !filter_app, !filter_cons, filter_app. case_decide; rewrite ?len_cons, ?len_app, ?len_cons; lia. Qed.
Lemma attempts_cons k k' b lg :
  attempts k ((k', b) :: lg) = (if decide (k' = k ∧ b = true) then 1 else 0) + attempts k lg.
Proof.
  unfold attempts. rewrite filter_cons. repeat case_decide; rewrite ?len_cons; simplify_eq; try lia; naive_solver.
Qed.
Lemma active_nonneg k fl : 0 <= active k fl.
Proof. apply len_nonneg. Qed.
Lemma attempts_nonneg k lg : 0 <= attempts k lg.
Proof. apply len_nonneg. Qed.
Lemma active_in k a fl : (k, a) ∈ fl → 0 < active k fl.
Proof.
  intros H. unfold active, len. assert ((k, a) ∈ filter (λ c : string * _, c.1 = k) fl) as Hin by (by apply list_elem_of_filter).
  destruct (filter _ fl); [by apply not_elem_of_nil in Hin|simpl; lia].
Qed.
Lemma active_none x k : sys_inv x → (∀ a, ¬ started_for (sys_store x) k a) → active k (sys_inflight x) = 0.
Proof.
  intros Hx Hn. unfold active. rewrite (proj2 (filter_nil_iff _ _)); [done|].
  intros [k' a] Hin Heq. simpl in Heq. subst k'. apply (Hn a). by apply (si_started _ Hx).
Qed.
(** A row that becomes [started] for a new call, when none of its own runs. *)
Lemma inv_start x k a r :
  sys_inv x → (∀ a, ¬ started_for (sys_store x) k a) →
  jr_State r = "started"%string → jr_UserID r = ta_UserID a → jr_Risk r = ta_Risk a →
  (jr_Risk r ≠ "read"%string → attempts k (sys_log x) = 0) →
  sys_inv (mkSys (set_journal (<[k := r]> (journal (sys_store x))) (sys_store x)) ((k, a) :: sys_inflight x) (sys_log x)).
Proof.
  intros Hx Hn Hs Hu Hr Ha. pose proof (active_none _ _ Hx Hn) as H0. split; simpl.
  - intros k' a'. rewrite elem_of_cons. intros [[= -> ->]|Hin]; [exists r; simpl; by rewrite lookup_insert_eq|].
    destruct (si_started _ Hx k' a' Hin) as (r' & Hr' & ?). exists r'. simpl. rewrite lookup_insert_ne; [done|].
    intros ->. pose proof (active_in _ _ _ Hin). lia.
  - intros k'. rewrite active_cons. pose proof (si_distinct _ Hx k'). simpl. case_decide; [subst; lia|lia].
  - intros k'. rewrite lookup_insert_None. intros [Hk _]. by apply (si_fresh _ Hx).
  - intros k' r'. rewrite active_cons. simpl. destruct (decide (k = k')) as [->|Hne].
    + rewrite lookup_insert_eq. intros [= <-] Hrisk. rewrite (Ha Hrisk). split; [lia|done].
    + rewrite lookup_insert_ne by done. intros Hk Hrisk. destruct (si_effects _ Hx k' r' Hk Hrisk). split; [lia|done].
Qed.

Lemma inv_claim a now x key s' :
  run (claimTx a now) (sys_store x) = (s', inr (Claimed key)) → sys_inv x →
  sys_inv (mkSys s' ((key, a) :: sys_inflight x) (sys_log x)).
Proof.
  intros H Hx. apply run_commit, claim_cases in H as [(Hn & [= ->] & ->)|(r & Hr & Hu & _ & _ & Hk & Hc)].
  - apply inv_start; try done.
    + intros a' (r & Hr & _). congruence.
    + intros _. by apply (si_fresh _ Hx).
  - destruct Hc as [(Ht & [= ->] & ->)|(_ & [=] & _)]. apply andb_true_iff in Ht as [Hf Ho].
    apply bool_decide_eq_true in Hf. apply inv_start; try done.
    + intros a' (r' & Hr' & Hs & _). congruence.
    + simpl. intros Hrisk. destruct (si_effects _ Hx _ _ Hr Hrisk) as [_ H0].
      apply orb_true_iff in Ho as [Ho|Ho]; bool_to_prop; [by apply H0|congruence].
Qed.

(** A call leaves the table of running calls, with its row kept or finished. *)
Lemma inv_leave s fl1 fl2 k a lg b r r' :
  sys_inv (mkSys s (fl1 ++ (k, a) :: fl2) lg) → journal s !! k = Some r →
  jr_Risk r' = jr_Risk r → jr_UserID r' = jr_UserID r →
  (jr_State r' = "failed"%string → jr_ErrorCode r' = "tool_not_attempted"%string → b = false) →
  sys_inv (mkSys (set_journal (<[k := r']> (journal s)) s) (fl1 ++ fl2) ((k, b) :: lg)).
Proof.
  intros Hx Hr Hk Hu Hf. pose proof (si_distinct _ Hx k) as Hd. simpl in Hd. rewrite active_remove, active_cons in Hd. simpl in Hd.
  rewrite decide_True in Hd by done. split; simpl.
  - intros k' a' Hin. destruct (si_started _ Hx k' a') as (q & Hq & ?); [set_solver|]. exists q. simpl. rewrite lookup_insert_ne; [done|].
    intros ->. pose proof (active_in _ _ _ Hin). lia.
  - intros k'. pose proof (si_distinct _ Hx k') as H. simpl in H. rewrite active_remove, active_cons in H. case_decide; lia.
  - intros k'. rewrite lookup_insert_None, attempts_cons. intros [Hn Hne]. rewrite decide_False by naive_solver.
    by apply (si_fresh _ Hx) in Hn.
  - intros k' q. rewrite attempts_cons. pose proof (active_nonneg k' (fl1 ++ fl2)). destruct (decide (k = k')) as [->|Hne].
    + rewrite lookup_insert_eq. intros [= <-] Hrisk. destruct (si_effects _ Hx k' r Hr ltac:(congruence)) as [Hle _]. simpl in Hle.
      rewrite active_remove, active_cons in Hle. simpl in Hle. rewrite decide_True in Hle by done.
      pose proof (attempts_nonneg k' lg). case_decide as Hb; (split; [lia|intros H1 H2]); [|lia].
      destruct Hb as [_ ->]. by specialize (Hf H1 H2).
    + rewrite lookup_insert_ne by done. intros Hq Hrisk. rewrite decide_False by naive_solver.
      destruct (si_effects _ Hx k' q Hq Hrisk) as [Hle H0]. simpl in Hle, H0. rewrite active_remove, active_cons in Hle.
      rewrite decide_False in Hle by done. split; [lia|]. intros. rewrite H0; [lia|done|done].
Qed.

Lemma inv_step allowed x y : step allowed x y → sys_inv x → sys_inv y.
Proof.
  intros H Hx. destruct H as [a now s key s' fl lg _ _ Hc|a key out s s' v fl1 fl2 lg Hf|a key s fl1 fl2 lg|s s' fl lg Hj].
  - by eapply (inv_claim _ _ (mkSys s fl lg)).
  - destruct (si_started _ Hx key a) as (r & Hr & Hs & Hu & Hk); [set_solver|]. simpl in Hr.
    destruct (finish_effect _ _ _ _ _ _ _ Hf Hr Hs Hu) as [(Hp & -> & _)|(cipher & Hp & ->)].
    + rewrite <- (set_journal_id s key r Hr). eapply inv_leave; [exact Hx|exact Hr|done..|by rewrite Hs].
    + destruct (finished_keeps a out cipher r) as (HU & _ & HR & _). eapply inv_leave; [exact Hx|done..|].
      apply finished_not_attempted.
  - destruct (si_started _ Hx key a) as (r & Hr & Hs & _); [set_solver|]. simpl in Hr.
    rewrite <- (set_journal_id s key r Hr). eapply inv_leave; [exact Hx|exact Hr|done..|by rewrite Hs].
  - destruct Hx as [H1 H2 H3 H4]. split; simpl in *; unfold started_for in *; rewrite ?Hj; simpl; done.
Qed.

Lemma inv_init s : sys_inv (mkSys s [] []).
Proof. split; simpl; [set_solver|done|done|]. intros. unfold attempts, active, len. simpl. split; [lia|done]. Qed.

Lemma inv_reach allowed s x : reach allowed (mkSys s [] []) x → sys_inv x.
Proof.
  intros H. assert (∀ y, rtc (step allowed) y x → sys_inv y → sys_inv x) as Hgo; [|by eapply Hgo, inv_init].
  clear H. intros y H. induction H as [|y z x Hs _ IH]; [done|]. intros Hy. by apply IH, (inv_step allowed y).
Qed.
(** C4: an effect is executed at most once.  However calls, retries, crashes and
    recoveries interleave, an action that is not a read is attempted at most once,
    counting the attempt that is running; only an attempt whose tool reported that
    it was not dispatched leaves room for another.  And the call that did execute
    always finds its row to record the outcome in. *)
Theorem effect_at_most_once allowed s x k r :
  reach allowed (mkSys s [] []) x → journal (sys_store x) !! k = Some r → jr_Risk r ≠ "read"%string →
  attempts k (sys_log x) + active k (sys_inflight x) <= 1 ∧
  ∀ a out cipher, (k, a) ∈ sys_inflight x → protected a out = Some cipher →
    journal (finish a k out (sys_store x)).1 !! k = Some (finished a out cipher r).
Proof.
  intros Hreach Hr Hrisk. pose proof (inv_reach _ _ _ Hreach) as Hx.
  split; [by apply (si_effects _ Hx k r)|]. intros a out cipher Hin Hp.
  destruct (si_started _ Hx k a Hin) as (q & Hq & Hs & Hu & _). rewrite Hr in Hq. injection Hq as <-.
  destruct (finish a k out (sys_store x)) as [s' v] eqn:Hf.
  destruct (finish_effect _ _ _ _ _ _ _ Hf Hr Hs Hu) as [(Hn & _)|(c & Hc & ->)]; [congruence|].
  simpl. rewrite lookup_insert_eq. congruence.
Qed.

(** ** One unsettled effect per run *)

Definition unsettled_in (userID runID : string) (j : gmap string JournalRow) (k : string) : Prop :=
  ∃ r, j !! k = Some r ∧ jr_UserID r = userID ∧ jr_RunID r = runID ∧ unsettled r = true.

Definition settled_run (userID runID : string) (x : Sys) : Prop :=
  ∀ k1 k2, unsettled_in userID runID (journal (sys_store x)) k1 →
           unsettled_in userID runID (journal (sys_store x)) k2 → k1 = k2.

Lemma earliest_none l : earliest l = None → l = [].
Proof.
  unfold earliest. destruct l as [|x l]; [done|]. simpl. destruct (foldr _ None l); [case_match|]; done.
Qed.

(** A settled claim finds no other unsettled effect in its run. *)
Lemma settled_claim a now s c s' k :
  claimTx a now s = inr (c, s') → ta_RequireSettledRun a = true →
  unsettled_in (ta_UserID a) (ta_RunID a) (journal s) k → k = ta_IdempotencyKey a.
Proof.
  unfold claimTx. intros H Hr (r & Hk & Hu & Hrun & Hun). rewrite Hr in H. simpl in H.
  apply bind_inr in H as ([] & s1 & Hg & _). unfold settledTx in Hg. tx_inv Hg.
  destruct (pending_effect _ _ _ _) as [p|] eqn:Hp; [tx_inv Hg; discriminate|].
  destruct (decide (k = ta_IdempotencyKey a)) as [|Hne]; [done|exfalso].
  apply earliest_none in Hp. rewrite filter_nil_iff in Hp. apply (Hp (k, r)); [by apply elem_of_map_to_list|].
  unfold blocks. simpl. rewrite !bool_decide_eq_true_2, bool_decide_eq_false_2 by done. by rewrite Hun.
Qed.
(** The unsettled effects of a run after one row changed. *)
Lemma unsettled_insert u run j key r k :
  unsettled_in u run (<[key := r]> j) k →
  k = key ∧ jr_UserID r = u ∧ jr_RunID r = run ∨ k ≠ key ∧ unsettled_in u run j k.
Proof.
  intros (q & Hq & Hu & Hr & Hun). destruct (decide (k = key)) as [->|Hne].
  - rewrite lookup_insert_eq in Hq. simplify_eq. by left.
  - rewrite lookup_insert_ne in Hq by done. right. split; [done|]. by exists q.
Qed.

Definition guarded (u run : string) (a : AgentToolboxAction) : Prop :=
  ta_UserID a = u → ta_RunID a = run → ta_RequireSettledRun a = true.

Lemma settled_claim_step u run a now s s' key fl lg :
  guarded u run a → claimTx a now s = inr (Claimed key, s') →
  settled_run u run (mkSys s fl lg) → settled_run u run (mkSys s' ((key, a) :: fl) lg).
Proof.
  intros Hg Hc Hx. pose proof Hc as Hc'. apply claim_cases in Hc.
  assert (∃ r, key = resolved_key a (journal s) ∧ s' = set_journal (<[key := r]> (journal s)) s ∧
    jr_UserID r = ta_UserID a ∧ jr_RunID r = ta_RunID a) as (r & Hkey & -> & Hu & Hr).
  { destruct Hc as [(_ & [= ->] & ->)|(r & Hr & Hu & _ & Hrun & _ & [(_ & [= ->] & ->)|(_ & [=] & _)])]; eauto 10. }
  assert (∀ k, unsettled_in u run (journal s) k → k ≠ key → (ta_UserID a, ta_RunID a) = (u, run) → False) as Hno.
  { intros k Hk Hne [= Hu' Hr']. rewrite <- Hu', <- Hr' in Hk.
    pose proof (settled_claim _ _ _ _ _ k Hc' (Hg Hu' Hr') Hk) as ->. destruct Hk as (q & Hq & _).
    apply Hne. rewrite Hkey. unfold resolved_key. rewrite (bool_decide_eq_true_2 (is_Some (journal s !! ta_IdempotencyKey a))) by eauto.
    by case_match. }
  intros k1 k2 H1 H2. simpl in H1, H2.
  apply unsettled_insert in H1 as [(-> & Hu1 & Hr1)|[Hn1 H1]], H2 as [(-> & Hu2 & Hr2)|[Hn2 H2]]; [done|..|by apply (Hx k1 k2)].
  - exfalso. apply (Hno k2 H2 Hn2). congruence.
  - exfalso. apply (Hno k1 H1 Hn1). congruence.
Qed.

Lemma settled_finish_step u run s s' fl fl' lg lg' k r r' :
  journal s !! k = Some r → journal s' = <[k := r']> (journal s) → (unsettled r' = true → unsettled r = true) →
  jr_UserID r' = jr_UserID r → jr_RunID r' = jr_RunID r →
  settled_run u run (mkSys s fl lg) → settled_run u run (mkSys s' fl' lg').
Proof.
  intros Hk Hj Hun Hu Hr Hx. assert (∀ q, unsettled_in u run (journal s') q → unsettled_in u run (journal s) q) as Hsub.
  { rewrite Hj. intros q (p & Hp & ? & ? & ?). destruct (decide (q = k)) as [->|].
    - rewrite lookup_insert_eq in Hp. simplify_eq. exists r. split_and!; [done|congruence|congruence|by apply Hun].
    - rewrite lookup_insert_ne in Hp by done. by exists p. }
  intros k1 k2 H1 H2. apply (Hx k1 k2); by apply Hsub.
Qed.

Lemma settled_step u run x y :
  step (guarded u run) x y → sys_inv x → settled_run u run x → settled_run u run y.
Proof.
  intros H Hx Hset. destruct H as [a now s key s' fl lg Ha _ Hc|a key out s s' v fl1 fl2 lg Hf|a key s fl1 fl2 lg|s s' fl lg Hj].
  - apply run_commit in Hc. by eapply settled_claim_step.
  - destruct (si_started _ Hx key a) as (r & Hr & Hs & Hu & Hk); [set_solver|]. simpl in Hr.
    destruct (finish_effect _ _ _ _ _ _ _ Hf Hr Hs Hu) as [(Hp & -> & _)|(cipher & Hp & ->)]; [exact Hset|].
    destruct (finished_keeps a out cipher r) as (HU & HR & HK & _).
    eapply (settled_finish_step _ _ s); [exact Hr|done| |exact HU|exact HR|exact Hset].
    unfold unsettled. rewrite HK, Hs. intros Hun. apply andb_true_iff in Hun as [-> _]. done.
  - exact Hset.
  - intros k1 k2. simpl. rewrite Hj. apply Hset.
Qed.

(** C6: when every call of a run asks for a settled run, the run never has two
    effects whose outcome is open or uncertain at once, however its calls
    interleave, and a call that would start a second one is refused. *)
Theorem one_unsettled_effect u run s x :
  reach (guarded u run) (mkSys s [] []) x → settled_run u run (mkSys s [] []) →
  settled_run u run x ∧
  ∀ k a now s', unsettled_in u run (journal (sys_store x)) k → ta_UserID a = u → ta_RunID a = run →
    ta_RequireSettledRun a = true → k ≠ ta_IdempotencyKey a →
    ¬ ∃ c, claimTx a now (sys_store x) = inr (c, s').
Proof.
  intros Hreach Hs. split.
  - assert (∀ y, rtc (step (guarded u run)) y x → sys_inv y → settled_run u run y → settled_run u run x) as Hgo.
    + clear. intros y H. induction H as [|y z x Hs _ IH]; [done|]. intros Hy Hset.
      apply IH; [by eapply inv_step|by eapply settled_step].
    + by eapply Hgo, Hs; [|apply inv_init].
  - intros k a now s' Hk Hu Hr Ha Hne [c Hc]. subst u run. by apply (settled_claim _ _ _ _ _ k Hc Ha) in Hk.
Qed.
(** ** Replay *)

Lemma completed_step allowed x y k r :
  step allowed x y → sys_inv x → journal (sys_store x) !! k = Some r → jr_State r = "completed"%string →
  journal (sys_store y) !! k = Some r.
Proof.
  intros H Hx Hk Hd. destruct H as [a now s key s' fl lg _ _ Hc|a key out s s' v fl1 fl2 lg Hf|a key s fl1 fl2 lg|s s' fl lg Hj];
    simpl in *; [| |done|by rewrite Hj].
  - apply run_commit, claim_cases in Hc as [(Hn & _ & ->)|(q & Hq & _ & _ & _ & _ & [(Ht & _ & ->)|(_ & _ & ->)])]; [..|done].
    + simpl. rewrite lookup_insert_ne; [done|]. intros <-. congruence.
    + simpl. rewrite lookup_insert_ne; [done|]. intros <-. simplify_eq. unfold retryable in Ht. by rewrite Hd in Ht.
  - destruct (si_started _ Hx key a) as (q & Hq & Hs & Hu & _); [set_solver|]. simpl in Hq.
    destruct (finish_effect _ _ _ _ _ _ _ Hf Hq Hs Hu) as [(_ & -> & _)|(c & _ & ->)]; [done|].
    simpl. rewrite lookup_insert_ne; [done|]. intros ->. congruence.
Qed.

Lemma completed_reach allowed x y k r :
  reach allowed x y → sys_inv x → journal (sys_store x) !! k = Some r → jr_State r = "completed"%string →
  journal (sys_store y) !! k = Some r.
Proof.
  intros H. induction H as [|x y z Hs _ IH]; [done|]. intros Hx Hk Hd.
  apply IH; [by eapply inv_step|by eapply completed_step|done].
Qed.

(** A call that returned a result left it in its row. *)
Lemma finish_result a k out s s' v r :
  finish a k out s = (s', inr v) → journal s !! k = Some r → jr_State r = "started"%string → jr_UserID r = ta_UserID a →
  ∃ cipher, protected a out = Some cipher ∧ settled_outcome out = (v, None) ∧
    s' = set_journal (<[k := finished a out cipher r]> (journal s)) s.
Proof.
  intros Hf Hr Hs Hu. destruct (finish_effect _ _ _ _ _ _ _ Hf Hr Hs Hu) as [(_ & _ & [=])|(c & Hp & ->)].
  exists c. split; [done|]. split; [|done]. unfold finish in Hf. rewrite Hp in Hf. destruct (run _ s) as [s1 [e|u]]; [done|].
  destruct (settled_outcome out) as [res [e|]]; [by case_match|]. by injection Hf as _ ->.
Qed.

Definition sealed (a : AgentToolboxAction) : Prop :=
  ∀ protect restore v c, ta_ProtectResult a = Some protect → ta_RestoreResult a = Some restore →
    protect (RJson v) = Some c → c ≠ ""%string ∧ restore c = Some (RJson v).

Lemma finished_replay a b out cipher r v :
  protected a out = Some cipher → settled_outcome out = (v, None) → sealed a →
  ta_RedactPayload b = ta_RedactPayload a → ta_RestoreResult b = ta_RestoreResult a →
  (ta_RedactPayload a = true → is_Some (ta_RestoreResult a)) →
  jr_State (finished a out cipher r) = "completed"%string ∧ replay b (finished a out cipher r) = inr v.
Proof.
  intros Hp Ho Hseal Hrb Hrestore Hsome. unfold protected in Hp. rewrite Ho in Hp.
  unfold finished, replay. rewrite Ho. simpl. split; [done|]. rewrite Hrb, Hrestore.
  destruct (ta_RedactPayload a); simpl; [|done]. destruct (ta_ProtectResult a) as [protect|] eqn:E; [|done].
  destruct (Hsome eq_refl) as [restore Hres]. rewrite Hres.
  assert (∃ j, v = RJson j) as [j ->].
  { destruct out as [[| |j] [e|]]; simpl in Ho; injection Ho as <-; try done. by exists j. }
  destruct (protect (RJson j)) as [c|] eqn:Hc; [|done]. injection Hp as <-. destruct (Hseal _ _ _ _ E Hres Hc) as [Hne Hrc].
  by rewrite bool_decide_eq_false_2, Hrc.
Qed.

(** A result, once returned, is what every later call with the action's key is
    given, without executing the tool again: whatever happens in between, a later
    call either is refused by its checks or replays exactly that result, also when
    the stored copy is encrypted. *)
Theorem completed_replays allowed s0 s fl1 fl2 lg a b k out s1 v x now c s2 :
  reach allowed (mkSys s0 [] []) (mkSys s (fl1 ++ (k, a) :: fl2) lg) →
  admissible a = true → sealed a → finish a k out s = (s1, inr v) →
  reach allowed (mkSys s1 (fl1 ++ fl2) ((k, attempted out) :: lg)) x →
  ta_RedactPayload b = ta_RedactPayload a → ta_RestoreResult b = ta_RestoreResult a →
  claimTx b now (sys_store x) = inr (c, s2) → resolved_key b (journal (sys_store x)) = k →
  s2 = sys_store x ∧ ∃ r, c = Existing k r ∧ replay b r = inr v.
Proof.
  intros Hreach Hadm Hseal Hf Hlater Hred Hres Hc Hk. pose proof (inv_reach _ _ _ Hreach) as Hx.
  destruct (si_started _ Hx k a) as (r & Hr & Hs & Hu & _); [set_solver|]. simpl in Hr.
  destruct (finish_result _ _ _ _ _ _ _ Hf Hr Hs Hu) as (cipher & Hp & Ho & Hs1).
  assert (ta_RedactPayload a = true → is_Some (ta_RestoreResult a)) as Hsome.
  { intros E. unfold admissible in Hadm. rewrite E in Hadm. destruct (ta_RestoreResult a); [done|].
    rewrite (bool_decide_eq_true_2 (None = None)), orb_true_r, andb_false_r in Hadm by done. done. }
  destruct (finished_replay a b out cipher r v Hp Ho Hseal Hred Hres Hsome) as [Hd Hrep].
  assert (journal (sys_store x) !! k = Some (finished a out cipher r)) as Hlook.
  { eapply completed_reach; [exact Hlater| | |exact Hd].
    - eapply inv_step; [by eapply (step_finish allowed)|exact Hx].
    - rewrite Hs1. simpl. by rewrite lookup_insert_eq. }
  apply claim_cases in Hc. rewrite Hk in Hc.
  destruct Hc as [(Hn & _)|(q & Hq & _ & _ & _ & _ & [(Ht & _)|(_ & -> & ->)])]; [congruence|..].
  - rewrite Hlook in Hq. injection Hq as <-. unfold retryable in Ht. by rewrite Hd in Ht.
  - split; [done|]. exists q. split; [done|]. rewrite Hlook in Hq. by injection Hq as <-.
Qed.
End journal.

(** ** A run of one effect *)

Definition example_run : Run :=
  mkRun "user" "" "running" "runtime" "" "" "routine" "" (mkPayload true None true) 0 1 20 1 1800000 0 None.
Definition example_store : Store :=
  mkStore ∅ ∅ {["invocation_1" := example_run]} ∅ ∅ ∅ ∅ ∅ ∅ ∅ ∅ [].
Definition seal (r : raw) : option string := Some "sealed"%string.
Definition unseal (c : string) : option raw := Some (RJson (JStr "sent")).
Definition example_action (key : string) : AgentToolboxAction :=
  mkAction key true "" "user" "invocation_1" "mail.send" "sdk.capability" "write" empty_object true
    (Some (λ r, match r with RJson (JStr "sent") => Some "sealed"%string | _ => None end)) (Some unseal).
Definition example_print (v : json) : string := "fingerprint".
Definition example_claimed : Store :=
  set_journal {["k" := new_row example_print (example_action "k") 5]} example_store.
Definition example_sent : raw * option run_error := (RJson (JStr "sent"), None).

Lemma example_claim :
  step example_print (guarded "user" "invocation_1") (mkSys example_store [] [])
    (mkSys example_claimed [("k"%string, example_action "k")] []).
Proof. by apply (step_claim _ _ (example_action "k") 5). Qed.

Lemma example_sealed k : sealed (example_action k).
Proof. intros protect restore v c [= <-] [= <-]. destruct v as [| | |v| |]; try done. by repeat case_match; intros [= <-]. Qed.

Lemma example_settled : settled_run "user" "invocation_1" (mkSys example_store [] []).
Proof. intros k1 k2 (r & Hr & _). done. Qed.

Lemma effect_at_most_once_witness :
  attempts "k" [] + active "k" [("k"%string, example_action "k")] <= 1.
Proof.
  assert (∃ r, journal example_claimed !! "k"%string = Some r ∧ jr_Risk r ≠ "read"%string) as (r & Hr & Hk)
    by (eexists; split; [reflexivity|discriminate]).
  exact (proj1 (effect_at_most_once example_print _ example_store _ "k" r
                  (rtc_once _ _ example_claim) Hr Hk)).
Defined.

Lemma one_unsettled_effect_witness :
  ¬ ∃ c, claimTx example_print (example_action "other") 6 example_claimed = inr (c, example_claimed).
Proof.
  refine (proj2 (one_unsettled_effect example_print "user" "invocation_1" example_store
                   (mkSys example_claimed [("k"%string, example_action "k")] [])
                   (rtc_once _ _ example_claim) example_settled) "k"%string (example_action "other") 6 _ _ _ _ _ _);
    [eexists; split_and!; reflexivity|reflexivity..|discriminate].
Defined.

Lemma completed_replays_witness :
  let s1 := (finish (example_action "k") "k" example_sent example_claimed).1 in
  ∃ r, journal s1 !! "k"%string = Some r ∧ replay (example_action "k") r = inr (RJson (JStr "sent")).
Proof.
  intros s1. assert (∃ r, claimTx example_print (example_action "k") 9 s1 = inr (Existing "k" r, s1)) as [r Hc]
    by (eexists; vm_compute; reflexivity).
  destruct (completed_replays example_print _ example_store example_claimed [] [] [] (example_action "k") (example_action "k")
              "k" example_sent s1 (RJson (JStr "sent")) (mkSys s1 [] [("k"%string, true)]) 9 (Existing "k" r) s1
              (rtc_once _ _ example_claim) eq_refl (example_sealed "k") eq_refl (rtc_refl _ _) eq_refl eq_refl Hc eq_refl)
    as (_ & q & Hq & Hrep).
  exists q. split; [|exact Hrep]. injection Hq as <-. injection Hc as <-. reflexivity.
Defined.
