(* ===== verification/RunBudget.v ===== *)
(** * What a run may use: time, model turns, one runtime

    Models [agent_execution_budget.go], [agent_model_turn_budgets.go] and
    [agent_runtime_start_receipts.go] of [internal/platform/postgres], the turn
    checks of [routine_agent_steps.go] and the activation of a runtime
    ([ai_invocation_persistence.go]).  Clock readings and fresh tokens are
    arguments. *)
From S2P Require Import Prelude Tx GoStrings Json RunStore.

(** ** The execution clock *)

Record AgentExecutionBudget := mkBudget {
  eb_Version : Z; eb_LimitMS : Z; eb_ConsumedMS : Z; eb_RemainingMS : Z; eb_Active : bool; eb_Deadline : option Z }.

(** [elapsed.Milliseconds()], plus one when there is a remainder. *)
Definition elapsed_ms (elapsed : Z) : Z :=
  if elapsed <=? 0 then 0
  else elapsed `div` Millisecond + (if elapsed `mod` Millisecond =? 0 then 0 else 1).

Definition consumed_at (r : Run) (now : Z) : Z :=
  let consumed := Z.min (run_ConsumedMS r) (run_LimitMS r) in
  match run_ActiveAt r with
  | Some since => consumed + Z.min (elapsed_ms (time_sub now since)) (Z.max 0 (run_LimitMS r - consumed))
  | None => consumed
  end.

Definition agentRunExecutionBudgetTx (runID : string) (begin_ : bool) (now : Z) : T AgentExecutionBudget :=
  s ← get;
  r ← require (runs s !! runID) ErrNoRows;
  if run_BudgetVersion r =? 0 then mret (mkBudget 0 0 0 0 false None)
  else
    let consumed := consumed_at r now in
    let remaining := Z.max 0 (run_LimitMS r - consumed) in
    guard_tx (negb (begin_ && (remaining =? 0))) ErrAgentExecutionTimeLimit;;
    let start := begin_ && bool_decide (run_ActiveAt r = None) in
    when start (modify (set_runs (<[runID := with_clock (run_ConsumedMS r) (Some now) r]> (runs s))));;
    let active := if start then Some now else run_ActiveAt r in
    mret (mkBudget (run_BudgetVersion r) (run_LimitMS r) consumed remaining (bool_decide (active ≠ None))
            ((λ since, since + Z.max 0 (run_LimitMS r - run_ConsumedMS r) * Millisecond) <$> active)).

(** The rows these operations see: an invocation handed over to an agent run is
    not addressed by its own id. *)
Definition budgeted_run (s : Store) (runID userID : string) : option Run :=
  r ← owned_run s runID userID;
  guard (is_invocation runID = true → run_AgentRunID r = ""%string);;
  Some r.

Definition execution_scope (runID : string) (r : Run) : string :=
  if is_invocation runID && bool_decide (run_SurfaceID r = "sdk"%string) then "capabilities.invoke" else "ai.write".

Definition AgentRunExecutionBudget (userID runID runtimeID : string) (begin_ : bool) (now : Z)
    : T AgentExecutionBudget :=
  guard_tx (negb (bool_decide (userID = ""%string) || bool_decide (runID = ""%string) ||
                  bool_decide (runtimeID = ""%string))) ErrSpaceInvalid;;
  s ← get;
  r ← require (budgeted_run s runID userID) ErrSpaceForbidden;
  guard_tx (bool_decide (run_RuntimeID r = runtimeID) &&
            negb (begin_ && negb (bool_decide (run_State r = "running"%string)))) ErrSpaceForbidden;;
  authority ← AppAuthorityFromPayload (run_Payload r);
  validateAppExecutionAuthorityTx authority userID (run_SpaceID r) [execution_scope runID r];;
  when (negb (bool_decide (run_SpaceID r = ""%string))) (requireSpaceMemberTx (run_SpaceID r) userID);;
  agentRunExecutionBudgetTx runID begin_ now.

(** ** Model turns *)

Section turns.
(** [ValidID] of [capabilities/targets.go]: [uuid.Parse] accepts the text and
    prints it back. *)
Context (validID : string → bool).

Definition RoutineAgentModelNode (nodeID : string) : option (string * Z) :=
  rest ← CutPrefix nodeID "model:routine:";
  '(namespace, number) ← Cut rest ":"%char;
  guard (validID namespace = true);;
  turn ← ParseInt number;
  guard (1 <= turn <= 20 ∧ Itoa turn = number);;
  Some (namespace, turn).

(** [^[A-Za-z0-9_-]{1,120}$] *)
Definition model_call_id (s : string) : bool :=
  forallb (λ a, ((65 <=? code a) && (code a <=? 90)) || ((97 <=? code a) && (code a <=? 122)) || is_digit a || (code a =? 95) || (code a =? 45))
    (String.list_ascii_of_string s) && (1 <=? strlen s) && (strlen s <=? 120).

(** The call ids of a routine's agent steps: the [namespace_of] of the components
    that authorize and admit calls. *)
Definition RoutineAgentCallNamespace (callID : string) : option string :=
  '(namespace, suffix) ← Cut callID ":"%char;
  if validID namespace && model_call_id suffix then Some namespace else None.

Definition model_node (namespace : string) (turn : Z) : string :=
  "model:routine:" +:+ namespace +:+ ":" +:+ Itoa turn.

(** [routineAgentRunLockTx]. *)
Definition routineAgentRunLockTx (userID runID runtimeID : string) (allowWait : bool) (now : Z) : T () :=
  s ← get;
  r ← require (owned_run s runID userID) ErrNoRows;
  rr ← require (routine_runs s !! runID) ErrNoRows;
  guard_tx (bool_decide (rr_UserID rr = userID)) ErrNoRows;;
  guard_tx (bool_decide (run_RuntimeID r = runtimeID) && (now <? run_ExpiresAt r) && negb (rr_CancelRequested rr) &&
            (bool_decide (run_State r = "running"%string) ||
             allowWait && bool_decide (run_State r = "awaiting_approval"%string))) ErrSpaceConflict;;
  sdkTargetSpaceAccessTx userID (run_SpaceID r).

(** The step of a run with this call namespace, unique in the schema. *)
Definition step_of_namespace (s : Store) (runID namespace : string) : option AgentStep :=
  snd <$> head (filter (λ kv : (string * string) * AgentStep,
    kv.1.1 = runID ∧ as_CallNamespace kv.2 = namespace) (map_to_list (agent_steps s))).

Definition acknowledged (s : Store) (runID userID nodeID : string) : bool :=
  match turn_claims s !! (runID, nodeID) with
  | Some c => bool_decide (tc_UserID c = userID) && bool_decide (tc_Usage c ≠ None)
  | None => false
  end.

Definition routineAgentModelTurnTx (userID runID runtimeID nodeID : string) (now : Z) : T () :=
  '(namespace, turn) ← require (RoutineAgentModelNode nodeID) ErrSpaceForbidden;
  routineAgentRunLockTx userID runID runtimeID false now;;
  s ← get;
  step ← require (step_of_namespace s runID namespace) ErrNoRows;
  guard_tx (bool_decide (as_State step = "running"%string) && (turn <=? as_MaxTurns step)) ErrAgentModelTurnLimit;;
  guard_tx ((turn <=? 1) || acknowledged s runID userID (model_node namespace (turn - 1))) ErrSpaceConflict.

(** [SELECT count] over the claims of a run. *)
Definition claimed_turns (runID : string) (m : gmap (string * string) TurnClaim) : Z :=
  len (filter (λ kv : (string * string) * TurnClaim, kv.1.1 = runID) (map_to_list m)).

Definition ReserveAgentModelTurn (userID runID runtimeID nodeID : string) (now : Z) : T () :=
  guard_tx (negb (bool_decide (userID = ""%string) || bool_decide (runtimeID = ""%string) ||
                  negb (HasPrefix nodeID "model:") || (strlen nodeID <? 7) || (200 <? strlen nodeID))) ErrSpaceInvalid;;
  s ← get;
  r ← require (budgeted_run s runID userID) ErrSpaceForbidden;
  guard_tx (bool_decide (run_RuntimeID r = runtimeID) && bool_decide (run_State r = "running"%string)) ErrSpaceForbidden;;
  authority ← AppAuthorityFromPayload (run_Payload r);
  validateAppExecutionAuthorityTx authority userID (run_SpaceID r) ["ai.write"%string];;
  when (negb (bool_decide (run_SpaceID r = ""%string))) (requireSpaceMemberTx (run_SpaceID r) userID);;
  _ ← agentRunExecutionBudgetTx runID true now;
  when (pl_Routine (run_Payload r)) (routineAgentModelTurnTx userID runID runtimeID nodeID now);;
  if run_ModelBudgetVersion r =? 0 then mret ()
  else
    s ← get;
    match turn_claims s !! (runID, nodeID) with
    | Some c =>
        if bool_decide (tc_UserID c = userID) then guard_tx (bool_decide (tc_RuntimeID c = runtimeID)) ErrSpaceForbidden
        else
          guard_tx (claimed_turns runID (turn_claims s) <? run_ModelTurnLimit r) ErrAgentModelTurnLimit;;
          fail (ErrConstraint "agent_model_turn_claims_pkey")
    | None =>
        guard_tx (claimed_turns runID (turn_claims s) <? run_ModelTurnLimit r) ErrAgentModelTurnLimit;;
        modify (set_turn_claims (<[(runID, nodeID) := mkClaim userID runtimeID None]> (turn_claims s)))
    end.

(** The usage arrives decoded; [None] stands for one that is not JSON or longer
    than 4096 bytes. *)
Definition RecordRoutineModelUsage (userID runID runtimeID nodeID : string) (usage : option json) : T () :=
  _ ← require (RoutineAgentModelNode nodeID) ErrSpaceInvalid;
  usage ← require usage ErrSpaceInvalid;
  s ← get;
  r ← require (owned_run s runID userID) ErrNoRows;
  guard_tx (bool_decide (run_SurfaceID r = "routine"%string)) ErrNoRows;;
  guard_tx (bool_decide (run_RuntimeID r = runtimeID)) ErrSpaceForbidden;;
  c ← require (turn_claims s !! (runID, nodeID)) ErrNoRows;
  guard_tx (bool_decide (tc_UserID c = userID) && bool_decide (tc_RuntimeID c = runtimeID)) ErrNoRows;;
  match tc_Usage c with
  | Some previous => guard_tx (json_eqb previous usage) ErrSpaceConflict
  | None => modify (set_turn_claims (<[(runID, nodeID) := mkClaim (tc_UserID c) (tc_RuntimeID c) (Some usage)]>
                                       (turn_claims s)))
  end.
End turns.

(** ** One runtime per run *)

Record StartResult := mkStart { st_Claimed : bool; st_ClaimToken : string; st_RuntimeRunID : string }.

Definition BetaAgentRuntimeAdapter : string := "vercel-workflow/1".

(** [claim] and [runtimeID] are empty in a request for permission to start and
    filled in one that records the started runtime; [token] is fresh. *)
Definition AgentRuntimeStartReceipt (runID adapter callback claim runtimeID token : string) : T StartResult :=
  guard_tx (is_invocation runID || HasPrefix runID "run_") ErrSpaceInvalid;;
  guard_tx (bool_decide (adapter = BetaAgentRuntimeAdapter) && negb (bool_decide (callback = ""%string)) &&
            Bool.eqb (bool_decide (claim = ""%string)) (bool_decide (runtimeID = ""%string)) &&
            (strlen runtimeID <=? 512)) ErrSpaceInvalid;;
  s ← get;
  r ← require (runs s !! runID) ErrSpaceNotFound;
  guard_tx (bool_decide (run_AdapterVersion r = adapter) && bool_decide (run_CallbackEndpoint r = callback))
    ErrSpaceForbidden;;
  let '(stored, recorded) :=
    match start_receipts s !! runID with Some q => (sr_Token q, sr_RuntimeID q) | None => (""%string, ""%string) end in
  let bound := run_RuntimeID r in
  if negb (bool_decide (claim = ""%string)) then
    guard_tx (bool_decide (stored = claim) &&
              (bool_decide (recorded = ""%string) || bool_decide (recorded = runtimeID)) &&
              (bool_decide (bound = ""%string) || bool_decide (bound = runtimeID))) ErrSpaceConflict;;
    modify (set_start_receipts (alter (λ q, mkReceipt (sr_Token q) runtimeID) runID (start_receipts s)));;
    mret (mkStart false "" runtimeID)
  else if negb (bool_decide (bound = ""%string)) then mret (mkStart false "" bound)
  else if negb (bool_decide (recorded = ""%string)) then mret (mkStart false "" recorded)
  else
    guard_tx (bool_decide (run_State r ∈ ["queued"; "running"]%string)) ErrSpaceConflict;;
    if negb (bool_decide (stored = ""%string)) then mret (mkStart false "" "")
    else
      guard_tx (bool_decide (start_receipts s !! runID = None)) (ErrConstraint "agent_runtime_start_receipts_pkey");;
      modify (set_start_receipts (<[runID := mkReceipt token ""]> (start_receipts s)));;
      mret (mkStart true token "").

(** [ActivateAIInvocationRuntime]. *)
Definition ActivateAIInvocationRuntime (runID runtimeKind runtimeRunID : string) (clock : Z) : T Run :=
  let runtimeRunID := TrimSpace runtimeRunID in
  guard_tx (negb (bool_decide (TrimSpace runtimeKind = ""%string) || bool_decide (runtimeRunID = ""%string)))
    ErrSpaceInvalid;;
  s ← get;
  r ← require (runs s !! runID) ErrSpaceConflict;
  guard_tx (is_invocation runID && bool_decide (run_State r ∈ ["queued"; "running"]%string) &&
            (bool_decide (run_RuntimeID r = ""%string) || bool_decide (run_RuntimeID r = runtimeRunID)))
    ErrSpaceConflict;;
  let r := update_state clock "running" (with_runtime runtimeRunID r) in
  modify (set_runs (<[runID := r]> (runs s)));;
  mret r.

(** ** The clock is exact

    The reference: the periods of active execution of a run, the closed ones and
    the open one. *)
Record Clock := mkClock { spent : list Z; since : option Z }.

Definition sum_ms (l : list Z) : Z := foldr (λ d acc, ceil_ms d + acc) 0 l.
Definition total (c : Clock) (now : Z) : Z :=
  sum_ms (spent c) + match since c with Some t => ceil_ms (now - t) | None => 0 end.

Definition resume (t : Z) (c : Clock) : Clock := mkClock (spent c) (Some (default t (since c))).
Definition pause (t : Z) (c : Clock) : Clock :=
  match since c with Some t0 => mkClock ((t - t0) :: spent c) None | None => c end.

Definition clock_columns (r : Run) : Z * Z * Z * option Z :=
  (run_BudgetVersion r, run_LimitMS r, run_ConsumedMS r, run_ActiveAt r).

(** What can happen to a run's clock: an admitted operation starts it, a change of
    state pauses it, any other statement leaves its columns alone. *)
Inductive clock_step (runID : string) : Store * Clock → Store * Clock → Prop :=
  | clock_begin t b s s' c :
      run (agentRunExecutionBudgetTx runID true t) s = (s', inr b) → clock_step runID (s, c) (s', resume t c)
  | clock_state t state s c :
      clock_step runID (s, c)
        (set_run_state t runID state s, if bool_decide (state = "running"%string) then c else pause t c)
  | clock_other s s' c :
      clock_columns <$> (runs s' !! runID) = clock_columns <$> (runs s !! runID) → clock_step runID (s, c) (s', c).

Lemma ceil_ms_nonneg d : 0 <= ceil_ms d.
Proof. unfold ceil_ms. lia. Qed.
Lemma sum_ms_nonneg l : 0 <= sum_ms l.
Proof. induction l as [|d l IH]; simpl; [lia|]. pose proof (ceil_ms_nonneg d). lia. Qed.

Lemma elapsed_ms_ceil d : elapsed_ms d = ceil_ms d.
Proof.
  unfold elapsed_ms, ceil_ms, Millisecond. case_if; bool_to_prop.
  - assert ((d + 1000000 - 1) `div` 1000000 <= 0); [|lia]. apply Z.lt_succ_r, Z.div_lt_upper_bound; lia.
  - pose proof (Z.div_mod d 1000000 ltac:(lia)). pose proof (Z.mod_pos_bound d 1000000 ltac:(lia)).
    case_if; bool_to_prop.
    + assert ((d + 1000000 - 1) `div` 1000000 = d `div` 1000000); [|lia].
      symmetry. apply (Z.div_unique _ _ _ 999999); lia.
    + assert ((d + 1000000 - 1) `div` 1000000 = d `div` 1000000 + 1); [|lia].
      symmetry. apply (Z.div_unique _ _ _ (d `mod` 1000000 - 1)); lia.
Qed.

Lemma ceil_ms_ge d n : 0 < n → n <= ceil_ms d ↔ (n - 1) * Millisecond < d.
Proof.
  unfold ceil_ms, Millisecond. intros Hn. pose proof (Z.div_mod (d + 1000000 - 1) 1000000 ltac:(lia)).
  pose proof (Z.mod_pos_bound (d + 1000000 - 1) 1000000 ltac:(lia)). lia.
Qed.

(** The saturation of [Time.Sub] is out of reach of a thirty-minute limit. *)
Lemma capped_elapsed now t n : n <= 1800000 → Z.min (elapsed_ms (time_sub now t)) (Z.max 0 n) = Z.min (ceil_ms (now - t)) (Z.max 0 n).
Proof.
  intros Hn. rewrite elapsed_ms_ceil. unfold time_sub, MinInt64, MaxInt64.
  destruct (decide (now - t < 0)) as [Hneg|Hpos].
  - unfold ceil_ms, Millisecond.
    assert ((now - t + 1000000 - 1) `div` 1000000 < 1) by (apply Z.div_lt_upper_bound; lia).
    assert ((Z.max (-9223372036854775808) (Z.min 9223372036854775807 (now - t)) + 1000000 - 1) `div` 1000000 < 1)
      by (apply Z.div_lt_upper_bound; lia).
    lia.
  - set (sat := Z.max _ _). destruct (decide (now - t <= 9223372036854775807)).
    { replace sat with (now - t) by lia. done. }
    replace sat with 9223372036854775807 by lia. pose proof (ceil_ms_nonneg (now - t)).
    pose proof (ceil_ms_nonneg 9223372036854775807). destruct (decide (n <= 0)); [lia|].
    pose proof (proj2 (ceil_ms_ge (now - t) n ltac:(lia)) ltac:(unfold Millisecond; lia)).
    pose proof (proj2 (ceil_ms_ge 9223372036854775807 n ltac:(lia)) ltac:(unfold Millisecond; lia)). lia.
Qed.

(** The stored columns represent a clock. *)
Definition represents (limit : Z) (runID : string) (s : Store) (c : Clock) : Prop :=
  ∃ r, runs s !! runID = Some r ∧ run_BudgetVersion r = 1 ∧ run_LimitMS r = limit ∧
    run_ActiveAt r = since c ∧ run_ConsumedMS r = Z.min limit (sum_ms (spent c)) ∧
    (since c ≠ None → sum_ms (spent c) < limit).

Lemma consumed_total limit runID s c r now :
  1 <= limit <= 1800000 → represents limit runID s c → runs s !! runID = Some r →
  consumed_at r now = Z.min limit (total c now).
Proof.
  intros Hl (q & Hq & _ & Hlim & Ha & Hc & _) Hr. simplify_eq. unfold consumed_at, total. rewrite Ha, Hc.
  pose proof (sum_ms_nonneg (spent c)). destruct (since c) as [t|]; [|lia].
  rewrite capped_elapsed by lia. pose proof (ceil_ms_nonneg (now - t)). lia.
Qed.

Lemma represents_step limit runID s c s' c' :
  1 <= limit <= 1800000 → clock_step runID (s, c) (s', c') → represents limit runID s c → represents limit runID s' c'.
Proof.
  intros Hl H (r & Hr & Hv & Hlim & Ha & Hc & Hs). inversion H as [t b s1 s2 c1 Hb|t state s1 c1|s1 s2 c1 Hcol]; simplify_eq.
  - apply run_commit in Hb. unfold agentRunExecutionBudgetTx in Hb. tx_inv Hb. simplify_eq. rewrite Hv in Hb. simpl in Hb.
    tx_inv Hb. simplify_eq. unfold when in Hb1. rewrite Ha in Hb1. destruct (since c) as [t0|] eqn:Es; simpl in Hb1; tx_inv Hb1.
    + exists r. unfold resume. rewrite Es. done.
    + exists (with_clock (run_ConsumedMS r) (Some t) r). simpl. rewrite lookup_insert_eq. unfold resume. rewrite Es.
      split_and!; try done. intros _. unfold consumed_at in Hb0. rewrite Ha, Hc in Hb0. simpl in Hb0. bool_to_prop. simpl. lia.
  - exists (update_state t state r). unfold set_run_state. simpl. rewrite lookup_alter_eq, Hr. split; [done|].
    unfold update_state, pause_clock, pause. simpl. rewrite Ha.
    destruct (since c) as [t0|] eqn:Es; case_bool_decide; simpl; rewrite ?Es; try (split_and!; done).
    split_and!; [done..| |done]. rewrite Hc. pose proof (ceil_ms_nonneg (t - t0)). lia.
  - rewrite Hr in Hcol. destruct (runs s' !! runID) as [q|] eqn:Hq; [|done]. exists q. injection Hcol as ? ? ? ?.
    split_and!; try congruence. intros Hne. specialize (Hs Hne). lia.
Qed.

(** C10: the execution clock accounts for every moment of a run's activity.  After
    any sequence of admitted operations and state changes, the budget reports the
    sum of the run's active periods in rounded-up milliseconds, capped by its
    limit; an operation is admitted exactly while that sum is below the limit; and
    the deadline it is given is the instant, to the millisecond, at which nothing
    remains. *)
Theorem execution_clock_exact limit runID s0 s c now :
  1 <= limit <= 1800000 → represents limit runID s0 (mkClock [] None) →
  rtc (clock_step runID) (s0, mkClock [] None) (s, c) →
  (∃ b, agentRunExecutionBudgetTx runID false now s = inr (b, s) ∧
        eb_ConsumedMS b = Z.min limit (total c now) ∧ eb_RemainingMS b = Z.max 0 (limit - total c now) ∧
        ∀ d, eb_Deadline b = Some d →
          (d <= now → eb_RemainingMS b = 0) ∧ (eb_RemainingMS b = 0 → d - Millisecond < now)) ∧
  (total c now < limit ↔ ∃ b s', agentRunExecutionBudgetTx runID true now s = inr (b, s')).
Proof.
  intros Hl H0 Hrtc. assert (represents limit runID s c) as Hrep.
  { remember (s0, mkClock [] None) as x eqn:Ex. remember (s, c) as y eqn:Ey.
    assert (represents limit runID x.1 x.2) as Hx by (by rewrite Ex). clear Ex H0. revert Hx.
    change (represents limit runID x.1 x.2 → represents limit runID (s, c).1 (s, c).2). rewrite <- Ey. clear Ey.
    induction Hrtc as [|[s1 c1] [s2 c2] z Hs _ IH]; [done|]. intros Hx. apply IH. by eapply represents_step. }
  pose proof Hrep as (r & Hr & Hv & Hlim & Ha & Hc & Hs). pose proof (consumed_total _ _ _ _ _ now Hl Hrep Hr) as Hcons.
  assert (0 <= total c now) as Hpos.
  { unfold total. pose proof (sum_ms_nonneg (spent c)). destruct (since c) as [t|]; [pose proof (ceil_ms_nonneg (now - t))|]; lia. }
  unfold agentRunExecutionBudgetTx, mbind, tx_bind, get, require, guard_tx, when. rewrite Hr. simpl. rewrite Hv, Hcons, Hlim. simpl.
  split.
  - eexists. split; [done|]. simpl. split_and!; [done|lia|]. intros d. rewrite Ha, Hc. destruct (since c) as [t|] eqn:Es; [|done].
    simpl. intros [= <-]. specialize (Hs ltac:(done)). rewrite Z.min_r by lia. rewrite Z.max_r by lia.
    unfold total. rewrite Es. pose proof (ceil_ms_ge (now - t) (limit - sum_ms (spent c)) ltac:(lia)) as Hge.
    unfold Millisecond in *. split; lia.
  - destruct (Z.eqb_spec (Z.max 0 (limit - Z.min limit (total c now))) 0); simpl.
    + split; [lia|]. intros (b & s' & [=]).
    + split; [|lia]. intros _. case_bool_decide; simpl; by eexists _, _.
Qed.

(** ** Turns are bounded and sequential *)

Definition admission (r : Run) : Z * Z * Payload := (run_ModelTurnLimit r, run_ModelBudgetVersion r, run_Payload r).

(** Same claims, and every run admitted on the same terms. *)
Definition same_terms (s s' : Store) : Prop :=
  turn_claims s' = turn_claims s ∧ ∀ id, admission <$> (runs s' !! id) = admission <$> (runs s !! id).

Lemma budget_frame runID b now s e s' : agentRunExecutionBudgetTx runID b now s = inr (e, s') → same_terms s s'.
Proof.
  unfold agentRunExecutionBudgetTx. intros H. apply bind_inr in H as (? & ? & Hg & H). injection Hg as <- <-.
  apply bind_inr in H as (r & ? & Hr & H). apply require_inr in Hr as [Hr ->].
  destruct (run_BudgetVersion r =? 0); [by tx_inv H|].
  apply bind_inr in H as (? & ? & Hg & H). apply guard_inr in Hg as [_ ->].
  apply bind_inr in H as (? & s1 & Hw & H). tx_inv H. unfold when in Hw. destruct (b && _); tx_inv Hw; [|done].
  split; [done|]. intros id. simpl.
  destruct (decide (id = runID)) as [->|]; [by rewrite lookup_insert_eq, Hr|by rewrite lookup_insert_ne].
Qed.

Lemma when_frame b (m : T ()) s u s' : (∀ u s', m s = inr (u, s') → s' = s) → when b m s = inr (u, s') → s' = s.
Proof. unfold when. destruct b; [eauto|]. intros _ H. by injection H. Qed.

Lemma member_frame spaceID userID s u s' : requireSpaceMemberTx spaceID userID s = inr (u, s') → s' = s.
Proof. unfold requireSpaceMemberTx. intros H. by tx_inv H. Qed.

Lemma access_frame userID spaceID s u s' : sdkTargetSpaceAccessTx userID spaceID s = inr (u, s') → s' = s.
Proof. apply when_frame. intros. by eapply member_frame. Qed.

Lemma payload_frame p s a s' : AppAuthorityFromPayload p s = inr (a, s') → s' = s.
Proof. unfold AppAuthorityFromPayload. intros H. tx_inv H. destruct (pl_Authority p); by tx_inv H. Qed.

Lemma authority_frame a u sp scopes s v s' : validateAppExecutionAuthorityTx a u sp scopes s = inr (v, s') → s' = s.
Proof. unfold validateAppExecutionAuthorityTx. intros H. destruct a; by tx_inv H. Qed.

Section turn_steps.
Context (validID : string → bool).

Lemma lock_frame userID runID runtimeID w now s u s' : routineAgentRunLockTx userID runID runtimeID w now s = inr (u, s') → s' = s.
Proof. unfold routineAgentRunLockTx. intros H. tx_inv H. by apply access_frame in H. Qed.

Lemma turn_inv userID runID runtimeID nodeID now s u s' :
  routineAgentModelTurnTx validID userID runID runtimeID nodeID now s = inr (u, s') →
  s' = s ∧ ∃ namespace turn, RoutineAgentModelNode validID nodeID = Some (namespace, turn) ∧
    (turn <= 1 ∨ acknowledged s runID userID (model_node namespace (turn - 1)) = true).
Proof.
  unfold routineAgentModelTurnTx. intros H. apply bind_inr in H as ([ns t] & s1 & Hn & H). apply require_inr in Hn as [Hn ->].
  apply bind_inr in H as (? & s2 & Hl & H). apply lock_frame in Hl as ->. tx_inv H. split; [done|].
  exists ns, t. split; [done|]. bool_to_prop. destruct H as [H|H]; bool_to_prop; [by left|by right].
Qed.

Lemma reserve_inv userID runID runtimeID nodeID now s u s' :
  ReserveAgentModelTurn validID userID runID runtimeID nodeID now s = inr (u, s') →
  same_terms s s' ∨
  ∃ r s1, runs s !! runID = Some r ∧ run_Owner r = userID ∧ same_terms s s1 ∧
    turn_claims s !! (runID, nodeID) = None ∧ claimed_turns runID (turn_claims s) < run_ModelTurnLimit r ∧
    s' = set_turn_claims (<[(runID, nodeID) := mkClaim userID runtimeID None]> (turn_claims s1)) s1 ∧
    (pl_Routine (run_Payload r) = true → ∃ namespace turn, RoutineAgentModelNode validID nodeID = Some (namespace, turn) ∧
       (turn <= 1 ∨ acknowledged s runID userID (model_node namespace (turn - 1)) = true)).
Proof.
  unfold ReserveAgentModelTurn. intros H. apply bind_inr in H as (? & ? & Hg & H). apply guard_inr in Hg as [_ ->].
  apply bind_inr in H as (? & ? & Hg & H). injection Hg as <- <-.
  apply bind_inr in H as (r & ? & Hr & H). apply require_inr in Hr as [Hr ->].
  apply bind_inr in H as (? & ? & Hg & H). apply guard_inr in Hg as [_ ->].
  apply bind_inr in H as (au & ? & Hp & H). apply payload_frame in Hp as ->.
  apply bind_inr in H as (? & ? & Ha & H). apply authority_frame in Ha as ->.
  apply bind_inr in H as (? & ? & Hm & H). apply when_frame in Hm as ->; [|by intros ? ? ?%member_frame].
  apply bind_inr in H as (e & s1 & Hb & H). apply budget_frame in Hb as Hsame.
  apply bind_inr in H as (? & s2 & Ht & H).
  assert (s2 = s1) as -> by (revert Ht; apply when_frame; by intros ? ? [-> _]%turn_inv).
  assert (runs s !! runID = Some r ∧ run_Owner r = userID) as [Hrun Hown].
  { unfold budgeted_run, owned_run in Hr. destruct (runs s !! runID); [|done]. simpl in Hr. case_guard; [|done]. simpl in Hr.
    case_guard; [|done]. by simplify_eq/=. }
  destruct (run_ModelBudgetVersion r =? 0); [tx_inv H; simplify_eq; by left|].
  apply bind_inr in H as (? & ? & Hg & H). injection Hg as <- <-.
  destruct (turn_claims s1 !! (runID, nodeID)) eqn:Hc.
  - case_bool_decide; tx_inv H. by left.
  - tx_inv H. right. exists r, s1. destruct Hsame as [Hsame Hterms]. rewrite Hsame in *. bool_to_prop.
    split_and!; try done. intros Hrt. rewrite Hrt in Ht. simpl in Ht. apply turn_inv in Ht as [_ (ns & t & Hn & Hack)].
    exists ns, t. split; [done|]. unfold acknowledged in *. by rewrite Hsame in Hack.
Qed.
End turn_steps.

Section turn_theorems.
Context (validID : string → bool).

Lemma usage_inv userID runID runtimeID nodeID usage s u s' :
  RecordRoutineModelUsage validID userID runID runtimeID nodeID usage s = inr (u, s') →
  s' = s ∨ ∃ c v, turn_claims s !! (runID, nodeID) = Some c ∧ tc_Usage c = None ∧
    s' = set_turn_claims (<[(runID, nodeID) := mkClaim (tc_UserID c) (tc_RuntimeID c) (Some v)]> (turn_claims s)) s.
Proof.
  unfold RecordRoutineModelUsage. intros H. apply bind_inr in H as (? & ? & Hg & H). apply require_inr in Hg as [_ ->].
  apply bind_inr in H as (v & ? & Hg & H). apply require_inr in Hg as [_ ->].
  apply bind_inr in H as (? & ? & Hg & H). injection Hg as <- <-.
  apply bind_inr in H as (r & ? & Hg & H). apply require_inr in Hg as [_ ->].
  apply bind_inr in H as (? & ? & Hg & H). apply guard_inr in Hg as [_ ->].
  apply bind_inr in H as (? & ? & Hg & H). apply guard_inr in Hg as [_ ->].
  apply bind_inr in H as (c & ? & Hg & H). apply require_inr in Hg as [Hc ->].
  apply bind_inr in H as (? & ? & Hg & H). apply guard_inr in Hg as [_ ->].
  destruct (tc_Usage c) eqn:Hu; tx_inv H; [by left|right; eauto 10].
Qed.

(** Claims, acknowledgements, and anything else that leaves the claims alone. *)
Inductive turn_step : Store → Store → Prop :=
  | turn_reserve userID runID runtimeID nodeID now s s' :
      run (ReserveAgentModelTurn validID userID runID runtimeID nodeID now) s = (s', inr ()) → turn_step s s'
  | turn_usage userID runID runtimeID nodeID usage s s' :
      run (RecordRoutineModelUsage validID userID runID runtimeID nodeID usage) s = (s', inr ()) → turn_step s s'
  | turn_other s s' : same_terms s s' → turn_step s s'.

(** A claim of turn [n] of a routine's agent presupposes an acknowledged claim of
    turn [n - 1]. *)
Definition in_sequence (runID : string) (s : Store) : Prop :=
  ∀ nodeID c, turn_claims s !! (runID, nodeID) = Some c →
    ∃ namespace turn, RoutineAgentModelNode validID nodeID = Some (namespace, turn) ∧
      (turn <= 1 ∨ acknowledged s runID (tc_UserID c) (model_node namespace (turn - 1)) = true).

Record turns_ok (limit : Z) (routine : bool) (runID : string) (s : Store) : Prop := {
  to_terms : ∃ r, runs s !! runID = Some r ∧ run_ModelTurnLimit r = limit ∧ pl_Routine (run_Payload r) = routine;
  to_bound : claimed_turns runID (turn_claims s) <= limit;
  to_sequence : routine = true → in_sequence runID s }.

(** Claims are never withdrawn and usage never erased. *)
Definition grows (s s' : Store) : Prop :=
  ∀ k c, turn_claims s !! k = Some c →
    ∃ c', turn_claims s' !! k = Some c' ∧ tc_UserID c' = tc_UserID c ∧ (tc_Usage c ≠ None → tc_Usage c' ≠ None).

Lemma acknowledged_grows s s' runID userID nodeID :
  grows s s' → acknowledged s runID userID nodeID = true → acknowledged s' runID userID nodeID = true.
Proof.
  unfold acknowledged. intros Hg H. destruct (turn_claims s !! (runID, nodeID)) as [c|] eqn:Hc; [|done].
  destruct (Hg _ _ Hc) as (c' & -> & Hu & Hn). bool_to_prop. rewrite Hu, !bool_decide_eq_true_2; [done|by apply Hn|done].
Qed.

Lemma grows_insert k v s :
  (∀ c, turn_claims s !! k = Some c → tc_UserID v = tc_UserID c ∧ tc_Usage c = None) →
  grows s (set_turn_claims (<[k := v]> (turn_claims s)) s).
Proof.
  intros H k' c Hc. simpl. destruct (decide (k = k')) as [->|].
  - exists v. rewrite lookup_insert_eq. destruct (H c Hc) as [Hu Hn]. by rewrite Hn.
  - exists c. by rewrite lookup_insert_ne.
Qed.

Lemma sequence_grows runID s s' k v :
  in_sequence runID s → grows s s' → turn_claims s' = <[k := v]> (turn_claims s) →
  (k.1 = runID → ∃ namespace turn, RoutineAgentModelNode validID k.2 = Some (namespace, turn) ∧
     (turn <= 1 ∨ acknowledged s runID (tc_UserID v) (model_node namespace (turn - 1)) = true)) →
  in_sequence runID s'.
Proof.
  intros Hs Hg Hm Hk nodeID c Hc. rewrite Hm in Hc.
  assert (∃ namespace turn, RoutineAgentModelNode validID nodeID = Some (namespace, turn) ∧
     (turn <= 1 ∨ acknowledged s runID (tc_UserID c) (model_node namespace (turn - 1)) = true)) as (ns & t & Hn & Ht).
  { destruct (decide (k = (runID, nodeID))) as [->|].
    - rewrite lookup_insert_eq in Hc. injection Hc as <-. by apply Hk.
    - rewrite lookup_insert_ne in Hc by done. by apply Hs. }
  exists ns, t. split; [done|]. destruct Ht as [|Ht]; [by left|right]. by eapply acknowledged_grows.
Qed.

Lemma turns_step limit routine runID s s' : turn_step s s' → turns_ok limit routine runID s → turns_ok limit routine runID s'.
Proof.
  intros H [(q & Hq & Hlim & Hrt) Hb Hseq]. destruct H as [userID rid runtimeID nodeID now s s' Hr|userID rid runtimeID nodeID usage s s' Hu|s s' [Hc Ht]].
  - apply run_commit, reserve_inv in Hr as [[Hc Ht]|(r & s1 & Hrun & Hown & [Hc Ht] & Hnew & Hlt & -> & Hack)].
    + pose proof (Ht runID) as Hq'. rewrite Hq in Hq'. destruct (runs s' !! runID) as [r'|] eqn:E; [|done]. injection Hq' as ? ? ?.
      split; [exists r'; split_and!; congruence|by rewrite Hc|].
      intros Hr nodeID' c. rewrite Hc. intros Hl. destruct (Hseq Hr _ _ Hl) as (ns & t & ? & Hk). exists ns, t. split; [done|].
      unfold acknowledged in *. by rewrite Hc.
    + pose proof (Ht runID) as Hq'. rewrite Hq in Hq'. destruct (runs s1 !! runID) as [r'|] eqn:E; [|done]. injection Hq' as ? ? ?.
      split; simpl.
      * exists r'. split_and!; congruence.
      * rewrite Hc. unfold claimed_turns in *. rewrite map_count_insert by done. simpl. case_decide; [|lia]. subst rid.
        assert (r = q) as -> by congruence. lia.
      * intros Hr. eapply (sequence_grows _ s _ (rid, nodeID) (mkClaim userID runtimeID None)); [by apply Hseq| |by rewrite <- Hc|].
        -- intros k c Hk. simpl. rewrite Hc. destruct (decide (k = (rid, nodeID))) as [->|]; [congruence|].
           exists c. by rewrite lookup_insert_ne.
        -- simpl. intros ->. apply Hack. assert (r = q) as -> by congruence. congruence.
  - apply run_commit, usage_inv in Hu as [->|(c & v & Hc & Hn & ->)]; [by split; eauto|]. split; simpl; [by eauto| |].
    + unfold claimed_turns in *. by rewrite (map_count_update _ _ _ c).
    + intros Hr. eapply (sequence_grows _ s _ (rid, nodeID)); [by apply Hseq| |done|].
      * apply grows_insert. intros c'. rewrite Hc. by intros [= <-].
      * simpl. intros ->. by apply (Hseq Hr).
  - pose proof (Ht runID) as Hq'. rewrite Hq in Hq'. destruct (runs s' !! runID) as [r'|] eqn:E; [|done]. injection Hq' as ? ? ?.
    split; [exists r'; split_and!; congruence|by rewrite Hc|].
    intros Hr nodeID' c. rewrite Hc. intros Hl. destruct (Hseq Hr _ _ Hl) as (ns & t & ? & Hk). exists ns, t. split; [done|].
    unfold acknowledged in *. by rewrite Hc.
Qed.
(** A run never has more claimed model turns than its admission allows, and
    the turns of a routine's agent are claimed in order, each only after the usage
    of the one before it was acknowledged, whatever workers, retries and
    acknowledgements do; and claiming a turn again, after a lost response, uses up
    nothing. *)
Theorem turns_within_budget limit routine runID s s' :
  turns_ok limit routine runID s → rtc turn_step s s' →
  claimed_turns runID (turn_claims s') <= limit ∧ (routine = true → in_sequence runID s') ∧
  ∀ userID runtimeID nodeID now c s2, turn_claims s' !! (runID, nodeID) = Some c →
    ReserveAgentModelTurn validID userID runID runtimeID nodeID now s' = inr ((), s2) → turn_claims s2 = turn_claims s'.
Proof.
  intros Hok Hrtc. assert (turns_ok limit routine runID s') as [_ Hb Hseq].
  { induction Hrtc as [|x y z Hs _ IH]; [done|]. by apply IH, (turns_step _ _ _ x). }
  split_and!; [done|done|]. intros userID runtimeID nodeID now c s2 Hc Hr.
  apply reserve_inv in Hr as [[-> _]|(r & s1 & _ & _ & _ & Hn & _)]; [done|congruence].
Qed.
End turn_theorems.

(** ** A run is started once *)

(** [starts] counts the permissions to start given out for a run. *)
Inductive start_step (runID : string) : Store * Z → Store * Z → Prop :=
  | start_receipt id adapter callback claim runtimeID token s s' res n :
      token ≠ ""%string → run (AgentRuntimeStartReceipt id adapter callback claim runtimeID token) s = (s', inr res) →
      start_step runID (s, n) (s', if bool_decide (id = runID) && st_Claimed res then n + 1 else n)
  | start_activate id kind runtimeID clock s s' r n :
      run (ActivateAIInvocationRuntime id kind runtimeID clock) s = (s', inr r) → start_step runID (s, n) (s', n)
  | start_other s s' n : start_receipts s' = start_receipts s → start_step runID (s, n) (s', n).

Definition starts_ok (runID : string) (x : Store * Z) : Prop :=
  match start_receipts x.1 !! runID with
  | None => x.2 = 0
  | Some q => sr_Token q ≠ ""%string ∧ x.2 <= 1
  end.

Lemma receipt_inv id adapter callback claim runtimeID token s s' res :
  AgentRuntimeStartReceipt id adapter callback claim runtimeID token s = inr (res, s') →
  (st_Claimed res = true ∧ start_receipts s !! id = None ∧ start_receipts s' = <[id := mkReceipt token ""]> (start_receipts s)) ∨
  (st_Claimed res = false ∧ start_receipts s' = alter (λ q, mkReceipt (sr_Token q) runtimeID) id (start_receipts s)) ∨
  (st_Claimed res = false ∧ s' = s).
Proof.
  unfold AgentRuntimeStartReceipt. intros H. apply bind_inr in H as (? & ? & Hg & H). apply guard_inr in Hg as [_ ->].
  apply bind_inr in H as (? & ? & Hg & H). apply guard_inr in Hg as [_ ->].
  apply bind_inr in H as (? & ? & Hg & H). injection Hg as <- <-.
  apply bind_inr in H as (r & ? & Hg & H). apply require_inr in Hg as [_ ->].
  apply bind_inr in H as (? & ? & Hg & H). apply guard_inr in Hg as [_ ->].
  destruct (match start_receipts s !! id with Some q => _ | None => _ end) as [stored recorded].
  destruct (negb (bool_decide (claim = ""%string))); [tx_inv H; simplify_eq; auto|].
  destruct (negb (bool_decide (run_RuntimeID r = ""%string))); [tx_inv H; simplify_eq; auto|].
  destruct (negb (bool_decide (recorded = ""%string))); [tx_inv H; simplify_eq; auto|].
  apply bind_inr in H as (? & ? & Hg & H). apply guard_inr in Hg as [_ ->].
  destruct (negb (bool_decide (stored = ""%string))); [tx_inv H; simplify_eq; auto|].
  apply bind_inr in H as (? & ? & Hg & H). apply guard_inr in Hg as [Hn ->]. bool_to_prop. tx_inv H. simplify_eq. auto.
Qed.

Lemma activate_receipts id kind runtimeID clock s r s' :
  ActivateAIInvocationRuntime id kind runtimeID clock s = inr (r, s') → start_receipts s' = start_receipts s.
Proof. unfold ActivateAIInvocationRuntime. intros H. tx_inv H. by simplify_eq. Qed.

Lemma starts_step runID x y : start_step runID x y → starts_ok runID x → starts_ok runID y.
Proof.
  unfold starts_ok. intros H Hx. destruct H as [id adapter callback claim rt token s s' res n Ht Hr|id kind rt clock s s' r n Ha|s s' n Heq];
    simpl in *; [|apply run_commit, activate_receipts in Ha; by rewrite Ha|by rewrite Heq].
  apply run_commit, receipt_inv in Hr as [(-> & Hn & ->)|[(-> & ->)|(-> & ->)]].
  - case_bool_decide as Hid; simpl; [subst id|rewrite lookup_insert_ne by done; done].
    rewrite lookup_insert_eq. rewrite Hn in Hx. simpl. split; [done|lia].
  - rewrite andb_false_r. destruct (decide (id = runID)) as [->|]; [|by rewrite lookup_alter_ne].
    rewrite lookup_alter_eq. by destruct (start_receipts s !! runID).
  - by rewrite andb_false_r.
Qed.

(** A run is submitted to the workflow engine at most once: among all requests
    for permission to start it, concurrent, repeated or after a crash, only the
    first to reach the database is told to go ahead. *)
Theorem started_once runID s0 s n :
  start_receipts s0 !! runID = None → rtc (start_step runID) (s0, 0) (s, n) → 0 <= n <= 1.
Proof.
  intros H0 Hrtc. assert (starts_ok runID (s, n) ∧ 0 <= (s, n).2) as [Hok Hn].
  { assert (starts_ok runID (s0, 0)) as Hx by (unfold starts_ok; simpl; by rewrite H0).
    assert (0 <= (s0, 0).2) as Hz by (simpl; lia). revert Hx Hz. generalize dependent (s0, 0). generalize dependent (s, n).
    intros y x Hrtc. induction Hrtc as [|x z y Hs _ IH]; [done|]. intros Hx Hz. apply IH; [by eapply starts_step|].
    destruct Hs; simpl in *; [case_match; lia|lia|lia]. }
  unfold starts_ok in Hok. simpl in *. destruct (start_receipts s !! runID); lia.
Qed.

(** ** A run on the clock *)

Definition clocked_run : Run :=
  mkRun "user" "" "running" "runtime" BetaAgentRuntimeAdapter "callback" "chat" "" (mkPayload true None false) 0
    1 2 1 1000 0 None.
Definition clocked_store : Store :=
  mkStore ∅ ∅ {["invocation_1" := clocked_run]} ∅ ∅ ∅ ∅ ∅ ∅ ∅ ∅ [].
Definition ticking_store : Store :=
  set_runs {["invocation_1" := with_clock 0 (Some (5 * Millisecond)) clocked_run]} clocked_store.

Lemma clocked_start : clock_step "invocation_1" (clocked_store, mkClock [] None) (ticking_store, mkClock [] (Some (5 * Millisecond))).
Proof.
  pose proof (clock_begin "invocation_1" (5 * Millisecond) (mkBudget 1 1000 0 1000 true (Some (1005 * Millisecond)))
                clocked_store ticking_store (mkClock [] None)) as H. apply H. reflexivity.
Qed.

Lemma execution_clock_exact_witness :
  let paused := set_run_state (8 * Millisecond + 1) "invocation_1" "awaiting_approval" ticking_store in
  ∃ b, agentRunExecutionBudgetTx "invocation_1" false (60 * Second) paused = inr (b, paused) ∧
    eb_ConsumedMS b = 4 ∧ eb_RemainingMS b = 996.
Proof.
  intros paused.
  assert (represents 1000 "invocation_1" clocked_store (mkClock [] None)) as Hrep by (exists clocked_run; split_and!; done).
  destruct (execution_clock_exact 1000 "invocation_1" clocked_store paused (mkClock [3 * Millisecond + 1] None) (60 * Second)
              ltac:(lia) Hrep) as [(b & Hb & Hc & Hr & _) _].
  - eapply rtc_l; [exact clocked_start|]. apply rtc_once.
    exact (clock_state "invocation_1" (8 * Millisecond + 1) "awaiting_approval" ticking_store (mkClock [] (Some (5 * Millisecond)))).
  - exists b. split; [exact Hb|]. split; [exact Hc|exact Hr].
Defined.

Definition any_id (id : string) : bool := true.

Lemma turns_within_budget_witness :
  let s' := set_turn_claims {[("invocation_1"%string, "model:0"%string) := mkClaim "user" "runtime" None]} ticking_store in
  claimed_turns "invocation_1" (turn_claims s') <= 2.
Proof.
  intros s'.
  assert (turns_ok any_id 2 false "invocation_1" clocked_store) as Hok.
  { split; [exists clocked_run; split_and!; reflexivity|discriminate|discriminate]. }
  refine (proj1 (turns_within_budget any_id 2 false "invocation_1" clocked_store s' Hok _)).
  apply rtc_once. apply (turn_reserve any_id "user" "invocation_1" "runtime" "model:0" (5 * Millisecond)).
  vm_compute. reflexivity.
Defined.

Definition unstarted_store : Store := set_runs {["invocation_1" := with_runtime "" clocked_run]} clocked_store.

Lemma started_once_witness :
  let s' := set_start_receipts {["invocation_1" := mkReceipt "token" ""]} unstarted_store in
  rtc (start_step "invocation_1") (unstarted_store, 0) (s', 1) ∧ 0 <= 1 <= 1.
Proof.
  intros s'. assert (rtc (start_step "invocation_1") (unstarted_store, 0) (s', 1)) as Hrtc.
  { apply rtc_once. apply (start_receipt "invocation_1" "invocation_1" BetaAgentRuntimeAdapter "callback" "" "" "token"
                             unstarted_store s' (mkStart true "token" "") 0); [discriminate|vm_compute; reflexivity]. }
  split; [exact Hrtc|]. exact (started_once "invocation_1" unstarted_store s' 1 eq_refl Hrtc).
Defined.
