(* ===== verification/RoutineValues.v ===== *)
(** * Expressions of routines

    Models [internal/capabilities/routine_values.go] and the static checks of
    [internal/capabilities/routines.go]: the data references a routine's steps are
    written with, their evaluation against the trigger and the results of earlier
    steps, conditions, and the check, before a routine is admitted, that a step
    refers to earlier steps only.

    Expressions are decoded JSON.  Objects are kept sorted by key; an object whose
    fields fail in different ways reports the first in that order, where the Go
    code reports the first it happens to meet. *)
From S2P Require Import Prelude GoStrings Json.

Inductive value_error := ErrInvalid | ErrRoutineReferenceMissing.

#[export] Instance value_error_eq_dec : EqDecision value_error.
Proof. solve_decision. Defined.

Definition R := sum value_error.

(** [item["kind"]], when it is a string. *)
Definition kind_of (o : object) : string :=
  match get_field o "kind" with Some (JStr k) => k | _ => "" end.
Definition has_kind (o : object) (k : string) : bool := String.eqb (kind_of o) k.

Definition object_field (o : object) (key : string) : option object :=
  match get_field o key with Some (JObj x) => Some x | _ => None end.
Definition array_field (o : object) (key : string) : option (list json) :=
  match get_field o key with Some (JArr x) => Some x | _ => None end.
Definition string_field (o : object) (key : string) : option string :=
  match get_field o key with Some (JStr x) => Some x | _ => None end.

(** [Decode] refuses documents nested deeper than forty levels. *)
Definition decodable (v : json) : bool := (depth v <=? 41)%nat.

(** ** References *)

Fixpoint follow (item : json) (path : list json) : R json :=
  match path with
  | [] => inr item
  | JStr key :: path =>
      match item with
      | JObj o => item ← from_option ErrRoutineReferenceMissing (get_field o key); follow item path
      | _ => inl ErrRoutineReferenceMissing
      end
  | JNum n :: path =>
      match item, n with
      | JArr l, NInt index =>
          if index <? 0 then inl ErrRoutineReferenceMissing
          else item ← from_option ErrRoutineReferenceMissing (l !! Z.to_nat index); follow item path
      | _, _ => inl ErrRoutineReferenceMissing
      end
  | _ :: _ => inl ErrInvalid
  end.

Section evaluation.
Context (trigger : raw) (steps : gmap string raw).

(** The document a reference starts from. *)
Definition source_document (source : object) : R raw :=
  if has_kind source "step" then
    from_option ErrRoutineReferenceMissing (steps !! default ""%string (string_field source "stepId"))
  else if has_kind source "trigger" then inr trigger
  else inl ErrInvalid.

Definition reference_value (e : object) : R json :=
  source ← from_option ErrInvalid (object_field e "source");
  document ← source_document source;
  item ← from_option ErrInvalid (unmarshal document);
  path ← from_option ErrInvalid (array_field e "path");
  follow item path.

(** Fuel [33]: a deeper expression is invalid. *)
Fixpoint routineValue (fuel : nat) (e : object) : R json :=
  match fuel with
  | O => inl ErrInvalid
  | S fuel =>
      let child (v : json) : R json := match v with JObj e => routineValue fuel e | _ => inl ErrInvalid end in
      if has_kind e "literal" then from_option ErrInvalid (get_field e "value")
      else if has_kind e "reference" then reference_value e
      else if has_kind e "object" then
        fields ← from_option ErrInvalid (object_field e "fields");
        result ← map_result (λ kv : string * json, v ← child kv.2; mret (kv.1, v)) fields;
        mret (JObj result)
      else if has_kind e "array" then
        items ← from_option ErrInvalid (array_field e "items");
        result ← map_result child items;
        mret (JArr result)
      else inl ErrInvalid
  end.

(** The length of a value's JSON text. *)
Context (marshal_len : json → Z).

Definition RoutineResolveValue (expression : option json) : R json :=
  match expression with
  | Some (JObj e) =>
      ensure (decodable (JObj e)) ErrInvalid;;
      v ← routineValue 33 e;
      ensure (marshal_len v <=? Z.shiftl 1 20) ErrInvalid;;
      mret v
  | _ => inl ErrInvalid
  end.

(** ** Conditions *)

(** [all] and [any] stop at the first condition that decides them. *)
Fixpoint decide_all (eval : json → R bool) (want : bool) (l : list json) : R bool :=
  match l with
  | [] => inr (negb want)
  | c :: l => v ← eval c; if Bool.eqb v want then inr want else decide_all eval want l
  end.

Definition evaluate_body (eval : option json → R bool) (condition : object) : R bool :=
  match get_field condition "kind" with
  | Some (JStr kind) =>
      if String.eqb kind "equals" then
        a ← RoutineResolveValue (get_field condition "left");
        b ← RoutineResolveValue (get_field condition "right");
        mret (json_eqb a b)
      else if String.eqb kind "exists" then
        match RoutineResolveValue (get_field condition "reference") with
        | inl ErrRoutineReferenceMissing => inr false
        | inl e => inl e
        | inr _ => inr true
        end
      else if String.eqb kind "not" then
        v ← eval (get_field condition "condition"); mret (negb v)
      else if String.eqb kind "all" || String.eqb kind "any" then
        children ← match get_field condition "conditions" with
                   | Some (JArr l) => inr l
                   | Some JNull => inr []
                   | _ => inl ErrInvalid
                   end;
        decide_all (λ c, eval (Some c)) (String.eqb kind "any") children
      else inl ErrInvalid
  | _ => inl ErrInvalid
  end.

(** The condition's depth is fuel enough: [evaluate_fuel]. *)
Fixpoint evaluate (fuel : nat) (raw : option json) : R bool :=
  match raw with
  | None => inr true
  | Some (JObj condition) =>
      if negb (decodable (JObj condition)) then inl ErrInvalid
      else match fuel with O => inl ErrInvalid | S fuel => evaluate_body (evaluate fuel) condition end
  | Some _ => inl ErrInvalid
  end.

Definition RoutineEvaluateCondition (raw : option json) : R bool :=
  evaluate (match raw with Some v => depth v | None => O end) raw.
End evaluation.

(** ** The static check *)

(** [walk] of [routineReferencesValid].  A step source without a string id, which
    the schema of definitions excludes, stops the Go code; here it is refused. *)
Fixpoint references_valid (seen : gset string) (item : json) : bool :=
  let fix all (l : list json) : bool := match l with [] => true | x :: l => references_valid seen x && all l end in
  let fix fields (l : list (string * json)) : bool :=
    match l with [] => true | (_, x) :: l => references_valid seen x && fields l end in
  match item with
  | JObj o =>
      if has_kind o "literal" then true
      else if has_kind o "reference" then
        let source := default [] (object_field o "source") in
        has_kind source "trigger" ||
        has_kind source "step" &&
          match string_field source "stepId" with Some id => bool_decide (id ∈ seen) | None => false end
      else if has_kind o "object" then
        match object_field o "fields" with
        | Some f => (len f <=? 100) && fields o
        | None => false
        end
      else fields o
  | JArr l => all l
  | _ => true
  end.

Definition routineReferencesValid (raw : option json) (seen : gset string) : bool :=
  match raw with None => true | Some v => references_valid seen v end.

(** ** The grammar of [routine-definition.json]

    Its schemas [__schema1] (expressions) and [__schema0] (conditions), which a
    definition is validated against before it is stored; both close their objects
    to further fields. *)

Definition lower_or_digit (a : ascii) : bool :=
  ((97 <=? code a) && (code a <=? 122)) || is_digit a || (code a =? 95).

(** [^[a-z][a-z0-9_]{0,63}$] *)
Definition step_id (s : string) : bool :=
  match s with
  | String c r =>
      (97 <=? code c) && (code c <=? 122) && forallb lower_or_digit (String.list_ascii_of_string r) && (strlen r <=? 63)
  | EmptyString => false
  end.

Inductive source : json → Prop :=
  | SourceTrigger : source (JObj [("kind"%string, JStr "trigger")])
  | SourceStep id : step_id id = true → source (JObj [("kind"%string, JStr "step"); ("stepId"%string, JStr id)]).

Definition path_item (k : json) : bool :=
  match k with
  | JStr s => (1 <=? rune_count s) && (rune_count s <=? 200)
  | JNum (NInt n) => (0 <=? n) && (n <=? 100000)
  | _ => false
  end.

Inductive reference : json → Prop :=
  | Reference s path : source s → forallb path_item path = true → len path <= 32 →
      reference (JObj [("kind"%string, JStr "reference"); ("path"%string, JArr path); ("source"%string, s)]).

Inductive expr : json → Prop :=
  | ELiteral v : expr (JObj [("kind"%string, JStr "literal"); ("value"%string, v)])
  | EReference r : reference r → expr r
  | EObject fields : Forall (λ kv : string * json, expr kv.2) fields →
      expr (JObj [("fields"%string, JObj fields); ("kind"%string, JStr "object")])
  | EArray items : Forall expr items → len items <= 100 →
      expr (JObj [("items"%string, JArr items); ("kind"%string, JStr "array")]).

Inductive condition : json → Prop :=
  | CEquals l r : expr l → expr r →
      condition (JObj [("kind"%string, JStr "equals"); ("left"%string, l); ("right"%string, r)])
  | CExists r : reference r → condition (JObj [("kind"%string, JStr "exists"); ("reference"%string, r)])
  | CAll k l : (k = "all" ∨ k = "any")%string → Forall condition l → 1 <= len l <= 20 →
      condition (JObj [("conditions"%string, JArr l); ("kind"%string, JStr k)])
  | CNot c : condition c → condition (JObj [("condition"%string, c); ("kind"%string, JStr "not")]).

(** ** What the grammar gives *)

Lemma bind_not {A B} (m : R A) (f : A → R B) : m ≠ inl ErrInvalid → (∀ x, f x ≠ inl ErrInvalid) → (m ≫= f) ≠ inl ErrInvalid.
Proof. unfold mbind, result_bind. destruct m as [e|x]; auto. intros Hm _ [= ->]. done. Qed.

Lemma expr_object e : expr e → ∃ o, e = JObj o.
Proof. destruct 1 as [| ? []| |]; eauto. Qed.

Lemma map_result_not {A B} (f : A → R B) l : Forall (λ x, f x ≠ inl ErrInvalid) l → map_result f l ≠ inl ErrInvalid.
Proof. intros Hall Herr. apply map_result_error in Herr as (x & Hx & Hf). rewrite Forall_forall in Hall. by eapply Hall. Qed.

Lemma follow_path item path : forallb path_item path = true → follow item path ≠ inl ErrInvalid.
Proof.
  revert item. induction path as [|k path IH]; intros item; [done|]. simpl. rewrite andb_true_iff. intros [Hk Hp].
  destruct k as [| |[n|]|s| |]; try done; destruct item as [| | | |l|o]; try done.
  - destruct (n <? 0); [done|]. destruct (l !! Z.to_nat n); [by apply IH|done].
  - destruct (get_field o s); [by apply IH|done].
Qed.

(** The steps an expression reads are those the static check accepts. *)
Lemma references_fields seen o :
  kind_of o ≠ "literal"%string → kind_of o ≠ "reference"%string → kind_of o ≠ "object"%string →
  references_valid seen (JObj o) = forallb (λ kv : string * json, references_valid seen kv.2) o.
Proof.
  intros Hl Hr Ho. cbn [references_valid]. unfold has_kind.
  rewrite !(proj2 (String.eqb_neq _ _)) by done.
  clear. induction o as [|[k v] o IH]; [done|]. cbn [forallb]. by rewrite <- IH.
Qed.

Lemma references_array seen l : references_valid seen (JArr l) = forallb (references_valid seen) l.
Proof. induction l as [|x l IH]; [done|]. cbn [forallb]. by rewrite <- IH. Qed.

Lemma expr_fields_kind fields : Forall (λ kv : string * json, expr kv.2) fields → kind_of fields = ""%string.
Proof.
  intros Hall. unfold kind_of. destruct (get_field fields "kind") as [v|] eqn:Hk; [|done].
  enough (expr v) as Hv by (apply expr_object in Hv as [? ->]; done).
  induction Hall as [|[k x] fields Hx Hall IH]; [done|]. simpl in Hk. destruct (String.eqb k "kind"); [by simplify_eq|auto].
Qed.

Section soundness.
Context (marshal_len : json → Z) (trigger : raw) (steps : gmap string raw) (seen : gset string).

(** The trigger and the outcomes of earlier steps are JSON documents. *)
Record documents : Prop := {
  trigger_json : ∃ v, trigger = RJson v;
  steps_json : ∀ id r, steps !! id = Some r → ∃ v, r = RJson v;
}.

Context (Hdocs : documents).

Lemma reference_sound r o : reference r → r = JObj o → reference_value trigger steps o ≠ inl ErrInvalid.
Proof.
  destruct Hdocs as [[t ->] Hsteps]. destruct 1 as [s path Hs Hp _]. intros [= <-].
  unfold reference_value, object_field, array_field. simpl. destruct Hs as [|id _]; simpl; [by apply follow_path|].
  unfold source_document. simpl. unfold string_field. simpl. destruct (steps !! id) as [x|] eqn:Hx; [|done].
  apply Hsteps in Hx as [v ->]. simpl. by apply follow_path.
Qed.

Lemma value_sound fuel e : expr (JObj e) → (depth (JObj e) <= 2 * fuel)%nat → routineValue trigger steps fuel e ≠ inl ErrInvalid.
Proof.
  revert e. induction fuel as [|fuel IH]; intros e He Hd; [simpl in Hd; lia|].
  assert (∀ x, expr x → (depth x <= 2 * fuel)%nat →
    match x with JObj x => routineValue trigger steps fuel x | _ => inl ErrInvalid end ≠ inl ErrInvalid) as Hchild.
  { intros x Hx Hdx. pose proof (expr_object x Hx) as [o ->]. by apply IH. }
  inversion He as [v Hv|r Hr Er|fields Hf|items Hi]; subst; cbn [routineValue].
  - done.
  - pose proof (reference_sound (JObj e) e Hr eq_refl) as Hnot.
    unfold has_kind. inversion Hr as [s path Hs Hp Hlen]; subst. exact Hnot.
  - unfold has_kind, object_field. simpl. apply bind_not; [|done]. apply map_result_not. rewrite Forall_forall in Hf |- *. intros [k x] Hx. specialize (Hf _ Hx). simpl.
    specialize (Hchild x Hf). apply depth_in in Hx. simpl in Hd, Hx |- *.
    apply bind_not; [apply Hchild; lia|done].
  - unfold has_kind, array_field. simpl. apply bind_not; [|done]. apply map_result_not. rewrite Forall_forall in Hi |- *. intros x Hx. apply Hchild; [by apply Hi|].
    assert (depth x < depth (JArr items))%nat as Hlt; [|simpl in Hd, Hlt |- *; lia].
    clear -Hx. induction items as [|y items IH]; [set_solver|]. simpl.
    apply elem_of_cons in Hx as [->|Hx]; [lia|]. specialize (IH Hx). simpl in IH. lia.
Qed.
End soundness.

(** ** Independence of later steps *)

Section independence.
Context (trigger : raw) (steps steps' : gmap string raw) (seen : gset string).
Context (Hagree : ∀ id, id ∈ seen → steps !! id = steps' !! id).

Lemma reference_agree o : reference (JObj o) → references_valid seen (JObj o) = true →
  reference_value trigger steps o = reference_value trigger steps' o.
Proof.
  inversion 1 as [s path Hs Hp Hlen]; subst. unfold reference_value, object_field. simpl. intros Hv.
  destruct Hs as [|id _]; [done|]. unfold source_document. simpl. unfold string_field. simpl.
  rewrite Hagree; [done|]. by apply bool_decide_eq_true in Hv.
Qed.

Lemma value_agree fuel o : expr (JObj o) → references_valid seen (JObj o) = true →
  routineValue trigger steps fuel o = routineValue trigger steps' fuel o.
Proof.
  revert o. induction fuel as [|fuel IH]; intros o He Hv; [done|].
  assert (∀ x, expr x → references_valid seen x = true →
    match x with JObj x => routineValue trigger steps fuel x | _ => inl ErrInvalid end =
    match x with JObj x => routineValue trigger steps' fuel x | _ => inl ErrInvalid end) as Hchild.
  { intros x Hx Hvx. pose proof (expr_object x Hx) as [y ->]. by apply IH. }
  inversion He as [v Ho|r Hr Er|fields Hf|items Hi]; subst; cbn [routineValue].
  - done.
  - pose proof (reference_agree o Hr Hv) as Heq. inversion Hr; subst. exact Heq.
  - unfold has_kind, object_field. simpl. f_equal. apply map_result_ext. intros [k x] Hx. simpl.
    pose proof (expr_fields_kind fields Hf) as Hkind.
    rewrite Forall_forall in Hf. specialize (Hf _ Hx). rewrite Hchild; [done|exact Hf|].
    assert (references_valid seen (JObj fields) = true) as Hvf.
    { cbn in Hv. apply andb_true_iff in Hv as [_ Hv]. by apply andb_true_iff in Hv as [Hv _]. }
    rewrite references_fields in Hvf by (by rewrite Hkind).
    rewrite forallb_forall in Hvf. apply (Hvf (k, x)). by apply list_elem_of_In.
  - unfold has_kind, array_field. simpl. f_equal. apply map_result_ext. intros x Hx.
    rewrite Forall_forall in Hi. apply Hchild; [by apply Hi|].
    assert (references_valid seen (JArr items) = true) as Hva.
    { change (references_valid seen (JArr items) && true = true) in Hv. by apply andb_true_iff in Hv as [Hv _]. }
    rewrite references_array, forallb_forall in Hva. apply Hva. by apply list_elem_of_In.
Qed.
End independence.

(** ** Conditions *)

Lemma decide_all_ext f g want l : (∀ c, c ∈ l → f c = g c) → decide_all f want l = decide_all g want l.
Proof.
  induction l as [|c l IH]; intros H; [done|]. simpl. rewrite (H c) by left.
  unfold mbind, result_bind. destruct (g c) as [|v]; [done|]. destruct (Bool.eqb v want); [done|]. apply IH. intros x Hx. apply H. by right.
Qed.

Lemma decide_all_error f want l e : decide_all f want l = inl e → ∃ c, c ∈ l ∧ f c = inl e.
Proof.
  induction l as [|c l IH]; [done|]. simpl. unfold mbind, result_bind. destruct (f c) as [e'|v] eqn:Hc.
  - intros [= ->]. exists c. split; [left|done].
  - destruct (Bool.eqb v want); [done|]. intros H. destruct (IH H) as (x & ? & ?). exists x. split; [by right|done].
Qed.

Lemma depth_arr l x : x ∈ l → (depth x < depth (JArr l))%nat.
Proof.
  induction l as [|y l IH]; [set_solver|]. simpl.
  intros [->|Hx]%elem_of_cons; [lia|]. specialize (IH Hx). simpl in IH. lia.
Qed.

Definition depth_of (raw : option json) : nat := match raw with Some v => depth v | None => O end.

Lemma decodable_depth v : (depth v <= 41)%nat → decodable v = true.
Proof. apply Nat.leb_le. Qed.

Section conditions.
Context (marshal_len : json → Z) (trigger : raw).

Local Abbreviation eval := (λ steps, evaluate trigger steps marshal_len).

Lemma evaluate_body_ext steps f g c :
  (∀ raw, (depth_of raw < depth (JObj c))%nat → f raw = g raw) →
  evaluate_body trigger steps marshal_len f c = evaluate_body trigger steps marshal_len g c.
Proof.
  intros Hfg. unfold evaluate_body. destruct (get_field c "kind") as [[| | |kind| |]|]; try done.
  destruct (String.eqb kind "equals"); [done|]. destruct (String.eqb kind "exists"); [done|].
  destruct (String.eqb kind "not").
  - rewrite Hfg; [done|]. destruct (get_field c "condition") as [x|] eqn:Hx; [by apply depth_field in Hx|simpl; lia].
  - destruct (_ || _); [|done]. destruct (get_field c "conditions") as [[| | | |l|]|] eqn:Hl; try done.
    unfold mbind, result_bind. apply decide_all_ext. intros x Hx. apply Hfg. apply depth_field in Hl. apply depth_arr in Hx. simpl in *. lia.
Qed.

(** Any fuel from the condition's depth on gives the same answer. *)
Lemma evaluate_fuel steps n : ∀ m raw, (depth_of raw <= n)%nat → (depth_of raw <= m)%nat → eval steps n raw = eval steps m raw.
Proof.
  induction n as [|n IH]; intros m raw Hn Hm.
  - destruct raw as [v|]; [|by destruct m]. destruct v; simpl in Hn; lia.
  - destruct raw as [v|]; [|by destruct m]. destruct v as [| | | | |c]; try by destruct m.
    destruct m as [|m]; [simpl in Hm; lia|]. cbn [evaluate]. destruct (negb _); [done|].
    apply evaluate_body_ext. intros raw Hd. simpl in Hn, Hm, Hd. apply IH; lia.
Qed.

(** The equation of [RoutineEvaluateCondition]: its recursive calls are itself. *)
Lemma RoutineEvaluateCondition_eq steps c :
  RoutineEvaluateCondition trigger steps marshal_len (Some (JObj c)) =
  if negb (decodable (JObj c)) then inl ErrInvalid
  else evaluate_body trigger steps marshal_len (RoutineEvaluateCondition trigger steps marshal_len) c.
Proof.
  unfold RoutineEvaluateCondition at 1. change (depth (JObj c)) with (S (pred (depth (JObj c)))) at 1. cbn [evaluate].
  destruct (negb _); [done|]. apply evaluate_body_ext. intros raw Hd. unfold RoutineEvaluateCondition.
  apply evaluate_fuel; unfold depth_of in *; [simpl in Hd |- *; destruct raw; lia|by destruct raw].
Qed.

(** The expressions a condition compares or tests. *)
Inductive operand (e : object) : json → Prop :=
  | OLeft r : operand e (JObj [("kind"%string, JStr "equals"); ("left"%string, JObj e); ("right"%string, r)])
  | ORight l : operand e (JObj [("kind"%string, JStr "equals"); ("left"%string, l); ("right"%string, JObj e)])
  | OExists : operand e (JObj [("kind"%string, JStr "exists"); ("reference"%string, JObj e)])
  | OAll k l c : c ∈ l → operand e c → operand e (JObj [("conditions"%string, JArr l); ("kind"%string, JStr k)])
  | ONot c : operand e c → operand e (JObj [("condition"%string, c); ("kind"%string, JStr "not")]).

(** A value too long to pass on. *)
Definition oversized (steps : gmap string raw) (e : object) : Prop :=
  ∃ v, routineValue trigger steps 33 e = inr v ∧ Z.shiftl 1 20 < marshal_len v.

#[local] Arguments routineValue : simpl never.
#[local] Arguments RoutineResolveValue : simpl never.

Lemma resolve_sound steps e :
  documents trigger steps → expr (JObj e) → (depth (JObj e) <= 41)%nat →
  RoutineResolveValue trigger steps marshal_len (Some (JObj e)) = inl ErrInvalid → oversized steps e.
Proof.
  intros Hdocs He Hd. unfold RoutineResolveValue. rewrite decodable_depth by lia.
  unfold ensure, mbind, result_bind. pose proof (value_sound trigger steps Hdocs 33 e He ltac:(lia)) as Hv.
  destruct (routineValue trigger steps 33 e) as [err|v] eqn:Hr; [by intros [= ->]|].
  destruct (marshal_len v <=? Z.shiftl 1 20) eqn:Hlen; [done|]. intros _. apply Z.leb_gt in Hlen. by exists v.
Qed.

Lemma resolve_agree steps steps' seen e :
  (∀ id, id ∈ seen → steps !! id = steps' !! id) → expr e → references_valid seen e = true →
  RoutineResolveValue trigger steps marshal_len (Some e) = RoutineResolveValue trigger steps' marshal_len (Some e).
Proof.
  intros Hagree He Hv. pose proof (expr_object e He) as [o ->]. unfold RoutineResolveValue. by rewrite (value_agree trigger steps steps' seen).
Qed.

#[local] Opaque RoutineResolveValue.

Lemma reference_expr r : reference r → expr r.
Proof. apply EReference. Qed.

Lemma condition_fuel n : ∀ steps c, documents trigger steps → condition c → (depth c <= 41)%nat → (depth c <= n)%nat →
  eval steps n (Some c) = inl ErrInvalid → ∃ e, operand e c ∧ oversized steps e.
Proof.
  induction n as [|n IH]; intros steps c Hdocs Hc Hd Hn; [destruct Hc; simpl in Hn; lia|].
  assert (∀ e, expr e → (depth e < depth c)%nat → RoutineResolveValue trigger steps marshal_len (Some e) = inl ErrInvalid →
    ∃ o, e = JObj o ∧ oversized steps o) as Hres.
  { intros e He Hde. pose proof (expr_object e He) as [o ->]. intros H. exists o. split; [done|].
    apply resolve_sound in H; auto. lia. }
  assert (∃ o, c = JObj o) as [o Ho] by (destruct Hc; eauto). rewrite Ho. cbn [evaluate].
  rewrite decodable_depth by (rewrite <- Ho; lia). simpl negb. cbv iota.
  destruct Hc as [l r Hl Hr|r Hr|k l Hk Hl Hlen|c Hc]; simplify_eq; unfold evaluate_body; simpl get_field; cbv iota.
  - change (String.eqb "equals" "equals") with true. cbv iota. unfold mbind, result_bind.
    destruct (RoutineResolveValue _ _ _ (Some l)) as [e|a] eqn:El.
    + intros [= ->]. apply Hres in El as (o & -> & ?); [|done|simpl; lia]. exists o. split; [constructor|done].
    + destruct (RoutineResolveValue _ _ _ (Some r)) as [e|b] eqn:Er; [|done].
      intros [= ->]. apply Hres in Er as (o & -> & ?); [|done|simpl; lia]. exists o. split; [constructor|done].
  - simpl. destruct (RoutineResolveValue _ _ _ (Some r)) as [[]|a] eqn:Er; [|done|done]. intros _.
    apply Hres in Er as (o & -> & ?); [|by apply reference_expr|simpl; lia]. exists o. split; [constructor|done].
  - intros He. assert (∃ x, x ∈ l ∧ eval steps n (Some x) = inl ErrInvalid) as (x & Hx & Hxe).
    { destruct Hk as [-> | ->]; simpl in He; unfold mbind, result_bind in He; by apply decide_all_error in He. }
    pose proof (depth_arr l x Hx) as Hdx. simpl in Hd, Hn, Hdx. rewrite Forall_forall in Hl.
    apply IH in Hxe as (e & Hop & Hbig); [|done|by apply Hl|lia|lia].
    exists e. split; [by eapply OAll|done].
  - simpl in Hd, Hn. unfold mbind, result_bind. simpl. destruct (eval steps n (Some c)) as [e|v] eqn:Ec; [|done]. intros [= ->].
    apply IH in Ec as (e & Hop & Hbig); [|done|done|lia|lia]. exists e. split; [by constructor|done].
Qed.

(** A condition of the grammar evaluates, or misses a value, unless one of its
    operands is too long. *)
Lemma condition_sound steps c : documents trigger steps → condition c → (depth c <= 41)%nat →
  RoutineEvaluateCondition trigger steps marshal_len (Some c) = inl ErrInvalid → ∃ e, operand e c ∧ oversized steps e.
Proof. intros. by apply (condition_fuel (depth c)). Qed.

Lemma condition_agree n : ∀ steps steps' seen c,
  (∀ id, id ∈ seen → steps !! id = steps' !! id) → condition c → references_valid seen c = true → (depth c <= n)%nat →
  eval steps n (Some c) = eval steps' n (Some c).
Proof.
  induction n as [|n IH]; intros steps steps' seen c Hagree Hc Hv Hn; [destruct Hc; simpl in Hn; lia|].
  assert (∃ o, c = JObj o) as [o Ho] by (destruct Hc; eauto). rewrite Ho. cbn [evaluate]. destruct (negb _); [done|].
  destruct Hc as [l r Hl Hr|r Hr|k l Hk Hl Hlen|c Hc]; simplify_eq; unfold evaluate_body; simpl get_field; cbv iota;
    rewrite references_fields in Hv by (unfold kind_of; simpl; naive_solver); cbn [forallb snd] in Hv;
    rewrite ?andb_true_iff in Hv.
  - destruct Hv as (_ & Hvl & Hvr & _). simpl. rewrite (resolve_agree steps steps' seen l), (resolve_agree steps steps' seen r) by assumption. reflexivity.
  - destruct Hv as (_ & Hvr & _). simpl. rewrite (resolve_agree steps steps' seen r) by (assumption || by apply reference_expr). reflexivity.
  - destruct Hv as [Hvl _]. assert (∀ x, x ∈ l → eval steps n (Some x) = eval steps' n (Some x)) as Heq.
    { intros x Hx. pose proof (depth_arr l x Hx) as Hdx. simpl in Hn, Hdx. rewrite Forall_forall in Hl.
      apply (IH steps steps' seen); [done|by apply Hl| |lia]. rewrite references_array, forallb_forall in Hvl.
      apply Hvl. by apply list_elem_of_In. }
    destruct Hk as [-> | ->]; simpl; unfold mbind, result_bind; by apply decide_all_ext.
  - destruct Hv as [Hvc _]. simpl in Hn. simpl. rewrite (IH steps steps' seen c); [done|done|done|done|lia].
Qed.
End conditions.
