(* ===== verification/RoutineDefinition.v ===== *)
(** * Routine definitions

    Models [ParseRoutineDefinition] of [internal/capabilities/routines.go]: the
    bounds on the document, the defaults, the decoding into Go structs, and the
    checks that go beyond the schema.  [CompileSchema] is of [contracts.go].  The
    validator of JSON schemas and the time zone database are parameters.

    Parsing has one kind of failure for its callers, so results are options.  The
    keys of Go structs are matched exactly: the schema, which closes its objects,
    has excluded the other spellings that the decoder accepts. *)
From S2P Require Import Prelude GoStrings Json RoutineValues.

(** ** Bounds *)

(** [bounded] of [routineTreeBounded]: the number of nodes counted so far, or
    failure. *)
Fixpoint bounded (nodes : Z) (item : json) (level : Z) {struct item} : option Z :=
  let nodes := nodes + 1 in
  let fix all (nodes : Z) (l : list json) {struct l} : option Z :=
    match l with
    | [] => Some nodes
    | x :: l => nodes ← bounded nodes x (level + 1); all nodes l
    end in
  let fix fields (nodes : Z) (o : list (string * json)) {struct o} : option Z :=
    match o with
    | [] => Some nodes
    | (key, x) :: o =>
        if String.eqb key "__proto__" || String.eqb key "prototype" || String.eqb key "constructor" then None
        else nodes ← bounded nodes x (level + 1); fields nodes o
    end in
  if (20000 <? nodes) || (32 <? level) then None
  else match item with
       | JObj o => fields nodes o
       | JArr l => all nodes l
       | _ => Some nodes
       end.

Definition routineTreeBounded (value : json) : bool :=
  match bounded 0 value 0 with Some _ => true | None => false end.

(** [safe] of [CompileSchema]. *)
Fixpoint schema_safe (level : Z) (v : json) : bool :=
  let fix all (l : list json) : bool := match l with [] => true | x :: l => schema_safe (level + 1) x && all l end in
  let fix fields (o : list (string * json)) : bool :=
    match o with
    | [] => true
    | (key, x) :: o =>
        negb (existsb (String.eqb key) ["__proto__"; "constructor"; "prototype"; "$dynamicRef"]%string) &&
        (if String.eqb key "$ref" then match x with JStr ref => HasPrefix ref "#/$defs/" | _ => false end else true) &&
        schema_safe (level + 1) x && fields o
    end in
  if 32 <? level then false
  else match v with JObj o => fields o | JArr l => all l | _ => true end.

(** ** Defaults *)

Definition setDefault (value : object) (key : string) (fallback : json) : object :=
  match get_field value key with Some _ => value | None => set_field value key fallback end.

Definition on_object (f : object → object) (v : json) : json := match v with JObj o => JObj (f o) | _ => v end.

Definition budget_defaults (budget : object) : object :=
  setDefault (setDefault budget "modelTurns" (JNum (NInt 20))) "activeSeconds" (JNum (NInt 1800)).
Definition trigger_defaults (trigger : object) : object :=
  if has_kind trigger "app_event" then setDefault trigger "resourceIds" (JArr []) else trigger.
Definition step_defaults (step : object) : object :=
  if has_kind step "capability" then setDefault step "allowPartial" (JBool false) else step.
Definition steps_defaults (v : json) : json := match v with JArr l => JArr (on_object step_defaults <$> l) | _ => v end.

Definition with_defaults (value : object) : object :=
  let value := setDefault value "description" (JStr "") in
  let value := update_field value "budget" (on_object budget_defaults) in
  let value := update_field value "trigger" (on_object trigger_defaults) in
  update_field value "steps" steps_defaults.

(** ** Decoding into structs *)

Definition dec_string (o : object) (key : string) : option string :=
  match get_field o key with None | Some JNull => Some ""%string | Some (JStr s) => Some s | _ => None end.
Definition dec_int (o : object) (key : string) : option Z :=
  match get_field o key with
  | None | Some JNull => Some 0
  | Some (JNum (NInt z)) => if bool_decide (in64 z) then Some z else None
  | _ => None
  end.
Definition dec_bool (o : object) (key : string) : option bool :=
  match get_field o key with None | Some JNull => Some false | Some (JBool b) => Some b | _ => None end.
Definition dec_list {A} (f : json → option A) (o : object) (key : string) : option (list A) :=
  match get_field o key with None | Some JNull => Some [] | Some (JArr l) => mapM f l | _ => None end.
Definition dec_struct (v : json) : option object :=
  match v with JNull => Some [] | JObj o => Some o | _ => None end.

(** [DisallowUnknownFields] *)
Definition only (keys : list string) (o : object) : option () :=
  if forallb (λ kv : string * json, existsb (String.eqb kv.1) keys) o then Some () else None.

Record RoutinePin := {
  Capability : string;
  CapabilityVersion : Z;
  ProviderID : string;
  ProviderVersion : Z;
  TargetID : string;
  TargetRevision : Z;
}.

Record RoutineStep := {
  ID : string;
  Kind : string;
  Label : string;
  When : option json;
  Action : option RoutinePin;
  Input : option json;
  AllowPartial : bool;
  Prompt : option json;
  Actions : list RoutinePin;
  MaxTurns : Z;
  OutputSchema : option json;
  Until : option json;
}.

Record RoutineDefinition := {
  Protocol : Z;
  Name : string;
  Description : string;
  SpaceID : string;
  Trigger : option json;
  Steps : list RoutineStep;
  ModelTurns : Z;
  ActiveSeconds : Z;
}.

Definition pin_of (v : json) : option RoutinePin :=
  o ← dec_struct v;
  _ ← only ["capability"; "capabilityVersion"; "providerId"; "providerVersion"; "targetId"; "targetRevision"]%string o;
  capability ← dec_string o "capability";
  capabilityVersion ← dec_int o "capabilityVersion";
  providerID ← dec_string o "providerId";
  providerVersion ← dec_int o "providerVersion";
  targetID ← dec_string o "targetId";
  targetRevision ← dec_int o "targetRevision";
  Some {| Capability := capability; CapabilityVersion := capabilityVersion; ProviderID := providerID;
          ProviderVersion := providerVersion; TargetID := targetID; TargetRevision := targetRevision |}.

Definition dec_pointer {A} (f : json → option A) (o : object) (key : string) : option (option A) :=
  match get_field o key with None | Some JNull => Some None | Some v => Some <$> f v end.

Definition step_of (v : json) : option RoutineStep :=
  o ← dec_struct v;
  _ ← only ["id"; "kind"; "label"; "when"; "action"; "input"; "allowPartial"; "prompt"; "actions"; "maxTurns";
            "outputSchema"; "until"]%string o;
  id ← dec_string o "id";
  kind ← dec_string o "kind";
  label ← dec_string o "label";
  action ← dec_pointer pin_of o "action";
  allowPartial ← dec_bool o "allowPartial";
  actions ← dec_list pin_of o "actions";
  maxTurns ← dec_int o "maxTurns";
  Some {| ID := id; Kind := kind; Label := label; When := get_field o "when"; Action := action;
          Input := get_field o "input"; AllowPartial := allowPartial; Prompt := get_field o "prompt"; Actions := actions;
          MaxTurns := maxTurns; OutputSchema := get_field o "outputSchema"; Until := get_field o "until" |}.

Definition definition_of (o : object) : option RoutineDefinition :=
  _ ← only ["protocol"; "name"; "description"; "spaceId"; "trigger"; "steps"; "budget"]%string o;
  protocol ← dec_int o "protocol";
  name ← dec_string o "name";
  description ← dec_string o "description";
  spaceID ← dec_string o "spaceId";
  steps ← dec_list step_of o "steps";
  budget ← dec_struct (default JNull (get_field o "budget"));
  _ ← only ["modelTurns"; "activeSeconds"]%string budget;
  modelTurns ← dec_int budget "modelTurns";
  activeSeconds ← dec_int budget "activeSeconds";
  Some {| Protocol := protocol; Name := name; Description := description; SpaceID := spaceID;
          Trigger := get_field o "trigger"; Steps := steps; ModelTurns := modelTurns; ActiveSeconds := activeSeconds |}.

Record trigger_clock := { Hour : Z; Minute : Z }.
Record trigger_fields := { t_Kind : string; t_Timezone : string; t_Days : list Z; t_Times : list trigger_clock }.

Definition dec_number (v : json) : option Z :=
  match v with JNull => Some 0 | JNum (NInt z) => if bool_decide (in64 z) then Some z else None | _ => None end.
Definition clock_of (v : json) : option trigger_clock :=
  o ← dec_struct v; hour ← dec_int o "hour"; minute ← dec_int o "minute"; Some {| Hour := hour; Minute := minute |}.
Definition trigger_of (v : json) : option trigger_fields :=
  o ← dec_struct v;
  kind ← dec_string o "kind";
  timezone ← dec_string o "timezone";
  days ← dec_list dec_number o "daysOfWeek";
  times ← dec_list clock_of o "times";
  Some {| t_Kind := kind; t_Timezone := timezone; t_Days := days; t_Times := times |}.

(** The loops over [days] and [times]. *)
Definition no_duplicates (l : list Z) : bool := bool_decide (NoDup l).

Section parse.
(** Length of a value's text, the JSON schema validator on [routine-definition.json]
    and on a step's own schema, and [time.LoadLocation]. *)
Context (marshal_len : json → Z) (schema_valid schema_resolves : json → bool) (zone_known : string → bool).

Definition routineTriggerValid (raw : option json) : bool :=
  match raw ≫= trigger_of with
  | None => false
  | Some trigger =>
      if negb (String.eqb (t_Kind trigger) "schedule") then true
      else if String.eqb (t_Timezone trigger) "" || String.eqb (t_Timezone trigger) "Local" then false
      else zone_known (t_Timezone trigger) &&
           no_duplicates (t_Days trigger) &&
           no_duplicates ((λ clock, Hour clock *64 60 +64 Minute clock)%go <$> t_Times trigger)
  end.

Definition CompileSchema (raw : option json) : bool :=
  match raw with
  | Some (JObj o) =>
      (marshal_len (JObj o) <=? Z.shiftl 64 10) && decodable (JObj o) && schema_safe 0 (JObj o) && schema_resolves (JObj o)
  | _ => false
  end.

(** The expression a step computes before it runs. *)
Definition step_expression (step : RoutineStep) : option json :=
  if String.eqb (Kind step) "agent" then Prompt step
  else if String.eqb (Kind step) "wait" then Until step
  else Input step.

(** The loop over the steps: the sum of the agents' turns. *)
Fixpoint check_steps (seen : gset string) (turns : Z) (steps : list RoutineStep) : option Z :=
  match steps with
  | [] => Some turns
  | step :: steps =>
      if bool_decide (ID step ∈ seen) then None
      else if negb (routineReferencesValid (When step) seen) then None
      else if String.eqb (Kind step) "agent" && negb (CompileSchema (OutputSchema step)) then None
      else if negb (routineReferencesValid (step_expression step) seen) then None
      else check_steps ({[ID step]} ∪ seen)
             (if String.eqb (Kind step) "agent" then (turns +64 MaxTurns step)%go else turns) steps
  end.

(** [length] is that of the text [raw] was decoded from. *)
Definition ParseRoutineDefinition (length : Z) (raw : raw) : option (RoutineDefinition * object) :=
  if Z.shiftl 1 20 <? length then None
  else match unmarshal raw with
  | Some (JObj value) =>
      if negb (decodable (JObj value)) then None
      else if negb (routineTreeBounded (JObj value)) then None
      else
        let value := with_defaults value in
        if negb (schema_valid (JObj value)) then None
        else if Z.shiftl 1 20 <? marshal_len (JObj value) then None
        else if negb (decodable (JObj value)) then None
        else
          result ← definition_of value;
          turns ← check_steps ∅ 0 (Steps result);
          if (ModelTurns result <? turns) || negb (routineTriggerValid (Trigger result)) then None
          else Some (result, value)
  | _ => None
  end.

(** A document is its decoded content and the length of its text. *)
Definition RoutineDefinitionsEqual (a b : Z * raw) : bool :=
  match ParseRoutineDefinition a.1 a.2, ParseRoutineDefinition b.1 b.2 with
  | Some (_, aa), Some (_, bb) => json_eqb (JObj aa) (JObj bb)
  | _, _ => false
  end.

Definition ValidateRoutineEnvelope (length : Z) (raw : raw) : bool :=
  (length <=? Z.shiftl 1 20) &&
  match unmarshal raw with Some v => decodable v && routineTreeBounded v | None => false end.
End parse.

(** ** Shapes of [routine-definition.json]

    The parts of the schema that the theorems use. *)

Definition step_shape (s : json) : Prop :=
  ∃ o, s = JObj o ∧ (∀ c, get_field o "when" = Some c → condition c) ∧
    (get_field o "kind" = Some (JStr "capability") ∧ (∃ e, get_field o "input" = Some e ∧ expr e) ∨
     get_field o "kind" = Some (JStr "agent") ∧ (∃ e, get_field o "prompt" = Some e ∧ expr e) ∧
       (∃ n, get_field o "maxTurns" = Some (JNum (NInt n)) ∧ 1 <= n <= 20) ∨
     get_field o "kind" = Some (JStr "wait") ∧ (∃ e, get_field o "until" = Some e ∧ expr e)).

Definition definition_shape (o : object) : Prop :=
  ∃ l, get_field o "steps" = Some (JArr l) ∧ Forall step_shape l ∧ len l <= 50.

(** The turns an agent step may take. *)
Definition agent_turns (s : RoutineStep) : Z := if String.eqb (Kind s) "agent" then MaxTurns s else 0.
Definition total_turns (l : list RoutineStep) : Z := foldr (λ s acc, agent_turns s + acc) 0 l.

(** The steps before position [i]. *)
Definition earlier (d : RoutineDefinition) (i : nat) : gset string := list_to_set (ID <$> take i (Steps d)).

(** ** Defaults are idempotent *)

Lemma setDefault_present o k v : is_Some (get_field o k) → setDefault o k v = o.
Proof. unfold setDefault. intros [x ->]. done. Qed.

Lemma get_setDefault o k v : is_Some (get_field (setDefault o k v) k).
Proof. unfold setDefault. destruct (get_field o k) eqn:E; [by rewrite E|]. rewrite get_set_field. eauto. Qed.

Lemma get_setDefault_ne o k k' v : k ≠ k' → get_field (setDefault o k v) k' = get_field o k'.
Proof. intros. unfold setDefault. destruct (get_field o k); [done|]. by apply get_set_field_ne. Qed.

Lemma setDefault_kept o k k' v : is_Some (get_field o k') → is_Some (get_field (setDefault o k v) k').
Proof. intros H. destruct (decide (k = k')) as [->|]; [apply get_setDefault|]. by rewrite get_setDefault_ne. Qed.

Lemma budget_idemp o : budget_defaults (budget_defaults o) = budget_defaults o.
Proof.
  unfold budget_defaults. rewrite (setDefault_present _ "modelTurns"); [|apply setDefault_kept, get_setDefault].
  apply setDefault_present, get_setDefault.
Qed.

Lemma kind_setDefault o k v : k ≠ "kind"%string → kind_of (setDefault o k v) = kind_of o.
Proof. intros. unfold kind_of. by rewrite get_setDefault_ne. Qed.

Lemma trigger_idemp o : trigger_defaults (trigger_defaults o) = trigger_defaults o.
Proof.
  unfold trigger_defaults. destruct (has_kind o "app_event") eqn:E; [|by rewrite E].
  unfold has_kind in *. rewrite kind_setDefault, E by done. apply setDefault_present, get_setDefault.
Qed.

Lemma step_idemp o : step_defaults (step_defaults o) = step_defaults o.
Proof.
  unfold step_defaults. destruct (has_kind o "capability") eqn:E; [|by rewrite E].
  unfold has_kind in *. rewrite kind_setDefault, E by done. apply setDefault_present, get_setDefault.
Qed.

Lemma on_object_idemp f v : (∀ o, f (f o) = f o) → on_object f (on_object f v) = on_object f v.
Proof. intros Hf. destruct v; simpl; [done..|]. by rewrite Hf. Qed.

Lemma steps_idemp v : steps_defaults (steps_defaults v) = steps_defaults v.
Proof.
  destruct v; simpl; [done..| |done]. f_equal. rewrite <- list_fmap_compose. apply list_fmap_ext. intros _ x _. simpl.
  apply on_object_idemp, step_idemp.
Qed.

(** An update that is already in place. *)
Lemma update_fixed (o : object) k f : (∀ v, get_field o k = Some v → f v = v) → update_field o k f = o.
Proof. intros Hf. apply update_field_id. destruct (get_field o k) as [v|]; [|done]. simpl. by rewrite Hf. Qed.

Lemma with_defaults_idemp o : with_defaults (with_defaults o) = with_defaults o.
Proof.
  unfold with_defaults at 1. set (v := with_defaults o).
  assert (setDefault v "description" (JStr "") = v) as ->.
  { apply setDefault_present. unfold v, with_defaults. rewrite !get_update_field_ne by done. apply get_setDefault. }
  assert (update_field v "budget" (on_object budget_defaults) = v) as ->.
  { apply update_fixed. intros x. unfold v, with_defaults. rewrite !(get_update_field_ne _ _ "budget") by done. rewrite get_update_field.
    destruct (get_field _ "budget"); [|done]. intros [= <-]. apply on_object_idemp, budget_idemp. }
  assert (update_field v "trigger" (on_object trigger_defaults) = v) as ->.
  { apply update_fixed. intros x. unfold v, with_defaults. rewrite (get_update_field_ne _ "steps" "trigger") by done. rewrite get_update_field.
    destruct (get_field _ "trigger"); [|done]. intros [= <-]. apply on_object_idemp, trigger_idemp. }
  apply update_fixed. intros x. unfold v, with_defaults. rewrite get_update_field.
  destruct (get_field _ "steps"); [|done]. intros [= <-]. apply steps_idemp.
Qed.

(** ** Decoding *)

Lemma definition_steps o d l : definition_of o = Some d → get_field o "steps" = Some (JArr l) → mapM step_of l = Some (Steps d).
Proof.
  unfold definition_of, dec_list. intros H Hl. rewrite Hl in H.
  repeat match goal with H : (_ ≫= _) = Some _ |- _ => apply bind_Some in H as (? & ? & H) end. by simplify_eq/=.
Qed.

Lemma step_typed s st : step_of s = Some st → step_shape s →
  (∀ c, When st = Some c → condition c ∧ (depth c < depth s)%nat) ∧
  (∃ x, step_expression st = Some x ∧ expr x ∧ (depth x < depth s)%nat) ∧ 0 <= agent_turns st <= 20.
Proof.
  intros Hst (o & -> & Hwhen & Hkind). unfold step_of in Hst. simpl in Hst.
  repeat match goal with H : (_ ≫= _) = Some _ |- _ => apply bind_Some in H as (? & ? & H) end. simplify_eq/=.
  split. { intros c Hc. split; [by apply Hwhen|by apply depth_field in Hc]. }
  unfold dec_string, dec_int in *. unfold step_expression, agent_turns. simpl.
  destruct Hkind as [[Hk (e & He & Hexpr)]|[(Hk & (e & He & Hexpr) & n & Hn & Hb)|[Hk (e & He & Hexpr)]]];
    rewrite Hk in *; simplify_eq/=; (split; [exists e; by apply depth_field in He as ?|]); [lia| |lia].
  rewrite Hn in *. case_bool_decide; simplify_eq; lia.
Qed.

Section accepted.
Context (marshal_len : json → Z) (schema_valid schema_resolves : json → bool) (zone_known : string → bool).

Local Abbreviation parse := (ParseRoutineDefinition marshal_len schema_valid schema_resolves zone_known).

Lemma parse_inv n r d v : parse n r = Some (d, v) →
  ∃ o turns, r = RJson (JObj o) ∧ v = with_defaults o ∧ schema_valid (JObj v) = true ∧ marshal_len (JObj v) <= Z.shiftl 1 20 ∧
    decodable (JObj v) = true ∧ definition_of v = Some d ∧
    check_steps marshal_len schema_resolves ∅ 0 (Steps d) = Some turns ∧ turns <= ModelTurns d ∧
    routineTriggerValid zone_known (Trigger d) = true.
Proof.
  unfold ParseRoutineDefinition. destruct (_ <? n); [done|].
  destruct r as [| |[| | | | |o]]; try done. simpl unmarshal. cbv iota zeta beta.
  destruct (decodable (JObj o)); [|done]. destruct (routineTreeBounded (JObj o)); [|done]. simpl negb. cbv iota.
  destruct (schema_valid _) eqn:Hs; [|done]. destruct (Z.shiftl 1 20 <? _) eqn:Hl; [done|].
  destruct (decodable (JObj (with_defaults o))) eqn:Hd; [|done]. simpl negb. cbv iota.
  intros H. apply bind_Some in H as (d' & Hdef & H). apply bind_Some in H as (turns & Ht & H).
  destruct (ModelTurns d' <? turns) eqn:Hb; [done|]. destruct (routineTriggerValid zone_known (Trigger d')) eqn:Htr; [|done].
  simpl in H. simplify_eq. exists o, turns. bool_to_prop. by repeat split.
Qed.

Lemma check_steps_inv l : ∀ seen turns total, check_steps marshal_len schema_resolves seen turns l = Some total →
  NoDup (ID <$> l) ∧ (∀ s, s ∈ l → ID s ∉ seen) ∧
  ∀ i s, l !! i = Some s → routineReferencesValid (When s) (list_to_set (ID <$> take i l) ∪ seen) = true ∧
    routineReferencesValid (step_expression s) (list_to_set (ID <$> take i l) ∪ seen) = true.
Proof.
  induction l as [|s l IH]; intros seen turns total H.
  { split; [constructor|]. split; [set_solver|]. intros i s. by rewrite lookup_nil. }
  simpl in H. destruct (bool_decide _) eqn:Hseen; [done|]. apply bool_decide_eq_false in Hseen.
  destruct (routineReferencesValid (When s) seen) eqn:Hw; [|done].
  destruct (_ && _); [done|]. destruct (routineReferencesValid (step_expression s) seen) eqn:He; [|done]. simpl in H.
  apply IH in H as (Hnd & Hnew & Hrefs). split; [|split].
  - constructor; [|done]. intros Hin. apply list_elem_of_fmap in Hin as (x & Hx & Hin). specialize (Hnew x Hin). set_solver.
  - intros x. rewrite elem_of_cons. intros [->|Hx]; [done|]. specialize (Hnew x Hx). set_solver.
  - intros [|i] x Hx.
    + simpl in Hx. simplify_eq. simpl. by rewrite (left_id_L ∅ (∪)).
    + simpl in Hx. specialize (Hrefs i x Hx). simpl.
      by rewrite (comm_L (∪) {[ID s]}), <- (assoc_L (∪)).
Qed.

Lemma check_steps_total l : ∀ seen turns total, check_steps marshal_len schema_resolves seen turns l = Some total →
  (∀ s, s ∈ l → 0 <= agent_turns s <= 20) → 0 <= turns → turns + 20 * len l <= MaxInt64 → total = turns + total_turns l.
Proof.
  induction l as [|s l IH]; intros seen turns total H Hs Ht Hlen; simpl in H |- *; [simplify_eq; lia|].
  pose proof (Hs s ltac:(left)) as Hb. pose proof (len_nonneg l). rewrite len_cons in Hlen.
  repeat match type of H with (if ?b then None else _) = _ => destruct b; [done|] end.
  assert ((if String.eqb (Kind s) "agent" then wrap64 (turns + MaxTurns s) else turns) = turns + agent_turns s) as E.
  { unfold agent_turns in *. destruct (String.eqb (Kind s) "agent"); [|lia]. apply wrap64_id. word. }
  rewrite E in H. apply IH in H; [lia| |lia|lia]. intros x Hx. apply Hs. by right.
Qed.


Lemma parse_typed n r d v :
  (∀ o, schema_valid (JObj o) = true → definition_shape o) → parse n r = Some (d, v) →
  ∃ l, mapM step_of l = Some (Steps d) ∧ Forall step_shape l ∧ (∀ x, x ∈ l → (depth x <= 41)%nat) ∧ len (Steps d) <= 50.
Proof.
  intros Hschema H. apply parse_inv in H as (o & turns & -> & Hv & Hs & Hl & Hd & Hdef & _).
  destruct (Hschema v Hs) as (l & Hsteps & Hshape & Hlen). exists l.
  pose proof (definition_steps v d l Hdef Hsteps) as Hm. repeat split; [done|done| |].
  - intros x Hx. apply depth_field in Hsteps. apply depth_arr in Hx. apply Nat.leb_le in Hd. unfold object in *. lia.
  - apply length_mapM in Hm. unfold len in *. by rewrite <- Hm.
Qed.

Lemma step_depth n r d v i s :
  (∀ o, schema_valid (JObj o) = true → definition_shape o) → parse n r = Some (d, v) → Steps d !! i = Some s →
  (∀ c, When s = Some c → condition c ∧ (depth c <= 41)%nat) ∧
  (∃ x, step_expression s = Some x ∧ expr x ∧ (depth x <= 41)%nat) ∧ 0 <= agent_turns s <= 20.
Proof.
  intros Hschema H Hs. destruct (parse_typed n r d v Hschema H) as (l & Hm & Hshape & Hdepth & _).
  apply mapM_Some in Hm. destruct (Forall2_lookup_r _ _ _ _ _ Hm Hs) as (x & Hx & Hstep).
  rewrite Forall_lookup in Hshape. destruct (step_typed x s Hstep (Hshape i x Hx)) as (Hw & (e & He & Hexpr & Hde) & Ha).
  specialize (Hdepth x (list_elem_of_lookup_2 _ _ _ Hx)).
  split; [|split; [|done]].
  - intros c Hc. destruct (Hw c Hc). split; [done|lia].
  - exists e. repeat split; [done|done|lia].
Qed.

(** C8: Static checking of routines is sound.  In a definition that is accepted the
    step ids are distinct and the agents' turns sum up to at most the budget; and
    evaluating a step's condition or expression, whatever the trigger and the
    results of earlier steps are, yields a value or finds a value missing - it is
    invalid only where a value outgrows the bound on its text - and depends on no
    step that does not come earlier. *)
Theorem accepted_steps_evaluate n r d v :
  (∀ o, schema_valid (JObj o) = true → definition_shape o) → parse n r = Some (d, v) →
  NoDup (ID <$> Steps d) ∧ 0 <= total_turns (Steps d) <= ModelTurns d ∧
  ∀ i s trigger steps, Steps d !! i = Some s → documents trigger steps →
    (RoutineEvaluateCondition trigger steps marshal_len (When s) = inl ErrInvalid →
      ∃ c e, When s = Some c ∧ operand e c ∧ oversized marshal_len trigger steps e) ∧
    (∃ e, step_expression s = Some (JObj e) ∧
      (RoutineResolveValue trigger steps marshal_len (Some (JObj e)) = inl ErrInvalid → oversized marshal_len trigger steps e)) ∧
    ∀ steps', (∀ id, id ∈ earlier d i → steps !! id = steps' !! id) →
      RoutineEvaluateCondition trigger steps marshal_len (When s) = RoutineEvaluateCondition trigger steps' marshal_len (When s) ∧
      RoutineResolveValue trigger steps marshal_len (step_expression s) = RoutineResolveValue trigger steps' marshal_len (step_expression s).
Proof.
  intros Hschema H. pose proof (step_depth n r d v) as Hstep. pose proof (parse_typed n r d v Hschema H) as (_ & _ & _ & _ & Hlen).
  pose proof (parse_inv _ _ _ _ H) as (o & turns & _ & _ & _ & _ & _ & _ & Ht & Hb & _).
  destruct (check_steps_inv _ _ _ _ Ht) as (Hnd & _ & Hrefs). split; [done|]. split.
  { assert (∀ s, s ∈ Steps d → 0 <= agent_turns s <= 20) as Ha.
    { intros s Hs. apply list_elem_of_lookup_1 in Hs as [i Hi]. by apply (Hstep i s Hschema H Hi). }
    rewrite (check_steps_total _ _ _ _ Ht Ha) in Hb by (try lia; word). split; [|lia].
    clear -Ha. induction (Steps d) as [|s l IH]; simpl; [lia|].
    specialize (IH ltac:(intros; apply Ha; by right)). specialize (Ha s ltac:(left)). lia. }
  intros i s trigger steps Hi Hdocs. destruct (Hstep i s Hschema H Hi) as (Hw & (x & Hx & Hexpr & Hde) & _).
  destruct (Hrefs i s Hi) as [Hvw Hvx]. rewrite (right_id_L ∅ (∪)) in Hvw, Hvx. rewrite Hx in *.
  pose proof (expr_object x Hexpr) as [e ->]. split; [|split].
  - destruct (When s) as [c|]; [|done]. destruct (Hw c eq_refl) as [Hc Hdc]. intros Herr.
    destruct (condition_sound marshal_len trigger steps c Hdocs Hc Hdc Herr) as (e' & Hop & Hbig). by exists c, e'.
  - exists e. split; [done|]. intros Herr. by apply resolve_sound in Herr.
  - intros steps' Hagree. split; [|by apply (resolve_agree marshal_len trigger steps steps' (earlier d i))].
    destruct (When s) as [c|]; [|done]. destruct (Hw c eq_refl) as [Hc Hdc].
    by apply (condition_agree marshal_len trigger (depth c) steps steps' (earlier d i)).
Qed.
End accepted.

(** ** Concrete definitions *)

(** A definition of two steps: a request, and a message sent when the response has a
    first title. *)
Definition pin : json :=
  JObj [("capability", JStr "web.fetch"); ("capabilityVersion", JNum (NInt 1)); ("providerId", JStr "web/fetch");
        ("providerVersion", JNum (NInt 1)); ("targetId", JStr "00000000-0000-0000-0000-000000000000");
        ("targetRevision", JNum (NInt 1))]%string.

Definition title : json :=
  JObj [("kind", JStr "reference"); ("path", JArr [JStr "items"; JNum (NInt 0); JStr "title"]);
        ("source", JObj [("kind", JStr "step"); ("stepId", JStr "fetch")])]%string.

Definition two_steps (input : json) : object :=
  [("budget", JObj []); ("name", JStr "Digest"); ("protocol", JNum (NInt 1));
   ("steps", JArr
      [JObj [("action", pin); ("id", JStr "fetch"); ("input", input); ("kind", JStr "capability"); ("label", JStr "Fetch")];
       JObj [("action", pin); ("id", JStr "send"); ("input", title); ("kind", JStr "capability"); ("label", JStr "Send");
             ("when", JObj [("kind", JStr "exists"); ("reference", title)])]]);
   ("trigger", JObj [("kind", JStr "manual")])]%string.

Definition literal (v : json) : json := JObj [("kind", JStr "literal"); ("value", v)]%string.

(** A validator that accepts one definition. *)
Definition accepts_only (o : object) (v : json) : bool := json_eqb v (JObj o).

Lemma two_steps_shape input o : expr input → accepts_only (with_defaults (two_steps input)) (JObj o) = true → definition_shape o.
Proof.
  intros Hi H. apply json_eqb_eq in H as [= ->]. eexists. split; [reflexivity|]. split; [|vm_compute; done].
  assert (reference title) as Ht by (by constructor; [apply SourceStep| |vm_compute]).
  repeat constructor; eexists; (split; [reflexivity|]).
  - split; [done|]. left. split; [reflexivity|]. exists input. by split.
  - split; [|left; split; [reflexivity|]; exists title; split; [reflexivity|by constructor]].
    intros c [= <-]. by constructor.
Qed.

(** The values a run of the definition has after its first step. *)
Definition fetched : gmap string raw :=
  {["fetch"%string := RJson (JObj [("items", JArr [JObj [("title", JStr "News")]])]%string)]}.

Lemma fetched_documents : documents (RJson JNull) fetched.
Proof.
  split; [by eexists|]. intros id r. unfold fetched. rewrite lookup_singleton_Some. intros [_ <-]. by eexists.
Qed.

Lemma accepted_steps_evaluate_witness :
  ∃ d v, ParseRoutineDefinition (λ _, 900) (accepts_only (with_defaults (two_steps (literal JNull)))) (λ _, true) (λ _, false)
           800 (RJson (JObj (two_steps (literal JNull)))) = Some (d, v) ∧
    (∃ e, Input <$> Steps d !! 1%nat = Some (Some (JObj e))) ∧
    RoutineEvaluateCondition (RJson JNull) fetched (λ _, 900) (Some (JObj [("kind", JStr "exists"); ("reference", title)]%string)) = inr true ∧
    NoDup (ID <$> Steps d) ∧ 0 <= total_turns (Steps d) <= ModelTurns d.
Proof.
  eexists _, _. split; [vm_compute; reflexivity|]. split; [by eexists|]. split; [vm_compute; reflexivity|].
  pose proof (accepted_steps_evaluate (λ _, 900) (accepts_only (with_defaults (two_steps (literal JNull)))) (λ _, true) (λ _, false)
    800 (RJson (JObj (two_steps (literal JNull))))) as H.
  edestruct H as (? & ? & _); [|vm_compute; reflexivity|by split].
  intros o Ho. by apply (two_steps_shape (literal JNull)), Ho; constructor.
Defined.



(** Whether a definition is accepted and its normalized form refused. *)
Definition refused_again (o : object) : bool :=
  match ParseRoutineDefinition (λ _, 200000) (λ _, true) (λ _, true) (λ _, false) 200000 (RJson (JObj o)) with
  | Some (_, v) => negb (routineTreeBounded (JObj v))
  | None => false
  end.

(** The bound on nodes is checked before the defaults are added: a definition just
    under it is stored in a form that is refused when it is read back. *)
Lemma normal_form_refused : refused_again (two_steps (literal (JArr (repeat JNull (Z.to_nat 19945))))) = true.
Proof. vm_compute. reflexivity. Qed.
