(* ===== verification/RoutinePlan.v ===== *)
(** * The progress of a routine run

    Models [evaluateRoutinePlan] of [internal/platform/httpapi/routine_runtime.go],
    which recomputes from a run's definition and the receipts of its effects how far
    the run has come, what it may do next and what its report says; and the
    authorization of tool calls against that plan, [authorizeRoutineCall].

    [wait_id] and [effect_id] are the identities of [capabilities/routine_waits.go]
    and [effect_identity.go] for the run's owner and id; [restore] decrypts a stored
    outcome. *)
From S2P Require Import Prelude GoStrings Json RoutineValues RoutineDefinition.

(** ** Data *)

Record RoutineCallBinding := mkBinding { cb_StepID : string; cb_CallID : string; cb_ToolName : string }.
Record RoutineAgentToolBinding := mkToolBinding { tb_ToolName : string; tb_Action : RoutinePin }.
Record RoutineAgentBinding := mkAgentBinding { ab_StepID : string; ab_CallNamespace : string; ab_Tools : list RoutineAgentToolBinding }.

(** [RoutineExecution]: the definition is the text stored with the run. *)
Record RoutineExecution := {
  ex_AgentBindings : list RoutineAgentBinding;
  ex_Definition : Z * raw;
  ex_Trigger : raw;
  ex_Bindings : list RoutineCallBinding;
}.

Record RoutineEffectReceipt := mkEffect { rc_State : string; rc_Ciphertext : option string; rc_ToolName : string }.

Record routineStepReport := mkReport { sr_StepID : string; sr_State : string; sr_CallID : string }.
Record routineNextCall := mkNext { nc_Binding : RoutineCallBinding; nc_Input : json; nc_Wait : bool; nc_Agent : option RoutineAgentBinding }.

(** The fields the plan reads of [cap.BackendOutcome]. *)
Record BackendOutcome := mkOutcome { bo_Status : string; bo_Result : raw; bo_Partial : bool }.

Inductive plan_error := PlanInvalid | PlanConflict | PlanActionUnknown | PlanUndecryptable | PlanForbidden.

#[export] Instance plan_error_eq_dec : EqDecision plan_error.
Proof. solve_decision. Defined.
#[export] Instance binding_eq_dec : EqDecision RoutineCallBinding.
Proof. solve_decision. Defined.

(** [routineEvidencePlan] with the loop's other variables. *)
Record Plan := mkPlan {
  pl_State : string;
  pl_Steps : list routineStepReport;
  pl_Next : option routineNextCall;
  pl_Replays : gmap string routineNextCall;
  pl_values : gmap string raw;
  pl_stopped : bool;
  pl_completed : bool;
}.

Definition empty_plan : Plan :=
  {| pl_State := "completed"; pl_Steps := []; pl_Next := None; pl_Replays := ∅; pl_values := ∅;
     pl_stopped := false; pl_completed := false |}.

(** The updates of an iteration, each with the report it appends. *)
Definition skip (item : string → routineStepReport) (state : string) (p : Plan) : Plan :=
  mkPlan (pl_State p) (pl_Steps p ++ [item state]) (pl_Next p) (pl_Replays p) (pl_values p) (pl_stopped p) (pl_completed p).
Definition stop (item : string → routineStepReport) (state report : string) (next : option routineNextCall) (p : Plan) : Plan :=
  mkPlan report (pl_Steps p ++ [item state]) next (pl_Replays p) (pl_values p) true (pl_completed p).
Definition done_with (item : string → routineStepReport) (stepID : string) (partial stops : bool) (call : routineNextCall)
    (value : raw) (p : Plan) : Plan :=
  mkPlan (if partial then "partial" else pl_State p) (pl_Steps p ++ [item (if partial then "partial" else "completed")%string])
    (pl_Next p) (<[cb_CallID (nc_Binding call) := call]> (pl_Replays p)) (<[stepID := value]> (pl_values p)) stops true.

(** [json.RawMessage(`{"resumed":true}`)] *)
Definition resumed : raw := RJson (JObj [("resumed"%string, JBool true)]).

Definition last_by {A} (key : A → string) (l : list A) : gmap string A := foldl (λ m x, <[key x := x]> m) ∅ l.

Section plan.
Context (marshal_len : json → Z) (schema_valid schema_resolves : json → bool) (zone_known : string → bool).
Context (wait_id effect_id : string → string).
Context (restore : string → option string → option raw) (outcome_of : raw → option BackendOutcome).

Section run.
Context (execution : RoutineExecution) (receipts : gmap string RoutineEffectReceipt).

(** The binding of a step and its agent's. *)
Definition step_binding (step : RoutineStep) : plan_error + (RoutineCallBinding * option RoutineAgentBinding) :=
  if String.eqb (Kind step) "agent" then
    match last_by ab_StepID (ex_AgentBindings execution) !! ID step with
    | Some value => inr (mkBinding (ID step) (ab_CallNamespace value) "routine.agent", Some value)
    | None => inl PlanInvalid
    end
  else if String.eqb (Kind step) "wait" then inr (mkBinding (ID step) (wait_id (ID step)) "routine.wait", None)
  else if negb (String.eqb (Kind step) "capability") then inl PlanInvalid
  else match last_by cb_StepID (ex_Bindings execution) !! ID step with
       | Some binding => inr (binding, None)
       | None => inl PlanInvalid
       end.

(** The receipt's key and the associated data its outcome was sealed with. *)
Definition receipt_key (call : routineNextCall) : string * string :=
  let effectID := effect_id (cb_CallID (nc_Binding call)) in
  match nc_Agent call with
  | Some agent => let key := "routine-agent:" +:+ ab_CallNamespace agent in (key, key +:+ ":outcome")
  | None => (if nc_Wait call then "routine-wait:" +:+ cb_CallID (nc_Binding call) else "sdk-agent-effect:" +:+ effectID,
             effectID +:+ ":outcome")
  end.

Definition one_of (s : string) (l : list string) : bool := existsb (String.eqb s) l.

(** Waiting to be executed, or being executed. *)
Definition due (call : routineNextCall) : bool :=
  match receipts !! (receipt_key call).1 with
  | None => true
  | Some receipt =>
      bool_decide (is_Some (nc_Agent call)) && one_of (rc_State receipt) ["pending"; "running"]%string ||
      nc_Wait call && one_of (rc_State receipt) ["pending"; "waiting"]%string
  end.

(** The [switch] on the receipt. *)
Definition settle_step (step : RoutineStep) (item : string → routineStepReport) (call : routineNextCall) (p : Plan) : plan_error + Plan :=
  match receipts !! (receipt_key call).1 with
  | None => inr (stop item "not_run" "failed" (Some call) p)
  | Some receipt =>
      if due call then inr (stop item "not_run" "failed" (Some call) p)
      else if negb (String.eqb (rc_ToolName receipt) (cb_ToolName (nc_Binding call))) then inl PlanConflict
      else if one_of (rc_State receipt) ["started"; "unknown"; "uncertain"]%string then
        inr (stop item "uncertain" "uncertain" (pl_Next p) p)
      else if bool_decide (is_Some (nc_Agent call)) && String.eqb (rc_State receipt) "partial" then
        inr (stop item "partial" "partial" (pl_Next p) p)
      else if negb (String.eqb (rc_State receipt) "completed") then inr (stop item "failed" "failed" (pl_Next p) p)
      else if nc_Wait call then inr (done_with item (ID step) false false call resumed p)
      else
        text ← from_option PlanUndecryptable (restore (receipt_key call).2 (rc_Ciphertext receipt));
        match outcome_of text with
        | None => inl PlanActionUnknown
        | Some outcome =>
            if negb (String.eqb (bo_Status outcome) "success") then inl PlanActionUnknown
            else inr (done_with item (ID step) (bo_Partial outcome)
                        (bo_Partial outcome && (bool_decide (is_Some (nc_Agent call)) || negb (AllowPartial step)))
                        call (bo_Result outcome) p)
        end
  end.

(** One iteration of the loop over the definition's steps. *)
Definition plan_step (p : Plan) (step : RoutineStep) : plan_error + Plan :=
  '(binding, agent) ← step_binding step;
  let item (state : string) := mkReport (ID step) state (cb_CallID binding) in
  if pl_stopped p then inr (skip item "not_run" p)
  else match RoutineEvaluateCondition (ex_Trigger execution) (pl_values p) marshal_len (When step) with
       | inl _ => inr (stop item "failed" "failed" (pl_Next p) p)
       | inr false => inr (skip item "skipped" p)
       | inr true =>
           match RoutineResolveValue (ex_Trigger execution) (pl_values p) marshal_len (step_expression step) with
           | inl _ => inr (stop item "failed" "failed" (pl_Next p) p)
           | inr input => settle_step step item (mkNext binding input (String.eqb (Kind step) "wait") agent) p
           end
       end.

Fixpoint plan_steps (p : Plan) (steps : list RoutineStep) : plan_error + Plan :=
  match steps with
  | [] => inr p
  | step :: steps => p ← plan_step p step; plan_steps p steps
  end.

(** A run that stopped at a failure after completing a step is partial. *)
Definition report_state (p : Plan) : string :=
  if String.eqb (pl_State p) "failed" && pl_completed p then "partial" else pl_State p.

Definition evaluateRoutinePlan : plan_error + (RoutineDefinition * Plan) :=
  '(definition, _) ← from_option PlanInvalid
     (ParseRoutineDefinition marshal_len schema_valid schema_resolves zone_known (ex_Definition execution).1 (ex_Definition execution).2);
  p ← plan_steps empty_plan (Steps definition);
  inr (definition, p).
End run.

(** ** Authorization *)

(** What [authorizeRoutineCall] admits: a call of a capability step, or a call of an
    agent step, which goes on to [AdmitRoutineAgentCall] with [allowNew]. *)
Inductive authorization := AdmitCall | AdmitAgent (stepID : string) (active : bool).

(** [namespace_of] is [RoutineAgentCallNamespace]; [blocked] holds when the run is
    cancelled, published or expired. *)
Definition authorizeRoutineCall (namespace_of : string → option string) (blocked : bool) (execution : RoutineExecution)
    (receipts : gmap string RoutineEffectReceipt) (callID name : string) (arguments : json) : plan_error + authorization :=
  ensure (negb blocked) PlanConflict;;
  '(_, plan) ← evaluateRoutinePlan execution receipts;
  match namespace_of callID with
  | Some namespace =>
      binding ← from_option PlanForbidden (head (filter (λ b, ab_CallNamespace b = namespace) (ex_AgentBindings execution)));
      ensure (one_of name (tb_ToolName <$> ab_Tools binding)) PlanForbidden;;
      let active := match pl_Next plan with
                    | Some next => bool_decide (is_Some (nc_Agent next)) && String.eqb (cb_CallID (nc_Binding next)) namespace
                    | None => false
                    end in
      ensure (active || bool_decide (is_Some (pl_Replays plan !! namespace))) PlanConflict;;
      inr (AdmitAgent (ab_StepID binding) active)
  | None =>
      let expected := match pl_Next plan with
                      | Some next =>
                          if negb (nc_Wait next) && bool_decide (nc_Agent next = None) && String.eqb (cb_CallID (nc_Binding next)) callID
                          then Some next else pl_Replays plan !! callID
                      | None => pl_Replays plan !! callID
                      end in
      expected ← from_option PlanForbidden expected;
      ensure (negb (nc_Wait expected) && bool_decide (nc_Agent expected = None) &&
              String.eqb (cb_ToolName (nc_Binding expected)) name && json_eqb (nc_Input expected) arguments) PlanForbidden;;
      inr AdmitCall
  end.

(** The outcome [completeRoutine] publishes for a plan; [expired] tells that a timed
    wait expired. *)
Definition completion (plan : Plan) (expired cancelled : bool) : string :=
  if negb expired && cancelled && String.eqb (report_state plan) "failed" then "cancelled" else report_state plan.
End plan.

(** ** One iteration *)

(** The call a step makes when its turn comes; it does not depend on receipts. *)
Definition call_of (marshal_len : json → Z) (wait_id : string → string) (execution : RoutineExecution) (p : Plan) (step : RoutineStep) :
    option routineNextCall :=
  match step_binding wait_id execution step, RoutineResolveValue (ex_Trigger execution) (pl_values p) marshal_len (step_expression step) with
  | inr (binding, agent), inr input => Some (mkNext binding input (String.eqb (Kind step) "wait") agent)
  | _, _ => None
  end.

(** Outcomes of a step after which the next one may run, and those that a completed
    run consists of. *)
Definition progressed (r : routineStepReport) : Prop := sr_State r ∈ ["completed"; "skipped"; "partial"]%string.
Definition succeeded (r : routineStepReport) : Prop := sr_State r ∈ ["completed"; "skipped"]%string.
Definition not_run (r : routineStepReport) : Prop := sr_State r = "not_run"%string.

Section iteration.
Context (marshal_len : json → Z) (wait_id effect_id : string → string).
Context (restore : string → option string → option raw) (outcome_of : raw → option BackendOutcome).
Context (execution : RoutineExecution).

Local Abbreviation step_of := (plan_step marshal_len wait_id effect_id restore outcome_of execution).
Local Abbreviation call := (call_of marshal_len wait_id execution).

(** The ways an iteration ends. *)
Inductive iteration (receipts : gmap string RoutineEffectReceipt) (p : Plan) (step : RoutineStep) (id : string) : Plan → Prop :=
  | it_after : pl_stopped p = true → iteration receipts p step id (skip (λ s, mkReport (ID step) s id) "not_run" p)
  | it_skipped : pl_stopped p = false → iteration receipts p step id (skip (λ s, mkReport (ID step) s id) "skipped" p)
  | it_stop state : pl_stopped p = false → state ∈ ["failed"; "uncertain"; "partial"]%string →
      iteration receipts p step id (stop (λ s, mkReport (ID step) s id) state state (pl_Next p) p)
  | it_next c : pl_stopped p = false → call p step = Some c → cb_CallID (nc_Binding c) = id →
      iteration receipts p step id (stop (λ s, mkReport (ID step) s id) "not_run" "failed" (Some c) p)
  | it_done c receipt partial stops value : pl_stopped p = false → call p step = Some c → cb_CallID (nc_Binding c) = id →
      receipts !! (receipt_key effect_id c).1 = Some receipt → rc_State receipt = "completed"%string →
      (partial = false → stops = false) →
      iteration receipts p step id (done_with (λ s, mkReport (ID step) s id) (ID step) partial stops c value p).

Lemma plan_step_cases receipts p step p' : step_of receipts p step = inr p' →
  ∃ binding agent, step_binding wait_id execution step = inr (binding, agent) ∧ iteration receipts p step (cb_CallID binding) p'.
Proof.
  unfold plan_step. destruct (step_binding wait_id execution step) as [|[binding agent]] eqn:Hb; [done|]. simpl.
  intros H. exists binding, agent. split; [done|].
  destruct (pl_stopped p) eqn:Hs; [simplify_eq; by constructor|].
  destruct (RoutineEvaluateCondition _ _ _ _) as [e|[]]; [|..|simplify_eq; by constructor].
  { simplify_eq. apply (it_stop _ _ _ _ "failed"); [done|set_solver]. }
  destruct (RoutineResolveValue _ _ _ _) as [e|input] eqn:Hr.
  { simplify_eq. apply (it_stop _ _ _ _ "failed"); [done|set_solver]. }
  set (c := mkNext binding input _ agent) in H.
  assert (call p step = Some c) as Hc by (unfold call_of; by rewrite Hb, Hr).
  unfold settle_step in H. destruct (receipts !! (receipt_key effect_id c).1) as [receipt|] eqn:Hrc;
    [|simplify_eq; by apply it_next].
  destruct (due effect_id receipts c); [simplify_eq; by apply it_next|].
  destruct (negb _); [done|]. destruct (one_of _ _); [simplify_eq; apply (it_stop _ _ _ _ "uncertain"); [done|set_solver]|].
  destruct (_ && _); [simplify_eq; apply (it_stop _ _ _ _ "partial"); [done|set_solver]|].
  destruct (negb (String.eqb (rc_State receipt) "completed")) eqn:Hst;
    [simplify_eq; apply (it_stop _ _ _ _ "failed"); [done|set_solver]|].
  apply negb_false_iff, String.eqb_eq in Hst.
  destruct (nc_Wait c); [simplify_eq; by eapply it_done|].
  destruct (restore _ _) as [text|]; [|done]. simpl in H. destruct (outcome_of text) as [o|]; [|done].
  destruct (negb _); [done|]. simplify_eq. eapply it_done; try done. intros ->. done.
Qed.
End iteration.

(** ** Runs of the loop *)

Section loop.
Context (marshal_len : json → Z) (wait_id effect_id : string → string).
Context (restore : string → option string → option raw) (outcome_of : raw → option BackendOutcome).
Context (execution : RoutineExecution).

Local Abbreviation step_of := (plan_step marshal_len wait_id effect_id restore outcome_of execution).
Local Abbreviation steps_of := (plan_steps marshal_len wait_id effect_id restore outcome_of execution).
Local Abbreviation call := (call_of marshal_len wait_id execution).
Local Abbreviation binding_of := (step_binding wait_id execution).

Lemma plan_steps_snoc receipts p l s : steps_of receipts p (l ++ [s]) = (q ← steps_of receipts p l; step_of receipts q s).
Proof.
  revert p. induction l as [|x l IH]; intros p; simpl.
  - unfold mbind, result_bind. by destruct (step_of receipts p s).
  - unfold mbind, result_bind in *. destruct (step_of receipts p x); [done|apply IH].
Qed.

(** Invariants of the loop: [P] holds of the plan and of the steps handled so far. *)
Lemma plan_steps_ind receipts (P : Plan → list RoutineStep → Prop) :
  P empty_plan [] →
  (∀ p l step binding agent p', steps_of receipts empty_plan l = inr p → P p l → binding_of step = inr (binding, agent) →
     iteration marshal_len wait_id effect_id execution receipts p step (cb_CallID binding) p' → P p' (l ++ [step])) →
  ∀ l p, steps_of receipts empty_plan l = inr p → P p l.
Proof.
  intros Hnil Hstep l. induction l as [|step l IH] using rev_ind; intros p H; [by simplify_eq/=|].
  rewrite plan_steps_snoc in H. unfold mbind, result_bind in H. destruct (steps_of receipts empty_plan l) as [|q] eqn:Hq; [done|].
  destruct (plan_step_cases _ _ _ _ _ _ _ _ _ _ H) as (binding & agent & Hb & Hit). by eapply Hstep; eauto.
Qed.

(** Outcomes that leave no effect behind. *)
Definition idle (r : routineStepReport) : Prop := sr_State r ∈ ["skipped"; "failed"; "not_run"]%string.

(** A call is the one of the step at a position. *)
Definition bound_to (c : routineNextCall) (l : list RoutineStep) (i : nat) : Prop :=
  ∃ step agent, l !! i = Some step ∧ binding_of step = inr (nc_Binding c, agent).

Lemma bound_to_app c l k i : bound_to c l i → bound_to c (l ++ k) i.
Proof. intros (step & agent & Hi & Hb). exists step, agent. split; [by apply lookup_app_l_Some|done]. Qed.

Lemma call_binding p step binding agent c : binding_of step = inr (binding, agent) → call p step = Some c → nc_Binding c = binding.
Proof. intros Hb Hc. unfold call_of in Hc. rewrite Hb in Hc. destruct (RoutineResolveValue _ _ _ _); by simplify_eq/=. Qed.

(** What the report says of the steps, and when a call is due. *)
Record report_ok (p : Plan) (l : list RoutineStep) : Prop := {
  ro_ids : sr_StepID <$> pl_Steps p = ID <$> l;
  ro_running : pl_stopped p = false → Forall progressed (pl_Steps p) ∧ pl_Next p = None ∧
    pl_State p ∈ ["completed"; "partial"]%string;
  ro_next : ∀ c, pl_Next p = Some c → pl_stopped p = true ∧ pl_State p = "failed"%string ∧
    ∃ done rest, pl_Steps p = done ++ rest ∧ rest ≠ [] ∧ Forall progressed done ∧ Forall not_run rest ∧ bound_to c l (length done);
  ro_completed : pl_State p = "completed"%string ↔ Forall succeeded (pl_Steps p);
  ro_stopped : pl_stopped p = true → pl_State p ∈ ["failed"; "uncertain"; "partial"]%string;
  ro_none : pl_completed p = false → pl_stopped p = false ∨ pl_State p = "failed"%string → Forall idle (pl_Steps p);
}.

Lemma report_invariant receipts l p : steps_of receipts empty_plan l = inr p → report_ok p l.
Proof.
  apply (plan_steps_ind receipts report_ok); clear l p.
  { split; simpl; try done; [intros _; split; [constructor|]; split; [done|set_solver]]. }
  intros p l step binding agent p' _ [Hids Hrun Hnext Hcomp Hstop Hnone] Hb Hit.
  assert (∀ item, sr_StepID <$> (pl_Steps p ++ [mkReport (ID step) item (cb_CallID binding)]) = ID <$> (l ++ [step])) as Hids'.
  { intros. by rewrite !fmap_app, Hids. }
  destruct Hit as [Hs|Hs|state Hs Hst|c Hs Hc Hid|c receipt partial stops value Hs Hc Hid Hrc Hcomp' Hps]; split; simpl; try done.
  - (* after the stop *) rewrite Hs. done.
  - intros c Hc. destruct (Hnext c Hc) as (_ & Hst & a & b & -> & Hne & Ha & Hn & Hbound). rewrite Hs. split; [done|]. split; [done|].
    exists a, (b ++ [mkReport (ID step) "not_run" (cb_CallID binding)]). rewrite (assoc_L (++)). split; [done|].
    split; [by destruct b|]. split; [done|]. split; [apply Forall_app; split; [done|by repeat constructor]|by apply bound_to_app].
  - rewrite Forall_app, <- Hcomp. specialize (Hstop Hs). split; [|by intros [??]]. intros Hst. rewrite Hst in Hstop. not_in Hstop.
  - rewrite Forall_app. intros Hc Ho. split; [by apply Hnone|]. by repeat constructor.
  - (* skipped *) intros _. destruct (Hrun Hs) as (Hp & Hn & Hst). split; [|done]. apply Forall_app. split; [done|].
    by repeat constructor.
  - intros c Hc. destruct (Hnext c Hc) as (Hs' & _). congruence.
  - rewrite Forall_app, <- Hcomp. split; [|by intros [??]]. intros Hst. split; [done|]. by repeat constructor.
  - rewrite Forall_app. intros Hc Ho. split; [by apply Hnone|]. by repeat constructor.
  - (* stopped *) intros c Hc. destruct (Hnext c Hc) as (Hs' & _). congruence.
  - rewrite Forall_app. split; [intros ->; not_in Hst|]. intros [_ Hl]. apply Forall_inv in Hl. unfold succeeded in Hl. simpl in Hl.
    exfalso. repeat (apply elem_of_cons in Hl as [->|Hl]; [not_in Hst|]). not_in Hl.
  - rewrite Forall_app. intros Hc [Ho|Ho]; [done|]. subst. split; [apply Hnone; auto|]. by repeat constructor.
  - (* a call is due *) intros c' [= <-]. split; [done|]. split; [done|]. destruct (Hrun Hs) as (Hp & _).
    exists (pl_Steps p), [mkReport (ID step) "not_run" (cb_CallID binding)]. repeat split; [done|done|by repeat constructor|].
    exists step, agent. apply (f_equal length) in Hids. rewrite !length_fmap in Hids.
    by rewrite Hids, lookup_app_r, Nat.sub_diag, (call_binding _ _ _ _ _ Hb Hc) by done.
  - rewrite Forall_app. split; [done|]. intros [_ Hl]. apply Forall_inv in Hl. unfold succeeded in Hl. simpl in Hl. not_in Hl.
  - intros _. by repeat constructor.
  - rewrite Forall_app. intros Hnc _. split; [apply Hnone; auto|]. by repeat constructor.
  - (* done *) intros Hst. destruct (Hrun Hs) as (Hp & Hn & Hst'). split; [|split; [done|]].
    + apply Forall_app. split; [done|]. destruct partial; by repeat constructor.
    + destruct partial; [by repeat constructor|done].
  - intros c' Hc'. destruct (Hnext c' Hc') as (Hs' & _). congruence.
  - rewrite Forall_app, <- Hcomp. destruct partial.
    + split; [done|]. intros [_ Hl]. apply Forall_inv in Hl. unfold succeeded in Hl. simpl in Hl. not_in Hl.
    + split; [|by intros [??]]. intros Hst. split; [done|]. by repeat constructor.
  - intros Hst. destruct partial; [by repeat constructor|]. rewrite Hps in Hst; done.
Qed.

(** ** Growing evidence *)

(** Completed receipts stay as they are; others may settle. *)
Definition grown (receipts receipts' : gmap string RoutineEffectReceipt) : Prop :=
  ∀ key r, receipts !! key = Some r → rc_State r = "completed"%string → receipts' !! key = Some r.

Lemma settle_same receipts receipts' step item c p :
  receipts !! (receipt_key effect_id c).1 = receipts' !! (receipt_key effect_id c).1 →
  settle_step effect_id restore outcome_of receipts step item c p = settle_step effect_id restore outcome_of receipts' step item c p.
Proof. intros Hsame. unfold settle_step, due. by rewrite Hsame. Qed.

Lemma settle_running receipts step item c p p' :
  settle_step effect_id restore outcome_of receipts step item c p = inr p' → pl_stopped p' = false →
  ∃ r, receipts !! (receipt_key effect_id c).1 = Some r ∧ rc_State r = "completed"%string.
Proof.
  unfold settle_step. intros H Hrun. destruct (receipts !! _) as [r|]; [|by simplify_eq].
  exists r. split; [done|]. apply String.eqb_eq.
  destruct (due _ _ _); [by simplify_eq|]. destruct (negb _); [done|]. destruct (one_of _ _); [by simplify_eq|].
  destruct (_ && _); [by simplify_eq|]. destruct (String.eqb (rc_State r) "completed"); [done|by simplify_eq/=].
Qed.

(** An iteration that does not stop the run ends the same way on grown evidence. *)
Lemma step_grown receipts receipts' p step p' :
  grown receipts receipts' → step_of receipts p step = inr p' → pl_stopped p' = false → step_of receipts' p step = inr p'.
Proof.
  intros Hgrown H Hrun. rewrite <- H. symmetry.
  unfold plan_step in H |- *. destruct (binding_of step) as [|[binding agent]]; [done|]. simpl in *.
  destruct (pl_stopped p); [done|]. destruct (RoutineEvaluateCondition _ _ _ _) as [e|[]]; [done| |done].
  destruct (RoutineResolveValue _ _ _ _) as [e|input] eqn:Hr; [done|].
  destruct (settle_running _ _ _ _ _ _ H Hrun) as (r & Hr' & Hst). apply settle_same. by rewrite Hr', (Hgrown _ _ Hr' Hst).
Qed.

Lemma step_running receipts p step p' : step_of receipts p step = inr p' → pl_stopped p' = false → pl_stopped p = false.
Proof.
  intros H Hrun. destruct (plan_step_cases _ _ _ _ _ _ _ _ _ _ H) as (binding & agent & _ & Hit). destruct Hit; simpl in *; congruence.
Qed.

Lemma steps_grown receipts receipts' l : ∀ p p', grown receipts receipts' → steps_of receipts p l = inr p' → pl_stopped p' = false →
  steps_of receipts' p l = inr p' ∧ pl_stopped p = false.
Proof.
  induction l as [|step l IH]; intros p p' Hgrown H Hrun; simpl in *; [by simplify_eq|].
  unfold mbind, result_bind in *. destruct (step_of receipts p step) as [|q] eqn:Hq; [done|].
  destruct (IH q p' Hgrown H Hrun) as [Hl Hqrun]. split; [|by eapply step_running].
  by rewrite (step_grown _ _ _ _ _ Hgrown Hq Hqrun).
Qed.

(** Where the calls of a plan come from: a step that was reached. *)
Definition reached receipts (l : list RoutineStep) (i : nat) (q : Plan) (c : routineNextCall) : Prop :=
  ∃ step binding agent, l !! i = Some step ∧ steps_of receipts empty_plan (take i l) = inr q ∧ pl_stopped q = false ∧
    call q step = Some c ∧ binding_of step = inr (binding, agent) ∧ nc_Binding c = binding.

Definition calls_reached receipts (p : Plan) (l : list RoutineStep) : Prop :=
  (∀ c, pl_Next p = Some c → ∃ i q, reached receipts l i q c) ∧
  (∀ id c, pl_Replays p !! id = Some c → cb_CallID (nc_Binding c) = id ∧ ∃ i q, reached receipts l i q c).

Lemma reached_snoc receipts l step i q c : reached receipts l i q c → reached receipts (l ++ [step]) i q c.
Proof.
  intros (s & b & a & Hi & Hq & Hrest). exists s, b, a. pose proof (lookup_lt_Some _ _ _ Hi).
  rewrite lookup_app_l by done. rewrite take_app_le by lia. auto.
Qed.

Lemma reached_last receipts l step p binding agent c : steps_of receipts empty_plan l = inr p → pl_stopped p = false →
  binding_of step = inr (binding, agent) → call p step = Some c → reached receipts (l ++ [step]) (length l) p c.
Proof.
  intros Hp Hs Hb Hc. exists step, binding, agent. rewrite lookup_app_r, Nat.sub_diag, take_app_length by done.
  repeat split; try done. by eapply call_binding.
Qed.

Lemma calls_invariant receipts l p : steps_of receipts empty_plan l = inr p → calls_reached receipts p l.
Proof.
  apply (plan_steps_ind receipts (calls_reached receipts)); clear l p; [done|].
  intros p l step binding agent p' Hp [Hnext Hreplays] Hb Hit.
  assert (∀ c, pl_Next p = Some c → ∃ i q, reached receipts (l ++ [step]) i q c) as Hnext'.
  { intros c Hc. destruct (Hnext c Hc) as (i & q & Hr). exists i, q. by apply reached_snoc. }
  assert (∀ id c, pl_Replays p !! id = Some c → cb_CallID (nc_Binding c) = id ∧ ∃ i q, reached receipts (l ++ [step]) i q c) as Hreplays'.
  { intros id c Hc. destruct (Hreplays id c Hc) as (? & i & q & Hr). split; [done|]. exists i, q. by apply reached_snoc. }
  destruct Hit as [Hs|Hs|state Hs Hst|c Hs Hc Hid|c receipt partial stops value Hs Hc Hid Hrc Hcomp' Hps]; split; simpl; auto.
  - intros c' [= <-]. exists (length l), p. by eapply reached_last.
  - intros id c'. rewrite lookup_insert_Some. intros [[<- <-]|[_ Hc']]; [|auto].
    split; [done|]. exists (length l), p. by eapply reached_last.
Qed.

(** Steps are bound to different calls. *)
Definition distinct_calls (l : list RoutineStep) : Prop :=
  ∀ i j s t b b' a a', l !! i = Some s → l !! j = Some t → binding_of s = inr (b, a) → binding_of t = inr (b', a') →
    cb_CallID b = cb_CallID b' → i = j.

Lemma reached_unique receipts receipts' l i j q q' c c' :
  grown receipts receipts' → distinct_calls l → reached receipts l i q c → reached receipts' l j q' c' →
  cb_CallID (nc_Binding c) = cb_CallID (nc_Binding c') → c = c'.
Proof.
  intros Hgrown Hd (s & b & a & Hi & Hq & Hs & Hc & Hb & Hbc) (t & b' & a' & Hj & Hq' & Hs' & Hc' & Hb' & Hbc') Hid.
  assert (i = j) as -> by (eapply Hd; eauto; congruence). rewrite Hi in Hj. injection Hj as <-.
  destruct (steps_grown _ _ _ _ _ Hgrown Hq Hs) as [Hq2 _]. rewrite Hq2 in Hq'. injection Hq' as <-. rewrite Hc in Hc'. by injection Hc'.
Qed.
End loop.

(** ** Properties *)

Section theorems.
Context (marshal_len : json → Z) (schema_valid schema_resolves : json → bool) (zone_known : string → bool).
Context (wait_id effect_id : string → string).
Context (restore : string → option string → option raw) (outcome_of : raw → option BackendOutcome).
Context (execution : RoutineExecution).

Local Abbreviation plan_of :=
  (evaluateRoutinePlan marshal_len schema_valid schema_resolves zone_known wait_id effect_id restore outcome_of execution).
Local Abbreviation authorize := (λ namespace_of blocked,
  authorizeRoutineCall marshal_len schema_valid schema_resolves zone_known wait_id effect_id restore outcome_of namespace_of blocked execution).

Lemma plan_inv receipts d p : plan_of receipts = inr (d, p) →
  (∃ v, ParseRoutineDefinition marshal_len schema_valid schema_resolves zone_known (ex_Definition execution).1 (ex_Definition execution).2 = Some (d, v)) ∧
  plan_steps marshal_len wait_id effect_id restore outcome_of execution receipts empty_plan (Steps d) = inr p.
Proof.
  unfold evaluateRoutinePlan, mbind, result_bind, from_option. destruct (ParseRoutineDefinition _ _ _ _ _ _) as [[e v]|]; [|done].
  destruct (plan_steps _ _ _ _ _ _ _ _ _) as [|q] eqn:Hq; [done|]. intros [= <- <-]. eauto.
Qed.


Lemma authorized_reached namespace_of blocked receipts callID name arguments :
  namespace_of callID = None → authorize namespace_of blocked receipts callID name arguments = inr AdmitCall →
  ∃ d v i q c, ParseRoutineDefinition marshal_len schema_valid schema_resolves zone_known (ex_Definition execution).1 (ex_Definition execution).2 = Some (d, v) ∧
    reached marshal_len wait_id effect_id restore outcome_of execution receipts (Steps d) i q c ∧
    cb_CallID (nc_Binding c) = callID ∧ cb_ToolName (nc_Binding c) = name ∧ nc_Input c = arguments ∧ blocked = false.
Proof.
  intros Hns. unfold authorizeRoutineCall, ensure. destruct blocked; [done|]. simpl. unfold mbind, result_bind.
  destruct (plan_of receipts) as [|[d p]] eqn:Hp; [done|]. rewrite Hns. apply plan_inv in Hp as [[v Hv] Hp].
  apply calls_invariant in Hp as [Hnext Hreplays].
  set (expected := match pl_Next p with Some _ => _ | None => _ end). destruct expected as [c|] eqn:Hc; [|done]. simpl.
  assert (cb_CallID (nc_Binding c) = callID ∧ ∃ i q,
    reached marshal_len wait_id effect_id restore outcome_of execution receipts (Steps d) i q c) as (Hid & i & q & Hr).
  { subst expected. destruct (pl_Next p) as [next|]; [|by apply Hreplays].
    destruct (negb (nc_Wait next) && bool_decide (nc_Agent next = None) && _) eqn:Hb; [|by apply Hreplays]. injection Hc as ->.
    apply andb_true_iff in Hb as [_ Hb]. apply String.eqb_eq in Hb. split; [done|]. by apply Hnext. }
  destruct (_ && json_eqb (nc_Input c) arguments) eqn:Hok; [|done]. intros _.
  apply andb_true_iff in Hok as [Hok Harg]. apply andb_true_iff in Hok as [_ Hname].
  apply json_eqb_eq in Harg. apply String.eqb_eq in Hname. by exists d, v, i, q, c.
Qed.

(** A call id that is authorized at two moments of a run is authorized for the same
    tool with the same arguments, if the receipts completed at the first moment are
    kept at the second. *)
Lemma authorized_call_fixed namespace_of blocked blocked' receipts receipts' callID name name' arguments arguments' :
  (∀ d v, ParseRoutineDefinition marshal_len schema_valid schema_resolves zone_known (ex_Definition execution).1 (ex_Definition execution).2 = Some (d, v) →
    distinct_calls wait_id execution (Steps d)) →
  grown receipts receipts' → namespace_of callID = None →
  authorize namespace_of blocked receipts callID name arguments = inr AdmitCall →
  authorize namespace_of blocked' receipts' callID name' arguments' = inr AdmitCall →
  name = name' ∧ arguments = arguments' ∧ blocked = false ∧ blocked' = false.
Proof.
  intros Hd Hgrown Hns H H'.
  destruct (authorized_reached _ _ _ _ _ _ Hns H) as (d & v & i & q & c & Hv & Hr & Hid & <- & <- & ->).
  destruct (authorized_reached _ _ _ _ _ _ Hns H') as (d' & v' & j & q' & c' & Hv' & Hr' & Hid' & <- & <- & ->).
  rewrite Hv in Hv'. injection Hv' as <- <-.
  rewrite (reached_unique _ _ _ _ _ _ _ _ _ _ _ _ _ _ _ Hgrown (Hd _ _ Hv) Hr Hr' ltac:(congruence)). done.
Qed.
End theorems.

(** ** A run of two steps *)

Definition digest : RoutineExecution :=
  {| ex_AgentBindings := []; ex_Definition := (800, RJson (JObj (two_steps (literal JNull)))); ex_Trigger := RJson JNull;
     ex_Bindings := [mkBinding "fetch" "call-1" "web_fetch"; mkBinding "send" "call-2" "send_mail"]%string |}.

(** Sealed outcomes by name. *)
Definition unseal (aad : string) (ciphertext : option string) : option raw :=
  _ ← ciphertext; Some (RJson (JObj [("items", JArr [JObj [("title", JStr "News")]])]%string)).
Definition success (r : raw) : option BackendOutcome := Some (mkOutcome "success" r false).

Definition fetch_done : gmap string RoutineEffectReceipt :=
  {["sdk-agent-effect:call-1"%string := mkEffect "completed" (Some "sealed"%string) "web_fetch"]}.

Definition digest_plan := evaluateRoutinePlan (λ _, 900) (λ _, true) (λ _, true) (λ _, false) id id unseal success digest.

