(* ===== verification/RoutineRuns.v ===== *)
(** * Routine runs: waits, agent steps, cancellation and completion

    Models [internal/platform/postgres/routine_timed_waits.go], the publication and
    cancellation of [routine_runs.go] and the agent steps of
    [routine_agent_steps.go], statement by statement over the store of [RunStore].
    [now] is the database clock, read once per transaction.  [effect_id] is
    [capabilities.AgentSDKIdentities], [fingerprint] the digest of a call's input. *)
From S2P Require Import Prelude Tx GoStrings GoTime Json RoutineValues RunStore ActionJournal RunBudget.

(** ** Columns an operation may change *)

Definition with_wait (state : string) (w : RoutineWait) : RoutineWait := mkWait (rw_WaitID w) state (rw_Until w) (rw_ExpiresAt w).
Definition with_cancel (r : RoutineRun) : RoutineRun :=
  mkRoutineRun (rr_UserID r) (rr_RoutineID r) true (rr_Outcome r) (rr_Report r) (rr_AgentTools r).
Definition with_outcome (outcome : string) (report : json) (r : RoutineRun) : RoutineRun :=
  mkRoutineRun (rr_UserID r) (rr_RoutineID r) (rr_CancelRequested r) outcome report (rr_AgentTools r).
Definition with_step (state fingerprint : string) (ciphertext : option string) (a : AgentStep) : AgentStep :=
  mkAgentStep (as_CallNamespace a) (as_ModelID a) (as_MaxTurns a) state ciphertext fingerprint.

Definition set_wait (key : string * string) (w : RoutineWait) (s : Store) : Store := set_waits (<[key := w]> (waits s)) s.

(** Rows of a run whose outcome is open. *)
Definition open_row (userID runID : string) (r : JournalRow) : bool :=
  bool_decide (jr_UserID r = userID) && bool_decide (jr_RunID r = runID) &&
  bool_decide (jr_State r ∈ ["started"; "unknown"]%string).

Definition open_rows (userID runID : string) (s : Store) : list (string * JournalRow) :=
  filter (λ kv, open_row userID runID kv.2 = true) (map_to_list (journal s)).

(** ** Timed waits *)

Record RoutineWaitRecord := mkWaitRecord {
  wr_StepID : string; wr_WaitID : string; wr_State : string; wr_Until : option Z; wr_ExpiresAt : option Z; wr_RemainingMS : Z }.

Definition wait_record (now : Z) (stepID : string) (w : RoutineWait) : RoutineWaitRecord :=
  mkWaitRecord stepID (rw_WaitID w) (rw_State w) (rw_Until w) (rw_ExpiresAt w)
    match rw_Until w with
    | Some until =>
        if bool_decide (rw_State w = "waiting"%string) && (now <? until)
        then (time_sub until now +64 Millisecond -64 1)%go ÷ Millisecond else 0
    | None => 0
    end.

Definition routineWaitTx (runID stepID : string) (now : Z) : T RoutineWaitRecord :=
  s ← get;
  w ← require (waits s !! (runID, stepID)) ErrSpaceNotFound;
  mret (wait_record now stepID w).

(** The state of the run and whether it is still live. *)
Definition routineWaitRunLockTx (userID runID runtimeID : string) (now : Z) : T (string * bool) :=
  s ← get;
  r ← require (owned_run s runID userID) ErrNoRows;
  rr ← require (routine_runs s !! runID) ErrNoRows;
  guard_tx (bool_decide (rr_UserID rr = userID)) ErrNoRows;;
  guard_tx (negb (bool_decide (runtimeID = ""%string)) && bool_decide (run_RuntimeID r = runtimeID) &&
            negb (rr_CancelRequested rr) && negb (terminal (run_State r))) ErrSpaceConflict;;
  sdkTargetSpaceAccessTx userID (run_SpaceID r);;
  mret (run_State r, now <? run_ExpiresAt r).

Definition routineTimerEvent (runID waitID phase : string) (s : Store) : Store :=
  add_event runID ("routine-timer:" +:+ waitID +:+ ":" +:+ phase) "assistant.status" s.

(** [RoutineWaitUntil] on a parsed instant: workflow timers use milliseconds. *)
Definition RoutineWaitUntil (until : Z) : Z :=
  let rounded := until - until mod Millisecond in
  if rounded <? until then rounded + Millisecond else rounded.

Lemma RoutineWaitUntil_spec t :
  t <= RoutineWaitUntil t < t + Millisecond ∧ (Millisecond | RoutineWaitUntil t) ∧
  ∀ m, (Millisecond | m) → t <= m → RoutineWaitUntil t <= m.
Proof.
  unfold RoutineWaitUntil, Millisecond. pose proof (Z.div_mod t 1000000 ltac:(lia)). pose proof (Z.mod_pos_bound t 1000000 ltac:(lia)).
  case_if; bool_to_prop; (split; [lia|]; split; [|intros m [k ->]; nia]).
  - exists (t / 1000000 + 1). lia.
  - exists (t / 1000000). lia.
Qed.

(** [misty_routine_one_timer], the unique index on waits of a run that are waiting. *)
Definition other_timer (runID stepID : string) (s : Store) : bool :=
  bool_decide (Exists (λ kv : (string * string) * RoutineWait,
    kv.1.1 = runID ∧ kv.1.2 ≠ stepID ∧ rw_State kv.2 = "waiting"%string) (map_to_list (waits s))).

Definition OpenRoutineWait (userID runID runtimeID stepID : string) (until now : Z) : T RoutineWaitRecord :=
  guard_tx (negb (until =? time_zero)) ErrSpaceInvalid;;
  '(state, live) ← routineWaitRunLockTx userID runID runtimeID now;
  guard_tx live ErrSpaceConflict;;
  s ← get;
  w ← require (waits s !! (runID, stepID)) ErrSpaceNotFound;
  if negb (bool_decide (rw_State w = "pending"%string)) then
    guard_tx (bool_decide (rw_Until w = Some until)) ErrSpaceConflict;;
    mret (wait_record now stepID w)
  else
    guard_tx (bool_decide (state = "running"%string) && (until <? now + 24 * Hour)) ErrSpaceInvalid;;
    guard_tx (bool_decide (open_rows userID runID s = [])) ErrSpaceConflict;;
    let waits_now := now <? until in
    guard_tx (negb (waits_now && other_timer runID stepID s)) (ErrConstraint "misty_routine_one_timer");;
    modify (set_wait (runID, stepID) (mkWait (rw_WaitID w) (if waits_now then "waiting" else "completed") (Some until) (Some (now + 24 * Hour))));;
    when waits_now (modify (λ s, set_runs
      (alter (λ r, with_expiry (Z.max (run_ExpiresAt r) (now + 24 * Hour)) (update_state now "awaiting_timer" r)) runID (runs s)) s));;
    modify (routineTimerEvent runID (rw_WaitID w) (if waits_now then "awaiting_timer" else "timer_resume_pending"));;
    routineWaitTx runID stepID now.

Definition ResumeRoutineWait (validID : string → bool) (userID runID runtimeID stepID waitID : string) (now : Z) : T RoutineWaitRecord :=
  guard_tx (validID waitID) ErrSpaceInvalid;;
  '(state, _) ← routineWaitRunLockTx userID runID runtimeID now;
  s ← get;
  w ← require (waits s !! (runID, stepID)) ErrSpaceNotFound;
  guard_tx (bool_decide (rw_WaitID w = waitID)) ErrSpaceConflict;;
  if bool_decide (rw_State w ∈ ["completed"; "expired"]%string) then mret (wait_record now stepID w)
  else
    guard_tx (bool_decide (rw_State w = "waiting"%string) && bool_decide (state = "awaiting_timer"%string)) ErrSpaceConflict;;
    until ← require (rw_Until w) ErrSpaceConflict;
    expires ← require (rw_ExpiresAt w) ErrSpaceConflict;
    if now <? until then mret (wait_record now stepID w)
    else
      let expired := negb (now <? expires) in
      modify (set_wait (runID, stepID) (with_wait (if expired then "expired" else "completed") w));;
      modify (set_run_state now runID "running");;
      modify (routineTimerEvent runID waitID (if expired then "timer_expired" else "timer_resume_pending"));;
      routineWaitTx runID stepID now.

(** The batch of [ExpireRoutineWaits]: [locked] are the runs that other
    transactions hold. *)
Definition overdue (now : Z) (w : RoutineWait) : bool :=
  bool_decide (rw_State w = "waiting"%string) &&
  match rw_ExpiresAt w with Some t => t <=? now | None => false end.

Definition expiring (locked : gset string) (now : Z) (s : Store) (kv : (string * string) * RoutineWait) : Prop :=
  overdue now kv.2 = true ∧ (kv.1.1 ∉ locked) ∧ (run_State <$> runs s !! kv.1.1) = Some "awaiting_timer"%string.

#[export] Instance expiring_dec locked now s kv : Decision (expiring locked now s kv).
Proof. unfold expiring. apply _. Defined.

Definition by_expiry (x y : (string * string) * RoutineWait) : Prop :=
  default 0 (rw_ExpiresAt x.2) <= default 0 (rw_ExpiresAt y.2).

#[export] Instance by_expiry_dec : RelDecision by_expiry.
Proof. intros x y. unfold by_expiry. apply _. Defined.

Definition expiry_batch (locked : gset string) (now : Z) (s : Store) : list ((string * string) * RoutineWait) :=
  take 20 (merge_sort by_expiry (filter (expiring locked now s) (map_to_list (waits s)))).

Definition expire_one (now : Z) (item : (string * string) * RoutineWait) : T () :=
  let '((runID, stepID), _) := item in
  s ← get;
  match waits s !! (runID, stepID), runs s !! runID with
  | Some w, Some r =>
      when (overdue now w) (
        modify (set_wait (runID, stepID) (with_wait "expired" w));;
        modify (λ s, set_routine_runs (alter with_cancel runID (routine_runs s)) s);;
        modify (routineTimerEvent runID (rw_WaitID w) "timer_expired");;
        modify (queueAgentContinuation (run_Owner r) runID "runtime.cancel" (run_RuntimeID r) (run_RuntimeID r)))
  | _, _ => mret ()
  end.

Fixpoint expire_all (now : Z) (items : list ((string * string) * RoutineWait)) : T () :=
  match items with
  | [] => mret ()
  | item :: items => expire_one now item;; expire_all now items
  end.

Definition ExpireRoutineWaits (locked : gset string) (now : Z) : T () :=
  s ← get; expire_all now (expiry_batch locked now s).

(** ** Agent steps *)

Definition RoutineAgentMaxCalls : Z := 40.

Definition routineAgentCheckpointTx (runID stepID : string) : T AgentStep :=
  s ← get; require (agent_steps s !! (runID, stepID)) ErrSpaceNotFound.

Definition OpenRoutineAgent (userID runID stepID runtimeID : string) (now : Z) : T AgentStep :=
  routineAgentRunLockTx userID runID runtimeID false now;;
  checkpoint ← routineAgentCheckpointTx runID stepID;
  if bool_decide (as_State checkpoint = "pending"%string) then
    let checkpoint := with_step "running" (as_Fingerprint checkpoint) (as_Ciphertext checkpoint) checkpoint in
    modify (λ s, set_agent_steps (<[(runID, stepID) := checkpoint]> (agent_steps s)) s);;
    mret checkpoint
  else mret checkpoint.

(** The calls of an agent step. *)
Definition step_calls (runID stepID : string) (s : Store) : list ((string * string) * AgentCall) :=
  filter (λ kv, kv.1.1 = runID ∧ ac_StepID kv.2 = stepID) (map_to_list (agent_calls s)).

(** The join of a call with its journal row. *)
Definition call_confirmed (userID runID : string) (s : Store) (c : AgentCall) : bool :=
  match journal s !! effect_key (ac_EffectID c) with
  | Some r => bool_decide (jr_UserID r = userID) && bool_decide (jr_RunID r = runID) &&
              bool_decide (jr_ToolName r = ac_ToolName c) && confirmed r
  | None => false
  end.

Section operations.
Context (effect_id : string → string → string → string) (namespace_of : string → option string) (fingerprint : json → string).

(** The input arrives decoded; [None] stands for one that [Decode] refuses. *)
Definition AdmitRoutineAgentCall (userID runID runtimeID stepID callID toolName : string) (input : option json) (allowNew : bool) (now : Z) : T () :=
  namespace ← require (namespace_of callID) ErrSpaceInvalid;
  value ← require input ErrSpaceInvalid;
  routineAgentRunLockTx userID runID runtimeID true now;;
  checkpoint ← routineAgentCheckpointTx runID stepID;
  guard_tx (bool_decide (as_CallNamespace checkpoint = namespace)) ErrAppRuntimeForbidden;;
  s ← get;
  guard_tx (match routine_runs s !! runID with
            | Some rr => bool_decide (rr_UserID rr = userID) && bool_decide ((stepID, namespace, toolName) ∈ rr_AgentTools rr)
            | None => false
            end) ErrAppRuntimeForbidden;;
  match agent_calls s !! (runID, callID) with
  | Some previous =>
      guard_tx (bool_decide (ac_StepID previous = stepID) && bool_decide (ac_ToolName previous = toolName) &&
                bool_decide (ac_Fingerprint previous = fingerprint value)) ErrSpaceConflict
  | None =>
      guard_tx (allowNew && bool_decide (as_State checkpoint = "running"%string)) ErrSpaceConflict;;
      routineAgentRunLockTx userID runID runtimeID false now;;
      guard_tx (len (step_calls runID stepID s) <? RoutineAgentMaxCalls) ErrSpaceLimit;;
      modify (set_agent_calls (<[(runID, callID) := mkAgentCall stepID toolName (fingerprint value) (effect_id userID runID callID)]> (agent_calls s)))
  end.

(** Claims of an agent step's model turns, and those acknowledged. *)
Definition step_turns (userID runID namespace : string) (s : Store) : list ((string * string) * TurnClaim) :=
  filter (λ kv, kv.1.1 = runID ∧ tc_UserID kv.2 = userID ∧ HasPrefix kv.1.2 ("model:routine:" +:+ namespace +:+ ":") = true)
    (map_to_list (turn_claims s)).

Definition FinishRoutineAgent (userID runID stepID runtimeID state completion ciphertext : string) (expectedCalls expectedTurns : Z)
    (recovery : bool) (now : Z) : T AgentStep :=
  guard_tx (bool_decide (state ∈ ["completed"; "failed"; "partial"; "uncertain"]%string) &&
            (17 <=? strlen ciphertext) && (strlen ciphertext <=? Z.shiftl 2 20)) ErrSpaceInvalid;;
  s ← get;
  _ ← require (owned_run s runID userID) ErrNoRows;
  (if negb recovery then routineAgentRunLockTx userID runID runtimeID false now
   else guard_tx (negb (bool_decide (state = "completed"%string))) ErrSpaceForbidden);;
  checkpoint ← routineAgentCheckpointTx runID stepID;
  if negb (bool_decide (as_State checkpoint = "running"%string)) then
    guard_tx (negb (bool_decide (as_State checkpoint = "pending"%string))) ErrSpaceConflict;;
    guard_tx (recovery || bool_decide (as_Fingerprint checkpoint = completion)) ErrSpaceConflict;;
    mret checkpoint
  else
    let calls := step_calls runID stepID s in
    let turns := step_turns userID runID (as_CallNamespace checkpoint) s in
    guard_tx (negb (bool_decide (state = "completed"%string)) ||
              (len turns =? expectedTurns) && (1 <=? len turns) && (len turns <=? as_MaxTurns checkpoint) &&
              forallb (λ kv, bool_decide (tc_Usage kv.2 ≠ None)) turns) ErrSpaceConflict;;
    guard_tx ((len calls =? expectedCalls) &&
              (negb (bool_decide (state = "completed"%string)) || forallb (λ kv, call_confirmed userID runID s kv.2) calls)) ErrSpaceConflict;;
    let checkpoint := with_step state completion (Some ciphertext) checkpoint in
    modify (set_agent_steps (<[(runID, stepID) := checkpoint]> (agent_steps s)));;
    mret checkpoint.

(** ** Publication *)

(** The agent steps with a call whose effect is open. *)
Definition uncertain_agent (userID runID : string) (s : Store) (stepID : string) : bool :=
  existsb (λ kv : (string * string) * AgentCall,
    match journal s !! effect_key (ac_EffectID kv.2) with Some r => open_row userID runID r | None => false end)
    (step_calls runID stepID s).

(** One entry of the report, when effects are open. *)
Definition mark_uncertain (userID runID : string) (s : Store) (entry : json) : json :=
  match entry with
  | JObj step =>
      let step := match string_field step "stepId" with
                  | Some id => if uncertain_agent userID runID s id then set_field step "state" (JStr "uncertain") else step
                  | None => step
                  end in
      let step := match string_field step "callId" with
                  | Some callID =>
                      match journal s !! effect_key (effect_id userID runID callID) with
                      | Some r => if open_row userID runID r then set_field step "state" (JStr "uncertain") else step
                      | None => step
                      end
                  | None => step
                  end in
      JObj step
  | _ => entry
  end.

Definition marked (userID runID : string) (s : Store) (value : object) : object :=
  update_field (set_field value "state" (JStr "uncertain")) "steps"
    (λ v, match v with JArr l => JArr (mark_uncertain userID runID s <$> l) | _ => v end).

(** The effects an entry of a completed report accounts for. *)
Definition counted_keys (userID runID : string) (s : Store) (entry : json) : run_error + list string :=
  match entry with
  | JObj step =>
      if bool_decide (string_field step "state" = Some "skipped"%string) then inr []
      else if negb (bool_decide (string_field step "state" = Some "completed"%string)) then inl ErrSpaceConflict
      else
        callID ← from_option ErrSpaceInvalid (string_field step "callId");
        let stepID := string_field step "stepId" in
        if match id ← stepID; waits s !! (runID, id) with
           | Some w => bool_decide (rw_WaitID w = callID) && bool_decide (rw_State w = "completed"%string)
           | None => false
           end then inr []
        else
          match id ← stepID; a ← agent_steps s !! (runID, id); guard (as_CallNamespace a = callID);; Some (id, a) with
          | Some (stepID, a) =>
              ensure (bool_decide (as_State a = "completed"%string) &&
                      match as_Ciphertext a with Some c => negb (bool_decide (c = ""%string)) | None => false end) ErrSpaceConflict;;
              let calls := step_calls runID stepID s in
              ensure (forallb (λ kv, call_confirmed userID runID s kv.2) calls) ErrSpaceConflict;;
              inr ((λ kv : (string * string) * AgentCall, effect_key (ac_EffectID kv.2)) <$> calls)
          | None =>
              let key := effect_key (effect_id userID runID callID) in
              ensure (match journal s !! key with
                      | Some r => bool_decide (jr_UserID r = userID) && bool_decide (jr_RunID r = runID) && confirmed r
                      | None => false
                      end) ErrSpaceConflict;;
              inr [key]
          end
  | _ => inl ErrSpaceInvalid
  end.

Definition run_rows (userID runID : string) (s : Store) : list (string * JournalRow) :=
  filter (λ kv, jr_UserID kv.2 = userID ∧ jr_RunID kv.2 = runID) (map_to_list (journal s)).

(** The recheck of a completed report: as many effects as the run has. *)
Definition check_completed (userID runID : string) (s : Store) (value : object) : run_error + () :=
  steps ← from_option ErrSpaceInvalid (array_field value "steps");
  keys ← map_result (counted_keys userID runID s) steps;
  ensure (len (run_rows userID runID s) =? len (concat keys)) ErrSpaceConflict.

(** [report] is what the run's report decodes to; [None] when it is no object. *)
Definition PublishRoutineCompletion (userID runID outcome : string) (report : option object) (now : Z) : T () :=
  guard_tx (bool_decide (outcome ∈ ["completed"; "partial"; "failed"; "uncertain"; "cancelled"]%string)) ErrSpaceInvalid;;
  s ← get;
  _ ← require (owned_run s runID userID) ErrNoRows;
  rr ← require (routine_runs s !! runID) ErrNoRows;
  guard_tx (bool_decide (rr_UserID rr = userID)) ErrNoRows;;
  if negb (bool_decide (rr_Outcome rr = ""%string)) then mret ()
  else
    value ← require report ErrSpaceInvalid;
    let pending := negb (bool_decide (open_rows userID runID s = [])) in
    let outcome := if pending then "uncertain"%string else outcome in
    let value := if pending then marked userID runID s value else value in
    (if bool_decide (outcome = "completed"%string) then
       match check_completed userID runID s value with inl e => fail e | inr _ => mret () end
     else mret ());;
    let state := if bool_decide (outcome = "completed"%string) then "completed"%string
                 else if bool_decide (outcome = "cancelled"%string) then "canceled"%string else "failed"%string in
    modify (λ s, set_waits (map_imap (λ key w, Some (if bool_decide (key.1 = runID) && bool_decide (rw_State w = "waiting"%string)
                                                    then with_wait "cancelled" w else w)) (waits s)) s);;
    modify (λ s, set_routine_runs (<[runID := with_outcome outcome (JObj value) rr]> (routine_runs s)) s);;
    modify (set_run_state now runID state);;
    modify (add_event runID "routine:completion" ("invocation." +:+ state)).

(** ** Cancellation *)

Definition cancelled_report : json := JObj [("state", JStr "cancelled"); ("steps", JArr [])]%string.

(** [app] tells that the caller acts for an app. *)
Definition RequestRoutineCancellation (app : bool) (userID runID : string) (now : Z) : T () :=
  guard_tx (negb (bool_decide (userID = ""%string) || app)) ErrAppRuntimeForbidden;;
  s ← get;
  r ← require (owned_run s runID userID) ErrNoRows;
  guard_tx (bool_decide (run_SurfaceID r = "routine"%string)) ErrNoRows;;
  if terminal (run_State r) then mret ()
  else
    let mine (f : RoutineRun → RoutineRun) (rr : RoutineRun) := if bool_decide (rr_UserID rr = userID) then f rr else rr in
    modify (λ s, set_routine_runs (alter (mine with_cancel) runID (routine_runs s)) s);;
    if negb (bool_decide (run_RuntimeID r = ""%string)) then
      modify (queueAgentContinuation userID runID "runtime.cancel" (run_RuntimeID r) (run_RuntimeID r))
    else
      modify (set_run_state now runID "canceled");;
      modify (λ s, set_routine_runs (alter (mine (with_outcome "cancelled" cancelled_report)) runID (routine_runs s)) s);;
      modify (add_event runID "routine:completion" "invocation.canceled").
End operations.

(** ** What the operations change *)

(** No run is lost, none changes its runtime once it has one, and a run that ended
    has ended for good. *)
Definition runs_kept (s s' : Store) : Prop :=
  ∀ id r, runs s !! id = Some r → ∃ r', runs s' !! id = Some r' ∧
    (run_RuntimeID r ≠ ""%string → run_RuntimeID r' = run_RuntimeID r) ∧
    (terminal (run_State r) = true → terminal (run_State r') = true).

Lemma runs_kept_refl s : runs_kept s s.
Proof. intros id r Hr. by exists r. Qed.

Lemma runs_kept_eq s s' : runs s' = runs s → runs_kept s s'.
Proof. intros Heq id r Hr. exists r. by rewrite Heq. Qed.

Lemma runs_kept_alter s s' runID r f :
  runs s' = alter f runID (runs s) → runs s !! runID = Some r → run_RuntimeID (f r) = run_RuntimeID r →
  (terminal (run_State r) = true → terminal (run_State (f r)) = true) → runs_kept s s'.
Proof.
  intros Hs Hr Hid Hst id q Hq. rewrite Hs. destruct (decide (id = runID)) as [->|Hne].
  - rewrite lookup_alter_eq, Hq. simplify_eq/=. eauto.
  - rewrite lookup_alter_ne by done. eauto.
Qed.

Lemma update_state_runtime clock state r : run_RuntimeID (update_state clock state r) = run_RuntimeID r.
Proof. unfold update_state, pause_clock. repeat case_match; done. Qed.
Lemma update_state_state clock state r : run_State (update_state clock state r) = state.
Proof. unfold update_state, pause_clock. repeat case_match; done. Qed.

Lemma owned_run_Some s runID userID r : owned_run s runID userID = Some r → runs s !! runID = Some r ∧ run_Owner r = userID.
Proof. unfold owned_run. intros H. apply bind_Some in H as (q & Hq & H). case_guard; [|done]. by simplify_eq/=. Qed.

Lemma terminal_running : terminal "running" = false.
Proof. reflexivity. Qed.

(** Fields that events and deliveries leave alone. *)
Section frames.
Context (runID key type userID operation identity runtime waitID phase : string) (s : Store).

Lemma event_runs : runs (add_event runID key type s) = runs s.
Proof. unfold add_event. by case_bool_decide. Qed.
Lemma event_journal : journal (add_event runID key type s) = journal s.
Proof. unfold add_event. by case_bool_decide. Qed.
Lemma event_routine_runs : routine_runs (add_event runID key type s) = routine_runs s.
Proof. unfold add_event. by case_bool_decide. Qed.
Lemma event_waits : waits (add_event runID key type s) = waits s.
Proof. unfold add_event. by case_bool_decide. Qed.
Lemma event_steps : agent_steps (add_event runID key type s) = agent_steps s.
Proof. unfold add_event. by case_bool_decide. Qed.
Lemma event_calls : agent_calls (add_event runID key type s) = agent_calls s.
Proof. unfold add_event. by case_bool_decide. Qed.

Lemma queue_runs : runs (queueAgentContinuation userID runID operation identity runtime s) = runs s.
Proof. unfold queueAgentContinuation. by case_match. Qed.
Lemma queue_journal : journal (queueAgentContinuation userID runID operation identity runtime s) = journal s.
Proof. unfold queueAgentContinuation. by case_match. Qed.
Lemma queue_routine_runs : routine_runs (queueAgentContinuation userID runID operation identity runtime s) = routine_runs s.
Proof. unfold queueAgentContinuation. by case_match. Qed.
Lemma queue_waits : waits (queueAgentContinuation userID runID operation identity runtime s) = waits s.
Proof. unfold queueAgentContinuation. by case_match. Qed.
Lemma queue_steps : agent_steps (queueAgentContinuation userID runID operation identity runtime s) = agent_steps s.
Proof. unfold queueAgentContinuation. by case_match. Qed.
Lemma queue_calls : agent_calls (queueAgentContinuation userID runID operation identity runtime s) = agent_calls s.
Proof. unfold queueAgentContinuation. by case_match. Qed.
End frames.

Create Rewrite HintDb frames.
#[export] Hint Rewrite event_runs event_journal event_routine_runs event_waits event_steps event_calls
  queue_runs queue_journal queue_routine_runs queue_waits queue_steps queue_calls : frames.

(** The tables of a store after an operation. *)
Ltac frame := unfold routineTimerEvent in *; autorewrite with frames in *; simpl.

Lemma wait_lock_inv userID runID runtimeID now s st live s' :
  routineWaitRunLockTx userID runID runtimeID now s = inr ((st, live), s') →
  s' = s ∧ ∃ r rr, runs s !! runID = Some r ∧ run_Owner r = userID ∧ routine_runs s !! runID = Some rr ∧ rr_UserID rr = userID ∧
    runtimeID ≠ ""%string ∧ run_RuntimeID r = runtimeID ∧ rr_CancelRequested rr = false ∧ terminal (run_State r) = false ∧
    st = run_State r.
Proof.
  unfold routineWaitRunLockTx. intros H.
  apply bind_inr in H as (? & ? & Hg & H). injection Hg as <- <-.
  apply bind_inr in H as (r & ? & Hr & H). apply require_inr in Hr as [Hr ->]. apply owned_run_Some in Hr as [Hr Ho].
  apply bind_inr in H as (rr & ? & Hrr & H). apply require_inr in Hrr as [Hrr ->].
  apply bind_inr in H as (? & ? & Hu & H). apply guard_inr in Hu as [Hu ->].
  apply bind_inr in H as (? & ? & Hg & H). apply guard_inr in Hg as [Hg ->].
  apply bind_inr in H as (? & ? & Ha & H). apply access_frame in Ha as ->. injection H as <- _ <-.
  bool_to_prop. split; [done|]. by exists r, rr.
Qed.

(** What a wait operation did to the wait it names, and to its run. *)
Inductive wait_change (now : Z) (runID stepID : string) (s s' : Store) : Prop :=
  | wc_same : s' = s → wait_change now runID stepID s s'
  | wc_open w r until : waits s !! (runID, stepID) = Some w → rw_State w = "pending"%string → runs s !! runID = Some r →
      run_State r = "running"%string → run_RuntimeID r ≠ ""%string → now < until < now + 24 * Hour →
      waits s' = <[(runID, stepID) := mkWait (rw_WaitID w) "waiting" (Some until) (Some (now + 24 * Hour))]> (waits s) →
      runs s' = alter (λ r, with_expiry (Z.max (run_ExpiresAt r) (now + 24 * Hour)) (update_state now "awaiting_timer" r)) runID (runs s) →
      wait_change now runID stepID s s'
  | wc_past w until : waits s !! (runID, stepID) = Some w → rw_State w = "pending"%string → until <= now →
      waits s' = <[(runID, stepID) := mkWait (rw_WaitID w) "completed" (Some until) (Some (now + 24 * Hour))]> (waits s) →
      runs s' = runs s → wait_change now runID stepID s s'
  | wc_wake w until expires r : waits s !! (runID, stepID) = Some w → rw_State w = "waiting"%string → rw_Until w = Some until →
      rw_ExpiresAt w = Some expires → until <= now → runs s !! runID = Some r → run_State r = "awaiting_timer"%string →
      waits s' = <[(runID, stepID) := with_wait (if now <? expires then "completed" else "expired") w]> (waits s) →
      runs s' = alter (update_state now "running") runID (runs s) → wait_change now runID stepID s s'.

Lemma open_wait_change userID runID runtimeID stepID until now s rec s' :
  OpenRoutineWait userID runID runtimeID stepID until now s = inr (rec, s') →
  wait_change now runID stepID s s' ∧ journal s' = journal s ∧ routine_runs s' = routine_runs s ∧ agent_calls s' = agent_calls s ∧
  agent_steps s' = agent_steps s.
Proof.
  unfold OpenRoutineWait. intros H. apply bind_inr in H as (? & ? & Hg & H). apply guard_inr in Hg as [_ ->].
  apply bind_inr in H as ([st live] & ? & Hl & H).
  apply wait_lock_inv in Hl as (-> & r & rr & Hr & Ho & Hrr & Hu & Hne & Hrt & _ & Ht & ->).
  apply bind_inr in H as (? & ? & Hg & H). apply guard_inr in Hg as [_ ->].
  apply bind_inr in H as (? & ? & Hg & H). injection Hg as <- <-.
  apply bind_inr in H as (w & ? & Hw & H). apply require_inr in Hw as [Hw ->].
  destruct (negb (bool_decide (rw_State w = "pending"%string))) eqn:Hp.
  { apply bind_inr in H as (? & ? & Hg & H). apply guard_inr in Hg as [_ ->]. injection H as _ <-. split; [by apply wc_same|done]. }
  apply bind_inr in H as (? & ? & Hg & H). apply guard_inr in Hg as [Hg ->].
  apply bind_inr in H as (? & ? & Hg2 & H). apply guard_inr in Hg2 as [_ ->].
  apply bind_inr in H as (? & ? & Hg2 & H). apply guard_inr in Hg2 as [_ ->].
  apply bind_inr in H as (? & s1 & Hm & H). injection Hm as _ <-.
  apply bind_inr in H as (? & s2 & Hm2 & H). apply bind_inr in H as (? & s3 & Hm3 & H). injection Hm3 as _ <-.
  unfold routineWaitTx in H. apply bind_inr in H as (? & ? & Hget & H). injection Hget as <- <-.
  apply bind_inr in H as (w' & ? & Hw' & H). apply require_inr in Hw' as [_ ->]. injection H as _ <-.
  bool_to_prop. unfold when in Hm2. destruct (now <? until) eqn:Hn; bool_to_prop; injection Hm2 as _ <-.
  - frame. split; [|done]. eapply wc_open; frame; try done; first [congruence|lia].
  - frame. split; [|done]. eapply wc_past; frame; try done.
Qed.

Lemma resume_wait_change validID userID runID runtimeID stepID waitID now s rec s' :
  ResumeRoutineWait validID userID runID runtimeID stepID waitID now s = inr (rec, s') →
  wait_change now runID stepID s s' ∧ journal s' = journal s ∧ routine_runs s' = routine_runs s ∧ agent_calls s' = agent_calls s ∧
  agent_steps s' = agent_steps s.
Proof.
  unfold ResumeRoutineWait. intros H. apply bind_inr in H as (? & ? & Hg & H). apply guard_inr in Hg as [_ ->].
  apply bind_inr in H as ([st live] & ? & Hl & H).
  apply wait_lock_inv in Hl as (-> & r & rr & Hr & Ho & Hrr & Hu & Hne & Hrt & _ & Ht & ->).
  apply bind_inr in H as (? & ? & Hg & H). injection Hg as <- <-.
  apply bind_inr in H as (w & ? & Hw & H). apply require_inr in Hw as [Hw ->].
  apply bind_inr in H as (? & ? & Hg & H). apply guard_inr in Hg as [_ ->].
  destruct (bool_decide (rw_State w ∈ _)); [injection H as _ <-; split; [by apply wc_same|done]|].
  apply bind_inr in H as (? & ? & Hg & H). apply guard_inr in Hg as [Hg ->].
  apply bind_inr in H as (until & ? & Hun & H). apply require_inr in Hun as [Hun ->].
  apply bind_inr in H as (expires & ? & Hex & H). apply require_inr in Hex as [Hex ->].
  destruct (now <? until) eqn:Hn; [injection H as _ <-; split; [by apply wc_same|done]|].
  apply bind_inr in H as (? & s1 & Hm & H). injection Hm as _ <-.
  apply bind_inr in H as (? & s2 & Hm2 & H). injection Hm2 as _ <-. apply bind_inr in H as (? & s3 & Hm3 & H). injection Hm3 as _ <-.
  unfold routineWaitTx in H. apply bind_inr in H as (? & ? & Hget & H). injection Hget as <- <-.
  apply bind_inr in H as (w' & ? & Hw' & H). apply require_inr in Hw' as [_ ->]. injection H as _ <-.
  bool_to_prop. frame. split; [|done]. eapply wc_wake; frame; try done; by destruct (now <? expires).
Qed.

(** ** How waits evolve *)

Inductive wait_next (now : Z) (w : RoutineWait) : RoutineWait → Prop :=
  | wn_same : wait_next now w w
  | wn_open until : rw_State w = "pending"%string → now < until < now + 24 * Hour →
      wait_next now w (mkWait (rw_WaitID w) "waiting" (Some until) (Some (now + 24 * Hour)))
  | wn_past until : rw_State w = "pending"%string → until <= now →
      wait_next now w (mkWait (rw_WaitID w) "completed" (Some until) (Some (now + 24 * Hour)))
  | wn_wake until expires : rw_State w = "waiting"%string → rw_Until w = Some until → rw_ExpiresAt w = Some expires →
      until <= now < expires → wait_next now w (with_wait "completed" w)
  | wn_expire expires : rw_State w = "waiting"%string → rw_ExpiresAt w = Some expires → expires <= now →
      wait_next now w (with_wait "expired" w)
  | wn_cancel : rw_State w = "waiting"%string → wait_next now w (with_wait "cancelled" w).

Definition waits_next (now : Z) (s s' : Store) : Prop :=
  ∀ key, match waits s !! key, waits s' !! key with
         | Some w, Some w' => wait_next now w w'
         | None, None => True
         | _, _ => False
         end.

(** A wait is entered only by a run that is executing. *)
Definition waiting_origin (s s' : Store) : Prop :=
  ∀ key w', waits s' !! key = Some w' → rw_State w' = "waiting"%string →
    waits s !! key = Some w' ∨
    ∃ r, runs s !! key.1 = Some r ∧ run_State r = "running"%string ∧ run_RuntimeID r ≠ ""%string.

Lemma waits_next_refl now s s' : waits s' = waits s → waits_next now s s'.
Proof. intros Heq key. rewrite Heq. destruct (waits s !! key); [constructor|done]. Qed.

Lemma waiting_origin_refl s s' : waits s' = waits s → waiting_origin s s'.
Proof. intros Heq key w' Hw _. left. by rewrite <- Heq. Qed.

Lemma waits_next_insert now s s' key w w' :
  waits s !! key = Some w → wait_next now w w' → waits s' = <[key := w']> (waits s) → waits_next now s s'.
Proof.
  intros Hw Hn Hs key'. rewrite Hs. destruct (decide (key = key')) as [<-|Hne].
  - by rewrite lookup_insert_eq, Hw.
  - rewrite lookup_insert_ne by done. destruct (waits s !! key'); [constructor|done].
Qed.

Lemma wait_change_next now runID stepID s s' : wait_change now runID stepID s s' →
  waits_next now s s' ∧ waiting_origin s s' ∧ runs_kept s s'.
Proof.
  destruct 1 as [->|w r until Hw Hp Hr Hst Hrt Hun Hws Hrs|w until Hw Hp Hun Hws Hrs|w until expires r Hw Hp Hun Hex Hle Hr Hst Hws Hrs].
  - split; [by apply waits_next_refl|]. split; [by apply waiting_origin_refl|apply runs_kept_refl].
  - split; [|split].
    + eapply waits_next_insert; [exact Hw|by apply (wn_open now w until)|exact Hws].
    + intros key w' Hw'. rewrite Hws, lookup_insert_Some in Hw'. destruct Hw' as [[<- _]|[_ Hw']]; [|by left].
      intros _. right. by exists r.
    + eapply runs_kept_alter; [exact Hrs|exact Hr|by simpl; rewrite update_state_runtime|by rewrite Hst].
  - split; [|split].
    + eapply waits_next_insert; [exact Hw|by apply (wn_past now w until)|exact Hws].
    + intros key w' Hw'. rewrite Hws, lookup_insert_Some in Hw'. destruct Hw' as [[_ <-]|[_ Hw']]; [done|by left].
    + by apply runs_kept_eq.
  - split; [|split].
    + eapply waits_next_insert; [exact Hw| |exact Hws]. destruct (now <? expires) eqn:Hb; bool_to_prop.
      * by apply (wn_wake now w until expires).
      * by apply (wn_expire now w expires).
    + intros key w' Hw'. rewrite Hws, lookup_insert_Some in Hw'. destruct Hw' as [[_ <-]|[_ Hw']]; [by destruct (now <? expires)|by left].
    + eapply runs_kept_alter; [exact Hrs|exact Hr|apply update_state_runtime|by rewrite Hst].
Qed.

(** ** How the row of a routine run evolves *)

Definition published_terminal (s : Store) (id : string) : Prop :=
  ∃ r, runs s !! id = Some r ∧ terminal (run_State r) = true.

Definition no_timer (s : Store) (id : string) : Prop :=
  ∀ step w, waits s !! (id, step) = Some w → rw_State w ≠ "waiting"%string.

Section evolution.
Context (effect_id : string → string → string → string) (namespace_of : string → option string) (fingerprint : json → string).

Definition entry_call (e : json) : option string := match e with JObj o => string_field o "callId" | _ => None end.
Definition entry_step (e : json) : option string := match e with JObj o => string_field o "stepId" | _ => None end.

(** Reports name each step and each call once, and no call of an agent. *)
Definition report_named (value : object) : Prop :=
  ∀ l, array_field value "steps" = Some l →
    NoDup (omap entry_call l) ∧ NoDup (omap entry_step l) ∧ ∀ c, c ∈ omap entry_call l → namespace_of c = None.

Inductive row_next (s s' : Store) (id : string) (rr : RoutineRun) : RoutineRun → Prop :=
  | rn_same : row_next s s' id rr rr
  | rn_cancel r : runs s !! id = Some r → terminal (run_State r) = false → row_next s s' id rr (with_cancel rr)
  | rn_cancelled r rr' : runs s !! id = Some r → terminal (run_State r) = false → run_RuntimeID r = ""%string →
      rr_Outcome rr' = "cancelled"%string → waits s' = waits s → published_terminal s' id → rr_UserID rr' = rr_UserID rr →
      row_next s s' id rr rr'
  | rn_publish outcome value v : rr_Outcome rr = ""%string → outcome ≠ ""%string → published_terminal s' id → no_timer s' id →
      (outcome = "completed"%string → report_named value ∧ check_completed effect_id (rr_UserID rr) id s value = inr ()) →
      row_next s s' id rr (with_outcome outcome v rr).

Definition rows_next (s s' : Store) : Prop :=
  ∀ id, match routine_runs s !! id, routine_runs s' !! id with
        | Some rr, Some rr' => row_next s s' id rr rr'
        | None, None => True
        | _, _ => False
        end.

Lemma rows_next_refl s s' : routine_runs s' = routine_runs s → rows_next s s'.
Proof. intros Heq id. rewrite Heq. destruct (routine_runs s !! id); [constructor|done]. Qed.

Lemma rows_next_insert s s' id rr rr' :
  routine_runs s !! id = Some rr → routine_runs s' = <[id := rr']> (routine_runs s) → row_next s s' id rr rr' → rows_next s s'.
Proof.
  intros Hr Hs Hn id'. rewrite Hs. destruct (decide (id = id')) as [<-|Hne].
  - by rewrite lookup_insert_eq, Hr.
  - rewrite lookup_insert_ne by done. destruct (routine_runs s !! id'); [constructor|done].
Qed.

(** Calls of agents carry the effect derived from them. *)
Definition calls_next (s s' : Store) : Prop :=
  ∀ id call ac, agent_calls s' !! (id, call) = Some ac →
    agent_calls s !! (id, call) = Some ac ∨
    is_Some (namespace_of call) ∧ ∃ rr, routine_runs s !! id = Some rr ∧ ac_EffectID ac = effect_id (rr_UserID rr) id call.

Lemma calls_next_refl s s' : agent_calls s' = agent_calls s → calls_next s s'.
Proof. intros Heq id call ac. rewrite Heq. by left. Qed.

(** At most one agent step changes, one that had not ended; it keeps its identity. *)
Inductive steps_next (s s' : Store) : Prop :=
  | sn_same : agent_steps s' = agent_steps s → steps_next s s'
  | sn_one key a a' : agent_steps s !! key = Some a → as_State a ∈ ["pending"; "running"]%string →
      as_CallNamespace a' = as_CallNamespace a → agent_steps s' = <[key := a']> (agent_steps s) → steps_next s s'.

Record evolves (now : Z) (s s' : Store) : Prop := {
  ev_journal : journal s' = journal s;
  ev_runs : runs_kept s s';
  ev_waits : waits_next now s s';
  ev_waiting : waiting_origin s s';
  ev_rows : rows_next s s';
  ev_calls : calls_next s s';
  ev_steps : steps_next s s';
}.

Lemma evolves_frame now s s' : journal s' = journal s → runs_kept s s' → waits s' = waits s → routine_runs s' = routine_runs s →
  agent_calls s' = agent_calls s → steps_next s s' → evolves now s s'.
Proof.
  intros. split; [done|done|by apply waits_next_refl|by apply waiting_origin_refl|by apply rows_next_refl|by apply calls_next_refl|done].
Qed.

Lemma wait_change_evolves now runID stepID s s' : wait_change now runID stepID s s' →
  journal s' = journal s → routine_runs s' = routine_runs s → agent_calls s' = agent_calls s → agent_steps s' = agent_steps s → evolves now s s'.
Proof.
  intros Hc Hj Hr Ha Hs. destruct (wait_change_next _ _ _ _ _ Hc) as (? & ? & ?).
  split; [done|done|done|done|by apply rows_next_refl|by apply calls_next_refl|by apply sn_same].
Qed.

(** *** Expiry

    The state of the batch when some of its items are done. *)
Record expiry (now : Z) (s s' : Store) : Prop := {
  ex_journal : journal s' = journal s;
  ex_runs : runs s' = runs s;
  ex_calls : agent_calls s' = agent_calls s;
  ex_steps : agent_steps s' = agent_steps s;
  ex_waits : waits_next now s s';
  ex_waiting : ∀ key w, waits s' !! key = Some w → rw_State w = "waiting"%string → waits s !! key = Some w;
  ex_rows : ∀ id, routine_runs s' !! id = routine_runs s !! id ∨
    routine_runs s' !! id = with_cancel <$> routine_runs s !! id ∧ (run_State <$> runs s !! id) = Some "awaiting_timer"%string;
}.

Lemma overdue_inv now w : overdue now w = true → rw_State w = "waiting"%string ∧ ∃ t, rw_ExpiresAt w = Some t ∧ t <= now.
Proof.
  unfold overdue. rewrite andb_true_iff, bool_decide_eq_true. intros [Hs H]. split; [done|].
  destruct (rw_ExpiresAt w) as [t|]; [|done]. exists t. bool_to_prop. split; [done|lia].
Qed.

Lemma expire_one_expiry now s key w0 s1 u s2 :
  expiry now s s1 → (run_State <$> runs s !! key.1) = Some "awaiting_timer"%string →
  expire_one now (key, w0) s1 = inr (u, s2) → expiry now s s2.
Proof.
  intros [Hj Hr Hc Hsteps Hw Hwt Hrows] Hst H. destruct key as [runID stepID]. unfold expire_one in H. apply bind_inr in H as (? & ? & Hg & H). injection Hg as <- <-.
  destruct (waits s1 !! (runID, stepID)) as [w|] eqn:Hws; [|by injection H as _ <-].
  destruct (runs s1 !! runID) as [r|]; [|by injection H as _ <-]. unfold when in H.
  destruct (overdue now w) eqn:Ho; [|by injection H as _ <-]. apply overdue_inv in Ho as (Hwait & t & Ht & Hle).
  pose proof (Hwt _ _ Hws Hwait) as Hws0.
  apply bind_inr in H as (? & ? & Hm & H). injection Hm as _ <-. apply bind_inr in H as (? & ? & Hm & H). injection Hm as _ <-.
  apply bind_inr in H as (? & ? & Hm & H). injection Hm as _ <-. injection H as _ <-. split; frame; try done.
  - intros key. specialize (Hw key). frame. simpl. destruct (decide (key = (runID, stepID))) as [->|Hne].
    + rewrite lookup_insert_eq, Hws0. by apply (wn_expire now w t).
    + by rewrite lookup_insert_ne.
  - intros key q. rewrite lookup_insert_Some. intros [[_ <-]|[_ Hq]]; [done|by apply Hwt].
  - intros id. destruct (decide (id = runID)) as [->|Hne].
    + rewrite lookup_alter_eq. right. split; [|done]. destruct (Hrows runID) as [->|[-> _]]; [done|]. by destruct (routine_runs s !! runID).
    + rewrite lookup_alter_ne by done. apply Hrows.
Qed.

Lemma expire_all_expiry now s items : ∀ s1 u s2,
  (∀ kv, kv ∈ items → (run_State <$> runs s !! kv.1.1) = Some "awaiting_timer"%string) →
  expiry now s s1 → expire_all now items s1 = inr (u, s2) → expiry now s s2.
Proof.
  induction items as [|[key w] items IH]; intros s1 u s2 Hst Hx H; simpl in H; [by injection H as _ <-|].
  apply bind_inr in H as (v & s3 & H1 & H). apply (IH s3 u s2); [intros kv Hkv; apply Hst; by right| |exact H].
  apply (expire_one_expiry now s key w s1 v s3 Hx); [apply (Hst (key, w)); by left|exact H1].
Qed.

Lemma expire_evolves locked now s u s' : ExpireRoutineWaits locked now s = inr (u, s') → evolves now s s'.
Proof.
  unfold ExpireRoutineWaits. intros H. apply bind_inr in H as (? & ? & Hg & H). injection Hg as <- <-.
  apply (expire_all_expiry now s) in H as [Hj Hr Hc Hsteps Hw Hwt Hrows].
  - split; [done|by apply runs_kept_eq|done|intros key w Hk Hs; left; by apply Hwt| |by apply calls_next_refl|by apply sn_same].
    intros id. destruct (Hrows id) as [->|[-> Hst]]; destruct (routine_runs s !! id) as [rr|]; try done; [constructor|].
    simpl. destruct (runs s !! id) as [r|] eqn:Er; [|done]. injection Hst as Hst. eapply rn_cancel; [exact Er|by rewrite Hst].
  - intros kv Hkv. unfold expiry_batch in Hkv. apply elem_of_take in Hkv as (i & Hi & _). apply list_elem_of_lookup_2 in Hi.
    rewrite merge_sort_Permutation, list_elem_of_filter in Hi. apply Hi.
  - split; try done; [by apply waits_next_refl|by left].
Qed.

(** *** Agent steps *)

Lemma checkpoint_frame runID stepID s a s' : routineAgentCheckpointTx runID stepID s = inr (a, s') → s' = s ∧ agent_steps s !! (runID, stepID) = Some a.
Proof.
  unfold routineAgentCheckpointTx. intros H. apply bind_inr in H as (? & ? & Hg & H). injection Hg as <- <-.
  by apply require_inr in H as [? ->].
Qed.

Lemma open_agent_evolves userID runID stepID runtimeID now s a s' :
  OpenRoutineAgent userID runID stepID runtimeID now s = inr (a, s') → evolves now s s'.
Proof.
  unfold OpenRoutineAgent. intros H. apply bind_inr in H as (? & ? & Hl & H). apply lock_frame in Hl as ->.
  apply bind_inr in H as (c & ? & Hc & H). apply checkpoint_frame in Hc as [-> Hc].
  destruct (bool_decide _) eqn:Hst; [|injection H as _ <-; by apply evolves_frame; try apply runs_kept_refl; try apply sn_same].
  apply bind_inr in H as (? & ? & Hm & H). injection Hm as _ <-. injection H as _ <-. bool_to_prop.
  apply evolves_frame; try done; [by apply runs_kept_eq|]. eapply sn_one; cycle 3; [reflexivity|exact Hc|rewrite Hst; left|done].
Qed.

Lemma lock_row userID runID runtimeID w now s u s' : routineAgentRunLockTx userID runID runtimeID w now s = inr (u, s') →
  ∃ rr, routine_runs s !! runID = Some rr ∧ rr_UserID rr = userID.
Proof.
  unfold routineAgentRunLockTx. intros H. apply bind_inr in H as (? & ? & Hg & H). injection Hg as <- <-.
  apply bind_inr in H as (r & ? & Hr & H). apply require_inr in Hr as [_ ->].
  apply bind_inr in H as (rr & ? & Hr & H). apply require_inr in Hr as [Hr ->].
  apply bind_inr in H as (? & ? & Hg & H). apply guard_inr in Hg as [Hg ->]. bool_to_prop. by exists rr.
Qed.

Lemma admit_evolves userID runID runtimeID stepID callID toolName input allowNew now s u s' :
  AdmitRoutineAgentCall effect_id namespace_of fingerprint userID runID runtimeID stepID callID toolName input allowNew now s = inr (u, s') →
  evolves now s s'.
Proof.
  unfold AdmitRoutineAgentCall. intros H. apply bind_inr in H as (ns & ? & Hn & H). apply require_inr in Hn as [Hn ->].
  apply bind_inr in H as (v & ? & Hv & H). apply require_inr in Hv as [_ ->].
  apply bind_inr in H as (? & ? & Hl & H). pose proof (lock_row _ _ _ _ _ _ _ _ Hl) as (rr & Hrr & Hu). apply lock_frame in Hl as ->.
  apply bind_inr in H as (c & ? & Hc & H). apply checkpoint_frame in Hc as [-> _].
  apply bind_inr in H as (? & ? & Hg & H). apply guard_inr in Hg as [_ ->].
  apply bind_inr in H as (? & ? & Hg & H). injection Hg as <- <-.
  apply bind_inr in H as (? & ? & Hg & H). apply guard_inr in Hg as [_ ->].
  destruct (agent_calls s !! (runID, callID)) as [prev|] eqn:Hp.
  { apply guard_inr in H as [_ ->]. by apply evolves_frame; try apply runs_kept_refl; try apply sn_same. }
  apply bind_inr in H as (? & ? & Hg & H). apply guard_inr in Hg as [_ ->].
  apply bind_inr in H as (? & ? & Hl & H). apply lock_frame in Hl as ->.
  apply bind_inr in H as (? & ? & Hg & H). apply guard_inr in Hg as [_ ->]. injection H as _ <-.
  split; [done|by apply runs_kept_eq|by apply waits_next_refl|by apply waiting_origin_refl|by apply rows_next_refl| |by apply sn_same].
  intros id call ac. simpl. rewrite lookup_insert_Some. intros [[[= <- <-] <-]|[_ Hac]]; [right|by left].
  split; [by exists ns|]. exists rr. by rewrite Hu.
Qed.

Lemma finish_agent_evolves userID runID stepID runtimeID state completion ciphertext calls turns recovery now s a s' :
  FinishRoutineAgent userID runID stepID runtimeID state completion ciphertext calls turns recovery now s = inr (a, s') → evolves now s s'.
Proof.
  unfold FinishRoutineAgent. intros H. apply bind_inr in H as (? & ? & Hg & H). apply guard_inr in Hg as [_ ->].
  apply bind_inr in H as (? & ? & Hg & H). injection Hg as <- <-.
  apply bind_inr in H as (r & ? & Hr & H). apply require_inr in Hr as [_ ->].
  apply bind_inr in H as (? & s1 & Hl & H). assert (s1 = s) as -> by (destruct (negb recovery); [by apply lock_frame in Hl|by apply guard_inr in Hl as [_ ->]]).
  apply bind_inr in H as (c & ? & Hc & H). apply checkpoint_frame in Hc as [-> Hc].
  destruct (negb (bool_decide (as_State c = "running"%string))) eqn:Hst.
  - apply bind_inr in H as (? & ? & Hg & H). apply guard_inr in Hg as [_ ->].
    apply bind_inr in H as (? & ? & Hg & H). apply guard_inr in Hg as [_ ->]. injection H as _ <-.
    by apply evolves_frame; try apply runs_kept_refl; try apply sn_same.
  - apply bind_inr in H as (? & ? & Hg & H). apply guard_inr in Hg as [_ ->].
    apply bind_inr in H as (? & ? & Hg & H). apply guard_inr in Hg as [_ ->].
    apply bind_inr in H as (? & ? & Hm & H). injection Hm as _ <-. injection H as _ <-. bool_to_prop.
    apply evolves_frame; try done; [by apply runs_kept_eq|]. eapply sn_one; cycle 3; [reflexivity|exact Hc|rewrite Hst; right; left|done].
Qed.

(** *** Publication and cancellation *)

Lemma set_run_state_kept now runID state s r : runs s !! runID = Some r →
  (terminal (run_State r) = true → terminal state = true) → runs_kept s (set_run_state now runID state s).
Proof.
  intros Hr Ht. apply (runs_kept_alter s _ runID r (update_state now state)); [done|done|apply update_state_runtime|].
  intros H. rewrite update_state_state. by apply Ht.
Qed.

Lemma cancel_waits_next now runID s s' :
  waits s' = map_imap (λ key w, Some (if bool_decide (key.1 = runID) && bool_decide (rw_State w = "waiting"%string)
                                      then with_wait "cancelled" w else w)) (waits s) →
  waits_next now s s' ∧ waiting_origin s s' ∧ no_timer s' runID.
Proof.
  intros Hs. assert (∀ key, waits s' !! key = (λ w, if bool_decide (key.1 = runID) && bool_decide (rw_State w = "waiting"%string)
                                      then with_wait "cancelled" w else w) <$> waits s !! key) as Hlook.
  { intros key. rewrite Hs, map_lookup_imap. by destruct (waits s !! key). }
  split; [|split].
  - intros key. rewrite Hlook. destruct (waits s !! key) as [w|]; [|done]. simpl. destruct (_ && _) eqn:E; [|constructor].
    bool_to_prop. by apply wn_cancel.
  - intros key w'. rewrite Hlook. destruct (waits s !! key) as [w|]; [|done]. simpl. intros [= <-].
    destruct (_ && _); [done|by left].
  - intros step w'. rewrite Hlook. destruct (waits s !! (runID, step)) as [w|]; [|done]. simpl. intros [= <-].
    rewrite (bool_decide_eq_true_2 (runID = runID)) by done. simpl. by case_bool_decide.
Qed.

Lemma publish_evolves userID runID outcome report now s u s' :
  (∀ value, report = Some value → report_named value) →
  PublishRoutineCompletion effect_id userID runID outcome report now s = inr (u, s') → evolves now s s'.
Proof.
  intros Hnamed. unfold PublishRoutineCompletion. intros H. apply bind_inr in H as (? & ? & Hg & H). apply guard_inr in Hg as [Hout ->].
  apply bind_inr in H as (? & ? & Hg & H). injection Hg as <- <-.
  apply bind_inr in H as (r & ? & Hr & H). apply require_inr in Hr as [Hr ->]. apply owned_run_Some in Hr as [Hr _].
  apply bind_inr in H as (rr & ? & Hrr & H). apply require_inr in Hrr as [Hrr ->].
  apply bind_inr in H as (? & ? & Hg & H). apply guard_inr in Hg as [Hu ->]. apply bool_decide_eq_true in Hu.
  destruct (negb (bool_decide (rr_Outcome rr = ""%string))) eqn:Ho; [injection H as _ <-; by apply evolves_frame; try apply runs_kept_refl; try apply sn_same|].
  bool_to_prop. apply bind_inr in H as (value & ? & Hv & H). apply require_inr in Hv as [Hv ->].
  set (pending := negb _) in H. set (outcome' := if pending then "uncertain"%string else outcome) in H.
  set (value' := if pending then _ else value) in H. set (state := if bool_decide (outcome' = "completed"%string) then _ else _) in H.
  apply bind_inr in H as (? & s1 & Hck & H). 
  assert (s1 = s ∧ (outcome' = "completed"%string → pending = false ∧ check_completed effect_id userID runID s value = inr ())) as [-> Hcheck].
  { case_bool_decide as Hc; [|by injection Hck as _ <-].
    assert (pending = false) as Hp by (by destruct pending). unfold value' in Hck. rewrite Hp in Hck.
    destruct (check_completed _ _ _ _ _) as [|[]]; [done|by injection Hck as _ <-]. }
  apply bind_inr in H as (? & ? & Hm & H). injection Hm as _ <-. apply bind_inr in H as (? & ? & Hm & H). injection Hm as _ <-.
  apply bind_inr in H as (? & ? & Hm & H). injection Hm as _ <-. injection H as _ <-.
  assert (terminal state = true) as Hst by (unfold state; repeat case_bool_decide; done).
  assert (outcome' ≠ ""%string) as Hne by (unfold outcome'; destruct pending; [done|intros ->; bool_to_prop; not_in Hout]).
  split; frame; [done| | | | |by apply calls_next_refl; frame|by apply sn_same; frame].
  - apply (runs_kept_alter s _ runID r (update_state now state)); frame; [done|done|apply update_state_runtime|by rewrite update_state_state].
  - by eapply cancel_waits_next; frame.
  - by eapply cancel_waits_next; frame.
  - apply (rows_next_insert s _ runID rr (with_outcome outcome' (JObj value') rr)); [done|by frame|].
    apply (rn_publish _ _ _ _ outcome' value); [done|done| | |].
    + exists (update_state now state r). frame. by rewrite lookup_alter_eq, Hr, update_state_state.
    + by eapply cancel_waits_next; frame.
    + intros Hc. destruct (Hcheck Hc) as [_ Hcc]. rewrite Hu. split; [by apply Hnamed|done].
Qed.

Lemma request_cancel_evolves app userID runID now s u s' :
  RequestRoutineCancellation app userID runID now s = inr (u, s') → evolves now s s'.
Proof.
  unfold RequestRoutineCancellation. intros H. apply bind_inr in H as (? & ? & Hg & H). apply guard_inr in Hg as [_ ->].
  apply bind_inr in H as (? & ? & Hg & H). injection Hg as <- <-.
  apply bind_inr in H as (r & ? & Hr & H). apply require_inr in Hr as [Hr ->]. apply owned_run_Some in Hr as [Hr _].
  apply bind_inr in H as (? & ? & Hg & H). apply guard_inr in Hg as [_ ->].
  destruct (terminal (run_State r)) eqn:Ht; [injection H as _ <-; by apply evolves_frame; try apply runs_kept_refl; try apply sn_same|].
  apply bind_inr in H as (? & ? & Hm & H). injection Hm as _ <-.
  destruct (negb (bool_decide (run_RuntimeID r = ""%string))) eqn:Hrt.
  - injection H as _ <-. split; frame; [done|by apply runs_kept_eq; frame|by apply waits_next_refl; frame|by apply waiting_origin_refl; frame| |by apply calls_next_refl; frame|by apply sn_same; frame].
    intros id. frame. destruct (decide (id = runID)) as [->|Hne]; [rewrite lookup_alter_eq|rewrite lookup_alter_ne by done];
      destruct (routine_runs s !! _) as [rr|]; try done; simpl; [|constructor].
    destruct (bool_decide (rr_UserID rr = userID)); [by eapply rn_cancel|constructor].
  - bool_to_prop. apply bind_inr in H as (? & ? & Hm & H). injection Hm as _ <-. apply bind_inr in H as (? & ? & Hm & H). injection Hm as _ <-.
    injection H as _ <-. split; frame; [done| |by apply waits_next_refl; frame|by apply waiting_origin_refl; frame| |by apply calls_next_refl; frame|by apply sn_same; frame].
    + apply (runs_kept_alter s _ runID r (update_state now "canceled")); frame; [done|done|apply update_state_runtime|by rewrite update_state_state].
    + intros id. frame. destruct (decide (id = runID)) as [->|Hne]; [rewrite !lookup_alter_eq|rewrite !lookup_alter_ne by done];
        destruct (routine_runs s !! _) as [rr|]; try done; simpl; [|constructor].
      destruct (bool_decide (rr_UserID rr = userID)) eqn:Hu; [|rewrite Hu; constructor]. simpl. rewrite Hu. apply (rn_cancelled _ _ _ _ r); frame; try done.
      exists (update_state now "canceled" r). frame. by rewrite lookup_alter_eq, Hr, update_state_state.
Qed.

(** *** Activation, the clock and model turns *)

Lemma activate_evolves runID kind runtimeID now s r s' :
  ActivateAIInvocationRuntime runID kind runtimeID now s = inr (r, s') → evolves now s s'.
Proof.
  unfold ActivateAIInvocationRuntime. intros H. apply bind_inr in H as (? & ? & Hg & H). apply guard_inr in Hg as [_ ->].
  apply bind_inr in H as (? & ? & Hg & H). injection Hg as <- <-.
  apply bind_inr in H as (q & ? & Hq & H). apply require_inr in Hq as [Hq ->].
  apply bind_inr in H as (? & ? & Hg & H). apply guard_inr in Hg as [Hg ->].
  apply bind_inr in H as (? & ? & Hm & H). injection Hm as _ <-. injection H as _ <-.
  apply evolves_frame; try done; [|by apply sn_same]. intros id p Hp. simpl. destruct (decide (id = runID)) as [->|Hne].
  - rewrite lookup_insert_eq. eexists. split; [done|]. rewrite update_state_runtime, update_state_state.
    assert (p = q) as -> by congruence. bool_to_prop. split.
    + intros Hne. match goal with H : _ ∨ _ |- _ => destruct H as [H|H] end; bool_to_prop; [done|by simpl].
    + intros Ht. match goal with H : run_State q ∈ _ |- _ => apply elem_of_cons in H as [H|H]; [by rewrite H in Ht|]; apply list_elem_of_singleton in H; by rewrite H in Ht end.
  - rewrite lookup_insert_ne by done. exists p. auto.
Qed.

Lemma clock_evolves now s s' : journal s' = journal s → waits s' = waits s → routine_runs s' = routine_runs s → agent_calls s' = agent_calls s → agent_steps s' = agent_steps s →
  (∀ id, (λ r, (run_RuntimeID r, run_State r)) <$> runs s' !! id = (λ r, (run_RuntimeID r, run_State r)) <$> runs s !! id) → evolves now s s'.
Proof.
  intros Hj Hw Hrr Hc Hsteps Hr. apply evolves_frame; try done; [|by apply sn_same]. intros id r Hid. specialize (Hr id). rewrite Hid in Hr.
  destruct (runs s' !! id) as [r'|]; [|done]. injection Hr as Hr1 Hr2. exists r'. rewrite Hr1, Hr2. auto.
Qed.
End evolution.

(** ** A completed report accounts for every effect *)

Section completed.
Context (effect_id : string → string → string → string) (namespace_of : string → option string).
Context (u run : string) (s : Store).

(** Different calls of a run have different effects. *)
Context (Hinj : ∀ c c', effect_id u run c = effect_id u run c' → c = c').
Context (Hcalls : ∀ call ac, agent_calls s !! (run, call) = Some ac → ac_EffectID ac = effect_id u run call ∧ is_Some (namespace_of call)).

Local Abbreviation counted := (counted_keys effect_id u run s).

Lemma effect_key_inj x y : effect_key x = effect_key y → x = y.
Proof. unfold effect_key. apply (inj (String.append _)). Qed.

Lemma step_calls_elem stepID kv : kv ∈ step_calls run stepID s ↔
  kv.1.1 = run ∧ ac_StepID kv.2 = stepID ∧ agent_calls s !! kv.1 = Some kv.2.
Proof. unfold step_calls. destruct kv as [key ac]. rewrite list_elem_of_filter, elem_of_map_to_list. simpl. naive_solver. Qed.

(** Where a counted key comes from. *)
Definition key_origin (e : json) (k : string) : Prop :=
  (∃ c, entry_call e = Some c ∧ k = effect_key (effect_id u run c)) ∨
  (∃ call ac, entry_step e = Some (ac_StepID ac) ∧ agent_calls s !! (run, call) = Some ac ∧ k = effect_key (effect_id u run call)).

Definition settled_key (k : string) : Prop :=
  ∃ r, journal s !! k = Some r ∧ jr_UserID r = u ∧ jr_RunID r = run ∧ confirmed r = true.

Lemma counted_calls stepID : forallb (λ kv, call_confirmed u run s kv.2) (step_calls run stepID s) = true →
  let keys := (λ kv : (string * string) * AgentCall, effect_key (ac_EffectID kv.2)) <$> step_calls run stepID s in
  NoDup keys ∧ ∀ k, k ∈ keys → settled_key k ∧
    ∃ call ac, ac_StepID ac = stepID ∧ agent_calls s !! (run, call) = Some ac ∧ k = effect_key (effect_id u run call).
Proof.
  intros Hall keys. split.
  - unfold keys. apply NoDup_fmap_2_strong.
    + intros [[a call] ac] [[b call'] ac'] Hx Hy Heq. apply step_calls_elem in Hx as (Ha & _ & Hx), Hy as (Hb & _ & Hy). simpl in *. subst a b.
      destruct (Hcalls _ _ Hx) as [He _], (Hcalls _ _ Hy) as [He' _]. rewrite He, He' in Heq.
      apply effect_key_inj, Hinj in Heq. by simplify_eq.
    + unfold step_calls. apply NoDup_filter, NoDup_map_to_list.
  - intros k Hk. unfold keys in Hk. apply list_elem_of_fmap in Hk as ([[a call] ac] & -> & Hin).
    rewrite forallb_forall in Hall. pose proof (Hall _ (proj1 (list_elem_of_In _ _) Hin)) as Hc.
    apply step_calls_elem in Hin as (Ha & Hst & Hin). simpl in *. subst a. destruct (Hcalls _ _ Hin) as [He _]. split.
    + unfold call_confirmed in Hc. destruct (journal s !! effect_key (ac_EffectID ac)) as [r|] eqn:Hr; [|done].
      bool_to_prop. exists r. auto.
    + exists call, ac. by rewrite He.
Qed.

Lemma counted_sound e ks : counted e = inr ks → NoDup ks ∧ ∀ k, k ∈ ks → settled_key k ∧ key_origin e k.
Proof.
  intros H. assert (∀ (P : string → Prop), NoDup (@nil string) ∧ ∀ k, k ∈ @nil string → P k) as Hnil by (intros P; split; [constructor|intros k Hk; by apply not_elem_of_nil in Hk]).
  destruct e as [| | | | |o]; try done. unfold counted_keys in H.
  case_bool_decide; [injection H as <-; apply (Hnil (λ k, settled_key k ∧ key_origin (JObj o) k))|]. destruct (negb _); [done|].
  apply result_bind_inr in H as (callID & Hcall & H). apply from_option_inr in Hcall.
  destruct (match (id ← string_field o "stepId"; waits s !! (run, id)) with Some w => _ | None => false end) eqn:Hw; [injection H as <-; apply (Hnil (λ k, settled_key k ∧ key_origin (JObj o) k))|].
  clear Hw. destruct (id ← string_field o "stepId"; a ← agent_steps s !! (run, id); guard (as_CallNamespace a = callID);; Some (id, a)) as [[stepID a]|] eqn:Hstep.
  - apply bind_Some in Hstep as (id & Hid & Hstep). apply bind_Some in Hstep as (a' & Ha & Hstep).
    case_guard; [|done]. simpl in Hstep. injection Hstep as -> ->.
    apply result_bind_inr in H as (? & _ & H). apply result_bind_inr in H as (? & Hall & H). apply ensure_inr in Hall. injection H as <-.
    destruct (counted_calls stepID Hall) as [Hnd Hk]. split; [done|]. intros k Hin. destruct (Hk k Hin) as (Hset & call & ac & Hst & Hac & ->).
    split; [done|]. right. exists call, ac. subst stepID. done.
  - apply result_bind_inr in H as (? & Hj & H). apply ensure_inr in Hj. injection H as <-.
    split; [apply NoDup_singleton|]. intros k Hk. apply list_elem_of_singleton in Hk as ->.
    destruct (journal s !! _) as [r|] eqn:Hr; [|done]. bool_to_prop. split; [exists r; auto|]. left. by exists callID.
Qed.

Lemma origins_differ e l k : NoDup (omap entry_call (e :: l)) → NoDup (omap entry_step (e :: l)) →
  (∀ c, c ∈ omap entry_call (e :: l) → namespace_of c = None) → key_origin e k → ∀ e', e' ∈ l → ¬ key_origin e' k.
Proof.
  intros Hc Hs Hns Ho e' Hin Ho'.
  assert (∀ c, entry_call e' = Some c → c ∈ omap entry_call l) as Hc' by (intros; apply list_elem_of_omap; eauto).
  assert (∀ c, entry_step e' = Some c → c ∈ omap entry_step l) as Hs' by (intros; apply list_elem_of_omap; eauto).
  destruct Ho as [(c & Hec & ->)|(call & ac & Hes & Hac & ->)], Ho' as [(c' & Hec' & Heq)|(call' & ac' & Hes' & Hac' & Heq)];
    apply effect_key_inj, Hinj in Heq; subst; simpl in *.
  - rewrite Hec in Hc. apply NoDup_cons in Hc as [Hc _]. by apply Hc, Hc'.
  - rewrite Hec in Hns. destruct (Hcalls _ _ Hac') as [_ [ns Hx]]. rewrite Hns in Hx; [done|by left].
  - destruct (Hcalls _ _ Hac) as [_ [ns Hx]]. rewrite Hns in Hx; [done|]. destruct (entry_call e); [right|]; by apply Hc'.
  - rewrite Hac in Hac'. injection Hac' as <-. rewrite Hes in Hs. apply NoDup_cons in Hs as [Hs _]. by apply Hs, Hs'.
Qed.

Lemma counted_all l keys : Forall2 (λ e ks, counted e = inr ks) l keys → NoDup (omap entry_call l) → NoDup (omap entry_step l) →
  (∀ c, c ∈ omap entry_call l → namespace_of c = None) →
  NoDup (concat keys) ∧ ∀ k, k ∈ concat keys → settled_key k ∧ ∃ e, e ∈ l ∧ key_origin e k.
Proof.
  induction 1 as [|e ks l keys He Hl IH]; intros Hc Hs Hns; simpl.
  { split; [constructor|]. intros k Hk. by apply not_elem_of_nil in Hk. }
  destruct (counted_sound e ks He) as [Hnd Hk].
  destruct IH as [Hnd' Hk'].
  { simpl in Hc. destruct (entry_call e); [by apply NoDup_cons in Hc as [_ Hc]|done]. }
  { simpl in Hs. destruct (entry_step e); [by apply NoDup_cons in Hs as [_ Hs]|done]. }
  { intros c Hin. apply Hns. simpl. destruct (entry_call e); [by right|done]. }
  split.
  - apply NoDup_app. split; [done|]. split; [|done]. intros k Hin Hin'. destruct (Hk k Hin) as [_ Ho], (Hk' k Hin') as (_ & e' & He' & Ho').
    by apply (origins_differ e l k Hc Hs Hns Ho e' He').
  - intros k Hin. apply elem_of_app in Hin as [Hin|Hin].
    + destruct (Hk k Hin). split; [done|]. exists e. split; [by left|done].
    + destruct (Hk' k Hin) as (? & e' & He' & Ho'). split; [done|]. exists e'. split; [by right|done].
Qed.

Lemma completed_check value : report_named namespace_of value → check_completed effect_id u run s value = inr () →
  ∀ k r, journal s !! k = Some r → jr_UserID r = u → jr_RunID r = run → confirmed r = true.
Proof.
  intros Hnamed H. unfold check_completed in H. apply result_bind_inr in H as (l & Hl & H). apply from_option_inr in Hl.
  destruct (Hnamed l Hl) as (Hc & Hs & Hns). apply result_bind_inr in H as (keys & Hm & H). apply map_result_Forall2 in Hm.
  destruct (counted_all l keys Hm Hc Hs Hns) as [Hnd Hk]. apply ensure_inr, Z.eqb_eq in H as Hlen.
  intros k r Hr Hu Hrun. assert (k ∈ concat keys) as Hin.
  { apply (NoDup_covers _ (fst <$> run_rows u run s) Hnd).
    - intros x Hx. destruct (Hk x Hx) as [(q & Hq & Hqu & Hqr & _) _]. apply list_elem_of_fmap. exists (x, q). split; [done|].
      unfold run_rows. apply list_elem_of_filter. split; [done|]. by apply elem_of_map_to_list.
    - rewrite length_fmap. unfold len in Hlen. lia.
    - apply list_elem_of_fmap. exists (k, r). split; [done|]. unfold run_rows. apply list_elem_of_filter. split; [done|]. by apply elem_of_map_to_list. }
  destruct (Hk k Hin) as [(q & Hq & _ & _ & Hconf) _]. congruence.
Qed.
End completed.
