(* ===== verification/RoutineLife.v ===== *)
(** * The life of a routine run

    The operations of [RoutineRuns] interleaved with the calls of tools that
    [ActionJournal] claims and finishes, and what holds along every such
    interleaving: a published outcome is final and a completed run has no effect
    left unconfirmed; a timed wait never ends early. *)
From S2P Require Import Prelude Tx GoStrings GoTime Json RoutineValues RunStore ActionJournal RunBudget RoutineRuns.

Section life.
Context (effect_id : string → string → string → string) (namespace_of : string → option string).
Context (call_fingerprint request_print : json → string) (validID : string → bool).

(** One operation on the store of runs, at a reading of the clock. *)
Inductive routine_op (now : Z) : Store → Store → Prop :=
  | op_open_wait userID runID runtimeID stepID until rec s s' :
      OpenRoutineWait userID runID runtimeID stepID until now s = inr (rec, s') → routine_op now s s'
  | op_resume_wait userID runID runtimeID stepID waitID rec s s' :
      ResumeRoutineWait validID userID runID runtimeID stepID waitID now s = inr (rec, s') → routine_op now s s'
  | op_expire_waits locked u s s' : ExpireRoutineWaits locked now s = inr (u, s') → routine_op now s s'
  | op_open_agent userID runID stepID runtimeID a s s' :
      OpenRoutineAgent userID runID stepID runtimeID now s = inr (a, s') → routine_op now s s'
  | op_admit_call userID runID runtimeID stepID callID toolName input allowNew u s s' :
      AdmitRoutineAgentCall effect_id namespace_of call_fingerprint userID runID runtimeID stepID callID toolName input allowNew now s = inr (u, s') →
      routine_op now s s'
  | op_finish_agent userID runID stepID runtimeID state completion ciphertext calls turns recovery a s s' :
      FinishRoutineAgent userID runID stepID runtimeID state completion ciphertext calls turns recovery now s = inr (a, s') →
      routine_op now s s'
  | op_publish userID runID outcome report u s s' :
      (∀ value, report = Some value → report_named namespace_of value) →
      PublishRoutineCompletion effect_id userID runID outcome report now s = inr (u, s') → routine_op now s s'
  | op_cancel app userID runID u s s' : RequestRoutineCancellation app userID runID now s = inr (u, s') → routine_op now s s'
  | op_activate runID kind runtimeID r s s' : ActivateAIInvocationRuntime runID kind runtimeID now s = inr (r, s') → routine_op now s s'
  | op_rest s s' : journal s' = journal s → runs_kept s s' → waits s' = waits s → routine_runs s' = routine_runs s →
      agent_calls s' = agent_calls s → agent_steps s' = agent_steps s → routine_op now s s'.

Lemma routine_op_evolves now s s' : routine_op now s s' → evolves effect_id namespace_of now s s'.
Proof.
  destruct 1.
  - destruct (open_wait_change _ _ _ _ _ _ _ _ _ H) as (? & ? & ? & ? & ?). by eapply wait_change_evolves.
  - destruct (resume_wait_change _ _ _ _ _ _ _ _ _ _ H) as (? & ? & ? & ? & ?). by eapply wait_change_evolves.
  - by eapply expire_evolves.
  - by eapply open_agent_evolves.
  - by eapply admit_evolves.
  - by eapply finish_agent_evolves.
  - by eapply publish_evolves.
  - by eapply request_cancel_evolves.
  - by eapply activate_evolves.
  - by apply evolves_frame; try apply sn_same.
Qed.

(** ** Interleaving

    A call of the run [run] of user [u] asks for a settled run, as the calls of
    routines do. *)
Inductive life (u run : string) : Sys → Sys → Prop :=
  | life_claim a now s key s' fl lg : guarded u run a → admissible a = true →
      Tx.run (claimTx request_print a now) s = (s', inr (Claimed key)) → life u run (mkSys s fl lg) (mkSys s' ((key, a) :: fl) lg)
  | life_finish a key out s s' r fl1 fl2 lg : finish a key out s = (s', r) →
      life u run (mkSys s (fl1 ++ (key, a) :: fl2) lg) (mkSys s' (fl1 ++ fl2) ((key, attempted out) :: lg))
  | life_crash a key s fl1 fl2 lg : life u run (mkSys s (fl1 ++ (key, a) :: fl2) lg) (mkSys s (fl1 ++ fl2) ((key, true) :: lg))
  | life_op now s s' fl lg : routine_op now s s' → life u run (mkSys s fl lg) (mkSys s' fl lg).

Lemma life_step u run x y : life u run x y → step request_print (guarded u run) x y.
Proof.
  destruct 1 as [a now s key s' fl lg Ha Had Hc|a key out s s' r fl1 fl2 lg Hf|a key s fl1 fl2 lg|now s s' fl lg Hop].
  - by eapply step_claim.
  - by eapply step_finish.
  - by apply step_crash.
  - apply step_other, (ev_journal _ _ _ _ _ (routine_op_evolves _ _ _ Hop)).
Qed.

Record life_inv (u run : string) (x : Sys) : Prop := {
  li_sys : sys_inv x;
  li_owner : ∀ rr, routine_runs (sys_store x) !! run = Some rr → rr_UserID rr = u;
  li_published : ∀ rr, routine_runs (sys_store x) !! run = Some rr → rr_Outcome rr ≠ ""%string →
    published_terminal (sys_store x) run ∧ no_timer (sys_store x) run;
  li_completed : ∀ rr, routine_runs (sys_store x) !! run = Some rr → rr_Outcome rr = "completed"%string →
    ∀ k r, journal (sys_store x) !! k = Some r → jr_UserID r = u → jr_RunID r = run → confirmed r = true;
  li_timer : ∀ step w, waits (sys_store x) !! (run, step) = Some w → rw_State w = "waiting"%string →
    ∃ r, runs (sys_store x) !! run = Some r ∧ run_RuntimeID r ≠ ""%string;
  li_calls : ∀ call ac, agent_calls (sys_store x) !! (run, call) = Some ac →
    ac_EffectID ac = effect_id u run call ∧ is_Some (namespace_of call);
}.

(** A run before its first operation. *)
Record admitted (u run : string) (s : Store) : Prop := {
  ad_row : ∃ rr, routine_runs s !! run = Some rr ∧ rr_UserID rr = u ∧ rr_Outcome rr = ""%string;
  ad_waits : ∀ step w, waits s !! (run, step) = Some w → rw_State w = "pending"%string;
  ad_calls : ∀ call, agent_calls s !! (run, call) = None;
}.

Lemma admitted_inv u run s : admitted u run s → life_inv u run (mkSys s [] []).
Proof.
  intros [(rr & Hrr & Hu & Ho) Hw Hc]. split; simpl; try (intros ? Hq; rewrite Hq in Hrr; by simplify_eq).
  - apply inv_init.
  - intros q Hq Hne. rewrite Hq in Hrr. simplify_eq. by rewrite Ho in Hne.
  - intros step w Hq Hs. apply Hw in Hq. congruence.
  - intros call ac Hq. by rewrite Hc in Hq.
Qed.

Lemma published_kept s s' run : runs_kept s s' → published_terminal s run → published_terminal s' run.
Proof. intros Hk (r & Hr & Ht). destruct (Hk _ _ Hr) as (r' & Hr' & _ & Hst). exists r'. auto. Qed.

Context (u run : string).
(** Different calls of the run have different effects. *)
Context (Hinj : ∀ c c', effect_id u run c = effect_id u run c' → c = c').

(** A published run without timers stays so. *)
Lemma timer_kept s s' : waiting_origin s s' → published_terminal s run → no_timer s run → no_timer s' run.
Proof.
  intros Ho (r & Hr & Ht) Hn step w Hw Hs. destruct (Ho _ _ Hw Hs) as [Hw'|(r' & Hr' & Hst & _)]; [by eapply Hn|].
  simpl in Hr'. rewrite Hr in Hr'. simplify_eq. by rewrite Hst in Ht.
Qed.

(** The row of the run is what it was, or the run had not been published. *)
Lemma row_step now s s' rr rr' fl lg :
  evolves effect_id namespace_of now s s' → life_inv u run (mkSys s fl lg) → routine_runs s !! run = Some rr → routine_runs s' !! run = Some rr' →
  rr_UserID rr' = u ∧
  (rr_Outcome rr ≠ ""%string → rr' = rr) ∧
  (rr_Outcome rr = ""%string → rr_Outcome rr' ≠ ""%string → published_terminal s' run ∧ no_timer s' run ∧
    (rr_Outcome rr' = "completed"%string → ∀ k r, journal s !! k = Some r → jr_UserID r = u → jr_RunID r = run → confirmed r = true)).
Proof.
  intros Hev Hinv Hrr Hrr'. pose proof (ev_rows _ _ _ _ _ Hev run) as Hrow. rewrite Hrr, Hrr' in Hrow.
  pose proof (li_owner _ _ _ Hinv rr Hrr) as Hu.
  assert (∀ r, runs s !! run = Some r → terminal (run_State r) = false → rr_Outcome rr = ""%string) as Hopen.
  { intros r Hr Ht. destruct (decide (rr_Outcome rr = ""%string)) as [|Hne]; [done|].
    destruct (li_published _ _ _ Hinv rr Hrr Hne) as [(q & Hq & Htq) _]. simpl in Hq. congruence. }
  inversion Hrow as [|r Hr Ht|r rr1 Hr Ht Hrt Ho Hw Hp Hus|outcome value v Ho Hne Hp Hnt Hc]; subst; simpl.
  - split; [done|]. split; [done|]. intros. congruence.
  - split; [done|]. split; [intros Hne; by destruct (Hne (Hopen r Hr Ht))|]. intros. congruence.
  - split; [congruence|]. split; [intros Hne; by destruct (Hne (Hopen r Hr Ht))|]. intros _ _. split; [done|].
    split; [|congruence]. intros step w Hws Hs. rewrite Hw in Hws.
    destruct (li_timer _ _ _ Hinv step w Hws Hs) as (q & Hq & Hne). simpl in Hq. congruence.
  - split; [done|]. split; [done|]. intros _ _. split; [done|]. split; [done|]. intros Hcomp.
    destruct (Hc Hcomp) as [Hnamed Hcheck]. apply (completed_check effect_id namespace_of _ _ s Hinj) with value; [|done|done].
    intros call ac Hac. by apply (li_calls _ _ _ Hinv).
Qed.

Lemma inv_op now s s' fl lg : routine_op now s s' → life_inv u run (mkSys s fl lg) → life_inv u run (mkSys s' fl lg).
Proof.
  intros Hop Hinv. pose proof (routine_op_evolves _ _ _ Hop) as Hev.
  assert (∀ rr', routine_runs s' !! run = Some rr' → ∃ rr, routine_runs s !! run = Some rr) as Hback.
  { intros rr' Hrr'. pose proof (ev_rows _ _ _ _ _ Hev run) as Hrow. rewrite Hrr' in Hrow. destruct (routine_runs s !! run); [eauto|done]. }
  split; simpl.
  - eapply (inv_step request_print (guarded u run)); [|apply Hinv]. by eapply life_step, life_op.
  - intros rr' Hrr'. destruct (Hback rr' Hrr') as [rr Hrr]. by eapply row_step.
  - intros rr' Hrr' Hne. destruct (Hback rr' Hrr') as [rr Hrr].
    destruct (row_step _ _ _ _ _ _ _ Hev Hinv Hrr Hrr') as (_ & Hsame & Hnew). destruct (decide (rr_Outcome rr = ""%string)) as [Ho|Ho].
    + by destruct (Hnew Ho Hne) as (? & ? & _).
    + destruct (li_published _ _ _ Hinv rr Hrr Ho) as [Hp Hn]. simpl in *.
      split; [eapply published_kept; [apply Hev|done]|]. by eapply timer_kept; [apply Hev| |].
  - intros rr' Hrr' Hc k r Hk Hu Hr. rewrite (ev_journal _ _ _ _ _ Hev) in Hk. destruct (Hback rr' Hrr') as [rr Hrr].
    destruct (row_step _ _ _ _ _ _ _ Hev Hinv Hrr Hrr') as (_ & Hsame & Hnew). destruct (decide (rr_Outcome rr = ""%string)) as [Ho|Ho].
    + destruct (Hnew Ho ltac:(by rewrite Hc)) as (_ & _ & Hall). by eapply Hall.
    + rewrite (Hsame Ho) in Hc. by eapply (li_completed _ _ _ Hinv rr Hrr Hc).
  - intros step w Hw Hs. destruct (ev_waiting _ _ _ _ _ Hev _ _ Hw Hs) as [Hw'|(r & Hr & _ & Hne)].
    + destruct (li_timer _ _ _ Hinv step w Hw' Hs) as (r & Hr & Hne). destruct (ev_runs _ _ _ _ _ Hev _ _ Hr) as (r' & Hr' & Hid & _).
      exists r'. split; [done|]. by rewrite (Hid Hne).
    + destruct (ev_runs _ _ _ _ _ Hev _ _ Hr) as (r' & Hr' & Hid & _). exists r'. split; [done|]. by rewrite (Hid Hne).
  - intros call ac Hac. destruct (ev_calls _ _ _ _ _ Hev _ _ _ Hac) as [Hac'|(Hns & rr & Hrr & He)]; [by apply (li_calls _ _ _ Hinv)|].
    pose proof (li_owner _ _ _ Hinv rr Hrr) as Hu. simpl in Hu. by rewrite He, Hu.
Qed.

(** A change of one journal row leaves the invariant alone, if it concerns another
    run or the run is not published as completed. *)
Lemma inv_journal s fl lg fl' lg' key r :
  life_inv u run (mkSys s fl lg) → sys_inv (mkSys (set_journal (<[key := r]> (journal s)) s) fl' lg') →
  (jr_UserID r = u → jr_RunID r = run → ∀ rr, routine_runs s !! run = Some rr → rr_Outcome rr ≠ "completed"%string) →
  life_inv u run (mkSys (set_journal (<[key := r]> (journal s)) s) fl' lg').
Proof.
  intros Hinv Hsys Hr. split; simpl; [done|apply Hinv|apply Hinv| |apply Hinv|apply Hinv].
  intros rr Hrr Hc k q. rewrite lookup_insert_Some. intros [[<- <-]|[_ Hq]] Hu Hrun.
  - by destruct (Hr Hu Hrun rr Hrr).
  - by eapply (li_completed _ _ _ Hinv rr Hrr Hc).
Qed.

(** A settled claim is of a run that executes. *)
Lemma claim_running a now s c s' : claimTx request_print a now s = inr (c, s') → ta_RequireSettledRun a = true →
  ∃ r, runs s !! ta_RunID a = Some r ∧ run_State r = "running"%string.
Proof.
  unfold claimTx. intros H Hr. rewrite Hr in H. simpl in H. apply bind_inr in H as ([] & s1 & Hg & _). unfold settledTx in Hg.
  apply bind_inr in Hg as (? & ? & Hget & Hg). injection Hget as <- <-.
  apply bind_inr in Hg as (r & ? & Hrun & Hg). apply require_inr in Hrun as [Hrun ->]. apply owned_run_Some in Hrun as [Hrun _].
  apply bind_inr in Hg as (? & ? & Hc & Hg). apply guard_inr in Hc as [_ ->].
  apply bind_inr in Hg as (? & ? & Hc & Hg). apply guard_inr in Hc as [Hc ->]. bool_to_prop. by exists r.
Qed.

Lemma not_published a now s c s' fl lg rr : life_inv u run (mkSys s fl lg) → guarded u run a →
  claimTx request_print a now s = inr (c, s') → ta_UserID a = u → ta_RunID a = run →
  routine_runs s !! run = Some rr → rr_Outcome rr = ""%string.
Proof.
  intros Hinv Hg Hc Hu Hr Hrr. destruct (claim_running _ _ _ _ _ Hc (Hg Hu Hr)) as (r & Hrun & Hst). rewrite Hr in Hrun.
  destruct (decide (rr_Outcome rr = ""%string)) as [|Hne]; [done|].
  destruct (li_published _ _ _ Hinv rr Hrr Hne) as [(q & Hq & Ht) _]. simpl in Hq. rewrite Hrun in Hq. simplify_eq. by rewrite Hst in Ht.
Qed.

Lemma inv_life x y : life u run x y → life_inv u run x → life_inv u run y.
Proof.
  intros H Hinv. pose proof (inv_step request_print (guarded u run) _ _ (life_step _ _ _ _ H) (li_sys _ _ _ Hinv)) as Hsys.
  destruct H as [a now s key s' fl lg Ha Had Hc|a key out s s' r fl1 fl2 lg Hf|a key s fl1 fl2 lg|now s s' fl lg Hop].
  - apply run_commit in Hc.
    assert (∃ r, s' = set_journal (<[key := r]> (journal s)) s ∧ jr_UserID r = ta_UserID a ∧ jr_RunID r = ta_RunID a) as (r & -> & Hu & Hr).
    { pose proof Hc as Hc'. apply claim_cases in Hc' as [(_ & [= ->] & ->)|(r & Hr & Hu & _ & Hrun & _ & [(_ & [= ->] & ->)|(_ & [=] & _)])]; eauto. }
    eapply inv_journal; [exact Hinv|exact Hsys|]. intros Hu' Hr' rr Hrr.
    rewrite (not_published a now s _ _ fl lg rr Hinv Ha Hc); [done|congruence..|done].
  - destruct (si_started _ (li_sys _ _ _ Hinv) key a) as (q & Hq & Hs & Hu & _); [simpl; set_solver|]. simpl in Hq.
    destruct (finish_effect _ _ _ _ _ _ _ Hf Hq Hs Hu) as [(_ & -> & _)|(cipher & _ & ->)].
    + split; simpl; [exact Hsys|apply Hinv..].
    + destruct (finished_keeps a out cipher q) as (HU & HR & _). eapply inv_journal; [exact Hinv|exact Hsys|].
      rewrite HU, HR. intros Hqu Hqr rr Hrr Hcomp. pose proof (li_completed _ _ _ Hinv rr Hrr Hcomp key q Hq Hqu Hqr) as Hconf.
      unfold confirmed in Hconf. rewrite Hs in Hconf. done.
  - split; simpl; [exact Hsys|apply Hinv..].
  - by eapply inv_op.
Qed.

Lemma inv_lives x y : rtc (life u run) x y → life_inv u run x → life_inv u run y.
Proof. induction 1 as [|x y z Hs _ IH]; [done|]. intros Hx. by apply IH, (inv_life x). Qed.

(** C5: A completed run has nothing left open.  However its operations, its calls of
    tools, crashes and retries interleave, once a run's published outcome is
    "completed" every effect the run's journal records is completed and has its
    result stored - also at every later time. *)
Theorem completed_run_confirmed s x rr k r :
  admitted u run s → rtc (life u run) (mkSys s [] []) x →
  routine_runs (sys_store x) !! run = Some rr → rr_Outcome rr = "completed"%string →
  journal (sys_store x) !! k = Some r → jr_UserID r = u → jr_RunID r = run →
  jr_State r = "completed"%string ∧ is_Some (jr_Ciphertext r).
Proof.
  intros Had Hlife Hrr Hc Hk Hu Hr. pose proof (inv_lives _ _ Hlife (admitted_inv _ _ _ Had)) as Hinv.
  pose proof (li_completed _ _ _ Hinv rr Hrr Hc k r Hk Hu Hr) as Hconf. unfold confirmed in Hconf. bool_to_prop.
  split; [done|]. by destruct (jr_Ciphertext r).
Qed.

(** A published outcome is final.  Once a run has an outcome, its row - outcome,
    report, cancellation - never changes again, the run has ended and stays ended, it
    waits for no timer, and no call of the run can claim an effect. *)
Theorem publication_final s x y rr :
  admitted u run s → rtc (life u run) (mkSys s [] []) x → rtc (life u run) x y →
  routine_runs (sys_store x) !! run = Some rr → rr_Outcome rr ≠ ""%string →
  routine_runs (sys_store y) !! run = Some rr ∧ published_terminal (sys_store y) run ∧ no_timer (sys_store y) run ∧
  ∀ a now c s', ta_UserID a = u → ta_RunID a = run → ta_RequireSettledRun a = true →
    claimTx request_print a now (sys_store y) ≠ inr (c, s').
Proof.
  intros Had Hx Hy Hrr Hne. pose proof (inv_lives _ _ Hx (admitted_inv _ _ _ Had)) as Hinv. clear Hx Had.
  assert (routine_runs (sys_store y) !! run = Some rr ∧ life_inv u run y) as [Hrow Hinv'].
  { induction Hy as [x|x z y Hs _ IH]; [done|]. apply IH; [|by apply (inv_life x)].
    destruct Hs as [a now s1 key s' fl lg Ha _ Hc|a key out s1 s' r fl1 fl2 lg Hf|a key s1 fl1 fl2 lg|now s1 s' fl lg Hop]; simpl in *; [| |done|].
    - apply run_commit, claim_cases in Hc as [(_ & _ & ->)|(q & _ & _ & _ & _ & _ & [(_ & _ & ->)|(_ & _ & ->)])]; done.
    - destruct (si_started _ (li_sys _ _ _ Hinv) key a) as (q & Hq & Hs & Hu & _); [simpl; set_solver|]. simpl in Hq.
      by destruct (finish_effect _ _ _ _ _ _ _ Hf Hq Hs Hu) as [(_ & -> & _)|(cipher & _ & ->)].
    - pose proof (routine_op_evolves _ _ _ Hop) as Hev. pose proof (ev_rows _ _ _ _ _ Hev run) as Hr. rewrite Hrr in Hr.
      destruct (routine_runs s' !! run) as [rr'|] eqn:Hrr'; [|done].
      destruct (row_step _ _ _ _ _ _ _ Hev Hinv Hrr Hrr') as (_ & Hsame & _). by rewrite (Hsame Hne). }
  destruct (li_published _ _ _ Hinv' rr Hrow Hne) as [Hp Hn]. split; [done|]. split; [done|]. split; [done|].
  intros a now c s' Hu Hr Hset Hc. destruct (claim_running _ _ _ _ _ Hc Hset) as (r & Hrun & Hst). rewrite Hr in Hrun.
  destruct Hp as (q & Hq & Ht). rewrite Hrun in Hq. simplify_eq. by rewrite Hst in Ht.
Qed.
End life.

(** ** Timers *)

Section timers.
Context (effect_id : string → string → string → string) (namespace_of : string → option string).
Context (call_fingerprint : json → string) (validID : string → bool).

(** Operations at readings of a clock that does not go back. *)
Definition timed_op (x y : Store * Z) : Prop :=
  x.2 <= y.2 ∧ routine_op effect_id namespace_of call_fingerprint validID y.2 x.1 y.1.

Definition ended (w : RoutineWait) : Prop := rw_State w ∈ ["completed"; "expired"; "cancelled"]%string.

(** A wait at time [t]. *)
Definition wait_ok (t : Z) (w : RoutineWait) : Prop :=
  rw_State w = "pending"%string ∨
  ∃ until expires, rw_Until w = Some until ∧ rw_ExpiresAt w = Some expires ∧ until < expires ∧
    (rw_State w = "completed"%string → until <= t) ∧ (rw_State w = "expired"%string → expires <= t).

Lemma wait_ok_next t t' w w' : t <= t' → wait_ok t w → wait_next t' w w' →
  wait_ok t' w' ∧ rw_WaitID w' = rw_WaitID w ∧ (rw_State w ≠ "pending"%string → rw_Until w' = rw_Until w) ∧ (ended w → w' = w).
Proof.
  intros Ht Hok Hn. assert (rw_State w = "waiting"%string → ∃ until expires, rw_Until w = Some until ∧ rw_ExpiresAt w = Some expires ∧ until < expires) as Hwait.
  { destruct Hok as [Hp|(until & expires & Hu & He & Hlt & _)]; [congruence|eauto]. }
  assert (∀ st, rw_State w = st → st ∈ ["pending"; "waiting"]%string → ended w → False) as Hnot.
  { intros st Hst Hin He. unfold ended in He. rewrite Hst in He. repeat (apply elem_of_cons in Hin as [->|Hin]; [not_in He|]). not_in Hin. }
  destruct Hn as [|until Hp Hu|until Hp Hu|until expires Hp Hu He Hle|expires Hp He Hle|Hp]; simpl.
  - split; [|done]. destruct Hok as [?|(until & expires & ? & ? & ? & Hc & He)]; [by left|]. right. exists until, expires.
    repeat split; auto; intros; [specialize (Hc ltac:(done))|specialize (He ltac:(done))]; lia.
  - split; [|split; [done|split; [done|intros Hend; exfalso; by eapply (Hnot "pending"%string); [|left|]]]]. right. exists until, (t' + 24 * Hour). simpl. repeat split; [lia|done|done].
  - split; [|split; [done|split; [done|intros Hend; exfalso; by eapply (Hnot "pending"%string); [|left|]]]]. right. exists until, (t' + 24 * Hour). simpl. unfold Hour, Minute, Second. repeat split; [lia|lia|done].
  - split; [|split; [done|split; [done|intros Hend; exfalso; by eapply (Hnot "waiting"%string); [|right; left|]]]].
    destruct (Hwait Hp) as (a & b & Ha & Hb & Hlt). right. exists a, b. simpl. repeat split; [done|done|done|intros; simplify_eq; lia|done].
  - split; [|split; [done|split; [done|intros Hend; exfalso; by eapply (Hnot "waiting"%string); [|right; left|]]]].
    destruct (Hwait Hp) as (a & b & Ha & Hb & Hlt). right. exists a, b. simpl. repeat split; [done|done|done|done|intros; simplify_eq; lia].
  - split; [|split; [done|split; [done|intros Hend; exfalso; by eapply (Hnot "waiting"%string); [|right; left|]]]].
    destruct (Hwait Hp) as (a & b & Ha & Hb & Hlt). right. exists a, b. simpl. by repeat split.
Qed.

Lemma wait_history x y key w : rtc timed_op x y → waits x.1 !! key = Some w → wait_ok x.2 w →
  ∃ w', waits y.1 !! key = Some w' ∧ wait_ok y.2 w' ∧ rw_WaitID w' = rw_WaitID w ∧
    (rw_State w ≠ "pending"%string → rw_Until w' = rw_Until w) ∧ (ended w → w' = w).
Proof.
  intros H. revert w. induction H as [|x z y [Ht Hop] _ IH]; intros w Hw Hok; [by exists w|].
  pose proof (ev_waits _ _ _ _ _ (routine_op_evolves _ _ _ _ _ _ _ Hop) key) as Hn. rewrite Hw in Hn.
  destruct (waits z.1 !! key) as [w1|] eqn:Hw1; [|done]. destruct (wait_ok_next _ _ _ _ Ht Hok Hn) as (Hok1 & Hid & Hun & Hend).
  destruct (IH w1 eq_refl Hok1) as (w2 & Hw2 & Hok2 & Hid2 & Hun2 & Hend2). exists w2. split; [done|]. split; [done|].
  split; [congruence|]. split.
  - intros Hp. rewrite Hun2, Hun; [done|done|]. destruct Hn; simpl; congruence.
  - intros He. pose proof (Hend He) as ->. by apply Hend2.
Qed.

End timers.

(** ** A run with one effect and one wait *)

Definition plain_id (u run call : string) : string := call.
Definition no_namespace (call : string) : option string := None.
Definition plain_print (v : json) : string := "fingerprint".
Definition known_id (id : string) : bool := true.

Definition daily : RoutineRun := mkRoutineRun "user" "routine" false "" JNull [].
Definition daily_store : Store :=
  mkStore ∅ ∅ {["invocation_1" := with_expiry (24 * Hour) example_run]} ∅ {["invocation_1" := daily]}
    {[("invocation_1", "pause")%string := mkWait "wait-1" "pending" None None]} ∅ ∅ ∅ ∅ ∅ [].

Definition send_action : AgentToolboxAction := example_action (effect_key "call-1").
Definition daily_claimed : Store := (Tx.run (claimTx plain_print send_action 5) daily_store).1.
Definition daily_sent : Store := (finish send_action (effect_key "call-1") example_sent daily_claimed).1.

Definition sent_report : object :=
  [("state", JStr "completed");
   ("steps", JArr [JObj [("callId", JStr "call-1"); ("state", JStr "completed"); ("stepId", JStr "send")]])]%string.

Definition daily_done : Store :=
  (Tx.run (PublishRoutineCompletion plain_id "user" "invocation_1" "completed" (Some sent_report) 9) daily_sent).1.

Lemma daily_admitted : admitted "user" "invocation_1" daily_store.
Proof.
  split; [by exists daily| |done]. intros step w. simpl. rewrite lookup_singleton_Some. intros [_ <-]. done.
Qed.

Lemma sent_report_named : report_named no_namespace sent_report.
Proof. intros l [= <-]. repeat split; [repeat constructor; set_solver|repeat constructor; set_solver]. Qed.

Lemma daily_life : rtc (life plain_id no_namespace plain_print plain_print known_id "user" "invocation_1")
  (mkSys daily_store [] []) (mkSys daily_done [] [(effect_key "call-1", true)]).
Proof.
  eapply rtc_l; [eapply (life_claim _ _ _ _ _ _ _ send_action 5); [done|reflexivity|vm_compute; reflexivity]|].
  eapply rtc_l; [eapply (life_finish _ _ _ _ _ _ _ send_action (effect_key "call-1") example_sent _ daily_sent _ [] []); vm_compute; reflexivity|].
  apply rtc_once. eapply (life_op _ _ _ _ _ _ _ 9).
  eapply (op_publish _ _ _ _ _ "user" "invocation_1" "completed" (Some sent_report) ()); [|vm_compute; reflexivity].
  intros value [= <-]. apply sent_report_named.
Qed.

Lemma plain_id_inj c c' : plain_id "user" "invocation_1" c = plain_id "user" "invocation_1" c' → c = c'.
Proof. done. Qed.

Lemma completed_run_confirmed_witness :
  ∃ r, journal daily_done !! effect_key "call-1" = Some r ∧ jr_State r = "completed"%string ∧ is_Some (jr_Ciphertext r).
Proof.
  assert (∃ r, journal daily_done !! effect_key "call-1" = Some r ∧ jr_UserID r = "user"%string ∧ jr_RunID r = "invocation_1"%string)
    as (r & Hr & Hu & Hrun) by (eexists; vm_compute; repeat split; reflexivity).
  assert (∃ rr, routine_runs daily_done !! "invocation_1"%string = Some rr ∧ rr_Outcome rr = "completed"%string)
    as (rr & Hrr & Ho) by (eexists; vm_compute; repeat split; reflexivity).
  exists r. split; [exact Hr|].
  exact (completed_run_confirmed plain_id no_namespace plain_print plain_print known_id "user" "invocation_1" plain_id_inj
    daily_store _ rr (effect_key "call-1") r daily_admitted daily_life Hrr Ho Hr Hu Hrun).
Defined.

Lemma publication_final_witness :
  ∃ rr, routine_runs daily_done !! "invocation_1"%string = Some rr ∧ no_timer daily_done "invocation_1".
Proof.
  assert (∃ rr, routine_runs daily_done !! "invocation_1"%string = Some rr ∧ rr_Outcome rr ≠ ""%string)
    as (rr & Hrr & Ho) by (eexists; vm_compute; split; [reflexivity|discriminate]).
  exists rr. split; [exact Hrr|].
  assert (life plain_id no_namespace plain_print plain_print known_id "user" "invocation_1"
    (mkSys daily_done [] [(effect_key "call-1", true)]) (mkSys daily_done [] [(effect_key "call-1", true)])) as Hnext.
  { eapply (life_op _ _ _ _ _ _ _ 10), (op_cancel _ _ _ _ _ false "user" "invocation_1" ()). vm_compute. reflexivity. }
  apply (publication_final plain_id no_namespace plain_print plain_print known_id "user" "invocation_1" plain_id_inj
    daily_store _ _ rr daily_admitted daily_life (rtc_once _ _ Hnext) Hrr Ho).
Defined.

Definition paused : Store := (Tx.run (OpenRoutineWait "user" "invocation_1" "runtime" "pause" (3 * Hour) Hour) daily_store).1.
Definition woken : Store := (Tx.run (ResumeRoutineWait known_id "user" "invocation_1" "runtime" "pause" "wait-1" (4 * Hour)) paused).1.

