(* ===== verification/RoutineEvidence.v ===== *)
(** * Evidence of a run and its authorizations

    Joins the store of runs to the plan of [RoutinePlan]: [routineReceipts] of
    [internal/platform/httpapi/routine_runtime.go] collects the receipts of a run's
    effects, agent steps and waits, and along the life of a run
    ([RoutineLife]) completed receipts are kept.  So the authorization of a step's
    call is the same at every moment of the run. *)
From S2P Require Import Prelude Tx GoStrings GoTime Json RoutineValues RoutineDefinition RoutinePlan RunStore ActionJournal RunBudget RoutineRuns RoutineLife.

(** ** Collecting receipts *)

Definition RoutineEffectReceipts (userID runID : string) (s : Store) : gmap string RoutineEffectReceipt :=
  match routine_runs s !! runID with
  | Some rr =>
      if bool_decide (rr_UserID rr = userID) then
        omap (λ r, if bool_decide (jr_UserID r = userID) && bool_decide (jr_RunID r = runID)
                   then Some (mkEffect (jr_State r) (jr_Ciphertext r) (jr_ToolName r)) else None) (journal s)
      else ∅
  | None => ∅
  end.

(** The rows of a run, as a map by a key that is unique among them. *)
Definition rows_by {A} (key : A → string) (receipt : A → RoutineEffectReceipt) (runID : string) (m : gmap (string * string) A) :
    gmap string RoutineEffectReceipt :=
  list_to_map ((λ kv : (string * string) * A, (key kv.2, receipt kv.2)) <$> filter (λ kv, kv.1.1 = runID) (map_to_list m)).

Definition checkpoint_key (a : AgentStep) : string := "routine-agent:" +:+ as_CallNamespace a.
Definition checkpoint_receipt (a : AgentStep) : RoutineEffectReceipt := mkEffect (as_State a) (as_Ciphertext a) "routine.agent".
Definition wait_key (w : RoutineWait) : string := "routine-wait:" +:+ rw_WaitID w.
Definition wait_receipt (w : RoutineWait) : RoutineEffectReceipt := mkEffect (rw_State w) None "routine.wait".

(** Waits and checkpoints are merged over the effects. *)
Definition routineReceipts (userID runID : string) (s : Store) : gmap string RoutineEffectReceipt :=
  rows_by wait_key wait_receipt runID (waits s) ∪ (rows_by checkpoint_key checkpoint_receipt runID (agent_steps s) ∪ RoutineEffectReceipts userID runID s).

(** ** Rows that keep their keys *)

Section rows.
Context {A : Type} (key : A → string) (receipt : A → RoutineEffectReceipt) (run : string).

Definition unique_keys (m : gmap (string * string) A) : Prop :=
  ∀ step step' a a', m !! (run, step) = Some a → m !! (run, step') = Some a' → key a = key a' → step = step'.

Definition rows_kept (m m' : gmap (string * string) A) : Prop :=
  ∀ step, match m !! (run, step), m' !! (run, step) with
          | Some a, Some a' => key a' = key a ∧ (rc_State (receipt a) = "completed"%string → a' = a)
          | None, None => True
          | _, _ => False
          end.

Lemma rows_by_lookup m k r : unique_keys m →
  rows_by key receipt run m !! k = Some r ↔ ∃ step a, m !! (run, step) = Some a ∧ key a = k ∧ receipt a = r.
Proof.
  intros Hu. unfold rows_by. rewrite <- elem_of_list_to_map.
  - rewrite list_elem_of_fmap. split.
    + intros ([[id step] a] & [= -> ->] & Hin). apply list_elem_of_filter in Hin as [Hid Hin]. simpl in Hid. subst id.
      apply elem_of_map_to_list in Hin. eauto.
    + intros (step & a & Ha & <- & <-). exists ((run, step), a). split; [done|]. apply list_elem_of_filter. split; [done|]. by apply elem_of_map_to_list.
  - rewrite <- list_fmap_compose. apply NoDup_fmap_2_strong.
    + intros [[id step] a] [[id' step'] a'] Hx Hy Heq. apply list_elem_of_filter in Hx as [Hid Hx], Hy as [Hid' Hy]. simpl in *. subst.
      apply elem_of_map_to_list in Hx, Hy. assert (step = step') as -> by (by eapply Hu). by simplify_eq.
    + apply NoDup_filter, NoDup_map_to_list.
Qed.

Lemma unique_kept m m' : rows_kept m m' → unique_keys m → unique_keys m'.
Proof.
  intros Hk Hu step step' a a' Ha Ha' Heq. pose proof (Hk step) as H1. pose proof (Hk step') as H2. rewrite Ha in H1. rewrite Ha' in H2.
  destruct (m !! (run, step)) as [b|] eqn:Hb; [|done]. destruct (m !! (run, step')) as [b'|] eqn:Hb'; [|done].
  destruct H1 as [H1 _], H2 as [H2 _]. eapply Hu; eauto. congruence.
Qed.

Lemma rows_grown m m' : rows_kept m m' → unique_keys m →
  (∀ k, rows_by key receipt run m !! k = None → rows_by key receipt run m' !! k = None) ∧
  grown (rows_by key receipt run m) (rows_by key receipt run m').
Proof.
  intros Hk Hu. pose proof (unique_kept _ _ Hk Hu) as Hu'. split.
  - intros k Hn. destruct (rows_by key receipt run m' !! k) as [r|] eqn:Hr; [|done]. exfalso.
    apply (rows_by_lookup m' k r Hu') in Hr as (step & a' & Ha' & Hka & _). pose proof (Hk step) as H. rewrite Ha' in H.
    destruct (m !! (run, step)) as [a|] eqn:Ha; [|done]. destruct H as [H _].
    enough (rows_by key receipt run m !! k = Some (receipt a)) by congruence. apply rows_by_lookup; [done|]. exists step, a. split; [done|]. split; [congruence|done].
  - intros k r Hr Hst. apply (rows_by_lookup m k r Hu) in Hr as (step & a & Ha & Hka & <-). pose proof (Hk step) as H. rewrite Ha in H.
    destruct (m' !! (run, step)) as [a'|] eqn:Ha'; [|done]. destruct H as [_ H]. specialize (H Hst). subst a'.
    apply rows_by_lookup; [done|]. by exists step, a.
Qed.

Lemma rows_kept_refl m : rows_kept m m.
Proof. intros step. by destruct (m !! (run, step)). Qed.
End rows.

Lemma grown_union r1 r2 r1' r2' : grown r1 r1' → (∀ k, r1 !! k = None → r1' !! k = None) → grown r2 r2' → grown (r1 ∪ r2) (r1' ∪ r2').
Proof.
  intros H1 Hn H2 k r Hr Hst. apply lookup_union_Some_raw in Hr as [Hr|[Hr1 Hr]]; apply lookup_union_Some_raw.
  - left. by apply H1.
  - right. split; [by apply Hn|by apply H2].
Qed.

Lemma grown_trans r1 r2 r3 : grown r1 r2 → grown r2 r3 → grown r1 r3.
Proof. intros H1 H2 k r Hr Hst. by apply H2, Hst; apply H1. Qed.

(** ** Evidence along the life of a run *)

Section evidence.
Context (effect_id : string → string → string → string) (namespace_of : string → option string).
Context (call_fingerprint request_print : json → string) (validID : string → bool) (u run : string).

Local Abbreviation life := (life effect_id namespace_of call_fingerprint request_print validID u run).

(** The row of the run, and the unique keys of the schema. *)
Record evidence_ok (s : Store) : Prop := {
  eo_row : ∃ rr, routine_runs s !! run = Some rr ∧ rr_UserID rr = u;
  eo_waits : unique_keys wait_key run (waits s);
  eo_steps : unique_keys checkpoint_key run (agent_steps s);
}.

Lemma waits_kept now s s' : waits_next now s s' → rows_kept wait_key wait_receipt run (waits s) (waits s').
Proof.
  intros Hn step. specialize (Hn (run, step)). destruct (waits s !! (run, step)) as [w|], (waits s' !! (run, step)) as [w'|]; try done.
  destruct Hn; unfold wait_key, wait_receipt; simpl; (split; [done|]); congruence.
Qed.

Lemma steps_kept s s' : steps_next s s' → rows_kept checkpoint_key checkpoint_receipt run (agent_steps s) (agent_steps s').
Proof.
  destruct 1 as [->|key a a' Ha Hst Hns ->]; [apply rows_kept_refl|]. intros step. destruct (decide (key = (run, step))) as [->|Hne].
  - rewrite lookup_insert_eq, Ha. unfold checkpoint_key, checkpoint_receipt. simpl. split; [by rewrite Hns|].
    intros Hc. rewrite Hc in Hst. not_in Hst.
  - rewrite lookup_insert_ne by done. by destruct (agent_steps s !! (run, step)).
Qed.

Lemma row_kept s s' rr : rows_next effect_id namespace_of s s' → routine_runs s !! run = Some rr →
  ∃ rr', routine_runs s' !! run = Some rr' ∧ rr_UserID rr' = rr_UserID rr.
Proof.
  intros Hn Hrr. specialize (Hn run). rewrite Hrr in Hn. destruct (routine_runs s' !! run) as [rr'|]; [|done].
  exists rr'. split; [done|]. by destruct Hn.
Qed.

Lemma journal_grown s s' : (∃ rr, routine_runs s !! run = Some rr ∧ rr_UserID rr = u) → (∃ rr, routine_runs s' !! run = Some rr ∧ rr_UserID rr = u) →
  (∀ k r, journal s !! k = Some r → jr_State r = "completed"%string → journal s' !! k = Some r) →
  grown (RoutineEffectReceipts u run s) (RoutineEffectReceipts u run s').
Proof.
  intros (rr & Hrr & Hu) (rr' & Hrr' & Hu') Hkept k r Hr Hst. unfold RoutineEffectReceipts in *. rewrite Hrr in Hr. rewrite Hrr'.
  rewrite bool_decide_eq_true_2 in Hr |- * by done. rewrite lookup_omap in Hr |- *.
  destruct (journal s !! k) as [q|] eqn:Hq; [|done]. simpl in Hr. destruct (_ && _) eqn:Hown in Hr; [|done]. injection Hr as <-. simpl in Hst.
  rewrite (Hkept k q Hq Hst). simpl. by rewrite Hown.
Qed.

Lemma receipts_grown s s' :
  evidence_ok s → (∃ rr, routine_runs s' !! run = Some rr ∧ rr_UserID rr = u) →
  rows_kept wait_key wait_receipt run (waits s) (waits s') → rows_kept checkpoint_key checkpoint_receipt run (agent_steps s) (agent_steps s') →
  (∀ k r, journal s !! k = Some r → jr_State r = "completed"%string → journal s' !! k = Some r) →
  grown (routineReceipts u run s) (routineReceipts u run s') ∧ evidence_ok s'.
Proof.
  intros [Hrow Hw Hs] Hrow' Hkw Hks Hj. destruct (rows_grown _ _ _ _ _ Hkw Hw) as [Hwn Hwg], (rows_grown _ _ _ _ _ Hks Hs) as [Hsn Hsg].
  split.
  - apply grown_union; [done|done|]. apply grown_union; [done|done|]. by apply journal_grown.
  - split; [done|by eapply unique_kept|by eapply unique_kept].
Qed.

Lemma life_grown x y : life x y → sys_inv x → evidence_ok (sys_store x) →
  grown (routineReceipts u run (sys_store x)) (routineReceipts u run (sys_store y)) ∧ evidence_ok (sys_store y).
Proof.
  intros H Hx Hok. assert (∀ k r, journal (sys_store x) !! k = Some r → jr_State r = "completed"%string → journal (sys_store y) !! k = Some r) as Hj.
  { intros k r Hk Hd. eapply (completed_step request_print (guarded u run)); [by eapply life_step|done|done|done]. }
  assert (waits (sys_store y) = waits (sys_store x) → agent_steps (sys_store y) = agent_steps (sys_store x) →
    routine_runs (sys_store y) = routine_runs (sys_store x) →
    grown (routineReceipts u run (sys_store x)) (routineReceipts u run (sys_store y)) ∧ evidence_ok (sys_store y)) as Hsame.
  { intros Hw Hs Hr. apply receipts_grown; [done|rewrite Hr; apply Hok|rewrite Hw; apply rows_kept_refl|rewrite Hs; apply rows_kept_refl|done]. }
  destruct H as [a now s key s' fl lg Ha Had Hc|a key out s s' r fl1 fl2 lg Hf|a key s fl1 fl2 lg|now s s' fl lg Hop].
  - apply run_commit, claim_cases in Hc as [(_ & _ & ->)|(q & _ & _ & _ & _ & _ & [(_ & _ & ->)|(_ & _ & ->)])]; by apply Hsame.
  - destruct (si_started _ Hx key a) as (q & Hq & Hs & Hu & _); [simpl; set_solver|]. simpl in Hq.
    destruct (finish_effect _ _ _ _ _ _ _ Hf Hq Hs Hu) as [(_ & -> & _)|(cipher & _ & ->)]; by apply Hsame.
  - by apply Hsame.
  - pose proof (routine_op_evolves _ _ _ _ _ _ _ Hop) as Hev. destruct (eo_row _ Hok) as (rr & Hrr & Hu).
    apply receipts_grown; [done| |eapply waits_kept, Hev|eapply steps_kept, Hev|done].
    destruct (row_kept s s' rr (ev_rows _ _ _ _ _ Hev) Hrr) as (rr' & Hrr' & Hu'). exists rr'. split; [done|congruence].
Qed.

Lemma lives_grown x y : rtc life x y → sys_inv x → evidence_ok (sys_store x) →
  grown (routineReceipts u run (sys_store x)) (routineReceipts u run (sys_store y)) ∧ sys_inv y ∧ evidence_ok (sys_store y).
Proof.
  induction 1 as [x|x y z Hs _ IH]; intros Hx Hok; [by split; [intros k r|]|]. destruct (life_grown x y Hs Hx Hok) as [Hg Hok'].
  destruct IH as [Hg' ?]; [eapply inv_step; [by eapply life_step|done]|done|]. split; [by eapply grown_trans|done].
Qed.

Context (marshal_len : json → Z) (schema_valid schema_resolves : json → bool) (zone_known : string → bool).
Context (wait_id call_effect : string → string).
Context (restore : string → option string → option raw) (outcome_of : raw → option BackendOutcome) (execution : RoutineExecution).

Local Abbreviation authorize := (λ blocked s, authorizeRoutineCall marshal_len schema_valid schema_resolves zone_known wait_id call_effect
  restore outcome_of namespace_of blocked execution (routineReceipts u run s)).

(** A step's call has one meaning for the life of its run.  At whatever two
    moments of a run the authorization of a call id is checked against the store -
    before its effect, after a crash, on a retry -, if it is granted at both it is
    granted for the same tool and the same arguments; so a retried effect never
    carries another input. *)
Theorem call_has_one_meaning s x y blocked blocked' callID name name' arguments arguments' :
  evidence_ok s → rtc life (mkSys s [] []) x → rtc life x y →
  (∀ d v, ParseRoutineDefinition marshal_len schema_valid schema_resolves zone_known (ex_Definition execution).1 (ex_Definition execution).2 = Some (d, v) →
    distinct_calls wait_id execution (Steps d)) →
  namespace_of callID = None →
  authorize blocked (sys_store x) callID name arguments = inr AdmitCall →
  authorize blocked' (sys_store y) callID name' arguments' = inr AdmitCall →
  name = name' ∧ arguments = arguments'.
Proof.
  intros Hok Hx Hy Hd Hns H H'.
  destruct (lives_grown _ _ Hx (inv_init _) Hok) as (_ & Hinv & Hokx). destruct (lives_grown x y Hy Hinv Hokx) as [Hgrown _].
  destruct (authorized_call_fixed _ _ _ _ _ _ _ _ _ _ _ _ _ _ _ _ _ _ _ Hd Hgrown Hns H H') as (? & ? & _). done.
Qed.
End evidence.

(** ** A call authorized before and after its effect *)

Definition mailing : RoutineExecution :=
  {| ex_AgentBindings := []; ex_Definition := (800, RJson (JObj (two_steps (literal JNull)))); ex_Trigger := RJson JNull;
     ex_Bindings := [mkBinding "fetch" "call-1" "mail.send"; mkBinding "send" "call-2" "mail.send"]%string |}.

Lemma mailing_calls d v : ParseRoutineDefinition (λ _, 900) (λ _, true) (λ _, true) (λ _, false) (ex_Definition mailing).1 (ex_Definition mailing).2 = Some (d, v) →
  distinct_calls id mailing (Steps d).
Proof.
  vm_compute (ParseRoutineDefinition _ _ _ _ _ _). intros [= <- <-] [|[|i]] [|[|j]] s t b b' a a' Hs Ht Hb Hb' Heq; try done;
    injection Hs as <-; injection Ht as <-; vm_compute in Hb, Hb'; simplify_eq.
Qed.

Lemma daily_evidence : evidence_ok "user" "invocation_1" daily_store.
Proof.
  split; [by exists daily| |intros step step' a a' Ha; simpl in Ha; by rewrite lookup_empty in Ha].
  intros step step' w w' Hw Hw' _. simpl in *. apply lookup_singleton_Some in Hw as [[= <-] _], Hw' as [[= <-] _]. done.
Qed.

Definition mailing_authorized (s : Store) : plan_error + authorization :=
  authorizeRoutineCall (λ _, 900) (λ _, true) (λ _, true) (λ _, false) id id RoutinePlan.unseal success no_namespace false mailing
    (routineReceipts "user" "invocation_1" s) "call-1" "mail.send" JNull.

Lemma call_has_one_meaning_witness :
  mailing_authorized daily_store = inr AdmitCall ∧ mailing_authorized daily_sent = inr AdmitCall ∧ JNull = JNull.
Proof.
  assert (rtc (life plain_id no_namespace plain_print plain_print known_id "user" "invocation_1")
    (mkSys daily_store [] []) (mkSys daily_sent [] [(effect_key "call-1", true)])) as Hy.
  { eapply rtc_l; [eapply (life_claim _ _ _ _ _ _ _ send_action 5); [done|reflexivity|vm_compute; reflexivity]|].
    apply rtc_once. eapply (life_finish _ _ _ _ _ _ _ send_action (effect_key "call-1") example_sent _ daily_sent _ [] []); vm_compute; reflexivity. }
  assert (mailing_authorized daily_store = inr AdmitCall) as H by (vm_compute; reflexivity).
  assert (mailing_authorized daily_sent = inr AdmitCall) as H' by (vm_compute; reflexivity).
  split; [exact H|]. split; [exact H'|].
  eapply (call_has_one_meaning plain_id no_namespace plain_print plain_print known_id "user" "invocation_1"
    (λ _, 900) (λ _, true) (λ _, true) (λ _, false) id id RoutinePlan.unseal success mailing daily_store _ _ false false
    "call-1" "mail.send" "mail.send" JNull JNull daily_evidence (rtc_refl _ _) Hy mailing_calls eq_refl).
  - exact H.
  - exact H'.
Defined.
