(* ===== verification/Contracts.v ===== *)
(** * Capability contracts

    Models the declarations of [internal/capabilities]: providers, their
    capabilities and routes with the checks of [contracts.go], and the targets and
    bindings of [targets.go], [planner.go] and [official_browser.go].

    Declarations arrive decoded, with JSON values in the canonical form in which
    [EqualJSON] and the database compare them; the three forms of a target's binding are the
    three that are ever stored, and decode into their own form only.  Parameters:
    [validUUID] ([uuid.Parse] prints the text back), [ValidOrigin] (the canonical
    HTTPS origins of [net/url]), the compiler of JSON schemas, and the contracts of
    the embedded [builtins.json]. *)
From S2P Require Import Prelude GoStrings Json.

(** ** Declarations *)

Record Effects := mkEffects { ef_Kind : string; ef_Incidental : list string; ef_Approval : string; ef_Retry : string }.

(** [Definition] of the source. *)
Record CapDefinition := mkDefinition {
  df_Name : string; df_Version : Z; df_Description : string; df_InputSchema : json; df_OutputSchema : json;
  df_RequiredScopes : list string; df_Effects : Effects }.

Record Route := mkRoute {
  rt_Kind : string; rt_Adapter : string; rt_AdapterVersion : Z; rt_Origins : list string; rt_Hints : list string;
  rt_ConnectionID : string; rt_InstanceID : string }.

Record Provider := mkProvider {
  pv_ID : string; pv_Version : Z; pv_Label : string; pv_Route : Route; pv_Capabilities : list CapDefinition }.

(** [InstallDocument], with the protocol and providers of its [Manifest]. *)
Record InstallDocument := mkDocument {
  doc_AppID : string; doc_Version : string; doc_PermissionVersion : Z; doc_Scopes : list string;
  doc_Protocol : Z; doc_Providers : list Provider }.

Record SignedManifest := mkSigned { sm_Document : string; sm_PublicKey : string; sm_Signature : string }.
Record VerifiedManifest := mkVerified { vm_Document : InstallDocument; vm_Digest : string; vm_PublicKey : string }.
Record Availability := mkAvailability { av_State : string; av_ObservedAt : Z; av_Reason : string }.

#[export] Instance effects_eq_dec : EqDecision Effects.
Proof. solve_decision. Defined.
#[export] Instance definition_eq_dec : EqDecision CapDefinition.
Proof. solve_decision. Defined.
#[export] Instance route_eq_dec : EqDecision Route.
Proof. solve_decision. Defined.
#[export] Instance provider_eq_dec : EqDecision Provider.
Proof. solve_decision. Defined.

(** ** Names *)

Definition lower (a : ascii) : bool := (97 <=? code a) && (code a <=? 122).
Definition starts_lower (s : string) : bool := match s with String a _ => lower a | EmptyString => false end.
Definition all_bytes (p : ascii → bool) (s : string) : bool := forallb p (String.list_ascii_of_string s).
Definition word_byte (extra : list Z) (a : ascii) : bool := lower a || is_digit a || existsb (Z.eqb (code a)) extra.

(** A sequence of at least two words joined by dots, as in [namePattern] and
    [scopePattern]. *)
Definition dotted (extra : list Z) (s : string) : bool :=
  let words := Split s "."%char in
  (2 <=? len words) && forallb (λ w, starts_lower w && all_bytes (word_byte extra) w) words.

Definition ValidName (name : string) : bool := (strlen name <=? 160) && dotted [95] name.
Definition validScope (v : string) : bool := (strlen v <=? 160) && dotted [95; 45] v.

(** [appPattern]: [^[a-z][a-z0-9.-]{1,79}$]. *)
Definition valid_app (s : string) : bool :=
  starts_lower s && all_bytes (word_byte [46; 45]) s && (2 <=? strlen s) && (strlen s <=? 80).

(** [providerPattern]: [^[a-z][a-z0-9.-]+/[a-z][a-z0-9_-]*$]. *)
Definition ValidProviderID (id : string) : bool :=
  (strlen id <=? 240) &&
  match Split id "/"%char with
  | [app; name] =>
      starts_lower app && all_bytes (word_byte [46; 45]) app && (2 <=? strlen app) &&
      starts_lower name && all_bytes (word_byte [95; 45]) name
  | _ => false
  end.

(** [strings.Split(id, "/")[0]]. *)
Definition app_of (id : string) : string := hd ""%string (Split id "/"%char).

Definition validVersion (v : Z) : bool := (0 <? v) && (v <=? 2147483647).
Definition textWithin (s : string) (low high : Z) : bool := (low <=? rune_count s) && (rune_count s <=? high).
Definition unique (values : list string) : bool := bool_decide (NoDup values).
Definition one_of (s : string) (l : list string) : bool := bool_decide (s ∈ l).
Definition empty (s : string) : bool := bool_decide (s = ""%string).
Definition HasScopes (granted required : list string) : bool := forallb (λ scope, one_of scope granted) required.

(** [^[a-z][a-z0-9_-]{0,79}$] *)
Definition valid_adapter (s : string) : bool := starts_lower s && all_bytes (word_byte [95; 45]) s && (strlen s <=? 80).

(** ** Providers *)

Section contracts.
Context (validUUID ValidOrigin : string → bool) (CompileSchema : json → bool) (builtins : list CapDefinition).

(** [validateBuiltinContract] over the embedded contracts: a built-in name keeps
    its meaning. *)
Definition validateBuiltinContract (d : CapDefinition) : bool :=
  match filter (λ b, df_Name b = df_Name d) builtins with
  | [] => true
  | versions => existsb (λ b, (df_Version b =? df_Version d) && bool_decide (b = d)) versions
  end.

Definition Builtin (name : string) (version : Z) : option CapDefinition :=
  head (filter (λ b, df_Name b = name ∧ df_Version b = version) builtins).

(** [Definition.Validate]. *)
Definition definition_valid (d : CapDefinition) : bool :=
  let e := df_Effects d in
  validateBuiltinContract d &&
  ValidName (df_Name d) && validVersion (df_Version d) && textWithin (df_Description d) 1 2000 &&
  (1 <=? len (df_RequiredScopes d)) && (len (df_RequiredScopes d) <=? 32) && unique (df_RequiredScopes d) &&
  forallb validScope (df_RequiredScopes d) &&
  one_of (ef_Kind e) ["read"; "write"; "send"; "execute"; "destructive"]%string &&
  one_of (ef_Approval e) ["none"; "scoped"; "interactive"]%string &&
  one_of (ef_Retry e) ["read_only"; "idempotent"; "reconcile"; "never"]%string &&
  (len (ef_Incidental e) <=? 16) && forallb (λ effect, textWithin effect 1 300) (ef_Incidental e) &&
  negb (negb (one_of (ef_Kind e) ["read"]%string) &&
        (one_of (ef_Approval e) ["none"]%string || one_of (ef_Retry e) ["read_only"]%string)) &&
  CompileSchema (df_InputSchema d) && CompileSchema (df_OutputSchema d).

(** The [switch] on the route's kind in [Provider.Validate]. *)
Definition route_valid (r : Route) (scopes : list string) : bool :=
  if one_of (rt_Kind r) ["browser"]%string then
    Bool.eqb (empty (rt_Adapter r)) (rt_AdapterVersion r =? 0) &&
    (empty (rt_Adapter r) || valid_adapter (rt_Adapter r) && validVersion (rt_AdapterVersion r)) &&
    (1 <=? len (rt_Origins r)) && (len (rt_Origins r) <=? 32) && unique (rt_Origins r) && (len (rt_Hints r) <=? 20) &&
    empty (rt_ConnectionID r) && empty (rt_InstanceID r) && one_of "browser.inspect" scopes &&
    forallb ValidOrigin (rt_Origins r) && forallb (λ hint, textWithin hint 0 1000) (rt_Hints r)
  else if one_of (rt_Kind r) ["backend"]%string then
    validUUID (rt_ConnectionID r) && empty (rt_Adapter r) && empty (rt_InstanceID r) &&
    (len (rt_Origins r) =? 0) && (len (rt_Hints r) =? 0)
  else if one_of (rt_Kind r) ["view"]%string then
    validUUID (rt_InstanceID r) && empty (rt_Adapter r) && empty (rt_ConnectionID r) &&
    (len (rt_Origins r) =? 0) && (len (rt_Hints r) =? 0)
  else false.

(** [Provider.Validate]. *)
Definition provider_valid (p : Provider) (appID : string) (scopes : list string) : bool :=
  ValidProviderID (pv_ID p) && String.eqb (app_of (pv_ID p)) appID && validVersion (pv_Version p) &&
  textWithin (pv_Label p) 1 200 && (1 <=? len (pv_Capabilities p)) && (len (pv_Capabilities p) <=? 100) &&
  (one_of (rt_Kind (pv_Route p)) ["browser"]%string || (rt_AdapterVersion (pv_Route p) =? 0)) &&
  route_valid (pv_Route p) scopes &&
  unique (df_Name <$> pv_Capabilities p) &&
  forallb (λ d, definition_valid d && forallb (λ required, one_of required scopes) (df_RequiredScopes d) &&
                negb (one_of (rt_Kind (pv_Route p)) ["browser"]%string && negb (one_of (ef_Kind (df_Effects d)) ["read"]%string) &&
                      negb (one_of "browser.interact" scopes))) (pv_Capabilities p).

(** ** Signed manifests

    [decode64] is standard base64, [ed25519_verify] the signature check,
    [decode] the decoder of documents and [sha256_hex] the digest. *)
Section manifests.
Context (decode64 : string → option string) (ed25519_verify : string → string → string → bool).
Context (decode : string → option InstallDocument) (sha256_hex : string → string).

Definition MaxManifestBytes : Z := Z.shiftl 2 20.
Definition SignatureDomain : string := "misty.sdk.manifest.v1" +:+ bytes [10%nat].

Definition document_valid (d : InstallDocument) : bool :=
  valid_app (doc_AppID d) && textWithin (doc_Version d) 1 40 && validVersion (doc_PermissionVersion d) &&
  (len (doc_Scopes d) <=? 128) && unique (doc_Scopes d) && (doc_Protocol d =? 1) && (len (doc_Providers d) <=? 32) &&
  forallb validScope (doc_Scopes d) && unique (pv_ID <$> doc_Providers d) &&
  forallb (λ p, provider_valid p (doc_AppID d) (doc_Scopes d)) (doc_Providers d).

(** [Verify]. *)
Definition Verify (signed : SignedManifest) : option VerifiedManifest :=
  key ← decode64 (sm_PublicKey signed);
  guard (strlen key = 32);;
  signature ← decode64 (sm_Signature signed);
  guard (strlen signature = 64 ∧ strlen (sm_Document signed) <= MaxManifestBytes);;
  guard (ed25519_verify key (SignatureDomain +:+ sm_Document signed) signature = true);;
  document ← decode (sm_Document signed);
  guard (document_valid document = true);;
  Some (mkVerified document (sha256_hex (sm_Document signed)) key).
End manifests.

(** [Availability.Validate]. *)
Definition availability_valid (a : Availability) (now : Z) : bool :=
  one_of (av_State a) ["available"; "device_required"; "authentication_required"; "account_confirmation_required";
                       "view_closed"; "unavailable"; "revoked"]%string &&
  negb (av_ObservedAt a =? time_zero) && (av_ObservedAt a <=? now + Minute) && (now - 5 * Minute <=? av_ObservedAt a) &&
  textWithin (av_Reason a) 0 1000.

(** ** Shipped providers *)

Definition PlannerProviderID : string := "planner/tasks".

Definition PlannerProvider : option Provider :=
  d ← Builtin "tasks.create" 1;
  Some (mkProvider PlannerProviderID 1 "Misty Planner" (mkRoute "server" "planner" 0 [] [] "" "") [d]).

Definition official_routes : list (string * (string * string * list string * list string)) :=
  [("inbox/gmail", ("Gmail", "gmail", ["https://mail.google.com"], ["inbox.read"; "inbox.draft"; "inbox.send"]));
   ("inbox/outlook", ("Outlook", "outlook", ["https://outlook.live.com"; "https://outlook.office.com";
      "https://outlook.office365.com"; "https://outlook.cloud.microsoft"], ["inbox.read"; "inbox.draft"; "inbox.send"]));
   ("planner/todoist", ("Todoist", "todoist", ["https://app.todoist.com"], ["tasks.create"]))]%string.

Definition OfficialBrowserProvider (id : string) (version : Z) : option Provider :=
  guard (version = 1);;
  '(_, (label, adapter, origins, names)) ← head (filter (λ x, x.1 = id) official_routes);
  capabilities ← mapM (λ name, Builtin name 1) names;
  Some (mkProvider id version label (mkRoute "browser" adapter 1 origins [] "" "") capabilities).

Definition OfficialBrowserScopes (providerID capability : string) : option (list string) :=
  p ← OfficialBrowserProvider providerID 1;
  guard (capability ∈ df_Name <$> pv_Capabilities p);;
  Some (if one_of capability ["inbox.read"]%string then ["mail.read"; "browser.inspect"]%string
        else if one_of capability ["tasks.create"]%string then ["tasks.write"; "browser.inspect"; "browser.interact"]%string
        else ["mail.write"; "browser.inspect"; "browser.interact"]%string).

(** [ExecutionAdapterVersion]. *)
Definition ExecutionAdapterVersion (p : Provider) : string :=
  let r := pv_Route p in
  if String.eqb (pv_ID p) PlannerProviderID && String.eqb (rt_Kind r) "server" && String.eqb (rt_Adapter r) "planner" then "sdk-planner-v1"
  else if String.eqb (rt_Kind r) "backend" then "sdk-backend-v1"
  else if String.eqb (rt_Kind r) "browser" && negb (empty (rt_Adapter r)) && (0 <? rt_AdapterVersion r)
  then "sdk-browser:" +:+ rt_Adapter r +:+ ":v" +:+ Itoa (rt_AdapterVersion r)
  else "".

(** ** Targets *)

Record BrowserBinding := mkBrowser {
  bb_Kind : string; bb_DeviceID : string; bb_ProfileID : string; bb_AccountBindingID : string; bb_Origins : list string;
  bb_ContextID : string; bb_ScopeID : string; bb_AccountIdentity : string }.

(** [Target.Binding]: of [BackendBinding], of [BrowserBinding], or the planner's
    resource. *)
Inductive Binding :=
  | BBackend (kind connectionID : string)
  | BBrowser (b : BrowserBinding)
  | BResource (kind resourceID : string).

Record Target := mkTarget {
  tg_ID : string; tg_Revision : Z; tg_AppID : string; tg_ProviderID : string; tg_ProviderVersion : Z;
  tg_SpaceID : string; tg_Label : string; tg_Binding : Binding }.

Record TargetConfiguration := mkConfiguration {
  cf_Browser : option BrowserBinding; cf_TargetID : string; cf_ExpectedRevision : Z; cf_ProviderID : string;
  cf_ProviderVersion : Z; cf_SpaceID : string; cf_Label : string; cf_Capabilities : list string;
  cf_CallerApps : list string }.

Definition opaque_byte (a : ascii) : bool :=
  ((65 <=? code a) && (code a <=? 90)) || word_byte [95; 45] a.
(** [^[A-Za-z0-9_-]{1,256}$] *)
Definition opaqueResourceID (s : string) : bool := all_bytes opaque_byte s && (1 <=? strlen s) && (strlen s <=? 256).
(** [^[a-f0-9]{64}$] *)
Definition profileDigest (s : string) : bool :=
  all_bytes (λ a, is_digit a || ((97 <=? code a) && (code a <=? 102))) s && (strlen s =? 64).

Definition ValidDeviceID (id : string) : bool := validUUID (TrimPrefix id "device_").

(** [TargetConfiguration.Validate]; a missing list of caller apps is the decoder's
    to refuse. *)
Definition configuration_valid (r : TargetConfiguration) : bool :=
  validUUID (cf_TargetID r) && (0 <=? cf_ExpectedRevision r) && (cf_ExpectedRevision r <? 2147483647) &&
  ValidProviderID (cf_ProviderID r) && validVersion (cf_ProviderVersion r) &&
  (empty (cf_SpaceID r) || opaqueResourceID (cf_SpaceID r)) && textWithin (cf_Label r) 1 200 &&
  (1 <=? len (cf_Capabilities r)) && (len (cf_Capabilities r) <=? 100) && unique (cf_Capabilities r) &&
  (len (cf_CallerApps r) <=? 100) && unique (cf_CallerApps r) &&
  forallb ValidName (cf_Capabilities r) && forallb valid_app (cf_CallerApps r).

(** What [ValidateBackend] and [ValidateBrowser] ask of a target and its provider. *)
Definition target_matches (t : Target) (p : Provider) : bool :=
  ValidProviderID (pv_ID p) && validVersion (pv_Version p) && validUUID (tg_ID t) && validVersion (tg_Revision t) &&
  String.eqb (tg_ProviderID t) (pv_ID p) && (tg_ProviderVersion t =? pv_Version p) &&
  String.eqb (tg_AppID t) (app_of (pv_ID p)) && textWithin (tg_Label t) 1 200 &&
  (empty (tg_SpaceID t) || opaqueResourceID (tg_SpaceID t)).

Definition ValidateBackend (t : Target) (p : Provider) : option string :=
  guard (validUUID (rt_ConnectionID (pv_Route p)) && target_matches t p = true);;
  match tg_Binding t with
  | BBackend kind connectionID =>
      guard (kind = "backend"%string ∧ rt_Kind (pv_Route p) = "backend"%string ∧ connectionID = rt_ConnectionID (pv_Route p));;
      Some connectionID
  | _ => None
  end.

(** [BrowserBinding.Validate]. *)
Definition browser_valid (b : BrowserBinding) (p : Provider) : bool :=
  (strlen (bb_ScopeID b) <=? 256) && (strlen (bb_AccountIdentity b) <=? 320) &&
  String.eqb (bb_Kind b) "browser" && String.eqb (rt_Kind (pv_Route p)) "browser" && ValidDeviceID (bb_DeviceID b) &&
  validUUID (bb_AccountBindingID b) && (empty (bb_ContextID b) || validUUID (bb_ContextID b)) && profileDigest (bb_ProfileID b) &&
  (1 <=? len (bb_Origins b)) && (len (bb_Origins b) <=? 32) && unique (bb_Origins b) &&
  forallb (λ o, ValidOrigin o && one_of o (rt_Origins (pv_Route p))) (bb_Origins b).

Definition ValidateBrowser (t : Target) (p : Provider) : option BrowserBinding :=
  guard (target_matches t p = true);;
  match tg_Binding t with BBrowser b => guard (browser_valid b p = true);; Some b | _ => None end.

Definition ValidatePlanner (t : Target) (p : Provider) : bool :=
  bool_decide (PlannerProvider = Some p) && String.eqb (tg_AppID t) "planner" && String.eqb (tg_ProviderID t) PlannerProviderID &&
  (tg_ProviderVersion t =? 1) && validUUID (tg_ID t) && (1 <=? tg_Revision t) && negb (empty (tg_SpaceID t)) &&
  match tg_Binding t with
  | BResource kind resourceID => String.eqb kind "resource" && String.eqb resourceID (tg_SpaceID t)
  | _ => false
  end.

(** [PlannerTarget]; [planner_id] is the name-based identifier of a user's planner
    in a Space. *)
Definition PlannerTarget (planner_id : string → string → string) (userID spaceID spaceName : string) : Target :=
  mkTarget (planner_id userID spaceID) 1 "planner" PlannerProviderID 1 spaceID
    (spaceName +:+ bytes [32; 194; 183; 32]%nat +:+ "Planner") (BResource "resource" spaceID).
End contracts.

(** ** Host adapters of browser routes

    [Pilots] of [internal/browseractions/pilot.go], the registry [Resolve] looks in. *)
Record Pilot := mkPilot { pl_Name : string; pl_Origins : list string; pl_Mail : bool }.

Definition Supports (p : Pilot) (name : string) : bool :=
  if pl_Mail p then one_of name ["inbox.read"; "inbox.draft"; "inbox.send"]%string else one_of name ["tasks.create"]%string.

Definition Pilots : list Pilot :=
  [mkPilot "gmail" ["https://mail.google.com"] true;
   mkPilot "outlook" ["https://outlook.live.com"; "https://outlook.office.com"; "https://outlook.office365.com";
                      "https://outlook.cloud.microsoft"] true;
   mkPilot "todoist" ["https://app.todoist.com"] false]%string.

(** [Registry.Resolve]; every pilot has version 1. *)
Definition pilot_resolve (p : Provider) (capability : string) : option Pilot :=
  let r := pv_Route p in
  a ← head (filter (λ a, pl_Name a = rt_Adapter r ∧ rt_AdapterVersion r = 1) Pilots);
  guard (rt_Kind r = "browser"%string ∧ Supports a capability = true ∧ forallb (λ o, one_of o (pl_Origins a)) (rt_Origins r) = true);;
  Some a.
