(* ===== verification/SpaceApps.v ===== *)
(** * Apps of a Space

    The tables that say which apps act in a Space and through which providers and
    targets, and the operations of [internal/platform/postgres/space_apps.go] on
    them, with the permissions of [space_library_space_member_permissions.go].

    Of the work that an app's removal cancels, the provider registrations and the
    targets are modelled; sessions, device presence and queued messages are not.
    [now] is the database's [NOW()]. *)
From S2P Require Import Prelude Tx GoStrings Json RunStore Contracts.

(** ** Tables *)

Record Space := mkSpace { sp_Active : bool; sp_Name : string }.

(** [release_metadata], as far as it is read: an official app's entry of the
    catalogue, or the signed manifest of an SDK app. *)
Record Metadata := mkMetadata {
  md_Kind : string; md_RequiresApps : list string; md_Signed : option SignedManifest; md_Digest : string;
  md_Document : option InstallDocument }.

(** A row of [space_app_installations]. *)
Record SpaceApp := mkApp {
  sa_State : string; sa_Version : string; sa_PermissionVersion : Z; sa_Scopes : list string; sa_PinRank : Z;
  sa_Generation : Z; sa_Metadata : Metadata; sa_InstalledAt : Z; sa_UninstalledAt : option Z }.

Record AppInstallSpec := mkSpec { is_ID : string; is_Version : string; is_PermissionVersion : Z; is_Scopes : list string }.

(** A row of [sdk_provider_registrations]. *)
Record Registration := mkRegistration {
  rg_Version : Z; rg_AppID : string; rg_AppVersion : string; rg_InstalledAt : Z; rg_Enabled : bool;
  rg_Availability : Availability }.

(** Rows of [sdk_backend_connections] and of its versions. *)
Record Connection := mkConnection { cn_AppID : string; cn_Revision : Z; cn_Enabled : bool }.
Record ConnectionVersion := mkConnectionVersion { cv_EndpointURL : string; cv_BearerCiphertext : string; cv_KeyVersion : Z }.

(** Rows of [sdk_targets] and of its versions. *)
Record TargetRow := mkRow { tr_Revision : Z; tr_Enabled : bool }.
Record TargetVersion := mkVersion {
  tv_ProviderID : string; tv_ProviderVersion : Z; tv_AppVersion : string; tv_InstalledAt : Z; tv_SpaceID : string;
  tv_Target : Target; tv_Capabilities : list string; tv_CallerApps : list string; tv_ConnectionRevision : Z }.

(** Keyed by the primary keys of the schema: a (Space, user), a (Space, user,
    permission), a (Space, app), a (user, app), a (user, app, version), a (user,
    name, version), a (user, Space, provider), a (user, id) and a (user, id,
    revision).  A device is paired with its owner. *)
Record Catalog := mkCatalog {
  spaces : gmap string Space;
  roles : gmap (string * string) string;
  overrides : gmap (string * string * string) string;
  apps : gmap (string * string) SpaceApp;
  publishers : gmap (string * string) string;
  manifests : gmap (string * string * string) string;
  contracts : gmap (string * string * Z) CapDefinition;
  provider_versions : gmap (string * string * Z) (string * Provider);
  registrations : gmap (string * string * string) Registration;
  connections : gmap (string * string) Connection;
  connection_versions : gmap (string * string * Z) ConnectionVersion;
  targets : gmap (string * string) TargetRow;
  target_versions : gmap (string * string * Z) TargetVersion;
  devices : gset (string * string) }.

Definition set_apps (x : gmap (string * string) SpaceApp) (c : Catalog) : Catalog :=
  mkCatalog (spaces c) (roles c) (overrides c) x (publishers c) (manifests c) (contracts c) (provider_versions c) (registrations c)
    (connections c) (connection_versions c) (targets c) (target_versions c) (devices c).
Definition set_publishers (x : gmap (string * string) string) (c : Catalog) : Catalog :=
  mkCatalog (spaces c) (roles c) (overrides c) (apps c) x (manifests c) (contracts c) (provider_versions c) (registrations c)
    (connections c) (connection_versions c) (targets c) (target_versions c) (devices c).
Definition set_manifests (x : gmap (string * string * string) string) (c : Catalog) : Catalog :=
  mkCatalog (spaces c) (roles c) (overrides c) (apps c) (publishers c) x (contracts c) (provider_versions c) (registrations c)
    (connections c) (connection_versions c) (targets c) (target_versions c) (devices c).
Definition set_contracts (x : gmap (string * string * Z) CapDefinition) (c : Catalog) : Catalog :=
  mkCatalog (spaces c) (roles c) (overrides c) (apps c) (publishers c) (manifests c) x (provider_versions c) (registrations c)
    (connections c) (connection_versions c) (targets c) (target_versions c) (devices c).
Definition set_provider_versions (x : gmap (string * string * Z) (string * Provider)) (c : Catalog) : Catalog :=
  mkCatalog (spaces c) (roles c) (overrides c) (apps c) (publishers c) (manifests c) (contracts c) x (registrations c)
    (connections c) (connection_versions c) (targets c) (target_versions c) (devices c).
Definition set_registrations (x : gmap (string * string * string) Registration) (c : Catalog) : Catalog :=
  mkCatalog (spaces c) (roles c) (overrides c) (apps c) (publishers c) (manifests c) (contracts c) (provider_versions c) x
    (connections c) (connection_versions c) (targets c) (target_versions c) (devices c).
Definition set_connections (x : gmap (string * string) Connection) (c : Catalog) : Catalog :=
  mkCatalog (spaces c) (roles c) (overrides c) (apps c) (publishers c) (manifests c) (contracts c) (provider_versions c) (registrations c)
    x (connection_versions c) (targets c) (target_versions c) (devices c).
Definition set_connection_versions (x : gmap (string * string * Z) ConnectionVersion) (c : Catalog) : Catalog :=
  mkCatalog (spaces c) (roles c) (overrides c) (apps c) (publishers c) (manifests c) (contracts c) (provider_versions c) (registrations c)
    (connections c) x (targets c) (target_versions c) (devices c).
Definition set_targets (x : gmap (string * string) TargetRow) (c : Catalog) : Catalog :=
  mkCatalog (spaces c) (roles c) (overrides c) (apps c) (publishers c) (manifests c) (contracts c) (provider_versions c) (registrations c)
    (connections c) (connection_versions c) x (target_versions c) (devices c).
Definition set_target_versions (x : gmap (string * string * Z) TargetVersion) (c : Catalog) : Catalog :=
  mkCatalog (spaces c) (roles c) (overrides c) (apps c) (publishers c) (manifests c) (contracts c) (provider_versions c) (registrations c)
    (connections c) (connection_versions c) (targets c) x (devices c).

Definition C := tx Catalog run_error.

(** ** Members and permissions *)

Definition member_role (c : Catalog) (spaceID userID : string) : option string :=
  space ← spaces c !! spaceID; guard (sp_Active space = true);; roles c !! (spaceID, userID).

(** [requireSpaceMemberTx] with the role it returns. *)
Definition requireMemberTx (spaceID userID : string) : C string :=
  c ← get; require (member_role c spaceID userID) ErrSpaceForbidden.

Definition PermissionAppsManage : string := "apps.manage".
Definition PermissionTasksManage : string := "tasks.manage".

Definition fixedMemberPermission (permission : string) : bool :=
  one_of permission ["messages.read"; "messages.write"; "attachments.upload"; "library.view"; "library.upload"; "library.add";
    "library.edit"; "library.download"; "library.import"; "storage.view_own_usage"; "studio.view"; "ask.run"; "tasks.view";
    "tasks.manage"]%string.

Definition hasSpacePermissionTx (userID spaceID permission : string) : C bool :=
  role ← requireMemberTx spaceID userID;
  if String.eqb role "owner" then mret true
  else c ← get;
       mret match overrides c !! (spaceID, userID, permission) with
            | Some effect => String.eqb effect "allow"
            | None => fixedMemberPermission permission
            end.

Definition app_installed (c : Catalog) (spaceID appID : string) : bool :=
  match apps c !! (spaceID, appID) with Some a => String.eqb (sa_State a) "installed" | None => false end.

Definition requireSpaceAppTx (spaceID appID : string) : C () :=
  c ← get; guard_tx (app_installed c spaceID appID) ErrAppNotInstalled.

(** The app a permission belongs to. *)
Definition permission_app (permission : string) : string :=
  if one_of permission ["tasks.view"; "tasks.manage"]%string then "planner"
  else if one_of permission ["messages.read"; "messages.write"; "attachments.upload"]%string then "chat"
  else if one_of permission ["library.view"; "library.upload"; "library.add"; "library.edit"; "library.download"; "library.import"]%string
  then "library"
  else if one_of permission ["studio.view"; "studio.manage"]%string then "agents" else "".

Definition requireSpacePermissionTx (userID spaceID permission : string) : C () :=
  when (negb (empty (permission_app permission))) (requireSpaceAppTx spaceID (permission_app permission));;
  allowed ← hasSpacePermissionTx userID spaceID permission;
  guard_tx allowed ErrLibraryForbidden.

(** ** Installing and removing *)

Definition disable_registration (r : Registration) : Registration :=
  mkRegistration (rg_Version r) (rg_AppID r) (rg_AppVersion r) (rg_InstalledAt r) false (rg_Availability r).
Definition disable_target (t : TargetRow) : TargetRow := mkRow (tr_Revision t) false.

(** The current version of a target belongs to the app in the Space. *)
Definition target_of_app (c : Catalog) (spaceID appID : string) (key : string * string) (t : TargetRow) : bool :=
  match target_versions c !! (key.1, key.2, tr_Revision t) with
  | Some v => negb (empty (tv_SpaceID v)) && String.eqb (tv_SpaceID v) spaceID && String.eqb (tg_AppID (tv_Target v)) appID
  | None => false
  end.

Definition revokeSpaceAppRuntimeTx (spaceID appID : string) : C () :=
  modify (λ c, set_registrations (map_imap (λ key r, Some
    (if String.eqb key.1.2 spaceID && String.eqb (rg_AppID r) appID then disable_registration r else r)) (registrations c)) c);;
  modify (λ c, set_targets (map_imap (λ key t, Some
    (if target_of_app c spaceID appID key t then disable_target t else t)) (targets c)) c).

(** [COALESCE(MAX(pin_rank)+1024, 1024)] over the apps of the Space. *)
Definition next_rank (spaceID : string) (m : gmap (string * string) SpaceApp) : Z :=
  match (λ kv : (string * string) * SpaceApp, sa_PinRank kv.2) <$> filter (λ kv, kv.1.1 = spaceID) (map_to_list m) with
  | [] => 1024
  | x :: l => foldr Z.max x l + 1024
  end.

(** The row after [INSERT ... ON CONFLICT(space_id,app_id) DO UPDATE]. *)
Definition installed_row (spec : AppInstallSpec) (metadata : Metadata) (now rank : Z) (old : option SpaceApp) : SpaceApp :=
  match old with
  | None => mkApp "installed" (is_Version spec) (is_PermissionVersion spec) (is_Scopes spec) rank 1 metadata now None
  | Some a =>
      mkApp "installed" (is_Version spec) (is_PermissionVersion spec) (is_Scopes spec) (sa_PinRank a) (sa_Generation a + 1) metadata
        (if negb (String.eqb (sa_State a) "installed") || negb (String.eqb (sa_Version a) (is_Version spec)) then now else sa_InstalledAt a)
        None
  end.

Definition installSpaceAppTx (spaceID : string) (spec : AppInstallSpec) (metadata : Metadata) (now : Z) : C SpaceApp :=
  guard_tx (negb (empty (TrimSpace (is_ID spec)) || empty (is_Version spec) || (is_PermissionVersion spec <? 1))) ErrSpaceInvalid;;
  c ← get;
  let row := installed_row spec metadata now (next_rank spaceID (apps c)) (apps c !! (spaceID, is_ID spec)) in
  modify (set_apps (<[(spaceID, is_ID spec) := row]> (apps c)));;
  revokeSpaceAppRuntimeTx spaceID (is_ID spec);;
  mret row.

(** The loop over [RequiresApps]. *)
Fixpoint require_all (spaceID appID : string) (dependencies : list string) : C () :=
  match dependencies with
  | [] => mret ()
  | dependency :: rest =>
      guard_tx (negb (String.eqb dependency appID)) ErrAppDependencies;;
      c ← get;
      guard_tx (app_installed c spaceID dependency) ErrAppDependencies;;
      require_all spaceID appID rest
  end.

(** [metadata] is [None] when it does not decode. *)
Definition InstallSpaceApp (userID spaceID : string) (spec : AppInstallSpec) (metadata : option Metadata) (now : Z) : C SpaceApp :=
  requireSpacePermissionTx userID spaceID PermissionAppsManage;;
  metadata ← require metadata ErrSpaceInvalid;
  require_all spaceID (is_ID spec) (md_RequiresApps metadata);;
  installSpaceAppTx spaceID spec metadata now.

Definition depends_on (appID : string) (key : string * string) (a : SpaceApp) : bool :=
  String.eqb (sa_State a) "installed" && negb (String.eqb key.2 appID) && one_of appID (md_RequiresApps (sa_Metadata a)).

(** [EXISTS] over the installed apps of the Space that name the app. *)
Definition has_dependent (c : Catalog) (spaceID appID : string) : bool :=
  existsb (λ kv : (string * string) * SpaceApp, String.eqb kv.1.1 spaceID && depends_on appID kv.1 kv.2) (map_to_list (apps c)).

Definition removed_row (now : Z) (a : SpaceApp) : SpaceApp :=
  mkApp "recoverable" (sa_Version a) (sa_PermissionVersion a) (sa_Scopes a) (sa_PinRank a) (sa_Generation a + 1) (sa_Metadata a)
    (sa_InstalledAt a) (Some (default now (sa_UninstalledAt a))).

Definition RemoveSpaceApp (userID spaceID appID : string) (now : Z) : C SpaceApp :=
  requireSpacePermissionTx userID spaceID PermissionAppsManage;;
  c ← get;
  guard_tx (negb (has_dependent c spaceID appID)) ErrAppDependencies;;
  a ← require (apps c !! (spaceID, appID)) ErrAppNotInstalled;
  modify (set_apps (<[(spaceID, appID) := removed_row now a]> (apps c)));;
  revokeSpaceAppRuntimeTx spaceID appID;;
  mret (removed_row now a).

Definition with_rank (rank : Z) (a : SpaceApp) : SpaceApp :=
  mkApp (sa_State a) (sa_Version a) (sa_PermissionVersion a) (sa_Scopes a) rank (sa_Generation a) (sa_Metadata a) (sa_InstalledAt a)
    (sa_UninstalledAt a).

Fixpoint reorder (spaceID : string) (seen : gset string) (i : Z) (ids : list string) : C () :=
  match ids with
  | [] => mret ()
  | id :: rest =>
      guard_tx (negb (bool_decide (id ∈ seen))) ErrSpaceInvalid;;
      c ← get;
      guard_tx (app_installed c spaceID id) ErrSpaceConflict;;
      modify (set_apps (alter (with_rank ((i + 1) * 1024)) (spaceID, id) (apps c)));;
      reorder spaceID ({[id]} ∪ seen) (i + 1) rest
  end.

Definition ReorderSpaceApps (userID spaceID : string) (ids : list string) : C () :=
  requireSpacePermissionTx userID spaceID PermissionAppsManage;;
  c ← get;
  guard_tx (len (filter (λ kv : (string * string) * SpaceApp, kv.1.1 = spaceID ∧ sa_State kv.2 = "installed"%string)
                   (map_to_list (apps c))) =? len ids) ErrSpaceConflict;;
  reorder spaceID ∅ 0 ids.
