(* ===== verification/SdkProviders.v ===== *)
(** * SDK apps and their providers

    Models [internal/platform/postgres/sdk_provider_installations.go]: installing a
    reviewed, signed app in a Space, and the registrations through which the app
    offers its declared providers to a member.

    The parameters are those of [Contracts], and [official], the look-up in the
    catalogue of official apps. *)
From S2P Require Import Prelude Tx GoStrings Json RunStore Contracts SpaceApps.

Section providers.
Context (validUUID ValidOrigin : string → bool) (CompileSchema : json → bool) (builtins : list CapDefinition).
Context (decode64 : string → option string) (ed25519_verify : string → string → string → bool).
Context (decode : string → option InstallDocument) (sha256_hex : string → string) (official : string → bool).

Local Abbreviation verify := (Verify validUUID ValidOrigin CompileSchema builtins decode64 ed25519_verify decode sha256_hex).
Local Abbreviation provider_valid := (provider_valid validUUID ValidOrigin CompileSchema builtins).

(** ** Installation *)

(** [INSERT ... ON CONFLICT DO NOTHING] and the comparison with what is there. *)
Definition insert_provider (userID appID : string) (p : Provider) : C () :=
  let key := (userID, pv_ID p, pv_Version p) in
  c ← get;
  match provider_versions c !! key with
  | Some stored => guard_tx (bool_decide (stored = (appID, p))) ErrSDKVersionConflict
  | None => modify (set_provider_versions (<[key := (appID, p)]> (provider_versions c)))
  end.

Definition insert_contract (userID : string) (d : CapDefinition) : C () :=
  let key := (userID, df_Name d, df_Version d) in
  c ← get;
  match contracts c !! key with
  | Some stored => guard_tx (bool_decide (stored = d)) ErrSDKVersionConflict
  | None => modify (set_contracts (<[key := d]> (contracts c)))
  end.

Fixpoint insert_contracts (userID : string) (l : list CapDefinition) : C () :=
  match l with [] => mret () | d :: l => insert_contract userID d;; insert_contracts userID l end.

Fixpoint insert_providers (userID appID : string) (l : list Provider) : C () :=
  match l with
  | [] => mret ()
  | p :: l => insert_provider userID appID p;; insert_contracts userID (pv_Capabilities p);; insert_providers userID appID l
  end.

(** What an installation that is there, in whatever state, says to a new document. *)
Definition continues (verified : VerifiedManifest) (old : SpaceApp) : C () :=
  let d := vm_Document verified in
  signed ← require (md_Signed (sa_Metadata old)) ErrSDKPublisherChanged;
  prior ← require (verify signed) ErrSDKPublisherChanged;
  guard_tx (String.eqb (vm_PublicKey prior) (vm_PublicKey verified)) ErrSDKPublisherChanged;;
  guard_tx (negb (String.eqb (sa_Version old) (doc_Version d) && negb (String.eqb (md_Digest (sa_Metadata old)) (vm_Digest verified))))
    ErrSDKVersionConflict;;
  guard_tx (negb (negb (bool_decide (sa_Scopes old = doc_Scopes d)) && (doc_PermissionVersion d <=? sa_PermissionVersion old)))
    ErrSDKVersionConflict.

Definition spec_of (d : InstallDocument) : AppInstallSpec := mkSpec (doc_AppID d) (doc_Version d) (doc_PermissionVersion d) (doc_Scopes d).

Definition InstallVerifiedSDKApp (authority : option AppExecutionAuthority) (userID : string) (signed : SignedManifest)
    (reviewedDigest spaceID : string) (now : Z) : C SpaceApp :=
  guard_tx (negb (empty spaceID || empty userID || bool_decide (is_Some authority))) ErrAppRuntimeForbidden;;
  verified ← require (verify signed) ErrInvalid;
  let d := vm_Document verified in
  guard_tx (String.eqb reviewedDigest (vm_Digest verified)) ErrAppRuntimeForbidden;;
  guard_tx (negb (official (doc_AppID d))) ErrAppRuntimeForbidden;;
  requireSpacePermissionTx userID spaceID PermissionAppsManage;;
  c ← get;
  guard_tx (match publishers c !! (userID, doc_AppID d) with
            | Some key => empty key || String.eqb key (vm_PublicKey verified) | None => true end) ErrSDKPublisherChanged;;
  match apps c !! (spaceID, doc_AppID d) with Some old => continues verified old | None => mret () end;;
  guard_tx (match manifests c !! (userID, doc_AppID d, doc_Version d) with
            | Some digest => empty digest || String.eqb digest (vm_Digest verified) | None => true end) ErrSDKVersionConflict;;
  row ← installSpaceAppTx spaceID (spec_of d) (mkMetadata "sdk" [] (Some signed) (vm_Digest verified) (Some d)) now;
  modify (λ c, match publishers c !! (userID, doc_AppID d) with
               | Some _ => c
               | None => set_publishers (<[(userID, doc_AppID d) := vm_PublicKey verified]> (publishers c)) c end);;
  modify (λ c, match manifests c !! (userID, doc_AppID d, doc_Version d) with
               | Some _ => c
               | None => set_manifests (<[(userID, doc_AppID d, doc_Version d) := vm_Digest verified]> (manifests c)) c end);;
  insert_providers userID (doc_AppID d) (doc_Providers d);;
  mret row.

(** ** Registrations *)

Definition installed_app (c : Catalog) (spaceID appID : string) : option SpaceApp :=
  a ← apps c !! (spaceID, appID); guard (sa_State a = "installed"%string);; Some a.

Definition providerAuthorityTx (authority : option AppExecutionAuthority) (userID : string) : C (AppExecutionAuthority * list string) :=
  a ← require authority ErrAppRuntimeForbidden;
  guard_tx (String.eqb (au_UserID a) userID && negb (empty (au_SpaceID a)) && one_of "capabilities.providers.write" (au_Scopes a))
    ErrAppRuntimeForbidden;;
  c ← get;
  app ← require (installed_app c (au_SpaceID a) (au_AppID a)) ErrAppRuntimeForbidden;
  guard_tx ((0 <? au_Generation a) && (au_Generation a =? sa_Generation app)) ErrAppRuntimeForbidden;;
  guard_tx (one_of "capabilities.providers.write" (sa_Scopes app)) ErrAppRuntimeForbidden;;
  mret (a, sa_Scopes app).

(** The row after [INSERT ... ON CONFLICT(user_id,space_id,provider_id) DO UPDATE]:
    a registration that is current keeps its availability. *)
Definition registered (p : Provider) (appID : string) (app : SpaceApp) (now : Z) (old : option Registration) : Registration :=
  let state := mkAvailability "unavailable" now "Provider registered; target availability has not been verified." in
  match old with
  | None => mkRegistration (pv_Version p) appID (sa_Version app) (sa_InstalledAt app) true state
  | Some r =>
      if negb (rg_Enabled r) || negb (rg_Version r =? pv_Version p) || negb (String.eqb (rg_AppVersion r) (sa_Version app)) ||
         negb (rg_InstalledAt r =? sa_InstalledAt app)
      then mkRegistration (pv_Version p) (rg_AppID r) (sa_Version app) (sa_InstalledAt app) true state
      else r
  end.

Definition RegisterSDKProvider (authority : option AppExecutionAuthority) (userID digest : string) (p : Provider) (now : Z) : C Availability :=
  '(a, scopes) ← providerAuthorityTx authority userID;
  guard_tx (provider_valid p (au_AppID a) scopes) ErrInvalid;;
  guard_tx (forallb (λ d, HasScopes (au_Scopes a) (df_RequiredScopes d)) (pv_Capabilities p)) ErrAppRuntimeForbidden;;
  c ← get;
  app ← require (installed_app c (au_SpaceID a) (au_AppID a)) ErrAppRuntimeForbidden;
  document ← require (md_Document (sa_Metadata app)) (ErrConstraint "release_metadata");
  guard_tx (String.eqb digest (md_Digest (sa_Metadata app))) ErrSDKVersionConflict;;
  guard_tx (bool_decide (p ∈ doc_Providers document)) ErrSDKVersionConflict;;
  insert_provider userID (au_AppID a) p;;
  let key := (userID, au_SpaceID a, pv_ID p) in
  c ← get;
  let row := registered p (au_AppID a) app now (registrations c !! key) in
  modify (set_registrations (<[key := row]> (registrations c)));;
  mret (rg_Availability row).

Definition with_availability (enabled : bool) (state : Availability) (r : Registration) : Registration :=
  mkRegistration (rg_Version r) (rg_AppID r) (rg_AppVersion r) (rg_InstalledAt r) enabled state.

(** [SplitN(providerID, "/")[0] <> a.AppID] and the shape of the identifier. *)
Definition own_provider (a : AppExecutionAuthority) (providerID : string) : bool :=
  ValidProviderID providerID && String.eqb (app_of providerID) (au_AppID a).

Definition UnregisterSDKProvider (authority : option AppExecutionAuthority) (userID providerID : string) (now : Z) : C () :=
  '(a, _) ← providerAuthorityTx authority userID;
  guard_tx (own_provider a providerID) ErrAppRuntimeForbidden;;
  modify (λ c, set_registrations (alter (λ r,
    if String.eqb (rg_AppID r) (au_AppID a) then with_availability false (mkAvailability "unavailable" now "Provider unregistered.") r else r)
    (userID, au_SpaceID a, providerID) (registrations c)) c).

(** A registration made under the installation that is there now. *)
Definition current (c : Catalog) (spaceID : string) (r : Registration) : bool :=
  match installed_app c spaceID (rg_AppID r) with
  | Some app => String.eqb (sa_Version app) (rg_AppVersion r) && (sa_InstalledAt app =? rg_InstalledAt r)
  | None => false
  end.

Definition ReportSDKProviderAvailability (authority : option AppExecutionAuthority) (userID providerID : string) (state : Availability)
    (clock : Z) : C () :=
  guard_tx (availability_valid state clock) ErrInvalid;;
  '(a, _) ← providerAuthorityTx authority userID;
  guard_tx (own_provider a providerID) ErrAppRuntimeForbidden;;
  c ← get;
  let key := (userID, au_SpaceID a, providerID) in
  r ← require (registrations c !! key) ErrSDKProviderUnavailable;
  guard_tx (String.eqb (rg_AppID r) (au_AppID a) && rg_Enabled r && (av_ObservedAt (rg_Availability r) <=? av_ObservedAt state) &&
            current c (au_SpaceID a) r) ErrSDKProviderUnavailable;;
  modify (set_registrations (<[key := with_availability true state r]> (registrations c))).
End providers.
