(* ===== verification/SdkTargets.v ===== *)
(** * Targets of capabilities

    Models [internal/platform/postgres/sdk_targets.go] with the shipped providers
    of [sdk_planner.go] and [sdk_official_browser.go]: the connections and targets
    that a user configures and revokes, and [resolveSDKBoundCapabilityTx], the
    authority check of every discovery, admission and dispatch of a capability.

    [planner_id] is the name-based identifier of a user's planner in a Space; the
    other parameters are those of [Contracts].  A document declares the providers
    of its own app only ([Verify]), so a downloaded provider is looked for in the
    installation of the app its identifier names. *)
From S2P Require Import Prelude Tx GoStrings Json RunStore Contracts SpaceApps SdkProviders.

Section targets.
Context (validUUID ValidOrigin : string → bool) (builtins : list CapDefinition) (planner_id : string → string → string).

Local Abbreviation PlannerProvider := (PlannerProvider builtins).
Local Abbreviation OfficialBrowserProvider := (OfficialBrowserProvider builtins).

Definition space_member (c : Catalog) (spaceID userID : string) : bool := bool_decide (is_Some (roles c !! (spaceID, userID))).

(** [sdkTargetSpaceAccessTx]. *)
Definition spaceAccessTx (userID spaceID : string) : C () :=
  c ← get; guard_tx (empty spaceID || bool_decide (is_Some (member_role c spaceID userID))) ErrSpaceForbidden.

(** ** Installed providers *)

(** A provider with the app version and the time of the installation it is of. *)
Definition Installed : Type := Provider * string * Z.

Definition sdkOfficialBrowserProviderTx (userID spaceID : string) (p : Provider) : C Installed :=
  c ← get;
  app ← require (installed_app c spaceID (app_of (pv_ID p))) ErrSDKProviderUnavailable;
  guard_tx (HasScopes (sa_Scopes app) ["browser.inspect"%string]) ErrAppRuntimeForbidden;;
  match provider_versions c !! (userID, pv_ID p, pv_Version p) with
  | Some stored => guard_tx (bool_decide (stored.2 = p)) ErrSDKVersionConflict
  | None => modify (set_provider_versions (<[(userID, pv_ID p, pv_Version p) := (app_of (pv_ID p), p)]> (provider_versions c)))
  end;;
  mret (p, sa_Version app, sa_InstalledAt app).

Definition sdkPlannerProviderTx (userID spaceID : string) (version : Z) : C Installed :=
  p ← require PlannerProvider ErrSDKProviderUnavailable;
  guard_tx (version =? 1) ErrSDKProviderUnavailable;;
  c ← get;
  app ← require (installed_app c spaceID "planner") ErrSDKProviderUnavailable;
  guard_tx (one_of "tasks.write" (sa_Scopes app)) ErrSDKProviderUnavailable;;
  stored ← require (provider_versions c !! (userID, PlannerProviderID, 1)) ErrSDKProviderUnavailable;
  guard_tx (bool_decide (stored = ("planner"%string, p))) ErrSDKProviderUnavailable;;
  mret (p, sa_Version app, sa_InstalledAt app).

(** [jsonb_array_elements] of the document's providers, by id and version. *)
Definition declared (app : SpaceApp) (providerID : string) (version : Z) : option Provider :=
  document ← md_Document (sa_Metadata app);
  head (filter (λ p, pv_ID p = providerID ∧ pv_Version p = version) (doc_Providers document)).

Definition registered_for (c : Catalog) (userID spaceID providerID : string) (version : Z) (app : SpaceApp) : bool :=
  match registrations c !! (userID, spaceID, providerID) with
  | Some r => (rg_Version r =? version) && rg_Enabled r && negb (String.eqb (av_State (rg_Availability r)) "revoked") &&
              String.eqb (rg_AppVersion r) (sa_Version app) && (rg_InstalledAt r =? sa_InstalledAt app)
  | None => false
  end.

Definition sdkInstalledProviderTx (userID spaceID providerID : string) (version : Z) (requireRegistered : bool) : C Installed :=
  match OfficialBrowserProvider providerID version with
  | Some p => sdkOfficialBrowserProviderTx userID spaceID p
  | None =>
      if String.eqb providerID PlannerProviderID then sdkPlannerProviderTx userID spaceID version
      else
        c ← get;
        app ← require (installed_app c spaceID (app_of providerID)) ErrSDKProviderUnavailable;
        p ← require (declared app providerID version) ErrSDKProviderUnavailable;
        guard_tx (space_member c spaceID userID && (negb requireRegistered || registered_for c userID spaceID providerID version app))
          ErrSDKProviderUnavailable;;
        mret (p, sa_Version app, sa_InstalledAt app)
  end.

(** ** Connections *)

Record SDKBackendConnection := mkBackend {
  bc_SpaceID : string; bc_UserID : string; bc_AppID : string; bc_ID : string; bc_EndpointURL : string;
  bc_BearerCiphertext : string; bc_KeyVersion : Z }.

Definition declares_connection (app : SpaceApp) (connectionID : string) : bool :=
  match md_Document (sa_Metadata app) with
  | Some d => existsb (λ p, String.eqb (rt_Kind (pv_Route p)) "backend" && String.eqb (rt_ConnectionID (pv_Route p)) connectionID) (doc_Providers d)
  | None => false
  end.

Definition ConfigureSDKBackendConnection (authority : option AppExecutionAuthority) (userID : string) (connection : SDKBackendConnection)
    (expectedRevision : Z) : C Z :=
  guard_tx (negb (bool_decide (is_Some authority) || empty userID) && String.eqb (bc_UserID connection) userID) ErrAppRuntimeForbidden;;
  guard_tx (validUUID (bc_ID connection) && (0 <=? expectedRevision) && (expectedRevision <? 2147483647) &&
            (17 <=? strlen (bc_BearerCiphertext connection)) && (strlen (bc_BearerCiphertext connection) <=? Z.shiftl 20 10) &&
            (1 <=? bc_KeyVersion connection) && (strlen (bc_EndpointURL connection) <=? 2048) &&
            HasPrefix (bc_EndpointURL connection) "https://") ErrInvalid;;
  c ← get;
  guard_tx (space_member c (bc_SpaceID connection) userID &&
            match installed_app c (bc_SpaceID connection) (bc_AppID connection) with
            | Some app => declares_connection app (bc_ID connection) | None => false end) ErrAppRuntimeForbidden;;
  let key := (userID, bc_ID connection) in
  let old := connections c !! key in
  guard_tx (match old with Some r => cn_Revision r | None => 0 end =? expectedRevision) ErrSDKVersionConflict;;
  guard_tx (match old with Some r => String.eqb (cn_AppID r) (bc_AppID connection) | None => true end) ErrAppRuntimeForbidden;;
  let revision := expectedRevision + 1 in
  modify (λ c, set_connections (<[key := mkConnection (match old with Some r => cn_AppID r | None => bc_AppID connection end) revision true]> (connections c)) c);;
  guard_tx (bool_decide (connection_versions c !! (userID, bc_ID connection, revision) = None)) (ErrConstraint "sdk_backend_connection_versions_pkey");;
  modify (λ c, set_connection_versions (<[(userID, bc_ID connection, revision) :=
    mkConnectionVersion (bc_EndpointURL connection) (bc_BearerCiphertext connection) (bc_KeyVersion connection)]> (connection_versions c)) c);;
  mret revision.

Definition RevokeSDKBackendConnection (authority : option AppExecutionAuthority) (userID appID connectionID : string) : C () :=
  guard_tx (negb (bool_decide (is_Some authority))) ErrAppRuntimeForbidden;;
  guard_tx (validUUID connectionID) ErrInvalid;;
  modify (λ c, set_connections (alter (λ r,
    if String.eqb (cn_AppID r) appID then mkConnection (cn_AppID r) (cn_Revision r) false else r) (userID, connectionID) (connections c)) c).

(** ** Configuring a target *)

Definition deviceAccessTx (userID deviceID : string) (e : run_error) : C () :=
  c ← get; guard_tx (bool_decide ((deviceID, userID) ∈ devices c)) e.

(** The route's own requirements: the revision of the connection, 0 for a browser. *)
Definition routeTx (userID : string) (request : TargetConfiguration) (p : Provider) : C Z :=
  let kind := rt_Kind (pv_Route p) in
  guard_tx (one_of kind ["backend"; "browser"]%string) ErrSDKProviderUnavailable;;
  guard_tx (negb (String.eqb kind "backend" && bool_decide (is_Some (cf_Browser request)))) ErrInvalid;;
  when (String.eqb kind "browser")
    (b ← require (cf_Browser request) ErrInvalid;
     guard_tx (browser_valid validUUID ValidOrigin b p) ErrInvalid;;
     deviceAccessTx userID (bb_DeviceID b) ErrDeviceNotFound);;
  spaceAccessTx userID (cf_SpaceID request);;
  if String.eqb kind "backend" then
    c ← get;
    r ← require (connections c !! (userID, rt_ConnectionID (pv_Route p))) ErrSDKProviderUnavailable;
    guard_tx (String.eqb (cn_AppID r) (app_of (pv_ID p)) && cn_Enabled r) ErrSDKProviderUnavailable;;
    mret (cn_Revision r)
  else mret 0.

Definition binding_of (request : TargetConfiguration) (p : Provider) : Binding :=
  match cf_Browser request with
  | Some b => if String.eqb (rt_Kind (pv_Route p)) "browser" then BBrowser b else BBackend "backend" (rt_ConnectionID (pv_Route p))
  | None => BBackend "backend" (rt_ConnectionID (pv_Route p))
  end.

(** The upsert of a target's row and the insertion of its version. *)
Definition store_target (userID targetID : string) (enabled : bool) (v : TargetVersion) : C () :=
  let revision := tg_Revision (tv_Target v) in
  modify (λ c, set_targets (<[(userID, targetID) := mkRow revision enabled]> (targets c)) c);;
  c ← get;
  guard_tx (bool_decide (target_versions c !! (userID, targetID, revision) = None)) (ErrConstraint "sdk_target_versions_pkey");;
  modify (set_target_versions (<[(userID, targetID, revision) := v]> (target_versions c))).

Definition current_revision (c : Catalog) (userID targetID : string) : Z :=
  match targets c !! (userID, targetID) with Some t => tr_Revision t | None => 0 end.

Definition ConfigureSDKTarget (authority : option AppExecutionAuthority) (userID : string) (request : TargetConfiguration) : C Target :=
  guard_tx (negb (empty userID || bool_decide (is_Some authority))) ErrAppRuntimeForbidden;;
  guard_tx (configuration_valid validUUID request) ErrInvalid;;
  '(p, appVersion, installedAt) ← sdkInstalledProviderTx userID (cf_SpaceID request) (cf_ProviderID request) (cf_ProviderVersion request) true;
  connRevision ← routeTx userID request p;
  c ← get;
  guard_tx (forallb (app_installed c (cf_SpaceID request)) (cf_CallerApps request)) ErrAppRuntimeForbidden;;
  guard_tx (current_revision c userID (cf_TargetID request) =? cf_ExpectedRevision request) ErrSDKVersionConflict;;
  guard_tx (forallb (λ name, one_of name (df_Name <$> pv_Capabilities p)) (cf_Capabilities request)) ErrAppRuntimeForbidden;;
  let target := mkTarget (cf_TargetID request) (current_revision c userID (cf_TargetID request) + 1) (app_of (pv_ID p)) (pv_ID p) (pv_Version p)
    (cf_SpaceID request) (cf_Label request) (binding_of request p) in
  store_target userID (cf_TargetID request) true
    (mkVersion (pv_ID p) (pv_Version p) appVersion installedAt (cf_SpaceID request) target (cf_Capabilities request) (cf_CallerApps request) connRevision);;
  mret target.

Definition with_revision (revision : Z) (t : Target) : Target :=
  mkTarget (tg_ID t) revision (tg_AppID t) (tg_ProviderID t) (tg_ProviderVersion t) (tg_SpaceID t) (tg_Label t) (tg_Binding t).
Definition at_revision (revision : Z) (v : TargetVersion) : TargetVersion :=
  mkVersion (tv_ProviderID v) (tv_ProviderVersion v) (tv_AppVersion v) (tv_InstalledAt v) (tv_SpaceID v)
    (with_revision revision (tv_Target v)) (tv_Capabilities v) (tv_CallerApps v) (tv_ConnectionRevision v).

Definition RevokeSDKTarget (authority : option AppExecutionAuthority) (userID targetID : string) : C () :=
  guard_tx (negb (bool_decide (is_Some authority))) ErrAppRuntimeForbidden;;
  guard_tx (validUUID targetID) ErrInvalid;;
  c ← get;
  match targets c !! (userID, targetID) with
  | None => mret ()
  | Some t =>
      if negb (tr_Enabled t) then mret ()
      else
        guard_tx (tr_Revision t <? 2147483647) ErrSDKVersionConflict;;
        match target_versions c !! (userID, targetID, tr_Revision t) with
        | Some v => store_target userID targetID false (at_revision (tr_Revision t + 1) v)
        | None => modify (set_targets (<[(userID, targetID) := mkRow (tr_Revision t + 1) false]> (targets c)))
        end
  end.

(** [ensureSDKPlannerTargetTx]. *)
Definition ensureSDKPlannerTargetTx (userID spaceID : string) : C () :=
  if empty spaceID then mret ()
  else
    c ← get;
    match installed_app c spaceID "planner", spaces c !! spaceID with
    | Some app, Some space =>
        if negb (one_of "tasks.write" (sa_Scopes app) && bool_decide (is_Some (member_role c spaceID userID))) then mret ()
        else
          allowed ← hasSpacePermissionTx userID spaceID PermissionTasksManage;
          if negb allowed then mret ()
          else
            p ← require PlannerProvider ErrInvalid;
            let target := PlannerTarget planner_id userID spaceID (sp_Name space) in
            modify (λ c, match provider_versions c !! (userID, PlannerProviderID, 1) with
                         | Some _ => c
                         | None => set_provider_versions (<[(userID, PlannerProviderID, 1) := ("planner"%string, p)]> (provider_versions c)) c end);;
            let revision := current_revision c userID (tg_ID target) in
            match target_versions c !! (userID, tg_ID target, revision) with
            | Some v =>
                if (0 <? revision) && String.eqb (tv_AppVersion v) (sa_Version app) && (tv_InstalledAt v =? sa_InstalledAt app) then mret ()
                else store_target userID (tg_ID target) true
                       (mkVersion PlannerProviderID 1 (sa_Version app) (sa_InstalledAt app) spaceID (with_revision (revision + 1) target) ["tasks.create"%string] [] 0)
            | None => store_target userID (tg_ID target) true
                        (mkVersion PlannerProviderID 1 (sa_Version app) (sa_InstalledAt app) spaceID (with_revision 1 target) ["tasks.create"%string] [] 0)
            end
    | _, _ => mret ()
    end.

(** ** Resolution *)

Record SDKBoundCapability := mkBound {
  bd_OwnerUserID : string; bd_Target : Target; bd_Provider : Provider; bd_Definition : CapDefinition;
  bd_Connection : option (string * Z * ConnectionVersion) (** id, revision and the pinned version *) }.

(** The row [t.enabled AND ($3=0 OR t.revision=$3)] with its current version. *)
Definition enabled_version (c : Catalog) (userID targetID : string) (revision : Z) : option TargetVersion :=
  t ← targets c !! (userID, targetID);
  guard (tr_Enabled t = true ∧ (revision = 0 ∨ tr_Revision t = revision));;
  target_versions c !! (userID, targetID, tr_Revision t).

(** Availability reported by a downloaded provider. *)
Definition availabilityTx (userID : string) (p : Provider) (spaceID : string) (requireAvailable : bool) : C () :=
  if String.eqb (pv_ID p) PlannerProviderID || bool_decide (is_Some (OfficialBrowserProvider (pv_ID p) (pv_Version p))) then mret ()
  else
    c ← get;
    r ← require (registrations c !! (userID, spaceID, pv_ID p)) ErrSDKProviderUnavailable;
    guard_tx ((rg_Version r =? pv_Version p) && rg_Enabled r) ErrSDKProviderUnavailable;;
    guard_tx (negb requireAvailable || String.eqb (av_State (rg_Availability r)) "available") ErrSDKProviderUnavailable.

(** The [switch] on the route: the connection of a backend. *)
Definition bindingTx (userID : string) (t : Target) (p : Provider) : C (option string) :=
  let kind := rt_Kind (pv_Route p) in
  if String.eqb kind "server" then
    guard_tx (ValidatePlanner validUUID builtins t p) ErrInvalid;;
    requireSpacePermissionTx userID (tg_SpaceID t) PermissionTasksManage;;
    mret None
  else if String.eqb kind "backend" then
    connectionID ← require (ValidateBackend validUUID t p) ErrInvalid;
    mret (Some connectionID)
  else if String.eqb kind "browser" then
    b ← require (ValidateBrowser validUUID ValidOrigin t p) ErrInvalid;
    deviceAccessTx userID (bb_DeviceID b) ErrSDKProviderUnavailable;;
    mret None
  else fail ErrSDKProviderUnavailable.

Definition capability_of (p : Provider) (name : string) (version : Z) : option CapDefinition :=
  head (filter (λ d, df_Name d = name ∧ (version = 0 ∨ version = df_Version d)) (pv_Capabilities p)).

(** What the app that owns the target must have been granted. *)
Definition owner_granted (grants : list string) (p : Provider) (d : CapDefinition) : bool :=
  String.eqb (pv_ID p) PlannerProviderID && HasScopes grants ["tasks.write"%string] ||
  HasScopes grants (default (df_RequiredScopes d) (OfficialBrowserScopes builtins (pv_ID p) (df_Name d))).

(** The ceiling and the current grants of an app that asks for the user. *)
Definition callerTx (authority : option AppExecutionAuthority) (userID : string) (t : Target) (callers : list string) (d : CapDefinition) : C () :=
  match authority with
  | None => mret ()
  | Some a =>
      guard_tx (String.eqb (au_UserID a) userID && negb (empty (au_SpaceID a)) && String.eqb (au_SpaceID a) (tg_SpaceID t) &&
                one_of (au_AppID a) callers && HasScopes (au_Scopes a) (df_RequiredScopes d)) ErrAppRuntimeForbidden;;
      c ← get;
      app ← require (installed_app c (au_SpaceID a) (au_AppID a)) ErrAppRuntimeForbidden;
      guard_tx ((0 <? au_Generation a) && (au_Generation a =? sa_Generation app)) ErrAppRuntimeForbidden;;
      guard_tx (HasScopes (sa_Scopes app) (df_RequiredScopes d)) ErrAppRuntimeForbidden
  end.

(** The last part: the adapter of a browser, or the pinned revision of the
    connection, which must still be the current one. *)
Definition dispatchTx (userID : string) (v : TargetVersion) (p : Provider) (name : string) (connectionID : option string)
    : C (option (string * Z * ConnectionVersion)) :=
  if String.eqb (rt_Kind (pv_Route p)) "browser" then
    _ ← require (pilot_resolve p name) ErrSDKProviderUnavailable;
    b ← require (ValidateBrowser validUUID ValidOrigin (tv_Target v) p) ErrSDKProviderUnavailable;
    guard_tx (negb (empty (bb_ScopeID b) || empty (bb_AccountIdentity b))) ErrSDKProviderUnavailable;;
    mret None
  else if String.eqb (pv_ID p) PlannerProviderID then mret None
  else
    let id := default ""%string connectionID in
    c ← get;
    r ← require (connections c !! (userID, id)) ErrSDKProviderUnavailable;
    guard_tx (String.eqb (cn_AppID r) (tg_AppID (tv_Target v)) && (cn_Revision r =? tv_ConnectionRevision v) && cn_Enabled r)
      ErrSDKProviderUnavailable;;
    x ← require (connection_versions c !! (userID, id, cn_Revision r)) ErrSDKProviderUnavailable;
    mret (Some (id, cn_Revision r, x)).

Definition resolveSDKBoundCapabilityWithAvailabilityTx (authority : option AppExecutionAuthority) (userID targetID : string) (revision : Z)
    (name : string) (capabilityVersion : Z) (requireAvailable : bool) : C SDKBoundCapability :=
  guard_tx (validUUID targetID && ValidName name && (0 <=? revision) && (0 <=? capabilityVersion)) ErrInvalid;;
  c ← get;
  v ← require (enabled_version c userID targetID revision) ErrSDKProviderUnavailable;
  let t := tv_Target v in
  guard_tx (one_of name (tv_Capabilities v)) ErrAppRuntimeForbidden;;
  '(p, currentVersion, currentInstall) ← sdkInstalledProviderTx userID (tg_SpaceID t) (tv_ProviderID v) (tv_ProviderVersion v) true;
  guard_tx (String.eqb currentVersion (tv_AppVersion v) && (currentInstall =? tv_InstalledAt v)) ErrSDKProviderUnavailable;;
  availabilityTx userID p (tg_SpaceID t) requireAvailable;;
  connectionID ← bindingTx userID t p;
  d ← require (capability_of p name capabilityVersion) ErrSDKProviderUnavailable;
  spaceAccessTx userID (tg_SpaceID t);;
  c ← get;
  owner ← require (installed_app c (tg_SpaceID t) (tg_AppID t)) ErrNoRows;
  guard_tx (owner_granted (sa_Scopes owner) p d) ErrAppRuntimeForbidden;;
  callerTx authority userID t (tv_CallerApps v) d;;
  connection ← dispatchTx userID v p name connectionID;
  mret (mkBound userID t p d connection).

Definition resolveSDKBoundCapabilityTx (authority : option AppExecutionAuthority) (userID targetID : string) (revision : Z)
    (name : string) (capabilityVersion : Z) : C SDKBoundCapability :=
  resolveSDKBoundCapabilityWithAvailabilityTx authority userID targetID revision name capabilityVersion true.
End targets.
