(* ===== verification/SdkInv.v ===== *)
(** * Invariants of apps, providers and targets

    What every operation of [SpaceApps], [SdkProviders] and [SdkTargets] preserves:
    the rows of targets have their versions, an enabled registration agrees with
    the document of the app as it is installed, versions are written once, and the
    revisions of targets and the generations of installations only grow. *)
From S2P Require Import Prelude Tx GoStrings Json RunStore Contracts SpaceApps SdkProviders SdkTargets.

#[local] Set Default Proof Using "Type".

(** ** Statements that only read *)

Ltac solve_reads := repeat first [progress intros | apply _ | case_match | match goal with |- Reads (_ ≫= _) => apply reads_bind end].

#[export] Instance reads_option {St Err A B} (o : option B) (f : B → tx St Err A) (n : tx St Err A) :
  (∀ x, Reads (f x)) → Reads n → Reads (match o with Some x => f x | None => n end).
Proof. by destruct o. Qed.
#[export] Instance reads_member s u : Reads (requireMemberTx s u).
Proof. unfold requireMemberTx. solve_reads. Qed.
#[export] Instance reads_permission u s p : Reads (hasSpacePermissionTx u s p).
Proof. unfold hasSpacePermissionTx. solve_reads. Qed.
#[export] Instance reads_app s a : Reads (requireSpaceAppTx s a).
Proof. unfold requireSpaceAppTx. solve_reads. Qed.
#[export] Instance reads_require_permission u s p : Reads (requireSpacePermissionTx u s p).
Proof. unfold requireSpacePermissionTx. solve_reads. Qed.
#[export] Instance reads_require_all s a l : Reads (require_all s a l).
Proof. induction l as [|d l IH]; simpl; solve_reads. Qed.
#[export] Instance reads_authority a u : Reads (providerAuthorityTx a u).
Proof. unfold providerAuthorityTx. solve_reads. Qed.
#[export] Instance reads_access u s : Reads (spaceAccessTx u s).
Proof. unfold spaceAccessTx. solve_reads. Qed.
#[export] Instance reads_planner builtins u s n : Reads (sdkPlannerProviderTx builtins u s n).
Proof. unfold sdkPlannerProviderTx. solve_reads. Qed.
#[export] Instance reads_device u d e : Reads (deviceAccessTx u d e).
Proof. unfold deviceAccessTx. solve_reads. Qed.
#[export] Instance reads_route f g u r p : Reads (routeTx f g u r p).
Proof. unfold routeTx. solve_reads. Qed.
#[export] Instance reads_availability b u p s r : Reads (availabilityTx b u p s r).
Proof. unfold availabilityTx. solve_reads. Qed.
#[export] Instance reads_binding f g b u t p : Reads (bindingTx f g b u t p).
Proof. unfold bindingTx. solve_reads. Qed.
#[export] Instance reads_caller a u t l d : Reads (callerTx a u t l d).
Proof. unfold callerTx. solve_reads. Qed.
#[export] Instance reads_dispatch f g u v p n i : Reads (dispatchTx f g u v p n i).
Proof. unfold dispatchTx. solve_reads. Qed.

(** ** What grows *)

Record grows (c c' : Catalog) : Prop := {
  gr_providers : provider_versions c ⊆ provider_versions c';
  gr_connections : connection_versions c ⊆ connection_versions c';
  gr_targets : target_versions c ⊆ target_versions c';
  gr_manifests : manifests c ⊆ manifests c';
  gr_contracts : contracts c ⊆ contracts c';
  gr_publishers : publishers c ⊆ publishers c';
  gr_rows : ∀ k t, targets c !! k = Some t → ∃ t', targets c' !! k = Some t' ∧ tr_Revision t <= tr_Revision t' ∧
    (tr_Enabled t' = true → tr_Enabled t = true ∨ tr_Revision t < tr_Revision t');
  gr_apps : ∀ k a, apps c !! k = Some a → ∃ a', apps c' !! k = Some a' ∧ sa_Generation a <= sa_Generation a';
}.

#[export] Instance grows_preorder : PreOrder grows.
Proof.
  split.
  - intros c. split; try done; [intros k t Ht; exists t; repeat split; [done|lia|by left]|intros k a Ha; exists a; split; [done|lia]].
  - intros c1 c2 c3 H H'. split; try (etrans; [apply H|apply H']).
    + intros k t Ht. destruct (gr_rows _ _ H k t Ht) as (t2 & H2 & Hle & He). destruct (gr_rows _ _ H' k t2 H2) as (t3 & H3 & Hle' & He').
      exists t3. split; [done|]. split; [lia|]. intros Ht3. destruct (He' Ht3) as [Ht2|?]; [|right; lia]. destruct (He Ht2); [by left|right; lia].
    + intros k a Ha. destruct (gr_apps _ _ H k a Ha) as (a2 & H2 & ?). destruct (gr_apps _ _ H' k a2 H2) as (a3 & H3 & ?). exists a3. split; [done|lia].
Qed.

(** The rows of installations and targets are the same. *)
Lemma rows_same (m : gmap (string * string) TargetRow) : ∀ k t, m !! k = Some t → ∃ t', m !! k = Some t' ∧ tr_Revision t <= tr_Revision t' ∧
    (tr_Enabled t' = true → tr_Enabled t = true ∨ tr_Revision t < tr_Revision t').
Proof. intros k t Ht. exists t. split; [done|]. split; [lia|by left]. Qed.
Lemma apps_same (m : gmap (string * string) SpaceApp) : ∀ k a, m !! k = Some a → ∃ a', m !! k = Some a' ∧ sa_Generation a <= sa_Generation a'.
Proof. intros k a Ha. exists a. split; [done|lia]. Qed.
Create HintDb catalog.
#[export] Hint Resolve rows_same apps_same : catalog.

Ltac grow := split; simpl; auto with catalog; try done; try (apply insert_subseteq; done).

(** ** The invariant *)

Definition reg_backed (c : Catalog) (u s pid : string) (r : Registration) : Prop :=
  ∃ app d p, apps c !! (s, app_of pid) = Some app ∧ md_Document (sa_Metadata app) = Some d ∧ p ∈ doc_Providers d ∧
    pv_ID p = pid ∧ pv_Version p = rg_Version r ∧ provider_versions c !! (u, pid, rg_Version r) = Some (app_of pid, p).

Record catalog_ok (c : Catalog) : Prop := {
  ok_targets : ∀ u id t, targets c !! (u, id) = Some t → 1 <= tr_Revision t ∧ is_Some (target_versions c !! (u, id, tr_Revision t));
  ok_versions : ∀ u id n v, target_versions c !! (u, id, n) = Some v →
    tg_Revision (tv_Target v) = n ∧ tv_SpaceID v = tg_SpaceID (tv_Target v);
  ok_docs : ∀ k app d, apps c !! k = Some app → md_Document (sa_Metadata app) = Some d → NoDup (pv_ID <$> doc_Providers d);
  ok_regs : ∀ u s pid r, registrations c !! (u, s, pid) = Some r → rg_AppID r = app_of pid ∧ (rg_Enabled r = true → reg_backed c u s pid r);
}.

(** An operation keeps the invariant and lets the tables grow. *)
Definition moves (c c' : Catalog) : Prop := catalog_ok c → catalog_ok c' ∧ grows c c'.

#[export] Instance moves_preorder : PreOrder moves.
Proof.
  split; [by intros c Hc; split|]. intros c1 c2 c3 H H' Hc. destruct (H Hc) as [Hc2 Hg]. destruct (H' Hc2) as [Hc3 Hg']. split; [done|]. by etrans.
Qed.

Lemma reg_backed_grow c c' u s pid r : apps c' = apps c → provider_versions c ⊆ provider_versions c' → reg_backed c u s pid r → reg_backed c' u s pid r.
Proof.
  intros Ha Hp (app & d & p & Happ & Hd & Hin & Hid & Hv & Hpv). exists app, d, p. rewrite Ha. do 5 (split; [done|]). by eapply lookup_weaken.
Qed.

(** Changes that the invariant does not see. *)
Lemma ok_frame c c' : targets c' = targets c → target_versions c' = target_versions c → apps c' = apps c → registrations c' = registrations c →
  provider_versions c ⊆ provider_versions c' → catalog_ok c → catalog_ok c'.
Proof.
  intros Ht Hv Ha Hr Hp [H1 H2 H3 H4]. split; rewrite ?Ht, ?Hv, ?Ha, ?Hr; try done.
  intros u s pid r Hreg. destruct (H4 u s pid r Hreg) as [? Hb]. split; [done|]. intros He. eapply reg_backed_grow; eauto.
Qed.

(** ** Versions of providers and contracts *)

Lemma insert_provider_moves u app p c x c' : insert_provider u app p c = inr (x, c') →
  moves c c' ∧ provider_versions c' !! (u, pv_ID p, pv_Version p) = Some (app, p) ∧ apps c' = apps c ∧ registrations c' = registrations c.
Proof.
  unfold insert_provider. intros H. tx_get H. destruct (provider_versions c !! _) as [q|] eqn:Hq.
  - apply guard_inr in H as [H ->]. apply bool_decide_eq_true in H as ->. done.
  - injection H as <- <-. split; [|simpl; by rewrite lookup_insert_eq]. intros Hc. split; [|by grow].
    apply (ok_frame c); [done|done|done|done|simpl; by apply insert_subseteq|done].
Qed.

Lemma insert_contracts_moves u l c x c' : insert_contracts u l c = inr (x, c') →
  moves c c' ∧ apps c' = apps c ∧ provider_versions c' = provider_versions c.
Proof.
  revert c. induction l as [|d l IH]; simpl; intros c H; [by injection H as <- <-|].
  tx_bind H as y c1 G. assert (moves c c1 ∧ apps c1 = apps c ∧ provider_versions c1 = provider_versions c) as (Hm & Ha & Hp).
  { unfold insert_contract in G. tx_get G. destruct (contracts c !! _) eqn:Hd; [by apply guard_inr in G as [_ ->]|].
    injection G as <- <-. split; [|done]. intros Hc. split; [by apply (ok_frame c)|by grow]. }
  destruct (IH c1 H) as (Hm' & Ha' & Hp'). split; [by etrans|]. by rewrite Ha', Hp'.
Qed.

Lemma insert_providers_moves u app l c x c' : insert_providers u app l c = inr (x, c') → moves c c' ∧ apps c' = apps c.
Proof.
  revert c. induction l as [|p l IH]; simpl; intros c H; [by injection H as <- <-|].
  tx_bind H as y c1 G1. tx_bind H as z c2 G2. apply insert_provider_moves in G1 as (H1 & _ & Ha1 & _).
  apply insert_contracts_moves in G2 as (H2 & Ha2 & _). destruct (IH c2 H) as [H3 Ha3].
  split; [etrans; [exact H1|by etrans]|]. by rewrite Ha3, Ha2.
Qed.

(** ** Installations *)

Definition revoked (s app : string) (c : Catalog) : Catalog :=
  set_targets (map_imap (λ key t, Some (if target_of_app c s app key t then disable_target t else t)) (targets c))
    (set_registrations (map_imap (λ key r, Some
      (if String.eqb key.1.2 s && String.eqb (rg_AppID r) app then disable_registration r else r)) (registrations c)) c).

Lemma revoke_eq s app c x c' : revokeSpaceAppRuntimeTx s app c = inr (x, c') → c' = revoked s app c.
Proof. unfold revokeSpaceAppRuntimeTx, revoked. intros H. tx_modify H. by injection H as <- <-. Qed.

Lemma revoked_target s app c k : targets (revoked s app c) !! k =
  (λ t, if target_of_app c s app k t then disable_target t else t) <$> targets c !! k.
Proof. unfold revoked. simpl. rewrite map_lookup_imap. by destruct (targets c !! k). Qed.

Lemma revoked_registration s app c k : registrations (revoked s app c) !! k =
  (λ r, if String.eqb k.1.2 s && String.eqb (rg_AppID r) app then disable_registration r else r) <$> registrations c !! k.
Proof. unfold revoked. simpl. rewrite map_lookup_imap. by destruct (registrations c !! k). Qed.

(** Writing the row of an app and revoking what depends on it. *)
Lemma write_app_moves s app row c : (∀ d, md_Document (sa_Metadata row) = Some d → NoDup (pv_ID <$> doc_Providers d)) →
  (∀ old, apps c !! (s, app) = Some old → sa_Generation old <= sa_Generation row) →
  moves c (revoked s app (set_apps (<[(s, app) := row]> (apps c)) c)).
Proof.
  intros Hdoc Hgen [H1 H2 H3 H4]. split; [split|split]; try done.
  - intros u id t Ht. rewrite revoked_target in Ht. simpl in Ht. destruct (targets c !! (u, id)) as [t0|] eqn:E; [|done].
    destruct (H1 u id t0 E). simpl in Ht. injection Ht as <-. by destruct (target_of_app _ _ _ _ _).
  - intros [s' a'] r d. simpl. rewrite lookup_insert_Some. intros [[[= -> ->] ->]|[_ Hr]]; [by apply Hdoc|by eapply H3].
  - intros u s' pid r Hr. rewrite revoked_registration in Hr. simpl in Hr. destruct (registrations c !! (u, s', pid)) as [r0|] eqn:E; [|done].
    destruct (H4 u s' pid r0 E) as [Happ Hb]. simpl in Hr. injection Hr as <-.
    destruct (String.eqb s' s && String.eqb (rg_AppID r0) app) eqn:Es; [done|]. split; [done|]. intros He.
    destruct (Hb He) as (row' & d & p & Hrow & Hd & Hrest). exists row', d, p. simpl. split; [|done].
    rewrite lookup_insert_ne; [done|]. intros [= -> Ea]. by rewrite Happ, <- Ea, !String.eqb_refl in Es.
  - intros k t Ht. rewrite revoked_target. simpl. rewrite Ht. simpl. eexists. split; [done|]. destruct (target_of_app _ _ _ _ _); simpl; split; try lia; try done. by left.
  - intros [s' a'] r Hr. simpl. destruct (decide ((s, app) = (s', a'))) as [[= <- <-]|Hne].
    + rewrite lookup_insert_eq. exists row. split; [done|]. by apply Hgen.
    + rewrite lookup_insert_ne by done. exists r. split; [done|lia].
Qed.

Lemma installed_generation spec m now rank old :
  sa_Generation (installed_row spec m now rank old) = match old with Some a => sa_Generation a + 1 | None => 1 end.
Proof. by destruct old. Qed.
Lemma installed_metadata spec m now rank old : sa_Metadata (installed_row spec m now rank old) = m.
Proof. by destruct old. Qed.

Lemma install_eq s spec m now c row c' : installSpaceAppTx s spec m now c = inr (row, c') →
  row = installed_row spec m now (next_rank s (apps c)) (apps c !! (s, is_ID spec)) ∧
  c' = revoked s (is_ID spec) (set_apps (<[(s, is_ID spec) := row]> (apps c)) c).
Proof.
  unfold installSpaceAppTx. intros H. tx_guard H as G. tx_get H. tx_modify H. tx_bind H as y c1 G1. apply revoke_eq in G1 as ->. by injection H as <- <-.
Qed.

Lemma install_moves s spec m now c row c' : installSpaceAppTx s spec m now c = inr (row, c') →
  (∀ d, md_Document m = Some d → NoDup (pv_ID <$> doc_Providers d)) → moves c c'.
Proof.
  intros H Hdoc. apply install_eq in H as [-> ->]. apply write_app_moves; [by rewrite installed_metadata|].
  intros old ->. rewrite installed_generation. lia.
Qed.

Lemma remove_eq u s app now c row c' : RemoveSpaceApp u s app now c = inr (row, c') →
  ∃ a, apps c !! (s, app) = Some a ∧ row = removed_row now a ∧ has_dependent c s app = false ∧
    c' = revoked s app (set_apps (<[(s, app) := row]> (apps c)) c).
Proof.
  unfold RemoveSpaceApp. intros H. tx_read H as ? G0. tx_get H. tx_guard H as G1. tx_require H as a G2. tx_modify H. tx_bind H as y c1 G3.
  apply revoke_eq in G3 as ->. injection H as <- <-. apply negb_true_iff in G1. by exists a.
Qed.

Lemma remove_moves u s app now c row c' : RemoveSpaceApp u s app now c = inr (row, c') → catalog_ok c → catalog_ok c' ∧ grows c c'.
Proof.
  intros H Hc. destruct (remove_eq _ _ _ _ _ _ _ H) as (a & Ha & -> & _ & ->). apply write_app_moves; [|intros old Ho; simplify_eq; simpl; lia|done].
  intros d. simpl. by apply (ok_docs _ Hc (s, app)).
Qed.

Lemma alter_rank_moves s id rank c : moves c (set_apps (alter (with_rank rank) (s, id) (apps c)) c).
Proof.
  intros [H1 H2 H3 H4].
  assert (∀ k a, alter (with_rank rank) (s, id) (apps c) !! k = Some a → ∃ a0, apps c !! k = Some a0 ∧ sa_Metadata a = sa_Metadata a0) as Hb.
  { intros k a. destruct (decide ((s, id) = k)) as [<-|]; [rewrite lookup_alter_eq|rewrite lookup_alter_ne by done; eauto].
    destruct (apps c !! _) as [a0|]; [|done]. intros [= <-]. by exists a0. }
  assert (∀ k a, apps c !! k = Some a → ∃ a0, alter (with_rank rank) (s, id) (apps c) !! k = Some a0 ∧ sa_Metadata a0 = sa_Metadata a ∧ sa_Generation a0 = sa_Generation a) as Hf.
  { intros k a Ha. destruct (decide ((s, id) = k)) as [<-|]; [rewrite lookup_alter_eq, Ha|rewrite lookup_alter_ne, Ha by done]; eauto. }
  split; [split; try done|grow].
  - intros k app d Hk. destruct (Hb k app Hk) as (a0 & Ha & ->). eauto.
  - intros u s' pid r Hr. destruct (H4 u s' pid r Hr) as [? Hback]. split; [done|]. intros He. destruct (Hback He) as (app & d & p & Ha & Hd & Hrest).
    destruct (Hf _ _ Ha) as (a0 & Ha0 & Hm & _). exists a0, d, p. rewrite Hm. done.
  - intros k a Ha. destruct (Hf k a Ha) as (a0 & ? & _ & ?). exists a0. split; [done|lia].
Qed.

Lemma reorder_moves s seen i ids c x c' : reorder s seen i ids c = inr (x, c') → moves c c'.
Proof.
  revert seen i c. induction ids as [|id ids IH]; simpl; intros seen i c H; [by injection H as <- <-|].
  tx_guard H as G1. tx_get H. tx_guard H as G2. tx_modify H. etrans; [apply alter_rank_moves|by eapply IH].
Qed.

Lemma reorder_all_moves u s ids c x c' : ReorderSpaceApps u s ids c = inr (x, c') → moves c c'.
Proof. unfold ReorderSpaceApps. intros H. tx_read H as ? G0. tx_get H. tx_guard H as G1. by eapply reorder_moves. Qed.

(** ** Registrations *)

Lemma alter_lookup {K V} `{Countable K} (f : V → V) (m : gmap K V) k x : m !! k = Some x → alter f k m = <[k := f x]> m.
Proof.
  intros Hx. apply map_eq. intros j. destruct (decide (k = j)) as [<-|]; [by rewrite lookup_alter_eq, lookup_insert_eq, Hx|].
  by rewrite lookup_alter_ne, lookup_insert_ne.
Qed.
Lemma alter_absent {K V} `{Countable K} (f : V → V) (m : gmap K V) k : m !! k = None → alter f k m = m.
Proof.
  intros Hx. apply map_eq. intros j. destruct (decide (k = j)) as [<-|]; [by rewrite lookup_alter_eq, Hx|by rewrite lookup_alter_ne].
Qed.

(** A registration that is backed, or disabled, may be written. *)
Lemma set_registration_moves c u s pid r : rg_AppID r = app_of pid → (rg_Enabled r = true → reg_backed c u s pid r) →
  moves c (set_registrations (<[(u, s, pid) := r]> (registrations c)) c).
Proof.
  intros Happ Hback [H1 H2 H3 H4]. split; [split; try done|by grow].
  intros u' s' pid' r'. simpl. rewrite lookup_insert_Some. intros [[[= -> -> ->] ->]|[_ Hr]]; [done|by apply H4].
Qed.

Lemma report_moves a u pid st clock c x c' : ReportSDKProviderAvailability a u pid st clock c = inr (x, c') → moves c c'.
Proof.
  unfold ReportSDKProviderAvailability. intros H Hc. tx_guard H as G1. tx_read H as [a' scopes] G2. tx_guard H as G3. tx_get H.
  tx_require H as r G4. tx_guard H as G5. injection H as <- <-. destruct (ok_regs _ Hc _ _ _ _ G4) as [Happ Hback].
  apply set_registration_moves; [done| |done]. intros _. apply Hback. apply andb_true_iff in G5 as [[[_ G5]%andb_true_iff _]%andb_true_iff _]. done.
Qed.

Lemma unregister_moves a u pid now c x c' : UnregisterSDKProvider a u pid now c = inr (x, c') → moves c c'.
Proof.
  unfold UnregisterSDKProvider. intros H Hc. tx_read H as [a' scopes] G1. tx_guard H as G2. injection H as <- <-.
  destruct (registrations c !! (u, au_SpaceID a', pid)) as [r|] eqn:Hr.
  - rewrite (alter_lookup _ _ _ _ Hr). destruct (ok_regs _ Hc _ _ _ _ Hr) as [Happ Hback]. apply set_registration_moves; [by case_match|by case_match|done].
  - rewrite alter_absent by done. by destruct c.
Qed.

(** ** Versions of targets *)

Lemma current_row c u id : catalog_ok c → 0 <= current_revision c u id.
Proof. intros Hc. unfold current_revision. destruct (targets c !! (u, id)) as [t|] eqn:E; [|lia]. destruct (ok_targets _ Hc _ _ _ E). lia. Qed.

(** A new revision of a target is stored above the current one. *)
Lemma store_target_moves u id enabled v c x c' : store_target u id enabled v c = inr (x, c') →
  current_revision c u id < tg_Revision (tv_Target v) → tv_SpaceID v = tg_SpaceID (tv_Target v) → moves c c'.
Proof.
  unfold store_target. intros H Hrev Hsp Hc. tx_modify H. tx_get H. tx_guard H as Hf. injection H as _ <-. apply bool_decide_eq_true in Hf.
  simpl in Hf. pose proof (current_row c u id Hc) as H0. destruct Hc as [H1 H2 H3 H4]. split; [split; try done|grow].
  - intros u' id' t. simpl. rewrite lookup_insert_Some. intros [[[= -> ->] <-]|[Hne Ht]].
    + simpl. rewrite lookup_insert_eq. split; [lia|done].
    + rewrite lookup_insert_ne by naive_solver. by apply H1.
  - intros u' id' n w. simpl. rewrite lookup_insert_Some. intros [[[= -> -> <-] <-]|[_ Hw]]; [done|by eapply H2].
  - intros [u' id'] t Ht. destruct (decide ((u, id) = (u', id'))) as [[= <- <-]|Hne].
    + rewrite lookup_insert_eq. eexists. split; [done|]. simpl. unfold current_revision in Hrev. rewrite Ht in Hrev. split; [lia|]. right. lia.
    + rewrite lookup_insert_ne by done. exists t. split; [done|]. split; [lia|by left].
Qed.

Section moves.
Context (validUUID ValidOrigin : string → bool) (CompileSchema : json → bool) (builtins : list CapDefinition).
Context (decode64 : string → option string) (ed25519_verify : string → string → string → bool).
Context (decode : string → option InstallDocument) (sha256_hex : string → string) (official : string → bool).
Context (planner_id : string → string → string).

Local Abbreviation Verify := (Verify validUUID ValidOrigin CompileSchema builtins decode64 ed25519_verify decode sha256_hex).
Local Abbreviation provider_valid := (provider_valid validUUID ValidOrigin CompileSchema builtins).

Lemma verify_valid signed v : Verify signed = Some v →
  document_valid validUUID ValidOrigin CompileSchema builtins (vm_Document v) = true ∧ strlen (vm_PublicKey v) = 32 ∧
  vm_Digest v = sha256_hex (sm_Document signed).
Proof.
  unfold Contracts.Verify. intros H. apply bind_Some in H as (key & _ & H). apply bind_Some in H as (Hk & _ & H).
  apply bind_Some in H as (sig & _ & H). apply bind_Some in H as (_ & _ & H). apply bind_Some in H as (_ & _ & H).
  apply bind_Some in H as (d & _ & H). apply bind_Some in H as (Hd & _ & H). by injection H as <-.
Qed.

Lemma document_unique d : document_valid validUUID ValidOrigin CompileSchema builtins d = true → NoDup (pv_ID <$> doc_Providers d).
Proof.
  unfold document_valid. intros H. apply andb_true_iff in H as [H _]. apply andb_true_iff in H as [_ H]. by apply bool_decide_eq_true in H.
Qed.

(** *** Installing an SDK app *)

Lemma empty_or_eq x y : empty x || String.eqb x y = true → x = ""%string ∨ x = y.
Proof. intros [H%bool_decide_eq_true|H%String.eqb_eq]%orb_true_iff; auto. Qed.

#[export] Instance reads_continues verified old :
  Reads (continues validUUID ValidOrigin CompileSchema builtins decode64 ed25519_verify decode sha256_hex verified old).
Proof. unfold continues. solve_reads. Qed.

Lemma sdk_install_inv a u signed dig s now c row c' :
  InstallVerifiedSDKApp validUUID ValidOrigin CompileSchema builtins decode64 ed25519_verify decode sha256_hex official a u signed dig s now c
    = inr (row, c') →
  ∃ v c1 c2, Verify signed = Some v ∧ dig = vm_Digest v ∧
    (∀ key, publishers c !! (u, doc_AppID (vm_Document v)) = Some key → key = ""%string ∨ key = vm_PublicKey v) ∧
    (∀ x, manifests c !! (u, doc_AppID (vm_Document v), doc_Version (vm_Document v)) = Some x → x = ""%string ∨ x = vm_Digest v) ∧
    installSpaceAppTx s (spec_of (vm_Document v)) (mkMetadata "sdk" [] (Some signed) (vm_Digest v) (Some (vm_Document v))) now c = inr (row, c1) ∧
    (moves c1 c2 ∧ apps c2 = apps c1 ∧
      publishers c2 !! (u, doc_AppID (vm_Document v)) = Some (default (vm_PublicKey v) (publishers c !! (u, doc_AppID (vm_Document v)))) ∧
      manifests c2 !! (u, doc_AppID (vm_Document v), doc_Version (vm_Document v)) =
        Some (default (vm_Digest v) (manifests c !! (u, doc_AppID (vm_Document v), doc_Version (vm_Document v))))) ∧
    insert_providers u (doc_AppID (vm_Document v)) (doc_Providers (vm_Document v)) c2 = inr (tt, c').
Proof.
  unfold InstallVerifiedSDKApp. intros H. tx_guard H as G1. tx_require H as v Hv. tx_guard H as G2. tx_guard H as G3. tx_read H as ? G4.
  tx_get H. tx_guard H as G5. tx_read H as ? G6. tx_guard H as G7. tx_bind H as row1 c1 G8. tx_modify H. tx_modify H. tx_bind H as y c3 G9.
  injection H as <- <-. destruct y. pose proof (install_eq _ _ _ _ _ _ _ G8) as [_ E].
  assert (publishers c1 = publishers c) as Hp by by rewrite E. assert (manifests c1 = manifests c) as Hm by by rewrite E.
  eexists v, c1, _. split; [done|]. split; [by apply String.eqb_eq in G2|].
  split; [intros key Hkey; rewrite Hkey in G5; by apply empty_or_eq|]. split; [intros key Hkey; rewrite Hkey in G7; by apply empty_or_eq|].
  split; [done|]. split; [|exact G9]. rewrite Hp. destruct (publishers c !! _) eqn:E1; simpl; rewrite Hm;
    destruct (manifests c !! _) eqn:E2; simpl; rewrite ?Hp, ?Hm, ?lookup_insert_eq, ?E1, ?E2; (split; [|done]);
    intros Hc; (split; [by apply (ok_frame c1)|grow]); rewrite ?Hp, ?Hm; by apply insert_subseteq.
Qed.

Lemma sdk_install_moves a u signed dig s now c row c' :
  InstallVerifiedSDKApp validUUID ValidOrigin CompileSchema builtins decode64 ed25519_verify decode sha256_hex official a u signed dig s now c
    = inr (row, c') → moves c c'.
Proof.
  intros (v & c1 & c2 & Hv & _ & _ & _ & Hi & (Hm & _) & Hp)%sdk_install_inv. apply verify_valid in Hv as (Hd & _).
  etrans; [eapply install_moves; [exact Hi|]|etrans; [exact Hm|by eapply insert_providers_moves]].
  intros d [= <-]. by apply document_unique.
Qed.

(** *** Registering a provider *)

Lemma authority_app authority u c a scopes c' : providerAuthorityTx authority u c = inr ((a, scopes), c') →
  authority = Some a ∧ ∃ app, installed_app c (au_SpaceID a) (au_AppID a) = Some app ∧ au_Generation a = sa_Generation app.
Proof.
  unfold providerAuthorityTx. intros H. tx_require H as a1 Ha. tx_guard H as G1. tx_get H. tx_require H as app Happ. tx_guard H as G2.
  tx_guard H as G3. injection H as <- _ _. split; [done|]. exists app. split; [done|]. by apply andb_true_iff in G2 as [_ G2%Z.eqb_eq].
Qed.

Lemma installed_app_some c s app a : installed_app c s app = Some a → apps c !! (s, app) = Some a ∧ sa_State a = "installed"%string.
Proof. unfold installed_app. intros (x & Hx & H)%bind_Some. apply bind_Some in H as (Hs & _ & H). by injection H as <-. Qed.

Lemma registered_version p app a now old : rg_Version (registered p app a now old) = pv_Version p.
Proof.
  destruct old as [r|]; [|done]. simpl. destruct (negb (rg_Enabled r) || _ || _ || _) eqn:E; [done|].
  apply orb_false_iff in E as [[[_ E]%orb_false_iff _]%orb_false_iff _]. by apply negb_false_iff, Z.eqb_eq in E.
Qed.
Lemma registered_app p app a now old : (∀ r, old = Some r → rg_AppID r = app) → rg_AppID (registered p app a now old) = app.
Proof. intros H. destruct old as [r|]; [|done]. simpl. case_match; simpl; by apply H. Qed.

Lemma register_moves authority u dig p now c x c' :
  RegisterSDKProvider validUUID ValidOrigin CompileSchema builtins authority u dig p now c = inr (x, c') → moves c c'.
Proof.
  unfold RegisterSDKProvider. intros H Hc. tx_read H as [a scopes] G1. tx_guard H as Hvalid. tx_guard H as G2. tx_get H.
  tx_require H as app Happ. tx_require H as d Hd. tx_guard H as G3. tx_guard H as Hin. tx_bind H as y c1 G4. tx_get H. tx_modify H.
  injection H as _ <-. apply insert_provider_moves in G4 as (Hm & Hpv & Happs & Hregs). destruct (Hm Hc) as [Hc1 Hg].
  apply installed_app_some in Happ as [Happ _]. apply bool_decide_eq_true in Hin.
  assert (au_AppID a = app_of (pv_ID p)) as Ha.
  { unfold Contracts.provider_valid in Hvalid. do 8 apply andb_true_iff in Hvalid as [Hvalid _]. apply andb_true_iff in Hvalid as [_ E%String.eqb_eq]. done. }
  rewrite Ha in *. assert (rg_AppID (registered p (app_of (pv_ID p)) app now (registrations c1 !! (u, au_SpaceID a, pv_ID p))) = app_of (pv_ID p)) as Hra.
  { apply registered_app. intros r Hr. by destruct (ok_regs _ Hc1 _ _ _ _ Hr). }
  destruct (set_registration_moves c1 u (au_SpaceID a) (pv_ID p) _ Hra) as [Hc2 Hg2]; [|done|split; [done|by etrans]].
  intros _. exists app, d, p. rewrite registered_version, Happs. done.
Qed.

(** *** Connections *)

Lemma configure_connection_moves a u connection expected c x c' :
  ConfigureSDKBackendConnection validUUID a u connection expected c = inr (x, c') → moves c c'.
Proof.
  unfold ConfigureSDKBackendConnection. intros H Hc. tx_guard H as G1. tx_guard H as G2. tx_get H. tx_guard H as G3. tx_guard H as G4.
  tx_guard H as G5. tx_modify H. tx_guard H as G6. tx_modify H. injection H as _ <-. apply bool_decide_eq_true in G6.
  split; [by apply (ok_frame c)|by grow].
Qed.

Lemma revoke_connection_moves a u app id c x c' : RevokeSDKBackendConnection validUUID a u app id c = inr (x, c') → moves c c'.
Proof.
  unfold RevokeSDKBackendConnection. intros H Hc. tx_guard H as G1. tx_guard H as G2. injection H as _ <-.
  split; [by apply (ok_frame c)|by grow].
Qed.

(** *** Targets *)

Lemma browser_provider_moves u s p c i c' : sdkOfficialBrowserProviderTx u s p c = inr (i, c') → moves c c' ∧ i.1.1 = p.
Proof.
  unfold sdkOfficialBrowserProviderTx. intros H. tx_get H. tx_require H as app Happ. tx_guard H as G1. tx_bind H as y c1 G2.
  injection H as <- <-. split; [|done]. destruct (provider_versions c !! _) eqn:E; [by apply guard_inr in G2 as [_ ->]|].
  injection G2 as _ <-. intros Hc. split; [|by grow]. apply (ok_frame c); [done|done|done|done|simpl; by apply insert_subseteq|done].
Qed.

Lemma installed_provider_moves u s pid n b c i c' : sdkInstalledProviderTx builtins u s pid n b c = inr (i, c') → moves c c'.
Proof.
  unfold sdkInstalledProviderTx. intros H. destruct (OfficialBrowserProvider builtins pid n); [by eapply browser_provider_moves|].
  destruct (String.eqb pid PlannerProviderID); [by apply reads in H as ->|].
  tx_get H. tx_require H as app Happ. tx_require H as p Hp. tx_guard H as G. injection H as _ <-. done.
Qed.

Lemma configure_target_moves a u request c x c' :
  ConfigureSDKTarget validUUID ValidOrigin builtins a u request c = inr (x, c') → moves c c'.
Proof.
  unfold ConfigureSDKTarget. intros H. tx_guard H as G1. tx_guard H as G2. tx_bind H as i c1 G3. destruct i as [[p av] it]. tx_read H as conn G4. tx_get H.
  tx_guard H as G5. tx_guard H as G6. tx_guard H as G7. tx_bind H as y c2 G8. injection H as <- <-.
  etrans; [by eapply installed_provider_moves|]. apply store_target_moves in G8; [done|simpl; lia|done].
Qed.

Lemma revoke_target_moves a u id c x c' : RevokeSDKTarget validUUID a u id c = inr (x, c') → moves c c'.
Proof.
  unfold RevokeSDKTarget. intros H Hc. tx_guard H as G1. tx_guard H as G2. tx_get H.
  destruct (targets c !! (u, id)) as [t|] eqn:Ht; [|by injection H as _ <-]. destruct (negb (tr_Enabled t)); [by injection H as _ <-|].
  tx_guard H as G3. destruct (ok_targets _ Hc _ _ _ Ht) as [Hr [v Hv]]. rewrite Hv in H.
  apply store_target_moves in H; [by apply H|simpl; unfold current_revision; rewrite Ht; lia|].
  by destruct (ok_versions _ Hc _ _ _ _ Hv).
Qed.

Lemma planner_target_moves u s c x c' : ensureSDKPlannerTargetTx builtins planner_id u s c = inr (x, c') → moves c c'.
Proof.
  unfold ensureSDKPlannerTargetTx. intros H Hc. destruct (empty s); [by injection H as _ <-|]. tx_get H.
  destruct (installed_app c s "planner") as [app|]; [|by injection H as _ <-]. destruct (spaces c !! s) as [space|]; [|by injection H as _ <-].
  destruct (negb _); [by injection H as _ <-|]. tx_read H as allowed G1. destruct (negb allowed); [by injection H as _ <-|].
  tx_require H as p Hp. tx_modify H. set (c1 := match provider_versions c !! _ with Some _ => _ | None => _ end) in H.
  assert (moves c c1) as Hm.
  { unfold c1. destruct (provider_versions c !! _) eqn:E; [done|]. intros Hc'. split; [|by grow].
    apply (ok_frame c); [done|done|done|done|simpl; by apply insert_subseteq|done]. }
  assert (targets c1 = targets c ∧ target_versions c1 = target_versions c) as [Et Ev] by (unfold c1; by destruct (provider_versions c !! _)).
  assert (∀ w y c2, store_target u (planner_id u s) true w c1 = inr (y, c2) → current_revision c u (planner_id u s) < tg_Revision (tv_Target w) →
    tv_SpaceID w = tg_SpaceID (tv_Target w) → catalog_ok c2 ∧ grows c c2) as Hstore.
  { intros w y c2 Hw Hlt Hsp. destruct (Hm Hc) as [Hc1 Hg1]. apply store_target_moves in Hw; [|by unfold current_revision; rewrite Et|done].
    destruct (Hw Hc1) as [? Hg2]. split; [done|by etrans]. }
  simpl in H.
  destruct (target_versions c !! _) as [v|] eqn:Hv.
  - destruct (_ && _ && _); [injection H as _ <-; by apply Hm|]. apply Hstore in H; [done|simpl; lia|done].
  - apply Hstore in H; [done| |done]. simpl. unfold current_revision in *. destruct (targets c !! _) as [t|] eqn:Ht; [|lia].
    destruct (ok_targets _ Hc _ _ _ Ht) as [_ [? ?]]. congruence.
Qed.

(** *** Resolution *)

Local Abbreviation resolve := (resolveSDKBoundCapabilityTx validUUID ValidOrigin builtins).

(** What a resolution has looked at when it succeeds. *)
Record resolved (a : option AppExecutionAuthority) (u id : string) (n : Z) (name : string) (ver : Z) (c : Catalog) (b : SDKBoundCapability)
    (v : TargetVersion) (i : Installed) (c' : Catalog) (k : option string) : Prop := {
  rs_version : enabled_version c u id n = Some v;
  rs_bound : b = mkBound u (tv_Target v) i.1.1 (bd_Definition b) (bd_Connection b);
  rs_provider : sdkInstalledProviderTx builtins u (tg_SpaceID (tv_Target v)) (tv_ProviderID v) (tv_ProviderVersion v) true c = inr (i, c');
  rs_current : i.1.2 = tv_AppVersion v ∧ i.2 = tv_InstalledAt v;
  rs_capability : capability_of i.1.1 name ver = Some (bd_Definition b);
  rs_binding : bindingTx validUUID ValidOrigin builtins u (tv_Target v) i.1.1 c' = inr (k, c');
  rs_caller : callerTx a u (tv_Target v) (tv_CallerApps v) (bd_Definition b) c' = inr (tt, c');
  rs_dispatch : dispatchTx validUUID ValidOrigin u v i.1.1 name k c' = inr (bd_Connection b, c');
}.

Lemma resolve_inv a u id n name ver c b c' : resolve a u id n name ver c = inr (b, c') →
  ∃ v i k, resolved a u id n name ver c b v i c' k.
Proof.
  unfold resolveSDKBoundCapabilityTx, resolveSDKBoundCapabilityWithAvailabilityTx. intros H. tx_guard H as G1. tx_get H.
  tx_require H as v Hv. tx_guard H as G2. tx_bind H as i c1 Hi. destruct i as [[p av] it]. tx_guard H as G3. tx_read H as ? G4.
  tx_read H as k Hk. tx_require H as d Hd. tx_read H as ? G5. tx_get H. tx_require H as owner Ho. tx_guard H as G6.
  tx_read H as y Hcall. destruct y. tx_read H as conn Hconn. injection H as <- <-. apply andb_true_iff in G3 as [->%String.eqb_eq ->%Z.eqb_eq].
  by exists v, (p, tv_AppVersion v, tv_InstalledAt v), k.
Qed.

Lemma resolve_moves a u id n name ver c b c' : resolve a u id n name ver c = inr (b, c') → moves c c'.
Proof. intros (v & i & k & H)%resolve_inv. eapply installed_provider_moves, rs_provider, H. Qed.
End moves.
