(* ===== verification/SdkProps.v ===== *)
(** * What holds of apps, providers and targets over time

    The operations of [SpaceApps], [SdkProviders] and [SdkTargets] as steps of the
    catalogue, in any order and by anyone, and what they cannot change: what a
    pinned capability means, that a revoked target stays revoked, the authority an
    app held before its installation changed, who publishes an app, and the
    dependencies between installed apps. *)
From S2P Require Import Prelude Tx GoStrings Json RunStore Contracts SpaceApps SdkProviders SdkTargets SdkInv.

#[local] Set Default Proof Using "Type".

(** Every operation that changes the catalogue.  An official app is installed with
    an entry of the catalogue, which holds no document of a publisher.
    [op_people] is everything the rest of the program does to Spaces, their members,
    their permissions and devices. *)
Inductive sdk_op :=
  | op_install (userID spaceID : string) (spec : AppInstallSpec) (kind : string) (requires : list string) (now : Z)
  | op_remove (userID spaceID appID : string) (now : Z)
  | op_reorder (userID spaceID : string) (ids : list string)
  | op_sdk_install (a : option AppExecutionAuthority) (userID : string) (signed : SignedManifest) (digest spaceID : string) (now : Z)
  | op_register (a : option AppExecutionAuthority) (userID digest : string) (p : Provider) (now : Z)
  | op_unregister (a : option AppExecutionAuthority) (userID providerID : string) (now : Z)
  | op_report (a : option AppExecutionAuthority) (userID providerID : string) (state : Availability) (clock : Z)
  | op_connection (a : option AppExecutionAuthority) (userID : string) (x : SDKBackendConnection) (expected : Z)
  | op_drop_connection (a : option AppExecutionAuthority) (userID appID connectionID : string)
  | op_target (a : option AppExecutionAuthority) (userID : string) (request : TargetConfiguration)
  | op_drop_target (a : option AppExecutionAuthority) (userID targetID : string)
  | op_planner (userID spaceID : string)
  | op_resolve (a : option AppExecutionAuthority) (userID targetID : string) (revision : Z) (name : string) (version : Z)
  | op_people (spaces : gmap string Space) (roles : gmap (string * string) string) (overrides : gmap (string * string * string) string)
      (devices : gset (string * string)).

(** The installation an operation changes the consent of. *)
Class KeepsApps {A} (m : C A) : Prop := keeps_apps c a c' : m c = inr (a, c') → apps c' = apps c.

#[export] Instance keeps_apps_reads {A} (m : C A) : Reads m → KeepsApps m | 5.
Proof. intros Hm c a c' H. by rewrite (reads _ _ _ H). Qed.
#[export] Instance keeps_apps_bind {A B} (m : C A) (f : A → C B) : KeepsApps m → (∀ a, KeepsApps (f a)) → KeepsApps (m ≫= f) | 10.
Proof. intros Hm Hf c b c' H. tx_bind H as a c1 G. apply Hm in G. apply Hf in H. congruence. Qed.
Lemma keeps_apps_modify f : (∀ c, apps (f c) = apps c) → KeepsApps (modify f : C ()).
Proof. intros Hf c a c' [= _ <-]. apply Hf. Qed.

Ltac solve_keeps := repeat first
  [ progress intros | apply _ | case_match | apply keeps_apps_modify; intros; repeat case_match; reflexivity | apply keeps_apps_bind ].

#[export] Instance keeps_store u id e v : KeepsApps (store_target u id e v).
Proof. unfold store_target. solve_keeps. Qed.
#[export] Instance keeps_provider u app p : KeepsApps (insert_provider u app p).
Proof. unfold insert_provider. solve_keeps. Qed.
#[export] Instance keeps_installed builtins u s pid n b : KeepsApps (sdkInstalledProviderTx builtins u s pid n b).
Proof. unfold sdkInstalledProviderTx, sdkOfficialBrowserProviderTx. solve_keeps. Qed.
#[export] Instance keeps_register f g h b a u d p now : KeepsApps (RegisterSDKProvider f g h b a u d p now).
Proof. unfold RegisterSDKProvider. solve_keeps. Qed.
#[export] Instance keeps_unregister a u pid now : KeepsApps (UnregisterSDKProvider a u pid now).
Proof. unfold UnregisterSDKProvider. solve_keeps. Qed.
#[export] Instance keeps_report a u pid st clock : KeepsApps (ReportSDKProviderAvailability a u pid st clock).
Proof. unfold ReportSDKProviderAvailability. solve_keeps. Qed.
#[export] Instance keeps_connection f a u x n : KeepsApps (ConfigureSDKBackendConnection f a u x n).
Proof. unfold ConfigureSDKBackendConnection. solve_keeps. Qed.
#[export] Instance keeps_drop_connection f a u app id : KeepsApps (RevokeSDKBackendConnection f a u app id).
Proof. unfold RevokeSDKBackendConnection. solve_keeps. Qed.
#[export] Instance keeps_target f g b a u r : KeepsApps (ConfigureSDKTarget f g b a u r).
Proof. unfold ConfigureSDKTarget. solve_keeps. Qed.
#[export] Instance keeps_drop_target f a u id : KeepsApps (RevokeSDKTarget f a u id).
Proof. unfold RevokeSDKTarget. solve_keeps. Qed.
#[export] Instance keeps_planner b f u s : KeepsApps (ensureSDKPlannerTargetTx b f u s).
Proof. unfold ensureSDKPlannerTargetTx. solve_keeps. Qed.
#[export] Instance keeps_resolve f g b a u id n name ver : KeepsApps (resolveSDKBoundCapabilityTx f g b a u id n name ver).
Proof. unfold resolveSDKBoundCapabilityTx, resolveSDKBoundCapabilityWithAvailabilityTx. solve_keeps. Qed.

(** ** Dependencies of installed apps *)

Definition app_summary (a : SpaceApp) : string * Z * Metadata := (sa_State a, sa_Generation a, sa_Metadata a).

Definition deps_ok (c : Catalog) : Prop := ∀ s app a dep, installed_app c s app = Some a → dep ∈ md_RequiresApps (sa_Metadata a) →
  dep ≠ app ∧ app_installed c s dep = true.

Lemma installed_iff c s app : app_installed c s app = true ↔ ∃ a, apps c !! (s, app) = Some a ∧ sa_State a = "installed"%string.
Proof.
  unfold app_installed. destruct (apps c !! _) as [a|]; [|naive_solver]. rewrite String.eqb_eq. naive_solver.
Qed.
Lemma installed_app_iff c s app a : installed_app c s app = Some a ↔ apps c !! (s, app) = Some a ∧ sa_State a = "installed"%string.
Proof.
  split; [by apply installed_app_some|]. intros [Ha Hs]. unfold installed_app. rewrite Ha. simpl. by rewrite option_guard_True.
Qed.

Lemma require_all_inr s app l c x c' : require_all s app l c = inr (x, c') → ∀ dep, dep ∈ l → dep ≠ app ∧ app_installed c s dep = true.
Proof.
  revert c. induction l as [|d l IH]; simpl; intros c H dep Hd; [by apply elem_of_nil in Hd|].
  tx_guard H as G1. tx_get H. tx_guard H as G2. apply elem_of_cons in Hd as [->|Hd]; [|by eapply IH].
  by apply negb_true_iff, String.eqb_neq in G1.
Qed.

Lemma no_dependent c s app app' a : has_dependent c s app = false → installed_app c s app' = Some a → app' ≠ app → app ∉ md_RequiresApps (sa_Metadata a).
Proof.
  intros H Ha Hne Hin. apply installed_app_iff in Ha as [Ha Hs]. apply not_true_iff_false in H. apply H, existsb_exists.
  exists ((s, app'), a). split; [by apply list_elem_of_In, elem_of_map_to_list|]. simpl. unfold depends_on, one_of. simpl.
  rewrite String.eqb_refl, Hs, bool_decide_eq_true_2 by done. apply String.eqb_neq in Hne. by rewrite Hne.
Qed.

(** The apps stay the same up to their order. *)
Lemma deps_same c c' : (∀ k, app_summary <$> apps c' !! k = app_summary <$> apps c !! k) → deps_ok c → deps_ok c'.
Proof.
  intros He Hd s app a dep Ha Hin. apply installed_app_iff in Ha as [Ha Hs]. pose proof (He (s, app)) as E. rewrite Ha in E.
  destruct (apps c !! (s, app)) as [a0|] eqn:Ha0; [|done]. injection E as E1 _ E3. rewrite E3 in Hin.
  destruct (Hd s app a0 dep) as [? Hi]; [apply installed_app_iff; split; congruence|done|]. split; [done|].
  apply installed_iff in Hi as (b & Hb & Hbs). pose proof (He (s, dep)) as E. rewrite Hb in E. destruct (apps c' !! (s, dep)) as [b'|] eqn:Hb'; [|done].
  injection E as E _ _. apply installed_iff. exists b'. split; [done|congruence].
Qed.

(** Writing an installed app whose requirements are there. *)
Lemma deps_insert c c' s app row : sa_State row = "installed"%string → apps c' = <[(s, app) := row]> (apps c) →
  (∀ dep, dep ∈ md_RequiresApps (sa_Metadata row) → dep ≠ app ∧ app_installed c s dep = true) → deps_ok c → deps_ok c'.
Proof.
  intros Hrow E Hreq Hd.
  assert (∀ s' x, app_installed c s' x = true → app_installed c' s' x = true) as Hup.
  { intros s' x Hx. apply installed_iff in Hx as (b & Hb & Hbs). apply installed_iff. rewrite E.
    destruct (decide ((s, app) = (s', x))) as [[= <- <-]|]; [rewrite lookup_insert_eq|rewrite lookup_insert_ne by done]; eauto. }
  intros s' app' a dep Ha Hin. apply installed_app_iff in Ha as [Ha Hs]. rewrite E in Ha. apply lookup_insert_Some in Ha as [[[= <- <-] <-]|[_ Ha]].
  - destruct (Hreq dep Hin). eauto.
  - destruct (Hd s' app' a dep) as [? Hi]; [by apply installed_app_iff|done|]. eauto.
Qed.

Lemma deps_remove c c' s app row : sa_State row ≠ "installed"%string → apps c' = <[(s, app) := row]> (apps c) →
  has_dependent c s app = false → deps_ok c → deps_ok c'.
Proof.
  intros Hrow E Hno Hd s' app' a dep Ha Hin. apply installed_app_iff in Ha as [Ha Hs]. rewrite E in Ha.
  apply lookup_insert_Some in Ha as [[_ <-]|[Hne Ha]]; [done|]. assert (installed_app c s' app' = Some a) as Hi by by apply installed_app_iff.
  destruct (Hd s' app' a dep Hi Hin) as [? Hdep]. split; [done|]. apply installed_iff in Hdep as (b & Hb & Hbs). apply installed_iff. rewrite E.
  destruct (decide ((s, app) = (s', dep))) as [[= <- <-]|]; [|rewrite lookup_insert_ne by done; eauto].
  exfalso. eapply no_dependent; [exact Hno|exact Hi| |exact Hin]. by intros ->.
Qed.

Section steps.
Context (validUUID ValidOrigin : string → bool) (CompileSchema : json → bool) (builtins : list CapDefinition).
Context (decode64 : string → option string) (ed25519_verify : string → string → string → bool).
Context (decode : string → option InstallDocument) (sha256_hex : string → string) (official : string → bool).
Context (planner_id : string → string → string).

Local Abbreviation resolve := (resolveSDKBoundCapabilityTx validUUID ValidOrigin builtins).
Local Abbreviation sdk_install := (InstallVerifiedSDKApp validUUID ValidOrigin CompileSchema builtins decode64 ed25519_verify decode sha256_hex official).
Local Abbreviation register := (RegisterSDKProvider validUUID ValidOrigin CompileSchema builtins).
Local Abbreviation configure := (ConfigureSDKTarget validUUID ValidOrigin builtins).
Local Abbreviation Verify := (Verify validUUID ValidOrigin CompileSchema builtins decode64 ed25519_verify decode sha256_hex).

Definition exec (op : sdk_op) : C () :=
  match op with
  | op_install u s spec kind requires now => InstallSpaceApp u s spec (Some (mkMetadata kind requires None "" None)) now;; mret ()
  | op_remove u s app now => RemoveSpaceApp u s app now;; mret ()
  | op_reorder u s ids => ReorderSpaceApps u s ids
  | op_sdk_install a u signed digest s now => sdk_install a u signed digest s now;; mret ()
  | op_register a u digest p now => register a u digest p now;; mret ()
  | op_unregister a u pid now => UnregisterSDKProvider a u pid now
  | op_report a u pid state clock => ReportSDKProviderAvailability a u pid state clock
  | op_connection a u x expected => ConfigureSDKBackendConnection validUUID a u x expected;; mret ()
  | op_drop_connection a u app id => RevokeSDKBackendConnection validUUID a u app id
  | op_target a u request => configure a u request;; mret ()
  | op_drop_target a u id => RevokeSDKTarget validUUID a u id
  | op_planner u s => ensureSDKPlannerTargetTx builtins planner_id u s
  | op_resolve a u id n name ver => resolve a u id n name ver;; mret ()
  | op_people sp ro ov de => modify (λ c, mkCatalog sp ro ov (apps c) (publishers c) (manifests c) (contracts c) (provider_versions c)
      (registrations c) (connections c) (connection_versions c) (targets c) (target_versions c) de)
  end.

(** One committed operation; a rolled back one changes nothing. *)
Definition sdk_step (c c' : Catalog) : Prop := ∃ op, exec op c = inr (tt, c').
Definition sdk_steps : Catalog → Catalog → Prop := rtc sdk_step.

Lemma step_moves c c' : sdk_step c c' → moves c c'.
Proof.
  intros [op H]. destruct op; simpl in H.
  all: try (tx_bind H as y c1 G; injection H as ->).
  - unfold InstallSpaceApp in G. tx_read G as ? G1. tx_require G as m Hm. injection Hm as <-. tx_read G as ? G2.
    eapply install_moves; [exact G|done].
  - intros Hc. by eapply remove_moves.
  - by eapply reorder_all_moves.
  - by eapply sdk_install_moves.
  - by eapply register_moves.
  - by eapply unregister_moves.
  - by eapply report_moves.
  - by eapply configure_connection_moves.
  - by eapply revoke_connection_moves.
  - by eapply configure_target_moves.
  - by eapply revoke_target_moves.
  - by eapply planner_target_moves.
  - by eapply resolve_moves.
  - injection H as <-. intros Hc. split; [by apply (ok_frame c)|by grow].
Qed.

Lemma steps_move c c' : sdk_steps c c' → moves c c'.
Proof. induction 1 as [|c1 c2 c3 H _ IH]; [done|]. etrans; [by apply step_moves|done]. Qed.

(** ** What a pin means *)

Lemma unique_id (l : list Provider) p q : NoDup (pv_ID <$> l) → p ∈ l → q ∈ l → pv_ID p = pv_ID q → p = q.
Proof.
  induction l as [|x l IH]; simpl; [by rewrite elem_of_nil|]. rewrite NoDup_cons, !elem_of_cons. intros [Hx Hl] Hp Hq E.
  destruct Hp as [->|Hp], Hq as [->|Hq]; [done|exfalso; apply Hx|exfalso; apply Hx|by apply IH]; apply list_elem_of_fmap; eauto.
Qed.

(** What the provider of a version of a target is read from: shipped code, or a
    row that is written once. *)
Definition provider_of (c : Catalog) (u pid : string) (n : Z) : option Provider :=
  match OfficialBrowserProvider builtins pid n with
  | Some p => Some p
  | None => if String.eqb pid PlannerProviderID then PlannerProvider builtins else snd <$> provider_versions c !! (u, pid, n)
  end.

Lemma installed_provider_of u s pid n c i c' : catalog_ok c → sdkInstalledProviderTx builtins u s pid n true c = inr (i, c') →
  provider_of c u pid n = Some i.1.1.
Proof.
  intros Hc H. unfold sdkInstalledProviderTx in H. unfold provider_of.
  destruct (OfficialBrowserProvider builtins pid n) as [p|]; [by apply browser_provider_moves in H as [_ ->]|].
  destruct (String.eqb pid PlannerProviderID).
  - unfold sdkPlannerProviderTx in H. tx_require H as p Hp. tx_guard H as G1. tx_get H. tx_require H as app Ha. tx_guard H as G2.
    tx_require H as st Hs. tx_guard H as G3. by injection H as <- _.
  - tx_get H. tx_require H as app Ha. tx_require H as p Hp. tx_guard H as G. injection H as <- _.
    apply andb_true_iff in G as [_ G]. simpl in G. unfold registered_for in G.
    destruct (registrations c !! (u, s, pid)) as [r|] eqn:Hr; [|done]. repeat apply andb_true_iff in G as [G ?]. apply Z.eqb_eq in G.
    destruct (ok_regs _ Hc _ _ _ _ Hr) as [_ Hb]. destruct Hb as (app' & d & q & Ha' & Hd & Hq & Hid & _ & Hpv); [done|].
    apply installed_app_some in Ha as [Ha _]. simplify_eq. rewrite Hpv. simpl. f_equal.
    apply bind_Some in Hp as (d' & Hd' & Hp). simplify_eq.
    apply head_Some_elem_of, list_elem_of_filter in Hp as [[Hid' _] Hp].
    symmetry. eapply unique_id; [by eapply ok_docs|done..|congruence].
Qed.

Lemma provider_of_grows c c' u pid n p : grows c c' → provider_of c u pid n = Some p → provider_of c' u pid n = Some p.
Proof.
  intros Hg. unfold provider_of. destruct (OfficialBrowserProvider builtins pid n); [done|]. destruct (String.eqb pid PlannerProviderID); [done|].
  destruct (provider_versions c !! (u, pid, n)) as [x|] eqn:E; [|done]. intros H. by rewrite (lookup_weaken _ _ _ _ E (gr_providers _ _ Hg)).
Qed.

(** The version a pin selects. *)
Lemma pinned_version c u id n v : 1 <= n → enabled_version c u id n = Some v →
  target_versions c !! (u, id, n) = Some v ∧ ∃ t, targets c !! (u, id) = Some t ∧ tr_Enabled t = true ∧ tr_Revision t = n.
Proof.
  intros Hn. unfold enabled_version. intros (t & Ht & H)%bind_Some. apply bind_Some in H as ([He Hr] & _ & H).
  destruct Hr as [->|Hr]; [lia|]. rewrite Hr in H. eauto.
Qed.

Definition key_of (t : Target) (p : Provider) : option string :=
  if String.eqb (rt_Kind (pv_Route p)) "backend" then ValidateBackend validUUID t p else None.

Lemma binding_key u t p c k c' : bindingTx validUUID ValidOrigin builtins u t p c = inr (k, c') → k = key_of t p.
Proof.
  unfold bindingTx, key_of. destruct (String.eqb _ "server") eqn:E.
  - intros H. apply String.eqb_eq in E. rewrite E. simpl. tx_guard H as G. tx_read H as ? G1. by injection H.
  - destruct (String.eqb _ "backend"); intros H.
    + tx_require H as id Hid. injection H as <- _. done.
    + destruct (String.eqb _ "browser"); [|done]. tx_require H as b Hb. tx_read H as ? G. by injection H.
Qed.

Lemma dispatch_fixed u v p name k c1 c2 x y c1' c2' : connection_versions c1 ⊆ connection_versions c2 →
  dispatchTx validUUID ValidOrigin u v p name k c1 = inr (x, c1') → dispatchTx validUUID ValidOrigin u v p name k c2 = inr (y, c2') → x = y.
Proof.
  unfold dispatchTx. intros Hsub H1 H2. destruct (String.eqb _ "browser").
  { tx_require H1 as a1 G1. tx_require H1 as b1 G2. tx_guard H1 as G3. tx_require H2 as a2 G4. tx_require H2 as b2 G5. tx_guard H2 as G6.
    injection H1 as <- _. by injection H2 as <- _. }
  destruct (String.eqb _ _); [injection H1 as <- _; by injection H2 as <- _|].
  tx_get H1. tx_require H1 as r1 G1. tx_guard H1 as G2. tx_require H1 as v1 G3. injection H1 as <- _.
  tx_get H2. tx_require H2 as r2 G4. tx_guard H2 as G5. tx_require H2 as v2 G6. injection H2 as <- _.
  apply andb_true_iff in G2 as [[_ E1%Z.eqb_eq]%andb_true_iff _]. apply andb_true_iff in G5 as [[_ E2%Z.eqb_eq]%andb_true_iff _].
  rewrite E1, E2 in *. apply (lookup_weaken _ _ _ _ G3) in Hsub. by simplify_eq.
Qed.

(** C16: what a pinned capability means never changes: whenever a target, a revision
    of it, a capability and its version resolve at two moments, for whatever app,
    the target's binding, the provider's declaration, the contract and the
    connection's endpoint and credential are the same, whatever was installed,
    registered, configured or revoked in between. *)
Theorem pinned_capability_fixed u id n name ver a1 a2 c1 c1' c2 c2' b1 b2 :
  catalog_ok c1 → 1 <= n → resolve a1 u id n name ver c1 = inr (b1, c1') → sdk_steps c1' c2 →
  resolve a2 u id n name ver c2 = inr (b2, c2') → b1 = b2.
Proof.
  intros Hc Hn R1 Hs R2. pose proof R1 as Hm1. apply resolve_moves in Hm1. destruct (Hm1 Hc) as [Hc1 Hg1].
  destruct (steps_move _ _ Hs Hc1) as [Hc2 Hg2]. assert (grows c1 c2) as Hg by by etrans.
  pose proof R2 as Hm2. apply resolve_moves in Hm2. destruct (Hm2 Hc2) as [_ Hg3].
  apply resolve_inv in R1 as (v & i1 & k1 & [V1 B1 P1 _ D1 K1 _ N1]), R2 as (v2 & i2 & k2 & [V2 B2 P2 _ D2 K2 _ N2]).
  apply (pinned_version _ _ _ _ _ Hn) in V1 as [V1 _], V2 as [V2 _].
  assert (v2 = v) as -> by (pose proof (lookup_weaken _ _ _ _ V1 (gr_targets _ _ Hg)); congruence).
  assert (i1.1.1 = i2.1.1) as Ep.
  { apply installed_provider_of in P1, P2; [|done..]. apply (provider_of_grows _ _ _ _ _ _ Hg) in P1. congruence. }
  apply binding_key in K1, K2. rewrite <- Ep in *. assert (bd_Definition b1 = bd_Definition b2) as Ed by congruence.
  subst k1 k2. rewrite B1, B2, Ed. f_equal. eapply dispatch_fixed; [|exact N1|exact N2].
  etrans; [apply (gr_connections _ _ Hg2)|apply Hg3].
Qed.

(** ** Revoked targets *)

(** A row that is disabled at a revision no longer answers pins up to it, and takes
    no configuration that expects an older one. *)
Lemma dead_row c c' u id t n : catalog_ok c → sdk_steps c c' → targets c !! (u, id) = Some t → tr_Enabled t = false →
  1 <= n <= tr_Revision t → enabled_version c' u id n = None.
Proof.
  intros Hc Hs Ht He Hn. destruct (steps_move _ _ Hs Hc) as [_ Hg]. destruct (gr_rows _ _ Hg _ _ Ht) as (t' & Ht' & Hle & Hen).
  destruct (enabled_version c' u id n) as [v|] eqn:E; [|done].
  apply pinned_version in E as (_ & t2 & Ht2 & He2 & Hr2); [|lia]. simplify_eq. destruct (Hen He2); [congruence|lia].
Qed.

Lemma disabled_version c u id t n : targets c !! (u, id) = Some t → tr_Enabled t = false → enabled_version c u id n = None.
Proof.
  intros Ht He. destruct (enabled_version c u id n) as [v|] eqn:E; [|done]. apply bind_Some in E as (t' & Ht' & E).
  apply bind_Some in E as ([He' _] & _ & _). congruence.
Qed.

Lemma current_grows c c' u id t : grows c c' → targets c !! (u, id) = Some t → tr_Revision t <= current_revision c' u id.
Proof. intros Hg Ht. destruct (gr_rows _ _ Hg _ _ Ht) as (t' & Ht' & Hle & _). unfold current_revision. by rewrite Ht'. Qed.

Lemma unresolved a u id n name ver c r : enabled_version c u id n = None → resolve a u id n name ver c ≠ inr r.
Proof. intros H R. destruct r as [b c']. apply resolve_inv in R as (v & i & k & R). apply rs_version in R. congruence. Qed.

Lemma configured_expects a u req c x c' : configure a u req c = inr (x, c') → catalog_ok c →
  ∃ c1, grows c c1 ∧ current_revision c1 u (cf_TargetID req) = cf_ExpectedRevision req.
Proof.
  unfold ConfigureSDKTarget. intros H Hc. tx_guard H as G1. tx_guard H as G2. tx_bind H as i c1 G3. destruct i as [[p av] it].
  tx_read H as conn G4. tx_get H. tx_guard H as G5. tx_guard H as G6. apply installed_provider_moves in G3. exists c1.
  split; [by apply G3|by apply Z.eqb_eq].
Qed.

Lemma revoke_target_row a u id c t c' : RevokeSDKTarget validUUID a u id c = inr (tt, c') → targets c !! (u, id) = Some t →
  tr_Enabled t = true → targets c' !! (u, id) = Some (mkRow (tr_Revision t + 1) false) ∨ target_versions c !! (u, id, tr_Revision t) = None.
Proof.
  unfold RevokeSDKTarget. intros H Ht He. tx_guard H as G1. tx_guard H as G2. tx_get H. rewrite Ht, He in H. simpl in H. tx_guard H as G3.
  destruct (target_versions c !! _) as [v|]; [left|by right]. unfold store_target in H. tx_modify H. tx_get H. tx_guard H as G4.
  injection H as <-. simpl. by rewrite lookup_insert_eq.
Qed.

(** C17: a revoked target stays revoked for everything that was set up before: no pin
    of a revision up to the revocation's resolves again, for the user or any app, and
    no configuration that was prepared from a revision before the revocation is
    accepted, whatever happens in between. *)
Theorem revoked_target_dead a u id t c c1 c2 : catalog_ok c → targets c !! (u, id) = Some t → tr_Enabled t = true →
  RevokeSDKTarget validUUID a u id c = inr (tt, c1) → sdk_steps c1 c2 →
  (∀ b n name ver r, 1 <= n <= tr_Revision t + 1 → resolve b u id n name ver c2 ≠ inr r) ∧
  (∀ b req r, cf_TargetID req = id → cf_ExpectedRevision req <= tr_Revision t → configure b u req c2 ≠ inr r).
Proof.
  intros Hc Ht He H Hs. pose proof H as Hm. apply revoke_target_moves in Hm. destruct (Hm Hc) as [Hc1 Hg1].
  destruct (steps_move _ _ Hs Hc1) as [Hc2 Hg2].
  destruct (revoke_target_row _ _ _ _ _ _ H Ht He) as [Hrow|Hnone]; [|destruct (ok_targets _ Hc _ _ _ Ht) as [_ [? ?]]; congruence].
  split.
  - intros b n name ver r Hn. apply unresolved. by apply (dead_row c1 c2 u id (mkRow (tr_Revision t + 1) false)).
  - intros b req [x c3] <- Hle Hconf. apply configured_expects in Hconf as (c4 & Hg & Hcur); [|done].
    assert (grows c1 c4) as Hg4 by by etrans. pose proof (current_grows _ _ _ _ _ Hg4 Hrow) as Hcur'. simpl in Hcur'. lia.
Qed.

(** Removing an app from a Space revokes the targets it has there, of every
    member, at once and for good: right after it nothing resolves them, and no pin of
    the revision they had, or an earlier one, resolves again, even when the app is
    installed again and the targets are configured again. *)
Theorem removal_revokes u s app now c row c1 c2 o id t v : catalog_ok c → s ≠ ""%string →
  RemoveSpaceApp u s app now c = inr (row, c1) → sdk_steps c1 c2 →
  targets c !! (o, id) = Some t → target_versions c !! (o, id, tr_Revision t) = Some v → tv_SpaceID v = s → tg_AppID (tv_Target v) = app →
  (∀ a n name ver r, resolve a o id n name ver c1 ≠ inr r) ∧
  (∀ a n name ver r, 1 <= n <= tr_Revision t → resolve a o id n name ver c2 ≠ inr r).
Proof.
  intros Hc Hs H Hsteps Ht Hv Hsp Happ. pose proof (remove_moves _ _ _ _ _ _ _ H Hc) as [Hc1 _].
  apply remove_eq in H as (a0 & _ & _ & _ & ->).
  assert (targets (revoked s app (set_apps (<[(s, app) := row]> (apps c)) c)) !! (o, id) = Some (disable_target t)) as Hrow.
  { rewrite revoked_target. simpl. rewrite Ht. simpl. unfold target_of_app. simpl. rewrite Hv. unfold empty.
    by rewrite bool_decide_eq_false_2, Hsp, Happ, !String.eqb_refl by (by rewrite Hsp). }
  split; intros a n name ver r.
  - apply unresolved, disabled_version with (disable_target t); done.
  - intros Hn. apply unresolved. by eapply dead_row.
Qed.

(** ** Installations *)

(** What an operation does to the installations. *)
Definition sdk_metadata (signed : SignedManifest) (v : VerifiedManifest) : Metadata :=
  mkMetadata "sdk" [] (Some signed) (vm_Digest v) (Some (vm_Document v)).

Definition apps_change (op : sdk_op) (c c' : Catalog) : Prop :=
  match op with
  | op_install _ s spec kind requires now => require_all s (is_ID spec) requires c = inr (tt, c) ∧
      apps c' = <[(s, is_ID spec) := installed_row spec (mkMetadata kind requires None "" None) now (next_rank s (apps c)) (apps c !! (s, is_ID spec))]> (apps c)
  | op_remove _ s app now => ∃ a, apps c !! (s, app) = Some a ∧ has_dependent c s app = false ∧ apps c' = <[(s, app) := removed_row now a]> (apps c)
  | op_reorder _ _ _ => ∀ k, app_summary <$> apps c' !! k = app_summary <$> apps c !! k
  | op_sdk_install _ _ signed _ s now => ∃ v, Verify signed = Some v ∧ let spec := spec_of (vm_Document v) in
      apps c' = <[(s, is_ID spec) := installed_row spec (sdk_metadata signed v) now (next_rank s (apps c)) (apps c !! (s, is_ID spec))]> (apps c)
  | _ => apps c' = apps c
  end.

Lemma reorder_summary s seen i ids c x c' : reorder s seen i ids c = inr (x, c') → ∀ k, app_summary <$> apps c' !! k = app_summary <$> apps c !! k.
Proof.
  revert seen i c. induction ids as [|id ids IH]; simpl; intros seen i c H k; [by injection H as <- <-|].
  tx_guard H as G1. tx_get H. tx_guard H as G2. tx_modify H. rewrite (IH _ _ _ H k). simpl.
  destruct (decide ((s, id) = k)) as [<-|]; [|by rewrite lookup_alter_ne]. rewrite lookup_alter_eq. by destruct (apps c !! _).
Qed.

Lemma exec_apps op c c' : exec op c = inr (tt, c') → apps_change op c c'.
Proof.
  intros H. destruct op; simpl; simpl in H; try exact (keeps_apps _ _ _ H).
  - tx_bind H as y c1 G. injection H as ->. unfold InstallSpaceApp in G. tx_read G as ? G1. tx_require G as m Hm. injection Hm as <-.
    tx_read G as z G2. destruct z. split; [done|]. by apply install_eq in G as [-> ->].
  - tx_bind H as y c1 G. injection H as ->. apply remove_eq in G as (a & Ha & -> & Hd & ->). eauto.
  - unfold ReorderSpaceApps in H. tx_read H as ? G0. tx_get H. tx_guard H as G1. by eapply reorder_summary.
  - tx_bind H as y c1 G. injection H as ->. apply sdk_install_inv in G as (v & c2 & c3 & Hv & _ & _ & _ & Hi & (_ & E & _) & Hp).
    exists v. split; [done|]. apply insert_providers_moves in Hp as [_ ->]. rewrite E. by apply install_eq in Hi as [-> ->].
  - by injection H as <-.
Qed.

(** *** Authority captured before *)

(** The installation whose consent an operation replaces. *)
Definition consent_of (op : sdk_op) : option (string * string) :=
  match op with
  | op_install _ s spec _ _ _ => Some (s, is_ID spec)
  | op_remove _ s app _ => Some (s, app)
  | op_sdk_install _ _ signed _ s _ => (λ v, (s, doc_AppID (vm_Document v))) <$> Verify signed
  | _ => None
  end.

Lemma consent_changes op k c c' a : exec op c = inr (tt, c') → consent_of op = Some k → apps c !! k = Some a →
  ∃ a', apps c' !! k = Some a' ∧ sa_Generation a' = sa_Generation a + 1.
Proof.
  intros H Hk Ha. apply exec_apps in H. destruct op; simpl in *; try done.
  - injection Hk as <-. destruct H as [_ ->]. rewrite lookup_insert_eq. eexists. split; [done|]. by rewrite installed_generation, Ha.
  - injection Hk as <-. destruct H as (a0 & Ha0 & _ & ->). simplify_eq. rewrite lookup_insert_eq. by eexists.
  - destruct H as (v & Hv & ->). rewrite Hv in Hk. injection Hk as <-. rewrite lookup_insert_eq. eexists. split; [done|].
    by rewrite installed_generation, Ha.
Qed.

(** An authority of an older generation is good for nothing. *)
Lemma stale_authority a u c r row : apps c !! (au_SpaceID a, au_AppID a) = Some row → au_Generation a ≠ sa_Generation row →
  providerAuthorityTx (Some a) u c ≠ inr r.
Proof.
  intros Hrow Hne H. destruct r as [[a' sc] c']. apply authority_app in H as ([= <-] & app & Happ & Hg).
  apply installed_app_some in Happ as [Happ _]. by simplify_eq.
Qed.

Lemma stale_caller a u t l d c r row : apps c !! (au_SpaceID a, au_AppID a) = Some row → au_Generation a ≠ sa_Generation row →
  callerTx (Some a) u t l d c ≠ inr r.
Proof.
  intros Hrow Hne H. destruct r as [x c']. unfold callerTx in H. tx_guard H as G1. tx_get H. tx_require H as app Happ. tx_guard H as G2.
  apply installed_app_some in Happ as [Happ _]. apply andb_true_iff in G2 as [_ G2%Z.eqb_eq]. by simplify_eq.
Qed.

(** An installation or removal of an app ends every authority of that app given
    out before: for whatever the app captured under an earlier consent, the
    resolution of a capability, the registration and withdrawal of a provider and the
    report of its availability all fail from then on, also after the app is installed
    again with the same scopes. *)
Theorem consent_change_revokes a op c c1 c2 row : catalog_ok c → apps c !! (au_SpaceID a, au_AppID a) = Some row →
  au_Generation a <= sa_Generation row → exec op c = inr (tt, c1) → consent_of op = Some (au_SpaceID a, au_AppID a) → sdk_steps c1 c2 →
  (∀ u id n name ver r, resolve (Some a) u id n name ver c2 ≠ inr r) ∧
  (∀ u digest p now r, register (Some a) u digest p now c2 ≠ inr r) ∧
  (∀ u pid now r, UnregisterSDKProvider (Some a) u pid now c2 ≠ inr r) ∧
  (∀ u pid state clock r, ReportSDKProviderAvailability (Some a) u pid state clock c2 ≠ inr r).
Proof.
  intros Hc Hrow Hle H Hk Hs. assert (sdk_step c c1) as Hstep by by exists op. destruct (step_moves _ _ Hstep Hc) as [Hc1 _].
  destruct (consent_changes _ _ _ _ _ H Hk Hrow) as (row1 & Hrow1 & Hg1). destruct (steps_move _ _ Hs Hc1) as [Hc2 Hg].
  destruct (gr_apps _ _ Hg _ _ Hrow1) as (row2 & Hrow2 & Hg2). assert (au_Generation a ≠ sa_Generation row2) as Hne by lia.
  split; [|split; [|split]].
  - intros u id n name ver [b c3] R. apply resolve_inv in R as (v & i & k & [_ _ P _ _ _ R _]).
    eapply stale_caller; [|exact Hne|exact R]. by rewrite (keeps_apps _ _ _ P).
  - intros u d p now r R. unfold RegisterSDKProvider in R. tx_read R as x G. by eapply stale_authority.
  - intros u pid now r R. unfold UnregisterSDKProvider in R. tx_read R as x G. by eapply stale_authority.
  - intros u pid st clock r R. unfold ReportSDKProviderAvailability in R. tx_guard R as G1. tx_read R as y G. by eapply stale_authority.
Qed.

(** *** Dependencies *)

Lemma deps_step c c' : sdk_step c c' → deps_ok c → deps_ok c'.
Proof.
  intros [op H] Hd. apply exec_apps in H. destruct op; simpl in H; try (eapply deps_same; [|exact Hd]; intros k; by rewrite H).
  - destruct H as [Hreq E]. eapply deps_insert; [|exact E| |done]; [by destruct (apps c !! _)|]. rewrite installed_metadata. simpl.
    by eapply require_all_inr.
  - destruct H as (a & _ & Hno & E). by eapply deps_remove; [|exact E| |].
  - destruct H as (v & _ & E). eapply deps_insert; [|exact E| |done]; [by destruct (apps c !! _)|]. rewrite installed_metadata. simpl.
    intros dep Hin. by apply elem_of_nil in Hin.
Qed.

(** The apps another installed app of the Space requires are installed, and no
    app requires itself: an invariant of every operation on the catalogue. *)
Theorem dependencies_closed c c' : deps_ok c → sdk_steps c c' → deps_ok c'.
Proof. intros Hd Hs. induction Hs as [|c1 c2 c3 H _ IH]; [done|]. by apply IH, (deps_step c1). Qed.

(** *** Publishers *)

(** What an installation leaves behind about the publisher and the version. *)
Lemma sdk_install_records a u signed v dig s now c row c' : Verify signed = Some v → catalog_ok c →
  publishers c !! (u, doc_AppID (vm_Document v)) ≠ Some ""%string →
  manifests c !! (u, doc_AppID (vm_Document v), doc_Version (vm_Document v)) ≠ Some ""%string →
  sdk_install a u signed dig s now c = inr (row, c') →
  publishers c' !! (u, doc_AppID (vm_Document v)) = Some (vm_PublicKey v) ∧
  manifests c' !! (u, doc_AppID (vm_Document v), doc_Version (vm_Document v)) = Some (vm_Digest v).
Proof.
  intros V Hc Hpub Hman H. apply sdk_install_inv in H as (w & c1 & c2 & W & _ & K & M & I & (Hm & _ & P & D) & Ip). simplify_eq.
  assert (moves c c1) as Hm1.
  { eapply install_moves; [exact I|]. intros d [= <-]. apply verify_valid in V as [V _]. by eapply document_unique. }
  destruct (Hm1 Hc) as [Hc1 _]. destruct (Hm Hc1) as [Hc2 _]. destruct (insert_providers_moves _ _ _ _ _ _ Ip) as [Hm3 _].
  destruct (Hm3 Hc2) as [_ Hg].
  rewrite (lookup_weaken _ _ _ _ P (gr_publishers _ _ Hg)), (lookup_weaken _ _ _ _ D (gr_manifests _ _ Hg)).
  destruct (publishers c !! _) as [k|], (manifests c !! _) as [m|]; simpl; repeat split; f_equal;
    try (destruct (K _ eq_refl) as [->|?]; [done|congruence]); (destruct (M _ eq_refl) as [->|?]; [done|congruence]).
Qed.



(** An app keeps its publisher and a version its content: two installations of
    an SDK app by the same user, into whatever Spaces and whatever happens in
    between, carry the same publisher's key, and the same document when the version
    is the same. *)
Theorem publisher_fixed u a1 a2 signed1 signed2 v1 v2 g1 g2 s1 s2 now1 now2 c1 c1' c2 c2' r1 r2 :
  (∀ text, sha256_hex text ≠ ""%string) → (∀ k, publishers c1 !! k ≠ Some ""%string) → (∀ k, manifests c1 !! k ≠ Some ""%string) →
  catalog_ok c1 → Verify signed1 = Some v1 → Verify signed2 = Some v2 →
  doc_AppID (vm_Document v1) = doc_AppID (vm_Document v2) →
  sdk_install a1 u signed1 g1 s1 now1 c1 = inr (r1, c1') → sdk_steps c1' c2 → sdk_install a2 u signed2 g2 s2 now2 c2 = inr (r2, c2') →
  vm_PublicKey v1 = vm_PublicKey v2 ∧
  (doc_Version (vm_Document v1) = doc_Version (vm_Document v2) → vm_Digest v1 = vm_Digest v2).
Proof.
  intros Hsha Hpub Hman Hc V1 V2 Eapp H1 Hs H2. pose proof (sdk_install_moves _ _ _ _ _ _ _ _ _ _ _ _ _ _ _ _ _ _ H1 Hc) as [Hc1 _].
  destruct (steps_move _ _ Hs Hc1) as [_ Hg]. destruct (sdk_install_records _ _ _ _ _ _ _ _ _ _ V1 Hc (Hpub _) (Hman _) H1) as [P D].
  apply (lookup_weaken _ _ _ _) with (2 := gr_publishers _ _ Hg) in P. apply (lookup_weaken _ _ _ _) with (2 := gr_manifests _ _ Hg) in D.
  apply sdk_install_inv in H2 as (w & c5 & c6 & W & _ & K & M & _). simplify_eq. apply verify_valid in V1 as (_ & Hlen & Hdig).
  rewrite <- Eapp in K, M. split.
  - destruct (K _ P) as [E|E]; [by rewrite E in Hlen|done].
  - intros E. rewrite <- E in M. destruct (M _ D) as [E2|E2]; [|done].
    by destruct (Hsha (sm_Document signed1)); rewrite <- Hdig.
Qed.
End steps.

(** ** An app with a backend, installed, offered and bound *)

#[local] Open Scope string_scope.

Definition w_capability : CapDefinition :=
  mkDefinition "acme.do" 1 "Does it" (JObj []) (JObj []) ["acme.write"] (mkEffects "write" [] "scoped" "never").
Definition w_provider : Provider := mkProvider "acme/work" 1 "Acme" (mkRoute "backend" "" 0 [] [] "conn" "") [w_capability].
Definition w_document (version : string) : InstallDocument :=
  mkDocument "acme" version 1 ["acme.write"; "capabilities.providers.write"] 1 [w_provider].
Definition w_key : string := "0123456789abcdef0123456789abcdef".
Definition w_signed (version : string) : SignedManifest := mkSigned version w_key (w_key +:+ w_key).
Definition w_uuid (s : string) : bool := negb (empty s).

Definition w_exec : sdk_op → C () :=
  exec w_uuid (λ _, true) (λ _, true) [] Some (λ _ _ _, true) (λ text, Some (w_document text)) (λ text, "sha256:" +:+ text) (λ _, false)
    (λ u s, u +:+ s).
Definition w_resolve := resolveSDKBoundCapabilityTx w_uuid (λ _, true) [].
Definition w_configure := ConfigureSDKTarget w_uuid (λ _, true) [].

Fixpoint play (ops : list sdk_op) (c : Catalog) : Catalog :=
  match ops with
  | [] => c
  | op :: ops => match w_exec op c with inr (_, c') => play ops c' | inl _ => c end
  end.

Definition w_start : Catalog :=
  mkCatalog {["s" := mkSpace true "Space"]} {[("s", "u") := "owner"; ("s", "v") := "member"]} ∅ ∅ ∅ ∅ ∅ ∅ ∅ ∅ ∅ ∅ ∅ ∅.
Definition w_authority (generation : Z) : AppExecutionAuthority :=
  mkAuthority generation "acme" "u" "s" ["acme.write"; "capabilities.providers.write"].

Definition w_install (version : string) : sdk_op := op_sdk_install None "u" (w_signed version) ("sha256:" +:+ version) "s" 100.
Definition w_target (expected : Z) : sdk_op :=
  op_target None "u" (mkConfiguration None "t" expected "acme/work" 1 "s" "Acme" ["acme.do"] ["acme"]).
Definition w_offer (generation : Z) : list sdk_op :=
  [op_register (Some (w_authority generation)) "u" "sha256:1.0" w_provider 100;
   op_report (Some (w_authority generation)) "u" "acme/work" (mkAvailability "available" 200 "") 200].
Definition w_setup : list sdk_op :=
  w_install "1.0" :: w_offer 1 ++ [op_connection None "u" (mkBackend "s" "u" "acme" "conn" "https://acme.test" w_key 1) 0; w_target 0].

(** The app is set up; then removed; then installed, offered and bound again. *)
Definition w_bound : Catalog := play w_setup w_start.
Definition w_revoked : Catalog := play [op_drop_target None "u" "t"] w_bound.
Definition w_removed : Catalog := play [op_remove "u" "s" "acme" 300] w_bound.
Definition w_again : Catalog := play (w_install "1.0" :: w_offer 3 ++ [w_target 1]) w_removed.
Definition w_rebound : Catalog := play [w_target 2] w_revoked.

(** What the user's own pin resolves to. *)
Definition w_capability_at (c : Catalog) (revision : Z) : option SDKBoundCapability :=
  match w_resolve None "u" "t" revision "acme.do" 1 c with inr (b, _) => Some b | inl _ => None end.

(** Everything succeeds, and the pin of the first revision ends with the removal. *)
Example w_scenario :
  is_Some (w_capability_at w_bound 1) ∧ w_capability_at w_removed 0 = None ∧ w_capability_at w_again 1 = None ∧
  is_Some (w_capability_at w_again 2) ∧ is_Some (w_capability_at w_rebound 3).
Proof. vm_compute. eauto 10. Qed.

Lemma play_steps ops c : sdk_steps w_uuid (λ _, true) (λ _, true) [] Some (λ _ _ _, true) (λ text, Some (w_document text))
  (λ text, "sha256:" +:+ text) (λ _, false) (λ u s, u +:+ s) c (play ops c).
Proof.
  revert c. induction ops as [|op ops IH]; intros c; simpl; [done|]. destruct (w_exec op c) as [e|[[] c1]] eqn:H; [done|].
  eapply rtc_l; [by exists op|apply IH].
Qed.

Lemma start_ok : catalog_ok w_start.
Proof.
  split; simpl; [intros u id t H|intros u id n v H|intros k a d H|intros u s pid r H]; by rewrite lookup_empty in H.
Qed.
Lemma play_ok ops c : catalog_ok c → catalog_ok (play ops c).
Proof. intros Hc. eapply steps_move; [apply play_steps|done]. Qed.

Definition w_later : Catalog :=
  play [op_reorder "u" "s" ["acme"]; op_report (Some (w_authority 1)) "u" "acme/work" (mkAvailability "available" 300 "") 300;
        op_target None "u" (mkConfiguration None "t2" 0 "acme/work" 1 "s" "Other" ["acme.do"] [])] w_bound.

Lemma w_resolves : (∃ b, w_resolve None "u" "t" 1 "acme.do" 1 w_bound = inr (b, w_bound)) ∧
  (∃ b, w_resolve (Some (w_authority 1)) "u" "t" 1 "acme.do" 1 w_later = inr (b, w_later)).
Proof. split; eexists; vm_compute; reflexivity. Qed.
Lemma w_drops : RevokeSDKTarget w_uuid None "u" "t" w_bound = inr (tt, w_revoked) ∧
  (∃ row, RemoveSpaceApp "u" "s" "acme" 300 w_bound = inr (row, w_removed)) ∧ w_exec (op_remove "u" "s" "acme" 300) w_bound = inr (tt, w_removed).
Proof. split; [|split; [eexists|]]; vm_compute; reflexivity. Qed.
Lemma w_rows : targets w_bound !! ("u", "t") = Some (mkRow 1 true) ∧
  (∃ v, target_versions w_bound !! ("u", "t", 1) = Some v ∧ tv_SpaceID v = "s" ∧ tg_AppID (tv_Target v) = "acme") ∧
  (∃ row, apps w_bound !! ("s", "acme") = Some row ∧ sa_Generation row = 1).
Proof. split; [|split; eexists]; vm_compute; repeat split. Qed.

Lemma pinned_capability_fixed_witness : ∃ b1 b2,
  w_resolve None "u" "t" 1 "acme.do" 1 w_bound = inr (b1, w_bound) ∧
  w_resolve (Some (w_authority 1)) "u" "t" 1 "acme.do" 1 w_later = inr (b2, w_later) ∧ b1 = b2.
Proof.
  destruct w_resolves as [[b1 E1] [b2 E2]].
  exists b1, b2. split; [exact E1|]. split; [exact E2|].
  eapply (pinned_capability_fixed w_uuid (λ _, true)) with (n := 1) (c1 := w_bound) (c2 := w_later)
    (builtins := []) (a1 := None) (a2 := Some (w_authority 1)) (u := "u") (id := "t") (name := "acme.do") (ver := 1) (c1' := w_bound) (c2' := w_later).
  - apply (play_ok w_setup), start_ok.
  - lia.
  - exact E1.
  - unfold w_later. apply play_steps.
  - exact E2.
Defined.

Lemma revoked_target_dead_witness :
  (∀ b n name ver r, 1 <= n <= 2 → w_resolve b "u" "t" n name ver w_rebound ≠ inr r) ∧
  (∀ b req r, cf_TargetID req = "t" → cf_ExpectedRevision req <= 1 → w_configure b "u" req w_rebound ≠ inr r).
Proof.
  destruct w_rows as [Ht _]. destruct w_drops as [Hr _].
  eapply (revoked_target_dead w_uuid (λ _, true)) with (t := mkRow 1 true) (c := w_bound) (c1 := w_revoked).
  - apply (play_ok w_setup), start_ok.
  - exact Ht.
  - reflexivity.
  - exact Hr.
  - unfold w_rebound. apply play_steps.
Defined.

Lemma removal_revokes_witness :
  (∀ a n name ver r, w_resolve a "u" "t" n name ver w_removed ≠ inr r) ∧
  (∀ a n name ver r, 1 <= n <= 1 → w_resolve a "u" "t" n name ver w_again ≠ inr r).
Proof.
  destruct w_rows as (Ht & (v & Hv & Hs & Ha) & _). destruct w_drops as (_ & [row Hr] & _).
  eapply (removal_revokes w_uuid (λ _, true)) with (t := mkRow 1 true) (c := w_bound) (c1 := w_removed).
  - apply (play_ok w_setup), start_ok.
  - assert ("s" ≠ "") as Hne by done. exact Hne.
  - exact Hr.
  - unfold w_again. apply play_steps.
  - exact Ht.
  - exact Hv.
  - exact Hs.
  - exact Ha.
Defined.

Lemma consent_change_revokes_witness :
  (∀ u id n name ver r, w_resolve (Some (w_authority 1)) u id n name ver w_again ≠ inr r) ∧
  (∀ u digest p now r, RegisterSDKProvider w_uuid (λ _, true) (λ _, true) [] (Some (w_authority 1)) u digest p now w_again ≠ inr r) ∧
  (∀ u pid now r, UnregisterSDKProvider (Some (w_authority 1)) u pid now w_again ≠ inr r) ∧
  (∀ u pid state clock r, ReportSDKProviderAvailability (Some (w_authority 1)) u pid state clock w_again ≠ inr r).
Proof.
  destruct w_rows as (_ & _ & row & Hrow & Hg). destruct w_drops as (_ & _ & Hr).
  eapply (consent_change_revokes w_uuid (λ _, true) (λ _, true)) with (c := w_bound) (c1 := w_removed) (row := row).
  - apply (play_ok w_setup), start_ok.
  - exact Hrow.
  - rewrite Hg. unfold w_authority. simpl. lia.
  - exact Hr.
  - reflexivity.
  - unfold w_again. apply play_steps.
Defined.

Lemma dependencies_closed_witness :
  deps_ok (play [op_install "u" "s" (mkSpec "chat" "1" 1 []) "official" [] 1; op_install "u" "s" (mkSpec "notes" "1" 1 []) "official" ["chat"] 2;
                 op_remove "u" "s" "chat" 3] w_start).
Proof.
  eapply dependencies_closed; [|apply play_steps]. intros s app a dep Ha. unfold installed_app in Ha. simpl in Ha. by rewrite lookup_empty in Ha.
Defined.

Definition w_verified (version : string) : VerifiedManifest := mkVerified (w_document version) ("sha256:" +:+ version) w_key.
Definition w_sdk_install (version : string) : C SpaceApp :=
  InstallVerifiedSDKApp w_uuid (λ _, true) (λ _, true) [] Some (λ _ _ _, true) (λ text, Some (w_document text)) (λ text, "sha256:" +:+ text)
    (λ _, false) None "u" (w_signed version) ("sha256:" +:+ version) "s" 100.

Lemma w_verifies version : version = "1.0" ∨ version = "2.0" →
  Verify w_uuid (λ _, true) (λ _, true) [] Some (λ _ _ _, true) (λ text, Some (w_document text)) (λ text, "sha256:" +:+ text)
    (w_signed version) = Some (w_verified version).
Proof. intros [->| ->]; vm_compute; reflexivity. Qed.

Lemma w_installs : (∃ r c, w_sdk_install "1.0" w_start = inr (r, c) ∧ c = play [w_install "1.0"] w_start) ∧
  w_bound = play (tail w_setup) (play [w_install "1.0"] w_start) ∧ ∃ r c, w_sdk_install "2.0" w_bound = inr (r, c).
Proof. split; [eexists _, _; vm_compute; split; reflexivity|]. split; [|eexists _, _]; vm_compute; reflexivity. Qed.

Lemma publisher_fixed_witness : vm_PublicKey (w_verified "1.0") = vm_PublicKey (w_verified "2.0") ∧ ("1.0" = "2.0" → "sha256:1.0" = "sha256:2.0").
Proof.
  destruct w_installs as ((r1 & c1 & H1 & E1) & Eb & r2 & c2 & H2).
  eapply (publisher_fixed w_uuid (λ _, true) (λ _, true) [] Some (λ _ _ _, true) (λ text, Some (w_document text)) (λ text, "sha256:" +:+ text)
    (λ _, false) (λ u s, u +:+ s)) with (c1 := w_start) (c1' := c1) (c2 := w_bound) (v1 := w_verified "1.0") (v2 := w_verified "2.0").
  - intros text H. discriminate H.
  - intros k H. discriminate H.
  - intros k H. discriminate H.
  - apply start_ok.
  - apply w_verifies. left. reflexivity.
  - apply w_verifies. right. reflexivity.
  - reflexivity.
  - exact H1.
  - rewrite E1, Eb. apply play_steps.
  - exact H2.
Defined.
