(* ===== verification/BrowserActions.v ===== *)
(** * Host adapters of browser capabilities

    Models the data of [internal/browseractions/executor.go] and the adapters of
    [pilot.go]: what a page shows, what a review fixes, how an adapter prepares an
    effect, which control commits it and what it accepts as evidence.

    A page arrives decoded.  A JSON object is its list of fields in the order in
    which [json.Marshal] writes a map, by name.  Parameters: [hash], the SHA-256 of
    a value's canonical text in hexadecimal, and [rfc3339], which prints a time. *)
From S2P Require Import Prelude GoStrings Json Contracts.

(** ** Errors *)

(** The sentinels that [errors.Is] and [errors.As] look for. *)
Inductive sentinel :=
  | ErrStale
  | ErrUncertain
  | ErrReviewChanged
  | ErrUnsupported
  | ErrInvalid
  | Intervention (action reason : string)
  | ErrNotAttempted
  | ErrUnknown
  | ErrOther (text : string).

#[export] Instance sentinel_eq_dec : EqDecision sentinel.
Proof. solve_decision. Defined.

(** An error is the sentinels it wraps; [errors.Join] puts them together. *)
Definition berror : Type := list sentinel.
Definition is_err (x : sentinel) (e : berror) : bool := bool_decide (x ∈ e).
Definition is_intervention (e : berror) : bool := existsb (λ x, match x with Intervention _ _ => true | _ => false end) e.

(** ** What a page shows *)

Record Element := mkElement { el_Ref : string; el_Tag : string; el_Role : string; el_Name : string }.
Record Recipient := mkRecipient { rc_Address : string; rc_DisplayName : string }.

(** A slice may be missing, which [json.Marshal] tells from empty. *)
Record Draft := mkDraft {
  dr_Reference : string; dr_Thread : string; dr_Text : string; dr_Subject : string; dr_Recipients : option (list Recipient) }.
Record Destination := mkDestination { ds_TargetID : string; ds_ContainerReference : string; ds_Label : string }.
Record Source := mkSource { sc_Reference : string; sc_Label : string }.
Record Task := mkTask {
  tk_Reference : string; tk_Destination : Destination; tk_Title : string; tk_Text : string; tk_DueDate : string; tk_Source : Source }.

Record Observation := mkObservation {
  ob_Adapter : string; ob_Version : Z; ob_Account : string; ob_Thread : string; ob_Subject : string; ob_Message : string; ob_Text : string;
  ob_Recipients : option (list Recipient); ob_Draft : option Draft; ob_Task : option Task; ob_Sent : option Draft }.

Record PageTarget := mkPageTarget {
  pt_ScopeID : string; pt_ProfileID : string; pt_Origin : string; pt_Authentication : string; pt_Trust : string }.
Record Page := mkPage {
  pg_DocumentID : string; pg_URL : string; pg_Text : string; pg_Truncated : bool; pg_Interactive : list Element;
  pg_Target : PageTarget; pg_Semantic : Observation }.

Record Action := mkAction { ac_Operation : string; ac_Input : object }.

(** The capability, the target and the input of an [Execution]. *)
Record Execution := mkExecution { ex_Capability : string; ex_TargetID : string; ex_Input : json }.

(** The content of a review: nothing, or what a capability reviews. *)
Inductive Content :=
  | CNone
  | CObservation (o : Observation)
  | CDraft (d : Draft)
  | CTask (t : Task).

Record Prepared := mkPrepared {
  pr_BeforeReference : string; pr_Account : string; pr_Input : json; pr_Content : Content; pr_Target : Target }.

(** ** JSON of these *)

Definition str_field (key s : string) : string * json := (key, JStr s).
(** [omitempty]. *)
Definition opt_str (key s : string) : list (string * json) := if empty s then [] else [(key, JStr s)].
Definition strings (l : list string) : json := JArr (JStr <$> l).

Definition recipient_json (r : Recipient) : json :=
  JObj (str_field "address" (rc_Address r) :: opt_str "displayName" (rc_DisplayName r)).
Definition recipients_json (l : option (list Recipient)) : json :=
  match l with None => JNull | Some l => JArr (recipient_json <$> l) end.
Definition draft_json (d : Draft) : json :=
  JObj [str_field "reference" (dr_Reference d); str_field "thread" (dr_Thread d); str_field "text" (dr_Text d);
        str_field "subject" (dr_Subject d); ("recipients"%string, recipients_json (dr_Recipients d))].
Definition destination_json (d : Destination) : json :=
  JObj [str_field "targetId" (ds_TargetID d); str_field "containerReference" (ds_ContainerReference d); str_field "label" (ds_Label d)].
Definition source_json (s : Source) : json := JObj [str_field "reference" (sc_Reference s); str_field "label" (sc_Label s)].
Definition task_json (t : Task) : json :=
  JObj (opt_str "taskReference" (tk_Reference t) ++
        [("destination"%string, destination_json (tk_Destination t)); str_field "title" (tk_Title t); str_field "text" (tk_Text t)] ++
        opt_str "dueDate" (tk_DueDate t) ++ [("source"%string, source_json (tk_Source t))]).

Definition opt_json {A} (key : string) (f : A → json) (o : option A) : list (string * json) :=
  match o with Some x => [(key, f x)] | None => [] end.
(** An empty slice is left out like a missing one. *)
Definition opt_recipients (key : string) (l : option (list Recipient)) : list (string * json) :=
  match l with None | Some [] => [] | Some l => [(key, JArr (recipient_json <$> l))] end.

Definition observation_json (o : Observation) : json :=
  JObj ([str_field "adapter" (ob_Adapter o); ("version"%string, JNum (NInt (ob_Version o))); str_field "account" (ob_Account o)] ++
        opt_str "thread" (ob_Thread o) ++ opt_str "subject" (ob_Subject o) ++ opt_str "message" (ob_Message o) ++
        opt_str "text" (ob_Text o) ++ opt_recipients "recipients" (ob_Recipients o) ++ opt_json "draft" draft_json (ob_Draft o) ++
        opt_json "task" task_json (ob_Task o) ++ opt_json "sent" draft_json (ob_Sent o)).

Definition content_json (c : Content) : json :=
  match c with CNone => JNull | CObservation o => observation_json o | CDraft d => draft_json d | CTask t => task_json t end.

Definition binding_json (b : Binding) : json :=
  match b with
  | BBackend kind connectionID => JObj [str_field "kind" kind; str_field "connectionId" connectionID]
  | BBrowser b =>
      JObj ([str_field "kind" (bb_Kind b); str_field "deviceId" (bb_DeviceID b); str_field "profileId" (bb_ProfileID b);
             str_field "accountBindingId" (bb_AccountBindingID b); ("origins"%string, strings (bb_Origins b))] ++
            opt_str "contextId" (bb_ContextID b) ++ opt_str "scopeId" (bb_ScopeID b) ++ opt_str "accountIdentity" (bb_AccountIdentity b))
  | BResource kind resourceID => JObj [str_field "kind" kind; str_field "resourceId" resourceID]
  end.
Definition target_json (t : Target) : json :=
  JObj ([str_field "id" (tg_ID t); ("revision"%string, JNum (NInt (tg_Revision t))); str_field "appId" (tg_AppID t);
         str_field "providerId" (tg_ProviderID t); ("providerVersion"%string, JNum (NInt (tg_ProviderVersion t)))] ++
        opt_str "spaceId" (tg_SpaceID t) ++ [str_field "label" (tg_Label t); ("binding"%string, binding_json (tg_Binding t))]).

Definition prepared_json (p : Prepared) : json :=
  JObj [str_field "beforeReference" (pr_BeforeReference p); str_field "account" (pr_Account p); ("input"%string, pr_Input p);
        ("content"%string, content_json (pr_Content p)); ("target"%string, target_json (pr_Target p))].

(** [same]: equal after encoding. *)
Definition same_recipients (a b : option (list Recipient)) : bool := bool_decide (recipients_json a = recipients_json b).
Definition same_content (a b : Content) : bool := bool_decide (content_json a = content_json b).

(** ** Decoding inputs

    [json.Unmarshal] into a struct: a missing or null field keeps its zero. *)
Definition get_str (o : object) (key : string) : option string :=
  match get_field o key with None | Some JNull => Some ""%string | Some (JStr s) => Some s | _ => None end.

Definition as_object (v : json) : option object :=
  match v with JNull => Some [] | JObj o => Some o | _ => None end.

Definition get_object (o : object) (key : string) : option object :=
  match get_field o key with None => Some [] | Some v => as_object v end.

Definition read_recipient (v : json) : option Recipient :=
  o ← as_object v; address ← get_str o "address"; name ← get_str o "displayName"; Some (mkRecipient address name).

Definition get_recipients (o : object) : option (option (list Recipient)) :=
  match get_field o "recipients" with
  | None | Some JNull => Some None
  | Some (JArr l) => Some <$> mapM read_recipient l
  | _ => None
  end.

Definition count_field (o : object) (key : string) : option Z :=
  match get_field o key with None | Some JNull => Some 0 | Some (JArr l) => Some (len l) | _ => None end.

Record DraftInput := mkDraftInput { di_Recipients : option (list Recipient); di_Subject : string; di_Text : string; di_ReplyTo : string; di_Attachments : Z }.
Definition read_draft_input (v : json) : option DraftInput :=
  o ← as_object v; recipients ← get_recipients o; subject ← get_str o "subject"; text ← get_str o "text"; replyTo ← get_str o "replyTo";
  attachments ← count_field o "attachments"; Some (mkDraftInput recipients subject text replyTo attachments).

Record SendInput := mkSendInput { si_Reference : string; si_Hash : string; si_Recipients : option (list Recipient) }.
Definition read_send_input (v : json) : option SendInput :=
  o ← as_object v; reference ← get_str o "draftReference"; h ← get_str o "expectedContentHash"; recipients ← get_recipients o;
  Some (mkSendInput reference h recipients).

Definition read_thread (v : json) : option string := o ← as_object v; get_str o "threadReference".

Definition read_task (v : json) : option Task :=
  o ← as_object v; reference ← get_str o "taskReference";
  d ← get_object o "destination"; target ← get_str d "targetId"; container ← get_str d "containerReference"; label ← get_str d "label";
  title ← get_str o "title"; text ← get_str o "text"; due ← get_str o "dueDate";
  s ← get_object o "source"; sref ← get_str s "reference"; slabel ← get_str s "label";
  Some (mkTask reference (mkDestination target container label) title text due (mkSource sref slabel)).

(** [review.Content] read as a draft. *)
Definition as_draft (c : Content) : Draft :=
  match c with
  | CNone => mkDraft "" "" "" "" None
  | CDraft d => d
  | CObservation o => mkDraft "" (ob_Thread o) (ob_Text o) (ob_Subject o) match ob_Recipients o with Some [] => None | l => l end
  | CTask t => mkDraft "" "" (tk_Text t) "" None
  end.

(** ** Adapters *)

(** [Adapter]: the interface between a session and a host adapter. *)
Record Adapter := mkAdapter {
  ad_ID : string;
  ad_Version : Z;
  ad_Prepare : Page → Execution → Target → berror + (option Action * Content);
  ad_Commit : Page → Execution → Target → berror + option Action;
  ad_Verify : Z → Page → Execution → Prepared → berror + option json }.

Definition control (page : Page) (name operation : string) (action : option object) : berror + Action :=
  match filter (λ e, EqualFold (el_Name e) name = true) (pg_Interactive page) with
  | [found] =>
      inr (mkAction operation
        match action with
        | None => [str_field "elementRef" (el_Ref found)]
        | Some fields => [("action"%string, JObj (set_field fields "elementRef" (JStr (el_Ref found))))]
        end)
  | _ => inl [ErrUnsupported]
  end.

Definition click (page : Page) (name : string) : berror + (option Action * Content) :=
  a ← control page name "browser.click" None; inr (Some a, CNone).
Definition fill (page : Page) (name text : string) : berror + (option Action * Content) :=
  a ← control page name "browser.interact" (Some [str_field "kind" "fill"; str_field "text" text]); inr (Some a, CNone).
Definition navigate (url : string) : berror + (option Action * Content) :=
  inr (Some (mkAction "browser.navigate" [str_field "url" url]), CNone).

Section pilot.
Context (hash : json → string) (rfc3339 : Z → string).

Definition ContentHash (account : string) (d : Draft) : string :=
  hash (JObj [str_field "Account" account; ("Draft"%string, draft_json d)]).

Definition description (t : Task) : string :=
  tk_Text t +:+ bytes [10; 10]%nat +:+ sc_Label (tk_Source t) +:+ ": " +:+ sc_Reference (tk_Source t).

(** The cases of [Pilot.Prepare]. *)
Definition prepare_read (page : Page) (input : json) : berror + (option Action * Content) :=
  match read_thread input with
  | None => inl [ErrUnsupported]
  | Some thread =>
      if empty thread then inl [ErrUnsupported]
      else if negb (String.eqb (ob_Thread (pg_Semantic page)) thread) then navigate thread
      else if empty (ob_Message (pg_Semantic page)) || pg_Truncated page then inl [ErrUnsupported]
      else inr (None, CObservation (pg_Semantic page))
  end.

Definition prepare_draft (page : Page) (input : json) : berror + (option Action * Content) :=
  match read_draft_input input with
  | None => inl [ErrUnsupported]
  | Some i =>
      if empty (di_ReplyTo i) || (0 <? di_Attachments i) then inl [ErrUnsupported]
      else if negb (String.eqb (ob_Thread (pg_Semantic page)) (di_ReplyTo i)) then navigate (di_ReplyTo i)
      else match ob_Draft (pg_Semantic page) with
           | None => click page "Reply"
           | Some d =>
               if negb (String.eqb (dr_Thread d) (di_ReplyTo i)) || negb (same_recipients (dr_Recipients d) (di_Recipients i))
               then inl [Intervention "review" "The reply thread or recipients differ from the requested reply."]
               else if negb (String.eqb (dr_Text d) (di_Text i)) then fill page "Message Body" (di_Text i)
               else if negb (empty (di_Subject i)) && negb (String.eqb (dr_Subject d) (di_Subject i)) then inl [ErrReviewChanged]
               else inr (None, CDraft d)
           end
  end.

Definition prepare_send (page : Page) (input : json) : berror + (option Action * Content) :=
  match read_send_input input with
  | None => inl [ErrInvalid]
  | Some i =>
      match ob_Draft (pg_Semantic page) with
      | None => inl [ErrReviewChanged]
      | Some d =>
          if String.eqb (dr_Reference d) (si_Reference i) && same_recipients (dr_Recipients d) (si_Recipients i) &&
             String.eqb (ContentHash (ob_Account (pg_Semantic page)) d) (si_Hash i)
          then inr (None, CDraft d) else inl [ErrReviewChanged]
      end
  end.

Definition prepare_task (page : Page) (input : json) (target : Target) : berror + (option Action * Content) :=
  match read_task input with
  | None => inl [ErrInvalid]
  | Some i =>
      if negb (String.eqb (ds_TargetID (tk_Destination i)) (tg_ID target)) then inl [ErrInvalid]
      else match ob_Task (pg_Semantic page) with
           | None => click page "Add task"
           | Some d =>
               if negb (empty (tk_Reference d)) then inl [ErrReviewChanged]
               else if negb (String.eqb (ds_ContainerReference (tk_Destination d)) (ds_ContainerReference (tk_Destination i)))
               then navigate (ds_ContainerReference (tk_Destination i))
               else if negb (String.eqb (ds_Label (tk_Destination d)) (ds_Label (tk_Destination i))) then inl [ErrReviewChanged]
               else if negb (String.eqb (tk_Title d) (tk_Title i)) then fill page "Task name" (tk_Title i)
               else if negb (String.eqb (tk_Text d) (description i)) then fill page "Description" (description i)
               else if negb (String.eqb (tk_DueDate d) (tk_DueDate i)) then fill page "Due date" (tk_DueDate i)
               else inr (None, CTask i)
           end
  end.

Definition Prepare (page : Page) (e : Execution) (target : Target) : berror + (option Action * Content) :=
  if String.eqb (ex_Capability e) "inbox.read" then prepare_read page (ex_Input e)
  else if String.eqb (ex_Capability e) "inbox.draft" then prepare_draft page (ex_Input e)
  else if String.eqb (ex_Capability e) "inbox.send" then prepare_send page (ex_Input e)
  else if String.eqb (ex_Capability e) "tasks.create" then prepare_task page (ex_Input e) target
  else inl [ErrUnsupported].

Definition Commit (page : Page) (e : Execution) (target : Target) : berror + option Action :=
  if one_of (ex_Capability e) ["inbox.read"; "inbox.draft"]%string then inr None
  else if String.eqb (ex_Capability e) "inbox.send" then (a ← control page "Send" "browser.click" None; inr (Some a))
  else if String.eqb (ex_Capability e) "tasks.create" then (a ← control page "Add task" "browser.click" None; inr (Some a))
  else inl [ErrUnsupported].

(** The evidence of a result, and the document of a successful outcome. *)
Definition evidence_json (now : Z) (page : Page) (e : Execution) : json :=
  JArr [JObj [str_field "kind" "browser"; str_field "observedAt" (rfc3339 now); str_field "reference" (pg_URL page);
              str_field "revision" (pg_DocumentID page); str_field "targetId" (ex_TargetID e)]].
Definition success (now : Z) (page : Page) (e : Execution) (result : object) : json :=
  JObj [("evidence"%string, evidence_json now page e); ("partial"%string, JBool false);
        ("result"%string, JObj result); str_field "status" "success"].

Definition verify_read (now : Z) (page : Page) (e : Execution) (review : Prepared) : berror + option json :=
  let o := pg_Semantic page in
  if negb (same_content (pr_Content review) (CObservation o)) then inr None
  else inr (Some (success now page e
    [str_field "accountIdentity" (ob_Account o); str_field "coverage" "opened_thread"; ("evidence"%string, evidence_json now page e);
     ("limitations"%string, JArr []);
     ("messages"%string, JArr [JObj [("attachments"%string, JArr []); str_field "observedAt" (rfc3339 now);
       ("recipients"%string, recipients_json (ob_Recipients o)); str_field "reference" (ob_Message o); str_field "subject" (ob_Subject o);
       str_field "text" (ob_Text o); str_field "threadReference" (ob_Thread o); ("truncated"%string, JBool (pg_Truncated page))]]);
     ("partial"%string, JBool false); str_field "sourceTargetId" (ex_TargetID e); ("truncated"%string, JBool (pg_Truncated page))])).

Definition verify_draft (now : Z) (page : Page) (e : Execution) (review : Prepared) : berror + option json :=
  match ob_Draft (pg_Semantic page) with
  | None => inr None
  | Some d =>
      if negb (same_content (pr_Content review) (CDraft d)) then inr None
      else inr (Some (success now page e
        [str_field "accountIdentity" (ob_Account (pg_Semantic page)); str_field "contentHash" (ContentHash (ob_Account (pg_Semantic page)) d);
         str_field "draftReference" (dr_Reference d); ("evidence"%string, evidence_json now page e);
         ("recipients"%string, recipients_json (dr_Recipients d)); str_field "sourceTargetId" (ex_TargetID e);
         str_field "threadReference" (dr_Thread d)]))
  end.

(** The observed sent item is the reviewed draft under a new reference. *)
Definition sent_matches (s : Draft) (review : Prepared) : bool :=
  let approved := as_draft (pr_Content review) in
  negb (empty (dr_Reference s)) && negb (String.eqb (dr_Reference s) (pr_BeforeReference review)) && String.eqb (dr_Thread s) (dr_Thread approved) &&
  String.eqb (dr_Text s) (dr_Text approved) && String.eqb (dr_Subject s) (dr_Subject approved) &&
  same_recipients (dr_Recipients s) (dr_Recipients approved).

Definition verify_send (now : Z) (page : Page) (e : Execution) (review : Prepared) : berror + option json :=
  match ob_Sent (pg_Semantic page) with
  | None => inr None
  | Some s =>
      if negb (sent_matches s review) then inr None
      else inr (Some (success now page e
        [str_field "accountIdentity" (ob_Account (pg_Semantic page)); str_field "confirmation" "observed_sent_item";
         ("evidence"%string, evidence_json now page e); str_field "messageReference" (dr_Reference s);
         ("recipients"%string, recipients_json (dr_Recipients s)); str_field "sourceTargetId" (ex_TargetID e);
         str_field "threadReference" (dr_Thread s)]))
  end.

Definition task_matches (t i : Task) (review : Prepared) : bool :=
  negb (empty (tk_Reference t)) && negb (String.eqb (tk_Reference t) (pr_BeforeReference review)) && String.eqb (tk_Title t) (tk_Title i) &&
  String.eqb (tk_Text t) (description i) && String.eqb (tk_DueDate t) (tk_DueDate i) &&
  String.eqb (ds_ContainerReference (tk_Destination t)) (ds_ContainerReference (tk_Destination i)).

Definition verify_task (now : Z) (page : Page) (e : Execution) (review : Prepared) : berror + option json :=
  match read_task (ex_Input e) with
  | None => inl [ErrInvalid]
  | Some i =>
      match ob_Task (pg_Semantic page) with
      | None => inr None
      | Some t =>
          if negb (task_matches t i review) then inr None
          else inr (Some (success now page e
            ([("destination"%string, destination_json (tk_Destination i))] ++ opt_str "dueDate" (tk_DueDate i) ++
             [("evidence"%string, evidence_json now page e); ("source"%string, source_json (tk_Source i)); str_field "taskReference" (tk_Reference t);
              str_field "text" (tk_Text i); str_field "title" (tk_Title i)])))
      end
  end.

Definition Verify (now : Z) (page : Page) (e : Execution) (review : Prepared) : berror + option json :=
  if String.eqb (ex_Capability e) "inbox.read" then verify_read now page e review
  else if String.eqb (ex_Capability e) "inbox.draft" then verify_draft now page e review
  else if String.eqb (ex_Capability e) "inbox.send" then verify_send now page e review
  else if String.eqb (ex_Capability e) "tasks.create" then verify_task now page e review
  else inl [ErrUnsupported].

(** A [Pilot] as an adapter; every pilot has version 1. *)
Definition pilot_adapter (p : Pilot) : Adapter := mkAdapter (pl_Name p) 1 Prepare Commit Verify.
End pilot.
