(* ===== verification/BrowserSession.v ===== *)
(** * Reviewed effects in a browser

    Models [Session] of [internal/browseractions/executor.go]: every inspection
    checks that the page is the bound one, preparation steps towards a page whose
    content is the review, a commit repeats the review before its one write, and
    reconciliation believes nothing but what it observes.  [dispatch_browser] is
    what [dispatchSDKProvider] of [httpapi/sdk_browser_execution.go] makes of a
    commit.

    The device behind [Execute] is a state [W] that every call moves; [ctx_err],
    [pause] and [clock] read the caller's context and the time in it.  A call that
    was sent is kept in [ss_calls], which the program does not see.  [decode_page]
    decodes a page and [url_origin] is the scheme and host of a URL with whether it
    names a user. *)
From S2P Require Import Prelude Tx GoStrings Json Contracts BrowserActions.

#[local] Set Default Proof Using "Type".

(** A call with the reply it got; [Raw] is the encoded text of a reply. *)
Record Call (Raw : Type) := mkCall { cl_ID : string; cl_Operation : string; cl_Input : object; cl_Reply : berror + Raw }.
Arguments mkCall {Raw}.
Arguments cl_ID {Raw}.
Arguments cl_Operation {Raw}.
Arguments cl_Input {Raw}.
Arguments cl_Reply {Raw}.

Section session.
Context {W Raw : Type} (execute : string → string → object → W → W * (berror + Raw)).
Context (ctx_err : W → option berror) (pause : W → W * bool) (clock : W → Z).
Context (decode_page : Raw → option Page) (url_origin : string → option (string * bool)) (hash : json → string).

(** The fields of [Session] that never change. *)
Context (adapter : Adapter) (target : Target) (binding : BrowserBinding) (prefix : string).

Record Session := mkSession { ss_world : W; ss_sequence : Z; ss_Attempted : bool; ss_calls : list (Call Raw) }.

Definition S := act Session berror.

Definition Hash (p : Prepared) : string := hash (prepared_json p).

Definition invoke (operation : string) (input : object) : S Raw :=
  s ← ask;
  match ctx_err (ss_world s) with
  | Some e => throw e
  | None =>
      let n := ss_sequence s + 1 in
      update (λ s, mkSession (ss_world s) n (ss_Attempted s) (ss_calls s));;
      check (n <=? 48) [ErrOther "browser_action_budget_exceeded"];;
      let input := set_field input "scopeId" (JStr (bb_ScopeID binding)) in
      let id := prefix +:+ ":" +:+ Itoa n in
      let '(w, reply) := execute id operation input (ss_world s) in
      update (λ s, mkSession w n (ss_Attempted s) (ss_calls s ++ [mkCall id operation input reply]));;
      either reply
  end.

(** The checks of [Inspect] on a decoded page. *)
Definition bound_page (p : Page) : berror + () :=
  let t := pg_Target p in let o := pg_Semantic p in
  if negb (String.eqb (pt_ScopeID t) (bb_ScopeID binding)) || negb (String.eqb (pt_ProfileID t) (bb_ProfileID binding)) ||
     negb (String.eqb (pt_Trust t) "host-observation")
  then inl [Intervention "account_confirmation" "The browser profile or view changed."]
  else if String.eqb (pt_Authentication t) "required" then inl [Intervention "sign_in" "Sign in on the original browser view."]
  else if negb (match url_origin (pg_URL p) with Some (o, _) => String.eqb o (pt_Origin t) | None => false end) ||
          negb (one_of (pt_Origin t) (bb_Origins binding))
  then inl [Intervention "open_target" "Return to the admitted provider origin."]
  else if negb (String.eqb (ob_Adapter o) (ad_ID adapter)) || negb (ob_Version o =? ad_Version adapter) || empty (ob_Account o) ||
          negb (String.eqb (ob_Account o) (bb_AccountIdentity binding))
  then inl [Intervention "account_confirmation" "The observed provider account does not match the intended account."]
  else inr tt.

(** A bound page shows the intended account. *)
Lemma bound_account p : bound_page p = inr tt → ob_Account (pg_Semantic p) = bb_AccountIdentity binding.
Proof.
  unfold bound_page. intros H. repeat match type of H with (if ?b then _ else _) = _ => destruct b eqn:?; [done|] end.
  match goal with E : _ || negb (String.eqb _ _) = false |- _ => apply orb_false_iff in E as [_ E]; by apply negb_false_iff, String.eqb_eq in E end.
Qed.

Definition Inspect : S Page :=
  raw ← invoke "browser.inspect" [];
  page ← need (decode_page raw) [ErrInvalid];
  either (bound_page page);;
  mret page.

Definition allowed_operation (operation : string) : bool :=
  one_of operation ["browser.click"; "browser.type"; "browser.interact"; "browser.navigate"]%string.

(** What [act] sends for an action on a page, before the scope is added. *)
Definition action_input (page : Page) (a : Action) : berror + object :=
  if negb (allowed_operation (ac_Operation a)) then inl [ErrUnsupported]
  else if String.eqb (ac_Operation a) "browser.navigate" then
    let url := match get_field (ac_Input a) "url" with Some (JStr s) => s | _ => ""%string end in
    match url_origin url with
    | Some (origin, user) => if negb user && one_of origin (bb_Origins binding) then inr (ac_Input a) else inl [ErrUnsupported]
    | None => inl [ErrUnsupported]
    end
  else inr (set_field (ac_Input a) "documentId" (JStr (pg_DocumentID page))).

Definition set_attempted : S () := update (λ s, mkSession (ss_world s) (ss_sequence s) true (ss_calls s)).

(** [m] with its error handed to the caller. *)
Definition attempt {A} (m : S A) : S (berror + A) := λ s, let '(s', r) := m s in (s', inr r).

Definition stale {A} (r : berror + A) : bool := match r with inl e => is_err ErrStale e | inr _ => false end.

(** [Session.act]. *)
Definition perform (page : Page) (a : Action) : S () :=
  input ← either (action_input page a);
  r ← attempt (invoke (ac_Operation a) input);
  (if stale r then mret () else set_attempted);;
  either r;;
  mret ().

Definition beforeReference (page : Page) : string :=
  match ob_Sent (pg_Semantic page), ob_Task (pg_Semantic page) with
  | Some d, _ => dr_Reference d
  | None, Some t => tk_Reference t
  | None, None => ""
  end.

Definition review_of (page : Page) (e : Execution) (content : Content) : Prepared :=
  mkPrepared (beforeReference page) (ob_Account (pg_Semantic page)) (ex_Input e) content target.

Fixpoint prepare_loop (attempts : nat) (e : Execution) : S Prepared :=
  match attempts with
  | O => throw [ErrStale]
  | Datatypes.S attempts =>
      r ← attempt Inspect;
      match r with
      | inl err => if is_err ErrStale err then prepare_loop attempts e else throw err
      | inr page =>
          step ← either (ad_Prepare adapter page e target);
          match step with
          | (None, content) => mret (review_of page e content)
          | (Some a, _) =>
              r ← attempt (perform page a);
              match r with
              | inl err => if is_err ErrStale err then prepare_loop attempts e else throw err
              | inr _ => prepare_loop attempts e
              end
          end
      end
  end.

Definition Prepare : Execution → S Prepared := prepare_loop 16.

Fixpoint reconcile_loop (attempts : nat) (e : Execution) (review : Prepared) : S json :=
  match attempts with
  | O => throw [ErrUncertain]
  | Datatypes.S attempts =>
      r ← attempt Inspect;
      match r with
      | inl err => throw (ErrUncertain :: err)
      | inr page =>
          s ← ask;
          match ad_Verify adapter (clock (ss_world s)) page e review with
          | inl err => throw (ErrUncertain :: err)
          | inr (Some raw) => mret raw
          | inr None =>
              match attempts with
              | O => throw [ErrUncertain]
              | _ =>
                  s ← ask;
                  let '(w, done) := pause (ss_world s) in
                  update (λ s, mkSession w (ss_sequence s) (ss_Attempted s) (ss_calls s));;
                  if done : bool then throw [ErrUncertain] else reconcile_loop attempts e review
              end
          end
      end
  end.

Definition Reconcile : Execution → Prepared → S json := reconcile_loop 3.

(** The page still shows the review, and no step towards it is left. *)
Definition still_reviewed (page : Page) (e : Execution) (review : Prepared) : bool :=
  match ad_Prepare adapter page e target with
  | inr (None, content) => String.eqb (Hash (review_of page e content)) (Hash review)
  | _ => false
  end.

Fixpoint commit_loop (attempts : nat) (e : Execution) (review : Prepared) : S json :=
  match attempts with
  | O => throw [ErrStale]
  | Datatypes.S attempts =>
      page ← Inspect;
      check (still_reviewed page e review) [ErrReviewChanged];;
      commit ← either (ad_Commit adapter page e target);
      match commit with
      | None => Reconcile e review
      | Some a =>
          r ← attempt (perform page a);
          s ← ask;
          if stale r then commit_loop attempts e review
          else if bool_decide (is_Some (ctx_err (ss_world s))) then throw [ErrUncertain]
          else Reconcile e review
      end
  end.

Definition Commit : Execution → Prepared → S json := commit_loop 3.

(** ** The dispatcher

    [prepare_browser] is the action that [prepareSDKBrowser] journals. *)
Definition prepare_browser (e : Execution) (s : Session) : Session * (berror + Prepared) :=
  let '(s', r) := Prepare e s in
  (s', match r with inr p => inr p | inl err => inl (if ss_Attempted s' then [ErrUnknown] else ErrNotAttempted :: err) end).

(**
    [accepts] is [ParseBackendOutcome] with a successful status.  The result says
    whether the approval of the effect was invalidated, and [joined] is the error
    of that if it failed. *)
Definition dispatch_browser (accepts : json → bool) (joined : option berror) (e : Execution) (review : Prepared) (s : Session)
    : Session * bool * (berror + json) :=
  let '(s', r) := Commit e review s in
  match r with
  | inl err =>
      let invalidated := is_err ErrReviewChanged err || is_intervention err in
      match invalidated, joined with
      | true, Some err' => (s', true, inl (ErrNotAttempted :: err ++ err'))
      | _, _ => (s', invalidated, inl (if is_err ErrUncertain err then [ErrUnknown] else ErrNotAttempted :: err))
      end
  | inr raw => (s', false, if accepts raw then inr raw else inl [ErrUnknown])
  end.

(** ** What a computation sends

    [emits m Q]: whatever [m] returns, the calls it sent and its result are in [Q]. *)
Definition emits {A} (m : S A) (Q : list (Call Raw) → berror + A → Prop) : Prop :=
  ∀ s s' r, m s = (s', r) → ∃ l, ss_calls s' = ss_calls s ++ l ∧ Q l r.

Lemma emits_mono {A} (m : S A) (Q Q' : list (Call Raw) → berror + A → Prop) : emits m Q → (∀ l r, Q l r → Q' l r) → emits m Q'.
Proof. intros Hm HQ s s' r H. destruct (Hm s s' r H) as (l & Hl & Hq). eauto. Qed.

Lemma emits_bind {A B} (m : S A) (f : A → S B) (Q1 : list (Call Raw) → berror + A → Prop) (Q2 : A → list (Call Raw) → berror + B → Prop)
    (Q : list (Call Raw) → berror + B → Prop) :
  emits m Q1 → (∀ a, emits (f a) (Q2 a)) → (∀ l e, Q1 l (inl e) → Q l (inl e)) →
  (∀ l1 l2 a r, Q1 l1 (inr a) → Q2 a l2 r → Q (l1 ++ l2) r) → emits (m ≫= f) Q.
Proof.
  intros Hm Hf He Hr s s' r H. apply act_bind_cases in H as [(s1 & e & H & [= -> ->])|(s1 & a & H & H2)].
  - apply Hm in H as (l & Hl & Hq). eauto.
  - apply Hm in H as (l1 & Hl1 & Hq1). apply Hf in H2 as (l2 & Hl2 & Hq2). exists (l1 ++ l2). rewrite Hl2, Hl1, app_assoc. eauto.
Qed.

(** Steps that send nothing. *)
Lemma emits_ret {A} (a : A) (Q : list (Call Raw) → berror + A → Prop) : Q [] (inr a) → emits (mret a) Q.
Proof. intros HQ s s' r [= <- <-]. exists []. by rewrite app_nil_r. Qed.
Lemma emits_throw {A} e (Q : list (Call Raw) → berror + A → Prop) : Q [] (inl e) → emits (throw e) Q.
Proof. intros HQ s s' r [= <- <-]. exists []. by rewrite app_nil_r. Qed.
Lemma emits_ask {A} (k : Session → S A) Q : (∀ s, emits (k s) Q) → emits (s ← ask; k s) Q.
Proof. intros Hk s s' r H. by apply (Hk s). Qed.
Lemma emits_update {A} f (k : S A) Q : (∀ s, ss_calls (f s) = ss_calls s) → emits k Q → emits (update f;; k) Q.
Proof. intros Hf Hk s s' r H. destruct (Hk (f s) s' r H) as (l & Hl & HQ). exists l. by rewrite <- (Hf s). Qed.
Lemma emits_check {A} b e (k : S A) (Q : list (Call Raw) → berror + A → Prop) :
  (b = true → emits k Q) → (b = false → Q [] (inl e)) → emits (check b e;; k) Q.
Proof. intros Hk He. destruct b; [exact (Hk eq_refl)|]. intros s s' r [= <- <-]. exists []. rewrite app_nil_r. auto. Qed.
Lemma emits_need {A B} (o : option A) e (k : A → S B) (Q : list (Call Raw) → berror + B → Prop) :
  (∀ x, o = Some x → emits (k x) Q) → (o = None → Q [] (inl e)) → emits (x ← need o e; k x) Q.
Proof. intros Hk He. destruct o as [x|]; [exact (Hk x eq_refl)|]. intros s s' r [= <- <-]. exists []. rewrite app_nil_r. auto. Qed.
Lemma emits_either {A B} (o : berror + A) (k : A → S B) (Q : list (Call Raw) → berror + B → Prop) :
  (∀ x, o = inr x → emits (k x) Q) → (∀ e, o = inl e → Q [] (inl e)) → emits (x ← either o; k x) Q.
Proof. intros Hk He. destruct o as [e|x]; [|exact (Hk x eq_refl)]. intros s s' r [= <- <-]. exists []. rewrite app_nil_r. auto. Qed.
Lemma emits_attempt {A} (m : S A) (Q : list (Call Raw) → berror + A → Prop) : emits m Q → emits (attempt m) (λ l x, ∃ r, x = inr r ∧ Q l r).
Proof.
  intros Hm s s' r H. unfold attempt in H. destruct (m s) as [s1 r1] eqn:E. injection H as <- <-. apply Hm in E as (l & Hl & HQ). eauto.
Qed.

(** *** Inspections and actions *)

Definition inspecting (c : Call Raw) : Prop := cl_Operation c = "browser.inspect"%string.

(** [c] is an inspection that showed [page], bound as it should be. *)
Definition observed (c : Call Raw) (page : Page) : Prop :=
  inspecting c ∧ ∃ raw, cl_Reply c = inr raw ∧ decode_page raw = Some page ∧ bound_page page = inr tt.

(** [c] is the action [a] on [page]. *)
Definition sent (page : Page) (a : Action) (c : Call Raw) : Prop :=
  ∃ input, action_input page a = inr input ∧ cl_Operation c = ac_Operation a ∧
    cl_Input c = set_field input "scopeId" (JStr (bb_ScopeID binding)).

Lemma invoke_emits op input : emits (invoke op input) (λ l r, (l = [] ∧ ∃ e, r = inl e) ∨
  ∃ c, l = [c] ∧ cl_Operation c = op ∧ cl_Input c = set_field input "scopeId" (JStr (bb_ScopeID binding)) ∧ cl_Reply c = r).
Proof.
  unfold invoke. apply emits_ask. intros s0. destruct (ctx_err _) as [e|]; [apply emits_throw; eauto|]. apply emits_update; [done|].
  apply emits_check; [intros _|eauto]. destruct (execute _ _ _ _) as [w reply].
  intros s s' r H. eexists [_]. unfold update, either, mbind, act_bind in H. destruct reply; injection H as <- <-; (split; [reflexivity|]); right; eauto 10.
Qed.

Lemma Inspect_emits : emits Inspect (λ l r, match r with
  | inl _ => Forall inspecting l
  | inr page => ∃ c, l = [c] ∧ observed c page end).
Proof.
  unfold Inspect. eapply emits_bind with (Q2 := λ raw l r, l = [] ∧ match r with inl _ => True | inr page => decode_page raw = Some page ∧ bound_page page = inr tt end);
    [apply invoke_emits| | |].
  - intros raw. apply emits_need; [|done]. intros page Hp. apply emits_either; [|done]. intros [] Hb. by apply emits_ret.
  - intros l e [[-> _]|(c & -> & Hop & _)]; repeat constructor. done.
  - intros l1 l2 raw r [[_ (? & [=])]|(c & -> & Hop & _ & Hr)] [-> HI]. rewrite app_nil_r. destruct r as [e|page]; [by repeat constructor|].
    exists c. split; [done|]. split; [done|]. exists raw. done.
Qed.

Lemma perform_emits page a : emits (perform page a) (λ l r, (l = [] ∧ ∃ e, r = inl e) ∨ ∃ c, l = [c] ∧ sent page a c ∧ stale r = stale (cl_Reply c)).
Proof.
  unfold perform. apply emits_either; [|eauto]. intros input Hin.
  eapply emits_bind with (Q2 := λ x l r, l = [] ∧ stale r = stale x ∧ (is_Some (match x with inl e => Some e | inr _ => None end) → ∃ e, r = inl e));
    [apply emits_attempt, invoke_emits| | |].
  - intros x. destruct (stale x) eqn:Ex.
    + intros s s' r H. destruct x as [e|]; [|done]. injection H as <- <-. exists []. rewrite app_nil_r. eauto.
    + intros s s' r H. destruct x as [e|]; injection H as <- <-; exists []; rewrite app_nil_r; (split; [done|]); (split; [done|]); split; eauto.
      intros [? ?]; done.
  - intros l e (x & ? & _). done.
  - intros l1 l2 x r (x' & Hx & HI) (-> & Hs & He). injection Hx as <-. rewrite app_nil_r.
    destruct HI as [[-> [e ->]]|(c & -> & Hop & Hi & Hr)]; [left; split; [done|]; apply He; eauto|right].
    exists c. split; [done|]. split; [by exists input|]. by rewrite Hr.
Qed.

(** *** Reconciliation *)

(** The last call showed a page on which the adapter verified [raw]. *)
Definition verified (e : Execution) (review : Prepared) (l : list (Call Raw)) (raw : json) : Prop :=
  ∃ l' c page now, l = l' ++ [c] ∧ observed c page ∧ ad_Verify adapter now page e review = inr (Some raw).

Definition reconciled (e : Execution) (review : Prepared) (l : list (Call Raw)) (r : berror + json) : Prop :=
  Forall inspecting l ∧ match r with inl err => ErrUncertain ∈ err | inr raw => verified e review l raw end.

Lemma observed_inspecting c page : observed c page → inspecting c.
Proof. by intros [? _]. Qed.

Lemma reconciled_cons e review c page l r : observed c page → reconciled e review l r → reconciled e review (c :: l) r.
Proof.
  intros Hc [Hl Hr]. split; [constructor; [by eapply observed_inspecting|done]|]. destruct r as [err|raw]; [done|].
  destruct Hr as (l' & c' & p & now & -> & H). by exists (c :: l'), c', p, now.
Qed.

Lemma reconcile_emits n e review : emits (reconcile_loop n e review) (reconciled e review).
Proof.
  induction n as [|n IH]; simpl.
  - apply emits_throw. split; [done|by left].
  - eapply emits_bind with (Q2 := λ x l r, match x with
      | inl err => l = [] ∧ r = inl (ErrUncertain :: err)
      | inr page => ∀ c, observed c page → reconciled e review (c :: l) r end); [apply emits_attempt, Inspect_emits| | |].
    + intros [err|page]; [by apply emits_throw|]. apply emits_ask. intros s.
      destruct (ad_Verify adapter _ page e review) as [err|[raw|]] eqn:Ev.
      * apply emits_throw. intros c Hc. split; [constructor; [by eapply observed_inspecting|done]|by left].
      * apply emits_ret. intros c Hc. split; [constructor; [by eapply observed_inspecting|done]|]. exists [], c, page, (clock (ss_world s)). done.
      * assert (∀ c, observed c page → reconciled e review [c] (inl [ErrUncertain])) as Hstop.
        { intros c Hc. split; [constructor; [by eapply observed_inspecting|done]|by left]. }
        destruct n as [|n']; [by apply emits_throw|]. apply emits_ask. intros s2. destruct (pause _) as [w done_]. apply emits_update; [done|].
        destruct done_; [by apply emits_throw|]. eapply emits_mono; [apply IH|]. intros l r H c Hc. by eapply reconciled_cons.
    + intros l err (x & [=] & _).
    + intros l1 l2 x r (x' & Hx & H1) H2. injection Hx as <-. destruct x as [err|page].
      * destruct H2 as [-> ->]. rewrite app_nil_r. split; [done|by left].
      * destruct H1 as (c & -> & Hc). by apply H2.
Qed.

(** *** Commits *)

Definition writing (c : Call Raw) : Prop := ¬ inspecting c.

(** The calls of a commit: inspections, and writes that follow an inspection of a
    page which still showed the review, each the adapter's commit on that page.
    After a write that may have started there are only inspections. *)
Inductive commit_log (e : Execution) (review : Prepared) : list (Call Raw) → Prop :=
  | log_end l : Forall inspecting l → commit_log e review l
  | log_look c l : inspecting c → commit_log e review l → commit_log e review (c :: l)
  | log_write i page a c l : observed i page → still_reviewed page e review = true → ad_Commit adapter page e target = inr (Some a) →
      sent page a c → (stale (cl_Reply c) = false → Forall inspecting l) → commit_log e review l → commit_log e review (i :: c :: l).

Definition not_started (l : list (Call Raw)) : Prop := Forall (λ c, writing c → stale (cl_Reply c) = true) l.

Definition committed (e : Execution) (review : Prepared) (l : list (Call Raw)) (r : berror + json) : Prop :=
  commit_log e review l ∧ match r with inl err => ErrUncertain ∈ err ∨ not_started l | inr raw => verified e review l raw end.

Lemma inspecting_not_started l : Forall inspecting l → not_started l.
Proof. intros H. eapply Forall_impl; [exact H|]. intros c Hc Hw. by destruct (Hw Hc). Qed.

Lemma verified_app e review l1 l2 raw : verified e review l2 raw → verified e review (l1 ++ l2) raw.
Proof. intros (l & c & page & now & -> & H). exists (l1 ++ l), c, page, now. by rewrite app_assoc. Qed.

Lemma reconciled_committed e review l r : reconciled e review l r → committed e review l r.
Proof. intros [Hl Hr]. split; [by apply log_end|]. destruct r; [by left|done]. Qed.

Lemma committed_look e review c l r : inspecting c → committed e review l r → committed e review (c :: l) r.
Proof.
  intros Hc [Hl Hr]. split; [by apply log_look|]. destruct r as [err|raw]; [|by apply (verified_app _ _ [c])].
  destruct Hr as [?|Hr]; [by left|right]. constructor; [|done]. intros Hw. by destruct (Hw Hc).
Qed.

Lemma committed_write e review i page a c l r : observed i page → still_reviewed page e review = true →
  ad_Commit adapter page e target = inr (Some a) → sent page a c →
  (if stale (cl_Reply c) then committed e review l r else reconciled e review l r ∨ l = [] ∧ r = inl [ErrUncertain]) →
  committed e review (i :: c :: l) r.
Proof.
  intros Hi Hrev Ha Hc H. destruct (stale (cl_Reply c)) eqn:Es.
  - destruct H as [Hl Hr]. split; [eapply log_write; eauto; by rewrite Es|]. destruct r as [err|raw]; [|by apply (verified_app _ _ [i; c])].
    destruct Hr as [?|Hr]; [by left|right]. apply observed_inspecting in Hi. constructor; [by intros Hw; destruct (Hw Hi)|]. by constructor.
  - assert (Forall inspecting l) as Hl by (destruct H as [[? _]|[-> _]]; [done|constructor]).
    split; [eapply log_write; eauto using log_end|]. destruct H as [[_ Hr]|[-> ->]]; [|by left; left].
    destruct r as [err|raw]; [by left|by apply (verified_app _ _ [i; c])].
Qed.

Lemma commit_emits n e review : emits (commit_loop n e review) (committed e review).
Proof.
  induction n as [|n IH]; simpl.
  { apply emits_throw. split; [by apply log_end|right; constructor]. }
  eapply emits_bind with (Q2 := λ page l r, ∀ c, observed c page → committed e review (c :: l) r); [apply Inspect_emits| | |].
  - intros page. assert (∀ err c, observed c page → committed e review [c] (inl err)) as Hstop.
    { intros err c Hc. apply observed_inspecting in Hc. apply committed_look; [done|]. split; [by apply log_end|right; constructor]. }
    apply emits_check; [intros Hrev|auto]. apply emits_either; [|auto]. intros [a|] Ha.
    2: { eapply emits_mono; [apply reconcile_emits|]. intros l r H c Hc. apply observed_inspecting in Hc.
         apply committed_look; [done|]. by apply reconciled_committed. }
    eapply emits_bind with (Q2 := λ x l r, if stale x then committed e review l r else reconciled e review l r ∨ l = [] ∧ r = inl [ErrUncertain]);
      [apply emits_attempt, perform_emits| | |].
    + intros x. apply emits_ask. intros s. destruct (stale x); [apply IH|]. destruct (bool_decide _); [apply emits_throw; by right|].
      eapply emits_mono; [apply reconcile_emits|]. by left.
    + intros l err (? & [=] & _).
    + intros l1 l2 x r (x' & Hx & H1) H2 c Hc. injection Hx as <-. destruct H1 as [[-> [err ->]]|(c2 & -> & Hsent & Hst)].
      * simpl. pose proof (observed_inspecting _ _ Hc) as Hi. apply committed_look; [done|].
        destruct (stale (inl err)); [done|]. destruct H2 as [H2|[-> ->]]; [by apply reconciled_committed|]. split; [by apply log_end|left; by left].
      * rewrite Hst in H2. by eapply committed_write.
  - intros l err Hl. split; [by apply log_end|right; by apply inspecting_not_started].
  - intros l1 l2 page r (c & -> & Hc) H2. by apply H2.
Qed.

Lemma Commit_emits e review : emits (Commit e review) (committed e review).
Proof. apply commit_emits. Qed.

(** What the log says of one write. *)
Lemma log_writes e review l l1 c l2 : commit_log e review l → l = l1 ++ c :: l2 → writing c →
  (∃ l0 i page a, l1 = l0 ++ [i] ∧ observed i page ∧ still_reviewed page e review = true ∧
    ad_Commit adapter page e target = inr (Some a) ∧ sent page a c) ∧
  (stale (cl_Reply c) = false → Forall inspecting l2).
Proof.
  intros H. revert l1. induction H as [l H|d l Hd _ IH|i page a d l Hi Hrev Ha Hd Hlast Hl IH]; intros l1 E Hw.
  - exfalso. apply Hw. rewrite Forall_forall in H. apply H. rewrite E. apply elem_of_app. right. by left.
  - destruct l1 as [|x l1]; simpl in E; injection E as -> E; [by destruct (Hw Hd)|]. destruct (IH l1 E Hw) as [(l0 & j & p & b & -> & H) Hs].
    split; [|done]. by exists (x :: l0), j, p, b.
  - destruct l1 as [|x l1]; simpl in E; injection E as -> E; [by destruct (Hw (observed_inspecting _ _ Hi))|].
    destruct l1 as [|y l1]; simpl in E; injection E as -> E.
    + subst l2. split; [|done]. by exists [], x, page, a.
    + destruct (IH l1 E Hw) as [(l0 & j & p & b & -> & H) Hs]. split; [|done]. by exists (x :: y :: l0), j, p, b.
Qed.

(** ** The budget of calls *)

(** [m] counts at most [n] calls and sends no more than it counts. *)
Definition costs {A} (n : Z) (m : S A) : Prop := ∀ s,
  ss_sequence (m s).1 <= ss_sequence s + n ∧ len (ss_calls (m s).1) - len (ss_calls s) <= ss_sequence (m s).1 - ss_sequence s ∧
  ss_sequence s <= ss_sequence (m s).1.

Lemma costs_bind {A B} n1 n2 (m : S A) (f : A → S B) : 0 <= n2 → costs n1 m → (∀ a, costs n2 (f a)) → costs (n1 + n2) (m ≫= f).
Proof.
  intros Hn Hm Hf s. unfold mbind, act_bind. specialize (Hm s). destruct (m s) as [s1 [e|a]]; simpl in *; [lia|].
  specialize (Hf a s1). lia.
Qed.
Lemma costs_weaken {A} n1 n2 (m : S A) : n1 <= n2 → costs n1 m → costs n2 m.
Proof. intros Hn Hm s. specialize (Hm s). lia. Qed.
(** A step that leaves the count and the calls alone. *)
Lemma costs_still {A} (m : S A) : (∀ s, ss_sequence (m s).1 = ss_sequence s ∧ ss_calls (m s).1 = ss_calls s) → costs 0 m.
Proof. intros H s. destruct (H s) as [-> ->]. lia. Qed.
Lemma costs_then {A B} n (m : S A) (f : A → S B) : (∀ s, ss_sequence (m s).1 = ss_sequence s ∧ ss_calls (m s).1 = ss_calls s) → 0 <= n →
  (∀ a, costs n (f a)) → costs n (m ≫= f).
Proof. intros Hm Hn Hf. replace n with (0 + n) by lia. apply costs_bind; [done|by apply costs_still|done]. Qed.
Lemma costs_attempt {A} n (m : S A) : costs n m → costs n (attempt m).
Proof. intros Hm s. specialize (Hm s). unfold attempt. by destruct (m s). Qed.

Lemma costs_invoke op input : costs 1 (invoke op input).
Proof.
  intros s. unfold invoke, mbind, act_bind, ask. destruct (ctx_err _); simpl; [lia|]. unfold check. destruct (_ <=? 48); simpl; [|lia].
  destruct (execute _ _ _ _) as [w [e|r]]; simpl; rewrite len_app; change (len [_]) with 1; lia.
Qed.

Ltac still := intros ?; repeat (case_match; simpl); done.

Lemma costs_Inspect : costs 1 Inspect.
Proof.
  unfold Inspect. apply (costs_weaken (1 + 0)); [lia|]. apply costs_bind; [lia|apply costs_invoke|]. intros raw.
  apply costs_then; [unfold need; destruct (decode_page raw); done|lia|]. intros page. apply costs_then; [destruct (bound_page page); done|lia|].
  intros _. by apply costs_still.
Qed.
Lemma costs_perform page a : costs 1 (perform page a).
Proof.
  unfold perform. apply costs_then; [destruct (action_input page a); done|lia|]. intros input. apply (costs_weaken (1 + 0)); [lia|].
  apply costs_bind; [lia|apply costs_attempt, costs_invoke|]. intros x. apply costs_then; [by destruct (stale x)|lia|]. intros _.
  apply costs_then; [by destruct x|lia|]. intros _. by apply costs_still.
Qed.

Lemma costs_prepare n e : costs (2 * Z.of_nat n) (prepare_loop n e).
Proof.
  induction n as [|n IH]; simpl prepare_loop; [by apply costs_still|]. apply (costs_weaken (1 + (1 + 2 * Z.of_nat n))); [lia|].
  apply costs_bind; [lia|apply costs_attempt, costs_Inspect|]. intros [err|page].
  - destruct (is_err _ _); [by apply (costs_weaken (2 * Z.of_nat n)); [lia|]|]. apply (costs_weaken 0); [lia|]. by apply costs_still.
  - apply costs_then; [by destruct (ad_Prepare _ _ _ _)|lia|]. intros [[a|] content].
    + apply costs_bind; [lia|apply costs_attempt, costs_perform|]. intros [err|]; [|done].
      destruct (is_err _ _); [done|]. apply (costs_weaken 0); [lia|]. by apply costs_still.
    + apply (costs_weaken 0); [lia|]. by apply costs_still.
Qed.

Lemma costs_reconcile n e review : costs (Z.of_nat n) (reconcile_loop n e review).
Proof.
  induction n as [|n IH]; simpl reconcile_loop; [by apply costs_still|]. apply (costs_weaken (1 + Z.of_nat n)); [lia|].
  apply costs_bind; [lia|apply costs_attempt, costs_Inspect|]. intros [err|page]; [apply (costs_weaken 0); [lia|]; by apply costs_still|].
  apply costs_then; [done|lia|]. intros s. destruct (ad_Verify _ _ _ _ _) as [err|[raw|]];
    [apply (costs_weaken 0); [lia|]; by apply costs_still..|]. destruct n as [|n']; [by apply costs_still|].
  apply costs_then; [done|lia|]. intros s2. destruct (pause _) as [w d]. apply costs_then; [done|lia|]. intros _.
  destruct d; [|done]. apply (costs_weaken 0); [lia|]. by apply costs_still.
Qed.

Lemma costs_commit n e review : costs (2 * Z.of_nat n + 3) (commit_loop n e review).
Proof.
  induction n as [|n IH]; simpl commit_loop; [by apply (costs_weaken 0); [lia|]; apply costs_still|].
  pose proof (costs_reconcile 3 e review) as Hr. simpl in Hr.
  apply (costs_weaken (1 + (1 + (2 * Z.of_nat n + 3)))); [lia|]. apply costs_bind; [lia|apply costs_Inspect|]. intros page.
  apply costs_then; [unfold check; by destruct (still_reviewed _ _ _)|lia|]. intros _.
  apply costs_then; [by destruct (ad_Commit _ _ _ _)|lia|]. intros [a|]; [|apply (costs_weaken 3); [lia|exact Hr]].
  apply costs_bind; [lia|apply costs_attempt, costs_perform|]. intros x. apply costs_then; [done|lia|]. intros s.
  destruct (stale x); [done|]. destruct (bool_decide _); [apply (costs_weaken 0); [lia|]; by apply costs_still|].
  apply (costs_weaken 3); [lia|exact Hr].
Qed.

Lemma costs_Prepare e : costs 32 (Prepare e).
Proof. unfold Prepare. apply (costs_weaken (2 * Z.of_nat 16)); [lia|apply costs_prepare]. Qed.
Lemma costs_Commit e review : costs 9 (Commit e review).
Proof. unfold Commit. apply (costs_weaken (2 * Z.of_nat 3 + 3)); [lia|apply costs_commit]. Qed.

(** ** Preparation *)

Definition prepared (e : Execution) (l : list (Call Raw)) (r : berror + Prepared) : Prop :=
  ∀ p, r = inr p → ∃ l' c page content, l = l' ++ [c] ∧ observed c page ∧ ad_Prepare adapter page e target = inr (None, content) ∧
    p = review_of page e content.

(** Every call inspects, or is a step of the adapter on a page seen before. *)
Definition steps (e : Execution) (l : list (Call Raw)) : Prop :=
  ∀ c, c ∈ l → inspecting c ∨ ∃ i page a content, i ∈ l ∧ observed i page ∧ ad_Prepare adapter page e target = inr (Some a, content) ∧ sent page a c.

Lemma prepared_app e l1 l2 r : prepared e l2 r → prepared e (l1 ++ l2) r.
Proof. intros H p Hp. destruct (H p Hp) as (l & c & page & content & -> & ?). exists (l1 ++ l), c, page, content. by rewrite app_assoc. Qed.

Lemma steps_inspecting e l : Forall inspecting l → steps e l.
Proof. intros H c Hc. left. rewrite Forall_forall in H. auto. Qed.
Lemma steps_app e l1 l2 : steps e l1 → steps e l2 → steps e (l1 ++ l2).
Proof.
  intros H1 H2 c [Hc|Hc]%elem_of_app; [destruct (H1 c Hc) as [?|(i & p & a & t & Hi & ?)]|destruct (H2 c Hc) as [?|(i & p & a & t & Hi & ?)]]; auto;
    right; exists i, p, a, t; rewrite elem_of_app; auto.
Qed.

Lemma prepare_emits n e : emits (prepare_loop n e) (λ l r, prepared e l r ∧ steps e l).
Proof.
  induction n as [|n IH]; simpl; [apply emits_throw; split; [done|by apply steps_inspecting]|].
  assert (∀ err, emits (if is_err ErrStale err then prepare_loop n e else throw err) (λ l r, prepared e l r ∧ steps e l)) as Hagain.
  { intros err. destruct (is_err _ _); [done|apply emits_throw]. split; [done|by apply steps_inspecting]. }
  eapply emits_bind with (Q2 := λ x l r, match x with
    | inl err => prepared e l r ∧ steps e l
    | inr page => ∀ c, observed c page → prepared e (c :: l) r ∧ steps e (c :: l) end); [apply emits_attempt, Inspect_emits| | |].
  - assert (∀ c page, observed c page → steps e [c]) as Hone.
    { intros c page Hc. apply steps_inspecting. constructor; [by eapply observed_inspecting|done]. }
    intros [err|page]; [apply Hagain|]. apply emits_either; [|intros ? _ c Hc; split; [by intros p [=]|eauto]]. intros [[a|] content] Hp.
    + eapply emits_bind with (Q2 := λ _ l r, prepared e l r ∧ steps e l);
        [apply emits_attempt, perform_emits|intros [err|[]]; [apply Hagain|apply IH]|by intros l err (? & [=] & _)|].
      intros l1 l2 x r (x' & _ & H1) [H2 H3] c Hc. split; [by apply (prepared_app _ (c :: l1))|]. apply (steps_app _ (c :: l1)); [|done].
      destruct H1 as [[-> _]|(d & -> & Hd & _)]; [by apply (Hone c page)|]. intros d' [->|Hd']%elem_of_cons; [|apply list_elem_of_singleton in Hd' as ->].
      * left. by eapply observed_inspecting.
      * right. exists c, page, a, content. split; [by left|]. done.
    + apply emits_ret. intros c Hc. split; [|eauto]. intros p [= <-]. by exists [], c, page, content.
  - by intros l err (? & [=] & _).
  - intros l1 l2 x r (x' & Hx & H1) H2. injection Hx as <-. destruct x as [err|page].
    + destruct H2 as [H2 H3]. split; [by apply prepared_app|]. apply steps_app; [by apply steps_inspecting|done].
    + destruct H1 as (c & -> & Hc). by apply H2.
Qed.

(** A session that is not marked sent no action, or had every one refused. *)
Definition marks {A} (m : S A) : Prop := ∀ s s' r, m s = (s', r) → ss_Attempted s' = false →
  ss_Attempted s = false ∧ ∃ l, ss_calls s' = ss_calls s ++ l ∧ not_started l.

Lemma marks_bind {A B} (m : S A) (f : A → S B) : marks m → (∀ a, marks (f a)) → marks (m ≫= f).
Proof.
  intros Hm Hf s s' r H Ha. apply act_bind_cases in H as [(s1 & e & H & [= -> ->])|(s1 & a & H & H2)]; [by eapply Hm|].
  destruct (Hf a s1 s' r H2 Ha) as (Ha1 & l2 & Hl2 & Hn2). destruct (Hm s s1 _ H Ha1) as (Ha0 & l1 & Hl1 & Hn1).
  split; [done|]. exists (l1 ++ l2). rewrite Hl2, Hl1, app_assoc. split; [done|]. by apply Forall_app.
Qed.
Lemma marks_still {A} (m : S A) : (∀ s, ss_Attempted (m s).1 = ss_Attempted s ∧ ss_calls (m s).1 = ss_calls s) → marks m.
Proof. intros Hm s s' r H Ha. destruct (Hm s) as [H1 H2]. rewrite H in H1, H2. simpl in *. split; [by rewrite <- H1|]. exists [].
  rewrite app_nil_r. by split; [|constructor]. Qed.
Lemma marks_attempt {A} (m : S A) : marks m → marks (attempt m).
Proof. intros Hm s s' r H. unfold attempt in H. destruct (m s) as [s1 r1] eqn:E. injection H as <- <-. by eapply Hm. Qed.

Lemma invoke_attempted op input s : ss_Attempted (invoke op input s).1 = ss_Attempted s.
Proof.
  unfold invoke, mbind, act_bind, ask. destruct (ctx_err _); [done|]. unfold update, check. destruct (_ <=? 48); [|done]. cbn -[set_field].
  by destruct (execute _ _ _ _) as [w [|]].
Qed.

Lemma Inspect_marks : marks Inspect.
Proof.
  unfold Inspect. apply marks_bind.
  - intros s s' r H Ha. pose proof (invoke_attempted "browser.inspect" [] s) as Hi. rewrite H in Hi. simpl in Hi. split; [by rewrite <- Hi|].
    destruct (invoke_emits _ _ _ _ _ H) as (l & Hl & HQ). exists l. split; [done|]. apply inspecting_not_started.
    destruct HQ as [[-> _]|(c & -> & Hc & _)]; by repeat constructor.
  - intros raw. apply marks_bind; [apply marks_still; by destruct (decode_page raw)|]. intros page.
    apply marks_bind; [apply marks_still; by destruct (bound_page page)|]. intros _. by apply marks_still.
Qed.

Lemma perform_marks page a : marks (perform page a).
Proof.
  intros s s' r H Ha. destruct (perform_emits _ _ _ _ _ H) as (l & Hl & HQ).
  unfold perform in H. destruct (action_input page a) as [err|input]; [injection H as <- <-; split; [done|]; exists []; rewrite app_nil_r; by split; [|constructor]|].
  assert (stale r = true ∧ ss_Attempted s = false ∨ ss_calls s' = ss_calls s ∧ ss_Attempted s = false) as Hr.
  { pose proof (invoke_attempted (ac_Operation a) input s) as Hi. unfold either, attempt, mbind, act_bind, set_attempted, update in H. simpl in H.
    destruct (invoke (ac_Operation a) input s) as [s1 x]. simpl in *. destruct (stale x) eqn:Ex; simpl in H.
    - destruct x as [e|]; [|done]. injection H as <- <-. left. split; [done|congruence].
    - destruct x; injection H as <- <-; done. }
  destruct Hr as [[Hst H0]|[Hsame H0]]; (split; [done|]); exists l; (split; [done|]).
  - destruct HQ as [[-> _]|(c & -> & Hc & E)]; [constructor|]. repeat constructor. intros _. by rewrite <- E.
  - rewrite Hsame in Hl. assert (l = []) as -> by (apply (app_inv_head (ss_calls s)); by rewrite app_nil_r). constructor.
Qed.

Lemma prepare_marks n e : marks (prepare_loop n e).
Proof.
  induction n as [|n IH]; simpl; [by apply marks_still|]. apply marks_bind; [apply marks_attempt, Inspect_marks|].
  intros [err|page]; [destruct (is_err _ _); [done|by apply marks_still]|].
  apply marks_bind; [apply marks_still; by destruct (ad_Prepare _ _ _ _)|]. intros [[a|] content]; [|by apply marks_still].
  apply marks_bind; [apply marks_attempt, perform_marks|]. intros [err|_]; [|done]. destruct (is_err _ _); [done|by apply marks_still].
Qed.

Lemma Prepare_marks e : marks (Prepare e).
Proof. apply prepare_marks. Qed.

Lemma Prepare_emits e : emits (Prepare e) (λ l r, prepared e l r ∧ steps e l).
Proof. apply prepare_emits. Qed.
End session.

(** [NewSession]: the binding of a session, which names a view and an account. *)
Definition NewSession (validUUID ValidOrigin : string → bool) (target : Target) (provider : Provider) : berror + BrowserBinding :=
  b ← from_option [ErrInvalid] (ValidateBrowser validUUID ValidOrigin target provider);
  if empty (bb_ScopeID b) || empty (bb_AccountIdentity b)
  then inl [Intervention "account_confirmation" "Confirm the intended account and original browser view."] else inr b.
