(* ===== verification/BrowserDemo.v ===== *)
(** * A browser to evaluate on

    A device whose only page is a task form, for the witnesses: [form_execute] does
    what it is told, and [site_execute] also creates the task of a form that is
    committed. *)
From S2P Require Import Prelude GoStrings Json Contracts BrowserActions BrowserSession.

Definition demo_binding : BrowserBinding :=
  mkBrowser "browser" "device_1" "profile_1" "account_1" ["https://app.todoist.com"]%string "ctx_1" "view_1" "ada@example.test".
Definition demo_target : Target := mkTarget "target_1" 1 "app_1" "provider_1" 1 "" "Tasks" (BBrowser demo_binding).
Definition demo_pilot : Pilot := mkPilot "todoist" ["https://app.todoist.com"]%string false.

(** Every URL of the demo is on the one origin. *)
Definition demo_origin (url : string) : option (string * bool) := Some ("https://app.todoist.com"%string, false).
Definition demo_label (place : string) : string := "# " +:+ place.
Definition demo_rfc3339 (now : Z) : string := "2026-01-01T00:00:00Z".

Record Form := mkForm { fm_title : string; fm_text : string; fm_due : string }.
Record Device := mkDevice { dv_form : option Form; dv_place : string }.

Definition form_task (place : string) (f : Form) : Task :=
  mkTask "" (mkDestination "" place (demo_label place)) (fm_title f) (fm_text f) (fm_due f) (mkSource "" "").

Definition demo_page (task : option Task) : Page :=
  mkPage "doc_1" "https://app.todoist.com/app" "" false
    ((λ name, mkElement name "button" "" name) <$> ["Add task"; "Task name"; "Description"; "Due date"]%string)
    (mkPageTarget "view_1" "profile_1" "https://app.todoist.com" "signed_in" "host-observation")
    (mkObservation "todoist" 1 "ada@example.test" "" "" "" "" None None task None).
Definition form_view (w : Device) : Page := demo_page (form_task (dv_place w) <$> dv_form w).

Definition text_of (o : object) (key : string) : string := default ""%string (get_str o key).
Definition fill_form (name text : string) (f : Form) : Form :=
  if String.eqb name "Task name" then mkForm text (fm_text f) (fm_due f)
  else if String.eqb name "Description" then mkForm (fm_title f) text (fm_due f)
  else mkForm (fm_title f) (fm_text f) text.

Definition form_execute (id operation : string) (input : object) (w : Device) : Device * (berror + Page) :=
  if String.eqb operation "browser.inspect" then (w, inr (form_view w))
  else
    let w' :=
      if String.eqb operation "browser.navigate" then mkDevice None (text_of input "url")
      else if String.eqb operation "browser.click" then mkDevice (Some (mkForm "" "" "")) (dv_place w)
      else
        let action := default [] (get_object input "action") in
        mkDevice (fill_form (text_of action "elementRef") (text_of action "text") <$> dv_form w) (dv_place w) in
    (w', inr (form_view w')).

(** The site: the form of the device, and the task it created. *)
Record Site := mkSite { st_device : Device; st_created : option Task }.
Definition site_view (w : Site) : Page := match st_created w with Some t => demo_page (Some t) | None => form_view (st_device w) end.
Definition site_execute (id operation : string) (input : object) (w : Site) : Site * (berror + Page) :=
  match st_created w, dv_form (st_device w) with
  | None, Some f =>
      if String.eqb operation "browser.click" then
        let t := form_task (dv_place (st_device w)) f in
        let w' := mkSite (st_device w) (Some (mkTask "task_1" (tk_Destination t) (tk_Title t) (tk_Text t) (tk_DueDate t) (tk_Source t))) in
        (w', inr (site_view w'))
      else let '(d, r) := form_execute id operation input (st_device w) in (mkSite d None, r)
  | None, None => let '(d, r) := form_execute id operation input (st_device w) in (mkSite d None, r)
  | Some _, _ => (w, inr (site_view w))
  end.

(** The site again, signed out as soon as it created the task. *)
Definition signed_out (p : Page) : Page :=
  let t := pg_Target p in
  mkPage (pg_DocumentID p) (pg_URL p) (pg_Text p) (pg_Truncated p) (pg_Interactive p)
    (mkPageTarget (pt_ScopeID t) (pt_ProfileID t) (pt_Origin t) "required" (pt_Trust t)) (pg_Semantic p).
Definition expiring_execute (id operation : string) (input : object) (w : Site) : Site * (berror + Page) :=
  let '(w', r) := site_execute id operation input w in
  (w', match r, st_created w' with inr p, Some _ => inr (signed_out p) | r, _ => r end).

Definition demo_place : string := "https://app.todoist.com/app/project/home".
Definition demo_input : json :=
  JObj [("destination"%string, JObj [("targetId"%string, JStr "target_1"); ("containerReference"%string, JStr demo_place); ("label"%string, JStr (demo_label demo_place))]);
        ("title"%string, JStr "Water the plants"); ("text"%string, JStr "All of them"); ("dueDate"%string, JStr "2026-02-01");
        ("source"%string, JObj [("reference"%string, JStr "note_1"); ("label"%string, JStr "Notes")])].
Definition demo_execution : Execution := mkExecution "tasks.create" "target_1" demo_input.
Definition demo_task : Task := default (mkTask "" (mkDestination "" "" "") "" "" "" (mkSource "" "")) (read_task demo_input).

(** The review of the demo, and a hash that only it has. *)
Definition demo_review : Prepared := mkPrepared "" "ada@example.test" demo_input (CTask demo_task) demo_target.
Definition demo_hash (v : json) : string := if bool_decide (v = prepared_json demo_review) then "a" else "b".

Lemma demo_hash_only v : demo_hash v = demo_hash (prepared_json demo_review) → v = prepared_json demo_review.
Proof.
  unfold demo_hash at 2. rewrite bool_decide_eq_true_2; [|done]. unfold demo_hash. destruct (bool_decide _) eqn:E; [|done].
  intros _. by apply bool_decide_eq_true in E.
Qed.

Abbreviation demo_adapter := (pilot_adapter demo_hash demo_rfc3339 demo_pilot).
(** A live caller that never gives up. *)
Definition live {W} (w : W) : option berror := None.
Definition go_on {W} (w : W) : W * bool := (w, false).
Definition noon {W} (w : W) : Z := 0.

Definition site_start : Session (W := Site) (Raw := Page) := mkSession (mkSite (mkDevice None "https://app.todoist.com/app/inbox") None) 0 false [].
Abbreviation site_prepare := (BrowserSession.Prepare site_execute live Some demo_origin demo_adapter demo_target demo_binding "inv_1").
Abbreviation site_commit := (BrowserSession.Commit site_execute live go_on noon Some demo_origin demo_hash demo_adapter demo_target demo_binding "inv_1").
Definition site_prepared : Session (W := Site) (Raw := Page) := (site_prepare demo_execution site_start).1.
Definition site_committed : Session (W := Site) (Raw := Page) * (berror + json) := site_commit demo_execution demo_review site_prepared.

Example site_prepares : site_prepare demo_execution site_start = (site_prepared, inr demo_review) ∧ len (ss_calls site_prepared) = 13.
Proof. vm_compute. done. Qed.
Example site_commits : (∃ raw, site_committed.2 = inr raw) ∧ st_created (ss_world site_committed.1) ≠ None.
Proof. vm_compute. split; [by eexists|done]. Qed.

(** The commit looks, clicks once and looks again. *)
Lemma site_log : ∃ i c j, ss_calls site_committed.1 = ss_calls site_prepared ++ [i; c; j] ∧ cl_Operation c = "browser.click"%string ∧
  stale (cl_Reply c) = false.
Proof. vm_compute. do 3 eexists. split; [reflexivity|]. split; reflexivity. Qed.

(** A commit of a review the page does not show is refused before it starts. *)
Definition site_refused : Session (W := Site) (Raw := Page) * bool * (berror + json) :=
  dispatch_browser site_execute live go_on noon Some demo_origin demo_hash demo_adapter demo_target demo_binding "inv_1"
    (λ _, true) None demo_execution demo_review site_start.
Lemma demo_refused : site_refused = (site_refused.1.1, true, inl [ErrNotAttempted; ErrReviewChanged]).
Proof. vm_compute. reflexivity. Qed.
