(* ===== verification/BrowserProps.v ===== *)
(** * What a reviewed effect in a browser guarantees

    Theorems on [BrowserSession] for every adapter and every device, then on the
    shipped adapters of [BrowserActions]: what a write was preceded by, what an
    error says, what a result was seen on, and that a preparation converges in a
    browser that does what it is told. *)
From S2P Require Import Prelude Tx GoStrings Json Contracts BrowserActions BrowserSession BrowserDemo.

#[local] Set Default Proof Using "Type".

Section props.
Context {W Raw : Type} (execute : string → string → object → W → W * (berror + Raw)).
Context (ctx_err : W → option berror) (pause : W → W * bool) (clock : W → Z).
Context (decode_page : Raw → option Page) (url_origin : string → option (string * bool)) (hash : json → string).
Context (adapter : Adapter) (target : Target) (binding : BrowserBinding) (prefix : string).

Local Abbreviation commit := (BrowserSession.Commit execute ctx_err pause clock decode_page url_origin hash adapter target binding prefix).
Local Abbreviation prepare := (BrowserSession.Prepare execute ctx_err decode_page url_origin adapter target binding prefix).
Local Abbreviation prepare_browser := (prepare_browser execute ctx_err decode_page url_origin adapter target binding prefix).
Local Abbreviation dispatch := (dispatch_browser execute ctx_err pause clock decode_page url_origin hash adapter target binding prefix).
Local Abbreviation observed := (observed decode_page url_origin adapter binding).
Local Abbreviation still_reviewed := (still_reviewed hash adapter target).
Local Abbreviation sent := (sent url_origin binding).

(** C19: a commit writes only what was reviewed, and at most once: every call of it
    that is not an inspection directly follows an inspection of a page of the bound
    profile, view, origin and account that still showed the review, and is the
    adapter's own commit on that page; after one that may have started there are
    only inspections. *)
Theorem commit_reviewed_once e review s s' r : commit e review s = (s', r) → ∃ l, ss_calls s' = ss_calls s ++ l ∧
  ∀ l1 c l2, l = l1 ++ c :: l2 → cl_Operation c ≠ "browser.inspect"%string →
    (∃ l0 i page a, l1 = l0 ++ [i] ∧ observed i page ∧ still_reviewed page e review = true ∧
      ad_Commit adapter page e target = inr (Some a) ∧ sent page a c) ∧
    (stale (cl_Reply c) = false → Forall (λ c, cl_Operation c = "browser.inspect"%string) l2).
Proof.
  intros H. destruct (Commit_emits _ _ _ _ _ _ _ _ _ _ _ _ _ _ _ _ H) as (l & Hl & Hlog & _). exists l. split; [done|]. intros l1 c l2 E Hw. by eapply log_writes.
Qed.


(** A session prepares and commits within its budget: from a fresh session the
    two together count at most 41 calls of the 48 allowed, so neither is ever stopped
    for want of calls. *)
Theorem session_within_budget e e' review s : ss_sequence s = 0 →
  let s' := (commit e' review (prepare e s).1).1 in ss_sequence s' <= 41 ∧ len (ss_calls s') <= len (ss_calls s) + 41.
Proof.
  intros Hs s'. pose proof (costs_Prepare execute ctx_err decode_page url_origin adapter target binding prefix e s) as Hp.
  pose proof (costs_Commit execute ctx_err pause clock decode_page url_origin hash adapter target binding prefix e' review (prepare e s).1) as Hc.
  fold s' in Hc. clearbody s'. generalize dependent ((prepare e s).1). intros s1 Hp Hc. lia.
Qed.
End props.

(** ** The shipped adapters *)

(** What a page shows when a preparation ends with a review of this content. *)
Definition shows (page : Page) (e : Execution) (content : Content) : Prop :=
  match content with
  | CNone => False
  | CObservation o => o = pg_Semantic page
  | CDraft d => ob_Draft (pg_Semantic page) = Some d
  | CTask i => read_task (ex_Input e) = Some i ∧ ∃ t, ob_Task (pg_Semantic page) = Some t ∧ tk_Reference t = ""%string ∧
      ds_ContainerReference (tk_Destination t) = ds_ContainerReference (tk_Destination i) ∧
      ds_Label (tk_Destination t) = ds_Label (tk_Destination i) ∧
      tk_Title t = tk_Title i ∧ tk_Text t = description i ∧ tk_DueDate t = tk_DueDate i
  end.

Lemma control_inr page name op fields a : control page name op fields = inr a → ac_Operation a = op.
Proof. unfold control. by destruct (filter _ _) as [|x [|]]; intros [= <-]. Qed.
Lemma click_inr page name r : click page name = inr r → ∃ a, r = (Some a, CNone).
Proof. unfold click. intros (a & _ & H)%result_bind_inr. injection H as <-. eauto. Qed.
Lemma fill_inr page name text r : fill page name text = inr r → ∃ a, r = (Some a, CNone).
Proof. unfold fill. intros (a & _ & H)%result_bind_inr. injection H as <-. eauto. Qed.

Ltac prepared_case := match goal with
  | H : click _ _ = inr _ |- _ => apply click_inr in H as [? [=]]
  | H : fill _ _ _ = inr _ |- _ => apply fill_inr in H as [? [=]]
  | H : navigate _ = inr _ |- _ => unfold navigate in H; discriminate H
  end.

Lemma pilot_shows hash page e target content : BrowserActions.Prepare hash page e target = inr (None, content) → shows page e content.
Proof.
  unfold BrowserActions.Prepare. destruct (String.eqb _ "inbox.read").
  { unfold prepare_read. destruct (read_thread _) as [thread|]; [|done]. destruct (empty thread); [done|]. destruct (negb _); [done|].
    destruct (_ || _); [done|]. by intros [= <-]. }
  destruct (String.eqb _ "inbox.draft").
  { unfold prepare_draft. intros H. destruct (read_draft_input _) as [i|]; [|done]. destruct (_ || _); [done|]. destruct (negb _); [done|].
    destruct (ob_Draft _) as [d|] eqn:Hd; [|by prepared_case]. destruct (_ || _); [done|]. destruct (negb _); [by prepared_case|].
    destruct (_ && _); [done|]. by injection H as <-. }
  destruct (String.eqb _ "inbox.send").
  { unfold prepare_send. destruct (read_send_input _) as [i|]; [|done]. destruct (ob_Draft _) as [d|] eqn:Hd; [|done].
    destruct (_ && _); [|done]. by intros [= <-]. }
  destruct (String.eqb _ "tasks.create"); [|done]. unfold prepare_task. intros H.
  destruct (read_task _) as [i|] eqn:Hi; [|done]. destruct (negb _); [done|].
  destruct (ob_Task _) as [t|] eqn:Ht; [|by prepared_case].
  do 6 match type of H with (if negb ?b then _ else _) = _ => destruct b eqn:?; simpl in H; [|first [done|by prepared_case]] end.
  injection H as <-. repeat match goal with E : String.eqb _ _ = true |- _ => apply String.eqb_eq in E end.
  split; [done|]. exists t. repeat split; try done. by eapply bool_decide_eq_true.
Qed.

(** The control a pilot commits with. *)
Definition commit_control (e : Execution) : string := if String.eqb (ex_Capability e) "inbox.send" then "Send" else "Add task".

Lemma pilot_commits page e target a : BrowserActions.Commit page e target = inr (Some a) →
  control page (commit_control e) "browser.click" None = inr a ∧ (ex_Capability e = "inbox.send"%string ∨ ex_Capability e = "tasks.create"%string).
Proof.
  unfold BrowserActions.Commit, commit_control. destruct (one_of _ _); [done|]. destruct (String.eqb _ "inbox.send") eqn:E1.
  - intros (b & Hb & H)%result_bind_inr. injection H as ->. split; [done|]. left. by apply String.eqb_eq.
  - destruct (String.eqb _ "tasks.create") eqn:E2; [|done]. intros (b & Hb & H)%result_bind_inr. injection H as ->. split; [done|].
    right. by apply String.eqb_eq.
Qed.

(** What a page proves when a result is returned. *)
Definition confirms (page : Page) (e : Execution) (review : Prepared) : Prop :=
  (ex_Capability e = "inbox.read"%string ∧ observation_json (pg_Semantic page) = content_json (pr_Content review)) ∨
  (ex_Capability e = "inbox.draft"%string ∧ ∃ d, ob_Draft (pg_Semantic page) = Some d ∧ draft_json d = content_json (pr_Content review)) ∨
  (ex_Capability e = "inbox.send"%string ∧ ∃ d, ob_Sent (pg_Semantic page) = Some d ∧ sent_matches d review = true) ∨
  (ex_Capability e = "tasks.create"%string ∧ ∃ t i, ob_Task (pg_Semantic page) = Some t ∧ read_task (ex_Input e) = Some i ∧ task_matches t i review = true).

Lemma pilot_confirms hash rfc3339 now page e review raw : BrowserActions.Verify hash rfc3339 now page e review = inr (Some raw) → confirms page e review.
Proof.
  unfold BrowserActions.Verify, confirms. destruct (String.eqb _ "inbox.read") eqn:E1; [apply String.eqb_eq in E1|].
  { unfold verify_read, same_content. destruct (bool_decide _) eqn:E; [|done]. apply bool_decide_eq_true in E. intros _. left. split; [done|]. by rewrite E. }
  destruct (String.eqb _ "inbox.draft") eqn:E2; [apply String.eqb_eq in E2|].
  { unfold verify_draft, same_content. destruct (ob_Draft _) as [d|]; [|done]. destruct (bool_decide _) eqn:E; [|done].
    apply bool_decide_eq_true in E. intros _. right. left. split; [done|]. exists d. split; [done|]. by rewrite E. }
  destruct (String.eqb _ "inbox.send") eqn:E3; [apply String.eqb_eq in E3|].
  { unfold verify_send. destruct (ob_Sent _) as [d|]; [|done]. destruct (negb _) eqn:E; [done|]. apply negb_false_iff in E. intros _.
    right. right. left. split; [done|]. by exists d. }
  destruct (String.eqb _ "tasks.create") eqn:E4; [apply String.eqb_eq in E4|done].
  unfold verify_task. destruct (read_task _) as [i|]; [|done]. destruct (ob_Task _) as [t|]; [|done]. destruct (negb _) eqn:E; [done|].
  apply negb_false_iff in E. intros _. do 3 right. split; [done|]. by exists t, i.
Qed.

Lemma prepared_json_fields p q : prepared_json p = prepared_json q →
  pr_Account p = pr_Account q ∧ pr_Input p = pr_Input q ∧ content_json (pr_Content p) = content_json (pr_Content q) ∧
  target_json (pr_Target p) = target_json (pr_Target q).
Proof.
  unfold prepared_json. generalize (content_json (pr_Content p)) (content_json (pr_Content q)) (target_json (pr_Target p)) (target_json (pr_Target q)).
  intros c1 c2 t1 t2 H. by injection H.
Qed.

(** The steps of a preparation: opening a place or an editor, and filling a field. *)
Definition harmless (page : Page) (a : Action) : Prop :=
  (∃ url, a = mkAction "browser.navigate" [str_field "url" url]) ∨
  (∃ name text, In name ["Message Body"; "Task name"; "Description"; "Due date"]%string ∧
    control page name "browser.interact" (Some [str_field "kind" "fill"; str_field "text" text]) = inr a) ∨
  (control page "Reply" "browser.click" None = inr a ∧ ob_Draft (pg_Semantic page) = None) ∨
  (control page "Add task" "browser.click" None = inr a ∧ ob_Task (pg_Semantic page) = None).

Lemma pilot_steps hash page e target a content : BrowserActions.Prepare hash page e target = inr (Some a, content) →
  harmless page a ∧ ex_Capability e ≠ "inbox.send"%string.
Proof.
  assert (∀ name op f (r : option Action * Content), (b ← control page name op f; inr (Some b, CNone)) = inr r → ∃ b, r = (Some b, CNone) ∧ control page name op f = inr b) as Hc.
  { intros name op f r (b & Hb & H)%result_bind_inr. injection H as <-. eauto. }
  unfold BrowserActions.Prepare. destruct (String.eqb _ "inbox.read") eqn:E1; [apply String.eqb_eq in E1; rewrite E1|].
  { unfold prepare_read. destruct (read_thread _) as [thread|]; [|done]. destruct (empty thread); [done|].
    destruct (negb _); [|by destruct (_ || _)]. intros [= <- <-]. split; [|done]. left. eauto. }
  destruct (String.eqb _ "inbox.draft") eqn:E2; [apply String.eqb_eq in E2; rewrite E2|].
  { unfold prepare_draft. destruct (read_draft_input _) as [i|]; [|done]. destruct (_ || _); [done|].
    destruct (negb _); [intros [= <- <-]; split; [left; eauto|done]|]. destruct (ob_Draft _) as [d|] eqn:Hd.
    - destruct (_ || _); [done|]. destruct (negb _); [|by destruct (_ && _)]. intros (b & [= -> ->] & Hb)%Hc. split; [|done].
      right. left. do 2 eexists. split; [|done]. by left.
    - intros (b & [= -> ->] & Hb)%Hc. split; [|done]. right. right. by left. }
  destruct (String.eqb _ "inbox.send").
  { unfold prepare_send. destruct (read_send_input _) as [i|]; [|done]. destruct (ob_Draft _); [|done]. by destruct (_ && _). }
  destruct (String.eqb _ "tasks.create") eqn:E4; [apply String.eqb_eq in E4; rewrite E4|done]. unfold prepare_task. intros H.
  split; [|done]. destruct (read_task _) as [i|]; [|done]. destruct (negb _); [done|].
  destruct (ob_Task _) as [t|] eqn:Ht; [|apply Hc in H as (b & [= -> ->] & Hb); do 3 right; done].
  do 6 (match type of H with (if negb ?b then _ else _) = _ => destruct b eqn:?; simpl in H; [|
    first [done | injection H as <- <-; left; by eexists | apply Hc in H as (? & [= -> ->] & ?); right; left; do 2 eexists; split; [|done]; simpl; tauto]] end).
  done.
Qed.

Section pilots.
Context {W Raw : Type} (execute : string → string → object → W → W * (berror + Raw)).
Context (ctx_err : W → option berror) (pause : W → W * bool) (clock : W → Z).
Context (decode_page : Raw → option Page) (url_origin : string → option (string * bool)) (hash : json → string) (rfc3339 : Z → string).
Context (pilot : Pilot) (target : Target) (binding : BrowserBinding) (prefix : string).

Local Abbreviation adapter := (pilot_adapter hash rfc3339 pilot).
Local Abbreviation commit := (BrowserSession.Commit execute ctx_err pause clock decode_page url_origin hash adapter target binding prefix).
Local Abbreviation prepare := (BrowserSession.Prepare execute ctx_err decode_page url_origin adapter target binding prefix).
Local Abbreviation observed := (observed decode_page url_origin adapter binding).

(** C21: a preparation has no effect of its own: every call of it is an inspection,
    or opens a place, a reply or the empty form of a task, or fills a field of one,
    on a page of the bound account; the preparation of a message that is sent only
    inspects.  The review it returns is what the page it saw last shows, for the
    account, the input and the target asked for. *)
Theorem preparation_has_no_effect e s s' r : prepare e s = (s', r) → ∃ l, ss_calls s' = ss_calls s ++ l ∧
  (∀ c, c ∈ l → cl_Operation c ≠ "browser.inspect"%string → ex_Capability e ≠ "inbox.send"%string ∧
    ∃ i page a, i ∈ l ∧ observed i page ∧ sent url_origin binding page a c ∧ harmless page a) ∧
  (∀ p, r = inr p → ∃ c page, last l = Some c ∧ observed c page ∧ shows page e (pr_Content p) ∧
    pr_Account p = bb_AccountIdentity binding ∧ pr_Input p = ex_Input e ∧ pr_Target p = target ∧ pr_BeforeReference p = beforeReference page).
Proof.
  intros H. destruct (Prepare_emits _ _ _ _ _ _ _ _ _ _ _ _ H) as (l & Hl & Hr & Hsteps). exists l. split; [done|]. split.
  - intros c Hc Hw. destruct (Hsteps c Hc) as [Hi|(i & page & a & content & Hi & Ho & Hp & Hs)]; [done|].
    apply pilot_steps in Hp as [Hh Hcap]. split; [done|]. by exists i, page, a.
  - intros p Hp. destruct (Hr p Hp) as (l' & c & page & content & -> & Hc & Hpp & ->). exists c, page. split; [apply last_snoc|].
    split; [done|]. split; [exact (pilot_shows hash page e target content Hpp)|]. split; [|done]. destruct Hc as [_ (raw & _ & _ & Hb)]. by eapply bound_account in Hb.
Qed.

(** C18: a shipped adapter sends or creates exactly what was reviewed: every write of
    a commit clicks the one control for it on a page of the bound account whose
    content, input, destination and target are those of the review, and a result is
    returned only for a page that shows the effect: the message sent, or the task
    created, with the reviewed fields under a new reference. *)
Theorem pilot_commit_exact e review s s' r :
  (∀ x, hash x = hash (prepared_json review) → x = prepared_json review) → commit e review s = (s', r) →
  ∃ l, ss_calls s' = ss_calls s ++ l ∧
  (∀ c, c ∈ l → cl_Operation c ≠ "browser.inspect"%string → ∃ i page a content, i ∈ l ∧ observed i page ∧
    control page (commit_control e) "browser.click" None = inr a ∧ sent url_origin binding page a c ∧ shows page e content ∧
    content_json content = content_json (pr_Content review) ∧ ex_Input e = pr_Input review ∧
    target_json target = target_json (pr_Target review) ∧ bb_AccountIdentity binding = pr_Account review) ∧
  (∀ raw, r = inr raw → ∃ c page, last l = Some c ∧ observed c page ∧ confirms page e review).
Proof.
  intros Hhash H. destruct (Commit_emits _ _ _ _ _ _ _ _ _ _ _ _ _ _ _ _ H) as (l & Hl & Hlog & Hr). exists l. split; [done|]. split.
  - intros c Hc Hw. apply list_elem_of_split in Hc as (l1 & l2 & E).
    destruct (log_writes _ _ _ _ _ _ _ _ _ _ _ _ Hlog E Hw) as [(l0 & i & page & a & -> & Hi & Hrev & Ha & Hs) _].
    apply pilot_commits in Ha as [Ha _]. unfold still_reviewed in Hrev. simpl in Hrev.
    destruct (BrowserActions.Prepare hash page e target) as [|[[|] content]] eqn:Hp; [done..|].
    apply String.eqb_eq, Hhash in Hrev. apply pilot_shows in Hp. apply prepared_json_fields in Hrev as (Hacc & Hin & Hcon & Htg). exists i, page, a, content.
    split; [rewrite E; apply elem_of_app; left; apply elem_of_app; right; by left|]. do 7 (split; [done|]).
    rewrite <- Hacc. destruct Hi as [_ (raw & _ & _ & Hb)]. by apply bound_account in Hb.
  - intros raw ->. destruct Hr as (l' & c & page & now & -> & Hc & Hv). exists c, page. split; [apply last_snoc|]. split; [done|].
    exact (pilot_confirms hash rfc3339 now page e review raw Hv).
Qed.
End pilots.

(** ** At a concrete input *)

Lemma commit_reviewed_once_witness : site_commit demo_execution demo_review site_prepared = (site_committed.1, site_committed.2) ∧
  ∃ l, ss_calls site_committed.1 = ss_calls site_prepared ++ l ∧ ∃ l1 c l2, l = l1 ++ c :: l2 ∧ cl_Operation c = "browser.click"%string ∧
    Forall (λ c, cl_Operation c = "browser.inspect"%string) l2.
Proof.
  assert (site_commit demo_execution demo_review site_prepared = (site_committed.1, site_committed.2)) as H by apply surjective_pairing.
  split; [exact H|]. destruct (commit_reviewed_once site_execute live go_on noon Some demo_origin demo_hash demo_adapter demo_target demo_binding "inv_1"
    demo_execution demo_review site_prepared site_committed.1 site_committed.2 H) as (l & Hl & Hw).
  exists l. split; [exact Hl|]. destruct site_log as (i & c & j & Hlog & Hop & Hst). rewrite Hlog in Hl. apply app_inv_head in Hl. subst l.
  exists [i], c, [j]. split; [reflexivity|]. split; [exact Hop|]. destruct (Hw [i] c [j] eq_refl) as [_ Hlast]; [|exact (Hlast Hst)].
  rewrite Hop. intros E. discriminate E.
Defined.


Lemma preparation_has_no_effect_witness : site_prepare demo_execution site_start = (site_prepared, inr demo_review) ∧
  ∃ l c page, ss_calls site_prepared = ss_calls site_start ++ l ∧ last l = Some c ∧
    observed Some demo_origin demo_adapter demo_binding c page ∧ shows page demo_execution (CTask demo_task).
Proof.
  split; [exact (proj1 site_prepares)|].
  destruct (preparation_has_no_effect site_execute live Some demo_origin demo_hash demo_rfc3339 demo_pilot demo_target demo_binding "inv_1"
    demo_execution site_start site_prepared (inr demo_review) (proj1 site_prepares)) as (l & Hl & _ & Hp).
  destruct (Hp demo_review eq_refl) as (c & page & Hc & Ho & Hs & _). exists l, c, page.
  split; [exact Hl|]. split; [exact Hc|]. split; [exact Ho|exact Hs].
Defined.

Lemma pilot_commit_exact_witness : site_commit demo_execution demo_review site_prepared = (site_committed.1, site_committed.2) ∧
  ∃ l c page, ss_calls site_committed.1 = ss_calls site_prepared ++ l ∧ last l = Some c ∧
    observed Some demo_origin demo_adapter demo_binding c page ∧ confirms page demo_execution demo_review.
Proof.
  assert (site_commit demo_execution demo_review site_prepared = (site_committed.1, site_committed.2)) as H by apply surjective_pairing.
  split; [exact H|]. destruct (pilot_commit_exact site_execute live go_on noon Some demo_origin demo_hash demo_rfc3339 demo_pilot demo_target
    demo_binding "inv_1" demo_execution demo_review site_prepared site_committed.1 site_committed.2 demo_hash_only H) as (l & Hl & _ & Hr).
  destruct (proj1 site_commits) as [raw Hraw]. destruct (Hr raw Hraw) as (c & page & Hc & Ho & Hs). exists l, c, page.
  split; [exact Hl|]. split; [exact Hc|]. split; [exact Ho|exact Hs].
Defined.

(** The joined error of a failed invalidation forgets that the write was sent: the
    page asks to sign in after the click, and the result allows another attempt. *)
Example failed_invalidation_allows_retry : ∃ s' err,
  dispatch_browser expiring_execute live go_on noon Some demo_origin demo_hash demo_adapter demo_target demo_binding "inv_1"
    (λ _, true) (Some [ErrOther "deadline"]) demo_execution demo_review site_prepared = (s', true, inl err) ∧
  is_err ErrNotAttempted err = true ∧ is_Some (st_created (ss_world s')).
Proof. vm_compute. do 2 eexists. split; [reflexivity|]. split; [reflexivity|by eexists]. Qed.
