(* ===== verification/BrowserLive.v ===== *)
(** * Preparation converges

    In a browser that does what it is told, the steps of [prepare_task] reach the
    requested form and the session returns its review: no case of the adapter undoes
    another, and 16 rounds and 48 calls are more than the worst case needs. *)
From S2P Require Import Prelude Tx GoStrings Json Contracts BrowserActions BrowserSession BrowserDemo.

#[local] Set Default Proof Using "Type".

Section live.
Context {W Raw : Type} (execute : string → string → object → W → W * (berror + Raw)).
Context (ctx_err : W → option berror).
Context (decode_page : Raw → option Page) (url_origin : string → option (string * bool)) (hash : json → string) (rfc3339 : Z → string).
Context (pilot : Pilot) (target : Target) (binding : BrowserBinding) (prefix : string).

Local Abbreviation adapter := (pilot_adapter hash rfc3339 pilot).
Local Abbreviation inspect := (Inspect execute ctx_err decode_page url_origin adapter binding prefix).
Local Abbreviation act_on := (perform execute ctx_err url_origin binding prefix).
Local Abbreviation prepare := (BrowserSession.Prepare execute ctx_err decode_page url_origin adapter target binding prefix).
Local Abbreviation loop := (prepare_loop execute ctx_err decode_page url_origin adapter target binding prefix).

(** The task a page shows. *)
Definition shown_task (p : Page) : option Task := ob_Task (pg_Semantic p).

(** A task form with one of its fields filled. *)
Definition filled (name text : string) (t : Task) : Task :=
  if String.eqb name "Task name" then mkTask (tk_Reference t) (tk_Destination t) text (tk_Text t) (tk_DueDate t) (tk_Source t)
  else if String.eqb name "Description" then mkTask (tk_Reference t) (tk_Destination t) (tk_Title t) text (tk_DueDate t) (tk_Source t)
  else mkTask (tk_Reference t) (tk_Destination t) (tk_Title t) (tk_Text t) text (tk_Source t).

Definition blank (place label : string) : Task := mkTask "" (mkDestination "" place label) "" "" "" (mkSource "" "").

(** The device carries out an action on the page it shows. *)
Definition carries_out (view : W → Page) (w : W) (a : Action) (after : W → Prop) : Prop :=
  ∀ id input, action_input url_origin binding (view w) a = inr input →
  ∃ w' raw, execute id (ac_Operation a) (set_field input "scopeId" (JStr (bb_ScopeID binding))) w = (w', inr raw) ∧ after w'.

(** A browser that does what it is told: it shows the bound account, an inspection
    changes nothing, its controls are unique, a navigation goes to a place with no
    form open, "Add task" opens the empty form at the place, and a fill sets its
    field.  [label] is the name a place shows. *)
Record cooperative (view : W → Page) (place : W → string) (label : string → string) : Prop := {
  co_live w : ctx_err w = None;
  co_bound w : bound_page url_origin adapter binding (view w) = inr tt;
  co_form w t : shown_task (view w) = Some t → tk_Reference t = ""%string ∧ ds_Label (tk_Destination t) = label (ds_ContainerReference (tk_Destination t));
  co_inspect w id input : ∃ w' raw, execute id "browser.inspect" input w = (w', inr raw) ∧ decode_page raw = Some (view w') ∧
    shown_task (view w') = shown_task (view w) ∧ place w' = place w;
  co_control w name : In name ["Add task"; "Task name"; "Description"; "Due date"]%string →
    ∃ el, filter (λ e, EqualFold (el_Name e) name = true) (pg_Interactive (view w)) = [el];
  co_navigate w url : carries_out view w (mkAction "browser.navigate" [str_field "url" url]) (λ w', shown_task (view w') = None ∧ place w' = url);
  co_open w a : shown_task (view w) = None → control (view w) "Add task" "browser.click" None = inr a →
    carries_out view w a (λ w', shown_task (view w') = Some (blank (place w) (label (place w))) ∧ place w' = place w);
  co_fill w t name text a : shown_task (view w) = Some t → In name ["Task name"; "Description"; "Due date"]%string →
    control (view w) name "browser.interact" (Some [str_field "kind" "fill"; str_field "text" text]) = inr a →
    carries_out view w a (λ w', shown_task (view w') = Some (filled name text t) ∧ place w' = place w) }.

Context (view : W → Page) (place : W → string) (label : string → string) (Hco : cooperative view place label).

Local Abbreviation Session := (Session (W := W) (Raw := Raw)).

Lemma invoke_runs op input s w raw : ss_sequence s < 48 →
  execute (prefix +:+ ":" +:+ Itoa (ss_sequence s + 1)) op (set_field input "scopeId" (JStr (bb_ScopeID binding))) (ss_world s) = (w, inr raw) →
  ∃ s', invoke execute ctx_err binding prefix op input s = (s', inr raw) ∧ ss_world s' = w ∧ ss_sequence s' = ss_sequence s + 1.
Proof using Hco.
  intros Hs Hx. unfold invoke, mbind, act_bind, ask. rewrite (co_live _ _ _ Hco). unfold update, check.
  assert ((ss_sequence s + 1 <=? 48) = true) as -> by lia. cbn -[set_field Itoa]. rewrite Hx. eexists. split; [reflexivity|]. done.
Qed.

Lemma inspect_runs s : ss_sequence s < 48 → ∃ s' : Session, inspect s = (s', inr (view (ss_world s'))) ∧
  shown_task (view (ss_world s')) = shown_task (view (ss_world s)) ∧ place (ss_world s') = place (ss_world s) ∧ ss_sequence s' = ss_sequence s + 1.
Proof using Hco.
  intros Hs.
  destruct (co_inspect _ _ _ Hco (ss_world s) (prefix +:+ ":" +:+ Itoa (ss_sequence s + 1)) (set_field [] "scopeId" (JStr (bb_ScopeID binding))))
    as (w & raw & Hx & Hd & Ht & Hp).
  destruct (invoke_runs _ _ _ _ _ Hs Hx) as (s' & Hi & <- & Hq). exists s'. split; [|done].
  unfold Inspect, mbind, act_bind. rewrite Hi. cbn. rewrite Hd. cbn. by rewrite (co_bound _ _ _ Hco).
Qed.

Lemma perform_runs s a input after : ss_sequence s < 48 → action_input url_origin binding (view (ss_world s)) a = inr input →
  carries_out view (ss_world s) a after →
  ∃ s' : Session, act_on (view (ss_world s)) a s = (s', inr tt) ∧ after (ss_world s') ∧ ss_sequence s' = ss_sequence s + 1.
Proof using Hco.
  intros Hs Ha Hc. destruct (Hc (prefix +:+ ":" +:+ Itoa (ss_sequence s + 1)) input Ha) as (w & raw & Hx & Hw).
  destruct (invoke_runs _ _ _ _ _ Hs Hx) as (s' & Hi & <- & Hq). eexists. unfold perform, mbind, act_bind, attempt. rewrite Ha. cbn. rewrite Hi.
  cbn. split; [reflexivity|]. done.
Qed.

(** *** The form comes closer *)

Context (e : Execution) (i : Task).
Context (Hcap : ex_Capability e = "tasks.create"%string) (Hi : read_task (ex_Input e) = Some i) (Htarget : ds_TargetID (tk_Destination i) = tg_ID target).
Context (Hlabel : label (ds_ContainerReference (tk_Destination i)) = ds_Label (tk_Destination i)).
Context (Hplace : ∃ origin, url_origin (ds_ContainerReference (tk_Destination i)) = Some (origin, false) ∧ one_of origin (bb_Origins binding) = true).

Local Abbreviation container := (λ t, ds_ContainerReference (tk_Destination t)).

Definition off (a b : string) : nat := if String.eqb a b then 0 else 1.

(** How many steps a preparation still needs. *)
Definition distance (t : option Task) (p : string) : nat :=
  match t with
  | None => if String.eqb p (container i) then 4 else 6
  | Some t =>
      if String.eqb (container t) (container i)
      then off (tk_Title t) (tk_Title i) + off (tk_Text t) (description i) + off (tk_DueDate t) (tk_DueDate i)
      else 5
  end.

(** One case of the adapter: the form is ready, or one action brings it closer. *)
Lemma prepare_step w : BrowserActions.Prepare hash (view w) e target = inr (None, CTask i) ∨
  ∃ a content input, BrowserActions.Prepare hash (view w) e target = inr (Some a, content) ∧
    action_input url_origin binding (view w) a = inr input ∧
    carries_out view w a (λ w', (distance (shown_task (view w')) (place w') < distance (shown_task (view w)) (place w))%nat).
Proof using All.
  unfold BrowserActions.Prepare. rewrite Hcap. simpl. unfold prepare_task. rewrite Hi, Htarget, String.eqb_refl. simpl.
  assert (∀ name op f t, In name ["Add task"; "Task name"; "Description"; "Due date"]%string →
    op = "browser.click"%string ∨ op = "browser.interact"%string →
    (∀ a, control (view w) name op f = inr a → carries_out view w a (λ w', (distance (shown_task (view w')) (place w') < t)%nat)) →
    ∃ a content input, (b ← control (view w) name op f; inr (Some b, CNone)) = inr (Some a, content) ∧
      action_input url_origin binding (view w) a = inr input ∧ carries_out view w a (λ w', (distance (shown_task (view w')) (place w') < t)%nat)) as Hstep.
  { intros name op f t Hin Hop Hc. destruct (co_control _ _ _ Hco w name Hin) as [el Hel].
    assert (∃ a, control (view w) name op f = inr a ∧ ac_Operation a = op) as (a & Ha & Ho).
    { unfold control. rewrite Hel. eauto. }
    exists a, CNone, (set_field (ac_Input a) "documentId" (JStr (pg_DocumentID (view w)))). rewrite Ha. split; [done|]. split; [|auto].
    unfold action_input. rewrite Ho. by destruct Hop as [-> | ->]. }
  change (ob_Task (pg_Semantic (view w))) with (shown_task (view w)). destruct (shown_task (view w)) as [t|] eqn:Ht.
  - destruct (co_form _ _ _ Hco w t Ht) as [Href Hlab]. rewrite Href. change (negb (empty "")) with false. cbn iota.
    assert (∀ name text, In name ["Task name"; "Description"; "Due date"]%string →
      (distance (Some (filled name text t)) (place w) < distance (Some t) (place w))%nat →
      ∃ a content input, fill (view w) name text = inr (Some a, content) ∧ action_input url_origin binding (view w) a = inr input ∧
        carries_out view w a (λ w', (distance (shown_task (view w')) (place w') < distance (Some t) (place w))%nat)) as Hfill.
    { intros name text Hin Hd. apply Hstep; [right; exact Hin|by right|]. intros a Ha id input Hinp.
      destruct (co_fill _ _ _ Hco w t name text a Ht Hin Ha id input Hinp) as (w' & raw & Hx & Hs & Hp). exists w', raw. split; [done|]. by rewrite Hs, Hp. }
    destruct (String.eqb (container t) (container i)) eqn:Ec; cbn [negb].
    + apply String.eqb_eq in Ec. rewrite Hlab, Ec, Hlabel, String.eqb_refl. cbn [negb].
      destruct (String.eqb (tk_Title t) _) eqn:E1; cbn [negb]; [|right; apply Hfill; [by left|]].
      2: { simpl. rewrite Ec, String.eqb_refl. unfold off. rewrite String.eqb_refl, E1. lia. }
      destruct (String.eqb (tk_Text t) _) eqn:E2; cbn [negb]; [|right; apply Hfill; [by right; left|]].
      2: { simpl. rewrite Ec, String.eqb_refl. unfold off. rewrite String.eqb_refl, E2. lia. }
      destruct (String.eqb (tk_DueDate t) _) eqn:E3; cbn [negb]; [by left|right; apply Hfill; [by right; right; left|]].
      simpl. rewrite Ec, String.eqb_refl. unfold off. rewrite String.eqb_refl, E3. lia.
    + right. do 2 eexists. destruct Hplace as (origin & Ho & Ha). exists [str_field "url" (container i)].
      split; [reflexivity|]. split; [unfold action_input; simpl; by rewrite Ho, Ha|]. intros id input Hinp.
      destruct (co_navigate _ _ _ Hco w _ id input Hinp) as (w' & raw & Hx & Hs & Hp). exists w', raw. split; [done|].
      rewrite Hs, Hp. simpl. rewrite Ec, String.eqb_refl. lia.
  - right. apply Hstep; [by left|by left|]. intros a Ha id input Hinp.
    destruct (co_open _ _ _ Hco w a Ht Ha id input Hinp) as (w' & raw & Hx & Hs & Hp). exists w', raw. split; [done|]. rewrite Hs, Hp. simpl.
    destruct (String.eqb (place w) (container i)); [|lia]. unfold off. repeat case_match; lia.
Qed.

Lemma loop_converges n s : (distance (shown_task (view (ss_world s))) (place (ss_world s)) < n)%nat →
  ss_sequence s + 2 * Z.of_nat (distance (shown_task (view (ss_world s))) (place (ss_world s))) + 2 <= 48 →
  ∃ (s' : Session) p, loop n e s = (s', inr p) ∧ pr_Content p = CTask i.
Proof using All.
  revert s. induction n as [|n IH]; intros s Hd Hs; [lia|]. cbn [prepare_loop]. unfold mbind, act_bind, attempt.
  destruct (inspect_runs s) as (s1 & HI & Ht & Hp & Hq); [lia|]. rewrite HI. rewrite <- Ht, <- Hp in *.
  destruct (prepare_step (ss_world s1)) as [Hr|(a & content & input & Hr & Ha & Hc)]; cbn [ad_Prepare pilot_adapter]; rewrite Hr; cbn.
  - eauto.
  - destruct (perform_runs s1 a input _ ltac:(lia) Ha Hc) as (s2 & HP & Hd2 & Hq2). rewrite HP. apply IH; lia.
Qed.
End live.

(** C22: in a browser that does what it is told a task's preparation succeeds from any
    form that is open, in any place, within the rounds and the calls a session has:
    no step undoes another, and the review it returns is of the task asked for. *)
Theorem preparation_converges {W Raw} (execute : string → string → object → W → W * (berror + Raw)) ctx_err decode_page url_origin hash rfc3339
    pilot target binding prefix view place label e i origin (s : Session (W := W) (Raw := Raw)) :
  cooperative execute ctx_err decode_page url_origin hash rfc3339 pilot binding view place label →
  ex_Capability e = "tasks.create"%string → read_task (ex_Input e) = Some i → ds_TargetID (tk_Destination i) = tg_ID target →
  label (ds_ContainerReference (tk_Destination i)) = ds_Label (tk_Destination i) →
  url_origin (ds_ContainerReference (tk_Destination i)) = Some (origin, false) → origin ∈ bb_Origins binding → ss_sequence s <= 34 →
  ∃ s' p, BrowserSession.Prepare execute ctx_err decode_page url_origin (pilot_adapter hash rfc3339 pilot) target binding prefix e s = (s', inr p) ∧
    pr_Content p = CTask i.
Proof.
  intros Hco Hcap Hi Ht Hl Ho Hin Hs. 
  assert (∀ t p, (distance i t p <= 6)%nat) as Hd.
  { intros [t|] p; simpl; unfold off; repeat case_match; lia. }
  pose proof (Hd (shown_task (view (ss_world s))) (place (ss_world s))).
  unfold BrowserSession.Prepare. eapply loop_converges; eauto; [|lia|lia]. exists origin. split; [done|]. by apply bool_decide_eq_true_2.
Qed.

Lemma demo_control (op : string) (f : option object) (name : string) w a : In name ["Add task"; "Task name"; "Description"; "Due date"]%string →
  control (form_view w) name op f = inr a →
  a = mkAction op match f with None => [str_field "elementRef" name] | Some o => [("action"%string, JObj (set_field o "elementRef" (JStr name)))] end.
Proof. intros Hin H. unfold control in H. simpl in Hin. destruct Hin as [<-|[<-|[<-|[<-|[]]]]]; vm_compute in H |- *; destruct f; by injection H as <-. Qed.

Lemma demo_cooperates : cooperative form_execute live Some demo_origin demo_hash demo_rfc3339 demo_pilot demo_binding form_view dv_place demo_label.
Proof.
  split.
  - done.
  - done.
  - intros [[f|] p] t H; [|done]. injection H as <-. done.
  - intros w id input. exists w, (form_view w). done.
  - intros w name Hin. exists (mkElement name "button" "" name). simpl in Hin. destruct Hin as [<-|[<-|[<-|[<-|[]]]]]; vm_compute; reflexivity.
  - intros w url id input H. vm_compute in H. injection H as <-. do 2 eexists. split; [reflexivity|]. done.
  - intros [f p] a Hf Ha id input H. apply (demo_control _ None) in Ha as ->; [|by left]. vm_compute in H. injection H as <-. do 2 eexists. split; [reflexivity|]. done.
  - intros [[f|] p] t name text a Ht Hin Ha id input H; [|done]. injection Ht as <-.
    apply (demo_control _ (Some _)) in Ha as ->; [|by right]. simpl in Hin. destruct Hin as [<-|[<-|[<-|[]]]]; vm_compute in H; injection H as <-;
      do 2 eexists; (split; [reflexivity|]); done.
Qed.

Definition form_start : Session (W := Device) (Raw := Page) := mkSession (mkDevice (Some (mkForm "x" "" "")) "https://app.todoist.com/app/inbox") 0 false [].

Lemma preparation_converges_witness : ∃ s' p,
  BrowserSession.Prepare form_execute live Some demo_origin demo_adapter demo_target demo_binding "inv_1" demo_execution form_start = (s', inr p) ∧
  pr_Content p = CTask demo_task.
Proof.
  apply (preparation_converges form_execute live Some demo_origin demo_hash demo_rfc3339 demo_pilot demo_target demo_binding "inv_1" form_view dv_place
    demo_label demo_execution demo_task "https://app.todoist.com" form_start demo_cooperates); [reflexivity..| | |].
  - reflexivity.
  - apply list_elem_of_singleton. reflexivity.
  - vm_compute. intros E. discriminate E.
Defined.
