(* ===== verification/Spaces.v ===== *)
(** * Spaces, their members and invitations

    The tables of accounts, Spaces, memberships and invitations, and the operations
    of [internal/platform/postgres] on them: [spaces_*.go], creation from
    [space_templates_create_space_with_template_idempotent.go] and [onboarding.go],
    the permissions of [space_library_space_member_permissions.go] and the deletion
    of accounts in [account_lifecycle_*.go].

    The wallets of [Wallet] and the apps of [SpaceApps] read the same directory:
    [wallet_db] and [catalog] are their views of the world, in which their own
    transaction bodies run.  Advisory and row locks make each operation atomic.  [now]
    is the server's clock and [dbnow] the database's.  E-mail addresses are ASCII.
    Events, audit rows, notes, drawings, conversations, schedules and the runs that a
    lost membership cancels are not modelled here. *)
From S2P Require Import Prelude Tx GoStrings GoTime Entitlements RunStore Contracts SpaceApps.
From S2P Require Wallet.

(** ** The world *)

Record Account := mkAccount { ac_Email : string; ac_State : string }.

(** A row of [spaces]. *)
Record SpaceRow := mkSpaceRow { sr_Owner : string; sr_Name : string; sr_IsDefault : bool; sr_State : string; sr_DeleteAfter : option Z }.

(** A row of [space_invitations]. *)
Record Invitation := mkInvitation {
  iv_SpaceID : string; iv_UserID : option string; iv_Email : string; iv_By : string; iv_Token : string; iv_Delivery : string;
  iv_ExpiresAt : Z; iv_RevokedAt : option Z; iv_ConsumedAt : option Z; iv_LastSentAt : option Z }.

(** A row of [account_deletion_requests]. *)
Record DeletionRequest := mkDeletion { dq_UserID : string; dq_Status : string; dq_Token : string; dq_PurgeAfter : Z }.

(** Keyed by the primary keys: [w_roles] by (Space, user), [w_overrides] by (Space,
    user, permission), [w_creations] by (user, key), with the fingerprint and the Space,
    [w_setup] by (Space, provider).
    [w_holds] are the active storage reservations with their Spaces.  Of [w_bank] and [w_registry] only
    the tables of wallets and of apps count. *)
Record World := mkWorld {
  w_accounts : gmap string Account;
  w_licenses : licenses;
  w_spaces : gmap string SpaceRow;
  w_roles : gmap (string * string) string;
  w_overrides : gmap (string * string * string) string;
  w_invitations : gmap string Invitation;
  w_creations : gmap (string * string) (string * string);
  w_onboarded : gmap string (string * string);
  w_deletions : gmap string DeletionRequest;
  w_setup : gmap (string * string) string;
  w_holds : gmap string string;
  w_bank : Wallet.DB;
  w_registry : Catalog }.

Definition set_accounts x (w : World) : World :=
  mkWorld x (w_licenses w) (w_spaces w) (w_roles w) (w_overrides w) (w_invitations w) (w_creations w) (w_onboarded w) (w_deletions w) (w_setup w) (w_holds w) (w_bank w) (w_registry w).
Definition set_licenses x (w : World) : World :=
  mkWorld (w_accounts w) x (w_spaces w) (w_roles w) (w_overrides w) (w_invitations w) (w_creations w) (w_onboarded w) (w_deletions w) (w_setup w) (w_holds w) (w_bank w) (w_registry w).
Definition set_spaces x (w : World) : World :=
  mkWorld (w_accounts w) (w_licenses w) x (w_roles w) (w_overrides w) (w_invitations w) (w_creations w) (w_onboarded w) (w_deletions w) (w_setup w) (w_holds w) (w_bank w) (w_registry w).
Definition set_roles x (w : World) : World :=
  mkWorld (w_accounts w) (w_licenses w) (w_spaces w) x (w_overrides w) (w_invitations w) (w_creations w) (w_onboarded w) (w_deletions w) (w_setup w) (w_holds w) (w_bank w) (w_registry w).
Definition set_overrides x (w : World) : World :=
  mkWorld (w_accounts w) (w_licenses w) (w_spaces w) (w_roles w) x (w_invitations w) (w_creations w) (w_onboarded w) (w_deletions w) (w_setup w) (w_holds w) (w_bank w) (w_registry w).
Definition set_invitations x (w : World) : World :=
  mkWorld (w_accounts w) (w_licenses w) (w_spaces w) (w_roles w) (w_overrides w) x (w_creations w) (w_onboarded w) (w_deletions w) (w_setup w) (w_holds w) (w_bank w) (w_registry w).
Definition set_creations x (w : World) : World :=
  mkWorld (w_accounts w) (w_licenses w) (w_spaces w) (w_roles w) (w_overrides w) (w_invitations w) x (w_onboarded w) (w_deletions w) (w_setup w) (w_holds w) (w_bank w) (w_registry w).
Definition set_onboarded x (w : World) : World :=
  mkWorld (w_accounts w) (w_licenses w) (w_spaces w) (w_roles w) (w_overrides w) (w_invitations w) (w_creations w) x (w_deletions w) (w_setup w) (w_holds w) (w_bank w) (w_registry w).
Definition set_deletions x (w : World) : World :=
  mkWorld (w_accounts w) (w_licenses w) (w_spaces w) (w_roles w) (w_overrides w) (w_invitations w) (w_creations w) (w_onboarded w) x (w_setup w) (w_holds w) (w_bank w) (w_registry w).
Definition set_setup x (w : World) : World :=
  mkWorld (w_accounts w) (w_licenses w) (w_spaces w) (w_roles w) (w_overrides w) (w_invitations w) (w_creations w) (w_onboarded w) (w_deletions w) x (w_holds w) (w_bank w) (w_registry w).
Definition set_holds x (w : World) : World :=
  mkWorld (w_accounts w) (w_licenses w) (w_spaces w) (w_roles w) (w_overrides w) (w_invitations w) (w_creations w) (w_onboarded w) (w_deletions w) (w_setup w) x (w_bank w) (w_registry w).
Definition set_bank x (w : World) : World :=
  mkWorld (w_accounts w) (w_licenses w) (w_spaces w) (w_roles w) (w_overrides w) (w_invitations w) (w_creations w) (w_onboarded w) (w_deletions w) (w_setup w) (w_holds w) x (w_registry w).
Definition set_registry x (w : World) : World :=
  mkWorld (w_accounts w) (w_licenses w) (w_spaces w) (w_roles w) (w_overrides w) (w_invitations w) (w_creations w) (w_onboarded w) (w_deletions w) (w_setup w) (w_holds w) (w_bank w) x.

Inductive space_error :=
  | RunErr (e : run_error)
  | WalletErr (e : Wallet.WalletError)
  | ErrSpaceOwnershipLimit
  | ErrSpaceInviteNotFound
  | ErrSpaceInviteExpired
  | ErrDefaultSpaceProtected
  | ErrLibraryInvalid
  | ErrLibraryNotFound
  | ErrAccountDeletionBlocked
  | ErrAccountDeletionToken
  | ErrOnboardingAlreadyComplete
  | ErrSQL (constraint : string).

#[local] Coercion RunErr : run_error >-> space_error.

Definition S := tx World space_error.

(** ** Views *)

Definition wallet_db (w : World) : Wallet.DB :=
  Wallet.mkDB (dom (w_accounts w)) ((λ r, Entitlements.mkSpace (sr_Owner r) (sr_State r)) <$> w_spaces w) (dom (w_roles w)) (w_licenses w)
    (Wallet.wallets (w_bank w)) (Wallet.space_wallets (w_bank w)) (Wallet.reservations (w_bank w)) (Wallet.ledger (w_bank w)).

Definition is_active (r : SpaceRow) : bool := String.eqb (sr_State r) "active".

Definition catalog (w : World) : Catalog :=
  let c := w_registry w in
  mkCatalog ((λ r, SpaceApps.mkSpace (is_active r) (sr_Name r)) <$> w_spaces w) (w_roles w) (w_overrides w) (apps c) (publishers c) (manifests c)
    (contracts c) (provider_versions c) (registrations c) (connections c) (connection_versions c) (targets c) (target_versions c) (devices c).

Definition directory (w : World) : Directory :=
  mkDirectory ((λ r, Entitlements.mkSpace (sr_Owner r) (sr_State r)) <$> w_spaces w) (w_roles w) (w_licenses w).

Definition in_wallets {A} (m : Wallet.M A) : S A := λ w,
  match m (wallet_db w) with inl e => inl (WalletErr e) | inr (x, d) => inr (x, set_bank d w) end.

Definition in_catalog {A} (m : SpaceApps.C A) : S A := λ w,
  match m (catalog w) with inl e => inl (RunErr e) | inr (x, c) => inr (x, set_registry c w) end.

Definition membership_error (e : MembershipError) : space_error :=
  match e with
  | Entitlements.ErrSpaceInvalid => ErrSpaceInvalid
  | Entitlements.ErrSpaceOwnershipLimit => ErrSpaceOwnershipLimit
  | ErrNoLicense => ErrNoRows
  | ErrDuplicateMember => ErrSQL "space_members_pkey"
  end.

(** [addSpaceMembershipTx] writes [space_members] only. *)
Definition addMember (spaceID userID role : string) (now : Z) : S () := λ w,
  match addSpaceMembershipTx spaceID userID role now (directory w) with
  | inl e => inl (membership_error e)
  | inr (x, d) => inr (x, set_roles (space_members d) w)
  end.

(** ** Members *)

Definition role_of (w : World) (spaceID userID : string) : option string :=
  r ← w_spaces w !! spaceID; guard (is_active r = true);; w_roles w !! (spaceID, userID).

Definition requireSpaceMemberTx (spaceID userID : string) : S string :=
  w ← get; require (role_of w spaceID userID) (ErrSpaceForbidden : space_error).

Definition requireSpaceOwnerTx (spaceID userID : string) : S () :=
  role ← requireSpaceMemberTx spaceID userID; guard_tx (String.eqb role "owner") (ErrSpaceForbidden : space_error).

Definition normalizeSpaceName (name : string) : option string :=
  let name := TrimSpace name in
  if (rune_count name <? 1) || (80 <? rune_count name) then None else Some name.

Definition normalizeEmail (email : string) : string := ToLower (TrimSpace email).

(** ** Creation *)

Definition builtInSpaceTemplates : list string :=
  ["blank"; "student-project"; "startup"; "research"; "game-development"; "creative-team"; "family"]%string.

Definition TestingTemplateByID (id : string) : option string :=
  let id := TrimSpace id in
  let id := if empty id then "blank"%string else id in
  if one_of id builtInSpaceTemplates then Some id else None.

(** Sorted and without duplicates. *)
Definition TestingNormalizeSetupProviders (providers : list string) : option (list string) :=
  let names := (λ raw, TrimSpace (ToLower raw)) <$> providers in
  if forallb (λ p, one_of p ["google"; "discord"; "notion"]%string) names
  then Some (filter (λ p, p ∈ names) ["discord"; "google"; "notion"]%string) else None.

(** An app selected at creation, with its release metadata. *)
Definition SelectedApp : Type := AppInstallSpec * Metadata.

(** The user owns an active default Space. *)
Definition has_default (w : World) (userID : string) : bool :=
  existsb (λ kv : string * SpaceRow, String.eqb (sr_Owner kv.2) userID && sr_IsDefault kv.2 && is_active kv.2) (map_to_list (w_spaces w)).

(** [INSERT INTO spaces], whose owner is a user. *)
Definition insert_space (spaceID userID name : string) (is_default : bool) : S () :=
  w ← get;
  guard_tx (bool_decide (is_Some (w_accounts w !! userID))) (ErrSQL "spaces_owner_user_id_fkey");;
  guard_tx (bool_decide (w_spaces w !! spaceID = None)) (ErrSQL "spaces_pkey");;
  modify (λ w, set_spaces (<[spaceID := mkSpaceRow userID name is_default "active" None]> (w_spaces w)) w).

Fixpoint insert_providers (spaceID : string) (providers : list string) : S () :=
  match providers with
  | [] => mret ()
  | p :: rest => modify (λ w, set_setup (<[(spaceID, p) := "selected"%string]> (w_setup w)) w);; insert_providers spaceID rest
  end.

Fixpoint install_apps (spaceID : string) (selected : list SelectedApp) (dbnow : Z) : S () :=
  match selected with
  | [] => mret ()
  | (spec, metadata) :: rest => in_catalog (installSpaceAppTx spaceID spec metadata dbnow);; install_apps spaceID rest dbnow
  end.

(** Identifiers of Spaces. *)
Definition space_id (newID : string) : string := "space_" +:+ newID.

Section creation.
Context (fingerprint : string → string → list string → list SelectedApp → string).

(** [newID] is the fresh UUID, [personal] the user's own template of that
    identifier, if any.  The result is the Space that was created for the key. *)
Definition CreateSpaceWithTemplateIdempotent (newID userID name templateID : string) (personal : option string) (providers : list string)
    (idempotencyKey : string) (selectedApps : list SelectedApp) (now dbnow : Z) : S string :=
  name ← require (normalizeSpaceName name) (ErrSpaceInvalid : space_error);
  template ← require (match TestingTemplateByID templateID with Some t => Some t | None => personal end) (ErrSpaceNotFound : space_error);
  providers ← require (TestingNormalizeSetupProviders providers) (ErrSpaceInvalid : space_error);
  guard_tx (unique (is_ID ∘ fst <$> selectedApps)) (ErrSpaceInvalid : space_error);;
  let key := TrimSpace idempotencyKey in
  guard_tx (strlen key <=? 200) (ErrSpaceInvalid : space_error);;
  let print := fingerprint name template providers selectedApps in
  w ← get;
  match (if empty key then None else w_creations w !! (userID, key)) with
  | Some (stored, spaceID) => guard_tx (String.eqb stored print) (ErrSpaceConflict : space_error);; mret spaceID
  | None =>
      insert_space (space_id newID) userID name (negb (has_default w userID));;
      addMember (space_id newID) userID "owner" now;;
      insert_providers (space_id newID) providers;;
      install_apps (space_id newID) selectedApps dbnow;;
      when (negb (empty key)) (modify (λ w, set_creations (<[(userID, key) := (print, space_id newID)]> (w_creations w)) w));;
      mret (space_id newID)
  end.

Definition FinishOnboarding (newID userID name : string) (selectedApps : list SelectedApp) (now dbnow : Z) : S string :=
  name ← require (normalizeSpaceName name) (ErrSpaceInvalid : space_error);
  guard_tx (negb (empty (TrimSpace userID))) (ErrSpaceInvalid : space_error);;
  guard_tx (forallb (λ app : SelectedApp, negb (empty (TrimSpace (is_ID app.1))) && negb (empty (TrimSpace (is_Version app.1))) &&
    (1 <=? is_PermissionVersion app.1)) selectedApps) (ErrSpaceInvalid : space_error);;
  let print := fingerprint name "" [] selectedApps in
  w ← get;
  match w_onboarded w !! userID with
  | Some (stored, spaceID) => guard_tx (String.eqb stored print) (ErrSpaceConflict : space_error);; mret spaceID
  | None =>
      guard_tx (negb (has_default w userID)) ErrOnboardingAlreadyComplete;;
      insert_space (space_id newID) userID name true;;
      addMember (space_id newID) userID "owner" now;;
      install_apps (space_id newID) selectedApps dbnow;;
      modify (λ w, set_onboarded (<[userID := (print, space_id newID)]> (w_onboarded w)) w);;
      mret (space_id newID)
  end.
End creation.

Definition SetSpaceSetupProviderStatus (userID spaceID provider status : string) : S () :=
  guard_tx (bool_decide (is_Some (TestingNormalizeSetupProviders [provider]))) (ErrSpaceInvalid : space_error);;
  guard_tx (one_of status ["selected"; "authorized"; "configured"; "skipped"]%string) (ErrSpaceInvalid : space_error);;
  requireSpaceOwnerTx spaceID userID;;
  w ← get;
  guard_tx (bool_decide (is_Some (w_setup w !! (spaceID, provider)))) (ErrSpaceNotFound : space_error);;
  modify (λ w, set_setup (<[(spaceID, provider) := status]> (w_setup w)) w).

(** ** Renaming and deletion *)

Definition update_space (spaceID : string) (f : SpaceRow → SpaceRow) : S () := modify (λ w, set_spaces (alter f spaceID (w_spaces w)) w).

Definition RenameSpace (userID spaceID name : string) : S () :=
  name ← require (normalizeSpaceName name) (ErrSpaceInvalid : space_error);
  requireSpaceOwnerTx spaceID userID;;
  update_space spaceID (λ r, mkSpaceRow (sr_Owner r) name (sr_IsDefault r) (sr_State r) (sr_DeleteAfter r)).

Definition DeleteSpace (userID spaceID confirmation : string) (dbnow : Z) : S () :=
  requireSpaceOwnerTx spaceID userID;;
  w ← get;
  r ← require (w_spaces w !! spaceID) (ErrNoRows : space_error);
  guard_tx (negb (sr_IsDefault r)) ErrDefaultSpaceProtected;;
  guard_tx (String.eqb confirmation (sr_Name r)) (ErrSpaceInvalid : space_error);;
  update_space spaceID (λ r, mkSpaceRow (sr_Owner r) (sr_Name r) (sr_IsDefault r) "pending_deletion" (Some (dbnow + 30 * Day))).

(** ** Invitations *)

Definition live (i : Invitation) : bool := bool_decide (iv_RevokedAt i = None) && bool_decide (iv_ConsumedAt i = None).

Definition set_revoked (at_ : Z) (i : Invitation) : Invitation :=
  mkInvitation (iv_SpaceID i) (iv_UserID i) (iv_Email i) (iv_By i) (iv_Token i) (iv_Delivery i) (iv_ExpiresAt i) (Some at_) (iv_ConsumedAt i) (iv_LastSentAt i).

Definition update_invitations (f : Invitation → Invitation) : S () := modify (λ w, set_invitations (f <$> w_invitations w) w).

(** [SET revoked_at=COALESCE(revoked_at,NOW()) WHERE expires_at<=NOW() AND consumed_at IS NULL]. *)
Definition sweep (dbnow : Z) : S () :=
  update_invitations (λ i, if (iv_ExpiresAt i <=? dbnow) && bool_decide (iv_ConsumedAt i = None)
                           then set_revoked (default dbnow (iv_RevokedAt i)) i else i).

(** The user of an address; the addresses of accounts are unique in lower case. *)
Definition account_by_email (w : World) (email : string) : option string :=
  fst <$> head (filter (λ kv : string * Account, ToLower (ac_Email kv.2) = email) (map_to_list (w_accounts w))).

Definition is_member_email (w : World) (spaceID email : string) : bool :=
  existsb (λ kv : (string * string) * string, String.eqb kv.1.1 spaceID &&
    match w_accounts w !! kv.1.2 with Some a => String.eqb (ToLower (ac_Email a)) email | None => false end) (map_to_list (w_roles w)).

Definition token_used (w : World) (except token : string) : bool :=
  existsb (λ kv : string * Invitation, negb (String.eqb kv.1 except) && String.eqb (iv_Token kv.2) token) (map_to_list (w_invitations w)).

Definition invitation_lifetime : Z := 7 * 24 * Hour.

Definition InviteToSpaceWithToken (newID ownerID spaceID email tokenHash : string) (now dbnow : Z) : S Invitation :=
  let email := normalizeEmail email in
  let tokenHash := TrimSpace tokenHash in
  guard_tx (negb (empty email || empty tokenHash)) (ErrSpaceInvalid : space_error);;
  requireSpaceOwnerTx spaceID ownerID;;
  sweep dbnow;;
  w ← get;
  guard_tx (negb (is_member_email w spaceID email)) (ErrSpaceConflict : space_error);;
  guard_tx (bool_decide (is_Some (w_accounts w !! ownerID))) (ErrNoRows : space_error);;
  update_invitations (λ i, if String.eqb (iv_SpaceID i) spaceID && String.eqb (ToLower (iv_Email i)) email && live i then set_revoked dbnow i else i);;
  w ← get;
  guard_tx (bool_decide (w_invitations w !! newID = None)) (ErrSQL "space_invitations_pkey");;
  guard_tx (negb (token_used w newID tokenHash)) (ErrSQL "space_invitations_token_hash_idx");;
  let i := mkInvitation spaceID (account_by_email w email) email ownerID tokenHash "pending" (now + invitation_lifetime) None None None in
  modify (set_invitations (<[newID := i]> (w_invitations w)));;
  mret i.

(** The invitations a user sees, after the sweep. *)
Definition IncomingSpaceInvites (userID : string) (dbnow : Z) : S (list string) :=
  sweep dbnow;;
  w ← get;
  mret match w_accounts w !! userID with
       | None => []
       | Some a => fst <$> filter (λ kv : string * Invitation,
           (iv_UserID kv.2 = Some userID ∨ ToLower (iv_Email kv.2) = ToLower (ac_Email a)) ∧ live kv.2 = true ∧ dbnow < iv_ExpiresAt kv.2)
           (map_to_list (w_invitations w))
       end.

Definition put_invitation (inviteID : string) (i : Invitation) : S () := modify (λ w, set_invitations (<[inviteID := i]> (w_invitations w)) w).

Definition RefreshSpaceInvitation (ownerID spaceID inviteID tokenHash : string) (now : Z) : S Invitation :=
  requireSpaceOwnerTx spaceID ownerID;;
  w ← get;
  i ← require (i ← w_invitations w !! inviteID; guard (iv_SpaceID i = spaceID ∧ live i = true ∧ is_Some (w_accounts w !! iv_By i));; Some i)
        ErrSpaceInviteNotFound;
  guard_tx (negb (token_used w inviteID tokenHash)) (ErrSQL "space_invitations_token_hash_idx");;
  let i := mkInvitation (iv_SpaceID i) (iv_UserID i) (iv_Email i) (iv_By i) tokenHash "pending" (now + invitation_lifetime) None None None in
  put_invitation inviteID i;;
  mret i.

Definition RevokeSpaceInvitation (ownerID spaceID inviteID : string) (dbnow : Z) : S () :=
  requireSpaceOwnerTx spaceID ownerID;;
  w ← get;
  i ← require (i ← w_invitations w !! inviteID; guard (iv_SpaceID i = spaceID ∧ live i = true);; Some i) ErrSpaceInviteNotFound;
  put_invitation inviteID (set_revoked dbnow i).

Definition SetSpaceInvitationDelivery (inviteID status : string) (dbnow : Z) : S () :=
  guard_tx (one_of status ["sent"; "failed"]%string) (ErrSpaceInvalid : space_error);;
  modify (λ w, set_invitations (alter (λ i, mkInvitation (iv_SpaceID i) (iv_UserID i) (iv_Email i) (iv_By i) (iv_Token i) status (iv_ExpiresAt i)
    (iv_RevokedAt i) (iv_ConsumedAt i) (Some dbnow)) inviteID (w_invitations w)) w).

(** The invitations that [PurgeExpiredSpaceData] deletes. *)
Definition purge_invitations (dbnow : Z) : S () :=
  modify (λ w, set_invitations (filter (λ kv : string * Invitation, dbnow < iv_ExpiresAt kv.2) (w_invitations w)) w).

Definition RespondToSpaceInvite (userID inviteID : string) (accept : bool) (now dbnow : Z) : S () :=
  w ← get;
  i ← require (i ← w_invitations w !! inviteID; guard (live i = true);; Some i) ErrSpaceInviteNotFound;
  a ← require (w_accounts w !! userID) ErrSpaceInviteNotFound;
  guard_tx (String.eqb (normalizeEmail (iv_Email i)) (normalizeEmail (ac_Email a))) ErrSpaceInviteNotFound;;
  if iv_ExpiresAt i <? now then modify (set_invitations (delete inviteID (w_invitations w)));; fail ErrSpaceInviteExpired
  else if negb accept then put_invitation inviteID (set_revoked dbnow i)
  else
    addMember (iv_SpaceID i) userID "member" now;;
    put_invitation inviteID (mkInvitation (iv_SpaceID i) (Some userID) (iv_Email i) (iv_By i) (iv_Token i) (iv_Delivery i) (iv_ExpiresAt i)
      (iv_RevokedAt i) (Some dbnow) (iv_LastSentAt i)).

(** The token is looked up in a transaction of its own. *)
Definition invitation_by_token (w : World) (tokenHash : string) (dbnow : Z) : option string :=
  fst <$> head (filter (λ kv : string * Invitation, iv_Token kv.2 = tokenHash ∧ live kv.2 = true ∧ dbnow < iv_ExpiresAt kv.2) (map_to_list (w_invitations w))).

Definition RespondToSpaceInviteToken (userID tokenHash : string) (accept : bool) (now dbnow : Z) : S () :=
  w ← get;
  inviteID ← require (invitation_by_token w tokenHash dbnow) ErrSpaceInviteNotFound;
  RespondToSpaceInvite userID inviteID accept now dbnow.

(** ** Leaving and owning *)

Definition remove_member (spaceID userID : string) : S () := modify (λ w, set_roles (delete (spaceID, userID) (w_roles w)) w).

Definition RemoveSpaceMember (ownerID spaceID memberID : string) : S () :=
  requireSpaceOwnerTx spaceID ownerID;;
  guard_tx (negb (String.eqb ownerID memberID)) (ErrSpaceInvalid : space_error);;
  w ← get;
  guard_tx (bool_decide (w_roles w !! (spaceID, memberID) = Some "member"%string)) (ErrSpaceNotFound : space_error);;
  remove_member spaceID memberID.

Definition LeaveSpace (userID spaceID : string) : S () :=
  role ← requireSpaceMemberTx spaceID userID;
  guard_tx (negb (String.eqb role "owner")) (ErrSpaceInvalid : space_error);;
  remove_member spaceID userID.

Definition set_owner (userID : string) (r : SpaceRow) : SpaceRow := mkSpaceRow userID (sr_Name r) (sr_IsDefault r) (sr_State r) (sr_DeleteAfter r).

(** The active reservations of storage and of hosted AI in a Space. *)
Definition active_reservations (w : World) (spaceID : string) : Z :=
  len (filter (λ kv : string * string, kv.2 = spaceID) (map_to_list (w_holds w))) +
  len (filter (λ kv : string * Wallet.Reservation, Wallet.res_space kv.2 = spaceID ∧ Wallet.is_open kv.2 = true)
        (map_to_list (Wallet.reservations (w_bank w)))).

Definition TransferSpaceOwnership (ownerID spaceID memberID : string) (now dbnow : Z) : S () :=
  requireSpaceOwnerTx spaceID ownerID;;
  w ← get;
  r ← require (w_spaces w !! spaceID) (ErrNoRows : space_error);
  guard_tx (negb (sr_IsDefault r)) ErrDefaultSpaceProtected;;
  in_wallets (Wallet.refreshSpaceHostedAIWalletTx spaceID now dbnow);;
  w ← get;
  role ← require (w_roles w !! (spaceID, memberID)) (ErrSpaceNotFound : space_error);
  guard_tx (String.eqb role "member") (ErrSpaceInvalid : space_error);;
  e ← require (entitlementsForUserTx (w_licenses w) memberID now) (ErrNoRows : space_error);
  guard_tx (owned_spaces (directory w) memberID <? MaxOwnedSpaces e) ErrSpaceOwnershipLimit;;
  guard_tx (active_reservations w spaceID <=? 0) (ErrSpaceConflict : space_error);;
  modify (λ w, set_roles (<[(spaceID, memberID) := "owner"%string]> (<[(spaceID, ownerID) := "member"%string]> (w_roles w))) w);;
  update_space spaceID (set_owner memberID);;
  in_wallets (Wallet.refreshSpaceHostedAIWalletTx spaceID now dbnow);;
  mret ().

(** ** Permissions *)

Definition configurableSpacePermissions : list string :=
  ["apps.manage"; "messages.read"; "messages.write"; "library.view"; "library.upload"; "attachments.upload"; "library.add"; "library.edit";
   "library.download"; "library.import"; "storage.view_own_usage"; "storage.view_member_usage"; "storage.manage"; "studio.view";
   "studio.manage"; "ask.run"; "tasks.view"; "tasks.manage"; "integrations.manage"]%string.

(** [if err != nil { return e }]: any error of [m] becomes [e]. *)
Definition masked {A} (m : S A) (e : space_error) : S A := λ w, match m w with inl _ => inl e | r => r end.

Definition SetSpaceMemberPermission (ownerUserID spaceID memberUserID permission effect : string) : S () :=
  guard_tx (one_of permission configurableSpacePermissions && one_of effect ["allow"; "deny"; "inherit"]%string) ErrLibraryInvalid;;
  masked (requireSpaceOwnerTx spaceID ownerUserID) (ErrLibraryForbidden : space_error);;
  role ← masked (requireSpaceMemberTx spaceID memberUserID) ErrLibraryNotFound;
  guard_tx (negb (String.eqb role "owner")) ErrLibraryInvalid;;
  let key := (spaceID, memberUserID, permission) in
  if String.eqb effect "inherit" then modify (λ w, set_overrides (delete key (w_overrides w)) w)
  else modify (λ w, set_overrides (<[key := effect]> (w_overrides w)) w).

Definition denied (permissions : gmap string bool) (p : string) : bool := negb (default false (permissions !! p)).

(** Assigning [false] to what depends on a missing permission. *)
Definition applySpacePermissionDependencies (m : gmap string bool) : gmap string bool :=
  let m := if denied m "messages.read" then <["messages.write"%string := false]> m else m in
  let m := if denied m "messages.read" || denied m "messages.write" then <["attachments.upload"%string := false]> m else m in
  if denied m "tasks.view" then <["tasks.manage"%string := false]> m else m.

(** The permissions of a member, one query each. *)
Fixpoint member_permissions (userID spaceID : string) (permissions : list string) : S (gmap string bool) :=
  match permissions with
  | [] => mret ∅
  | p :: rest =>
      allowed ← in_catalog (hasSpacePermissionTx userID spaceID p);
      m ← member_permissions userID spaceID rest;
      mret (<[p := allowed]> m)
  end.

Definition SpaceMemberPermissions (actorUserID spaceID memberUserID : string) : S (gmap string bool) :=
  requireSpaceMemberTx spaceID actorUserID;;
  when (negb (String.eqb actorUserID memberUserID)) (masked (requireSpaceOwnerTx spaceID actorUserID) (ErrLibraryForbidden : space_error));;
  masked (requireSpaceMemberTx spaceID memberUserID) ErrLibraryNotFound;;
  m ← member_permissions memberUserID spaceID configurableSpacePermissions;
  mret (applySpacePermissionDependencies m).

(** [Space] with the permissions of [populateSpacePermissionsTx]. *)
Record SpaceView := mkView {
  vw_Owner : string; vw_Name : string; vw_IsDefault : bool; vw_Role : string; vw_MemberCount : Z; vw_PendingCount : Z; vw_IsShared : bool;
  vw_Permissions : gmap string bool }.

Definition members_of (w : World) (spaceID : string) : list (string * string) :=
  (λ kv : (string * string) * string, (kv.1.2, kv.2)) <$> filter (λ kv : (string * string) * string, kv.1.1 = spaceID) (map_to_list (w_roles w)).
Definition pending_of (w : World) (spaceID : string) (dbnow : Z) : Z :=
  len (filter (λ kv : string * Invitation, iv_SpaceID kv.2 = spaceID ∧ live kv.2 = true ∧ dbnow < iv_ExpiresAt kv.2) (map_to_list (w_invitations w))).

Definition SpaceByID (userID spaceID : string) (dbnow : Z) : S SpaceView :=
  w ← get;
  role ← require (role_of w spaceID userID) (ErrSpaceNotFound : space_error);
  r ← require (w_spaces w !! spaceID) (ErrSpaceNotFound : space_error);
  m ← member_permissions userID spaceID configurableSpacePermissions;
  let owner := String.eqb role "owner" in
  let pending := pending_of w spaceID dbnow in
  mret (mkView (sr_Owner r) (sr_Name r) (sr_IsDefault r) role (len (members_of w spaceID)) pending
    (existsb (λ m, String.eqb m.2 "member") (members_of w spaceID) || (0 <? pending))
    (<["space.leave"%string := negb owner]> (<["space.delete"%string := owner && negb (sr_IsDefault r)]>
      (<["space.transfer"%string := owner && negb (sr_IsDefault r)]> (<["space.rename"%string := owner]>
        (<["space.invite"%string := owner]> (applySpacePermissionDependencies m))))))).

(** ** Accounts *)

Definition email_taken (w : World) (email : string) : bool := bool_decide (is_Some (account_by_email w (ToLower email))).

(** The rows that [createUser] inserts. *)
Definition createUser (userID licenseID email : string) : S () :=
  let license := mkLicense licenseID TierBasic LicenseStatusActive None None None in
  let email := normalizeEmail email in
  w ← get;
  guard_tx (bool_decide (w_accounts w !! userID = None)) (ErrSQL "users_pkey");;
  guard_tx (negb (email_taken w email)) (ErrSQL "users_email_normalized_unique_idx");;
  modify (λ w, set_licenses (<[userID := license]> (w_licenses w)) (set_accounts (<[userID := mkAccount email "active"]> (w_accounts w)) w)).

(** An active Space of the user that someone else is a member of. *)
Definition shares_owned (w : World) (userID : string) : bool :=
  existsb (λ kv : string * SpaceRow, String.eqb (sr_Owner kv.2) userID && is_active kv.2 &&
    existsb (λ m, negb (String.eqb m.1 userID)) (members_of w kv.1)) (map_to_list (w_spaces w)).

Definition open_request (userID : string) (q : DeletionRequest) : bool := String.eqb (dq_UserID q) userID && one_of (dq_Status q) ["processing"; "scheduled"]%string.

Definition set_state (state : string) (a : Account) : Account := mkAccount (ac_Email a) state.

Definition BeginAccountDeletion (userID requestID statusTokenHash : string) (retention now : Z) : S DeletionRequest :=
  guard_tx (negb (empty userID || empty requestID || empty statusTokenHash)) ErrAccountDeletionToken;;
  let retention := if retention <? 24 * Hour then 30 * 24 * Hour else retention in
  w ← get;
  a ← require (w_accounts w !! userID) (ErrNoRows : space_error);
  guard_tx (String.eqb (ac_State a) "active") ErrAccountDeletionBlocked;;
  guard_tx (negb (shares_owned w userID)) ErrAccountDeletionBlocked;;
  guard_tx (bool_decide (w_deletions w !! requestID = None)) (ErrSQL "account_deletion_requests_pkey");;
  guard_tx (negb (existsb (λ kv : string * DeletionRequest, open_request userID kv.2 || String.eqb (dq_Token kv.2) statusTokenHash)
    (map_to_list (w_deletions w)))) (ErrSQL "account_deletion_requests_active_user_idx");;
  let q := mkDeletion userID "processing" statusTokenHash (now + retention) in
  modify (λ w, set_deletions (<[requestID := q]> (w_deletions w)) (set_accounts (<[userID := set_state "pending_deletion" a]> (w_accounts w)) w));;
  mret q.

Definition set_status (status : string) (q : DeletionRequest) : DeletionRequest := mkDeletion (dq_UserID q) status (dq_Token q) (dq_PurgeAfter q).

(** The memberships that the account leaves; it keeps the Spaces it owns. *)
Definition leave_all (userID : string) (m : gmap (string * string) string) : gmap (string * string) string :=
  filter (λ kv : (string * string) * string, ¬ (kv.1.2 = userID ∧ kv.2 = "member"%string)) m.

Definition ScheduleAccountDeletion (requestID : string) : S () :=
  w ← get;
  q ← require (q ← w_deletions w !! requestID; guard (dq_Status q = "processing"%string);; Some q) (ErrNoRows : space_error);
  modify (λ w, set_roles (leave_all (dq_UserID q) (w_roles w)) w);;
  modify (λ w, set_deletions (<[requestID := set_status "scheduled" q]> (w_deletions w)) w).

(** The address of an anonymized account: 16 bytes of the identifier without dashes. *)
Fixpoint without_dashes (s : string) : string :=
  match s with EmptyString => EmptyString | String c s => if (code c =? 45) then without_dashes s else String c (without_dashes s) end.
Definition deleted_email (userID : string) : string := "deleted+" +:+ String.substring 0 16 (without_dashes userID) +:+ "@misty.invalid".

Definition CompleteAccountDeletion (requestID : string) (dbnow : Z) : S () :=
  w ← get;
  q ← require (q ← w_deletions w !! requestID; guard (dq_Status q = "scheduled"%string ∧ dq_PurgeAfter q <= dbnow);; Some q) (ErrNoRows : space_error);
  match w_accounts w !! dq_UserID q with
  | Some a =>
      when (String.eqb (ac_State a) "pending_deletion")
        (guard_tx (negb (email_taken (set_accounts (delete (dq_UserID q) (w_accounts w)) w) (deleted_email (dq_UserID q)))) (ErrSQL "users_email_normalized_unique_idx");;
         modify (λ w, set_accounts (<[dq_UserID q := mkAccount (deleted_email (dq_UserID q)) "deleted"]> (w_accounts w)) w))
  | None => mret ()
  end;;
  modify (λ w, set_deletions (<[requestID := set_status "completed" q]> (w_deletions w)) w).
