(* ===== verification/SpacesInv.v ===== *)
(** * The directory of Spaces stays sound

    Every operation of [Spaces], in any order and interleaved with the operations on
    wallets, licenses, apps and storage, keeps what the rest of the server relies on:
    each Space has exactly one owner, who is the member with that role; memberships
    and invitations belong to existing Spaces and accounts; a user has at most one
    default Space, which is active, and owns at most ten Spaces. *)
From S2P Require Import Prelude Tx GoStrings GoTime Entitlements RunStore Contracts SpaceApps Spaces.
From S2P Require Wallet WalletProps.

#[local] Set Default Proof Using "Type".

(** ** Operations *)

Inductive space_op :=
  | OpCreate (newID userID name templateID : string) (personal : option string) (providers : list string) (key : string)
      (selected : list SelectedApp) (now dbnow : Z)
  | OpOnboard (newID userID name : string) (selected : list SelectedApp) (now dbnow : Z)
  | OpSetup (userID spaceID provider status : string)
  | OpRename (userID spaceID name : string)
  | OpDelete (userID spaceID confirmation : string) (dbnow : Z)
  | OpInvite (newID ownerID spaceID email tokenHash : string) (now dbnow : Z)
  | OpIncoming (userID : string) (dbnow : Z)
  | OpRefresh (ownerID spaceID inviteID tokenHash : string) (now : Z)
  | OpRevoke (ownerID spaceID inviteID : string) (dbnow : Z)
  | OpDelivery (inviteID status : string) (dbnow : Z)
  | OpPurge (dbnow : Z)
  | OpRespond (userID inviteID : string) (accept : bool) (now dbnow : Z)
  | OpRespondToken (userID tokenHash : string) (accept : bool) (now dbnow : Z)
  | OpRemove (ownerID spaceID memberID : string)
  | OpLeave (userID spaceID : string)
  | OpTransfer (ownerID spaceID memberID : string) (now dbnow : Z)
  | OpPermission (ownerUserID spaceID memberUserID permission effect : string)
  | OpRegister (userID licenseID email : string)
  | OpBeginDeletion (userID requestID statusTokenHash : string) (retention now : Z)
  | OpScheduleDeletion (requestID : string)
  | OpCompleteDeletion (requestID : string) (dbnow : Z)
  (* What other parts of the server do. *)
  | OpLicenses (ls : licenses)
  | OpWallets (op : WalletProps.wallet_op)
  | OpApps (c : Catalog)
  | OpHolds (h : gmap string string).

Definition void {A} (m : S A) : S () := m;; mret ().

Section histories.
Context (fingerprint : string → string → list string → list SelectedApp → string).

Definition body (op : space_op) : S () :=
  match op with
  | OpCreate newID userID name templateID personal providers key selected now dbnow =>
      void (CreateSpaceWithTemplateIdempotent fingerprint newID userID name templateID personal providers key selected now dbnow)
  | OpOnboard newID userID name selected now dbnow => void (FinishOnboarding fingerprint newID userID name selected now dbnow)
  | OpSetup userID spaceID provider status => SetSpaceSetupProviderStatus userID spaceID provider status
  | OpRename userID spaceID name => RenameSpace userID spaceID name
  | OpDelete userID spaceID confirmation dbnow => DeleteSpace userID spaceID confirmation dbnow
  | OpInvite newID ownerID spaceID email tokenHash now dbnow => void (InviteToSpaceWithToken newID ownerID spaceID email tokenHash now dbnow)
  | OpIncoming userID dbnow => void (IncomingSpaceInvites userID dbnow)
  | OpRefresh ownerID spaceID inviteID tokenHash now => void (RefreshSpaceInvitation ownerID spaceID inviteID tokenHash now)
  | OpRevoke ownerID spaceID inviteID dbnow => RevokeSpaceInvitation ownerID spaceID inviteID dbnow
  | OpDelivery inviteID status dbnow => SetSpaceInvitationDelivery inviteID status dbnow
  | OpPurge dbnow => purge_invitations dbnow
  | OpRespond userID inviteID accept now dbnow => RespondToSpaceInvite userID inviteID accept now dbnow
  | OpRespondToken userID tokenHash accept now dbnow => RespondToSpaceInviteToken userID tokenHash accept now dbnow
  | OpRemove ownerID spaceID memberID => RemoveSpaceMember ownerID spaceID memberID
  | OpLeave userID spaceID => LeaveSpace userID spaceID
  | OpTransfer ownerID spaceID memberID now dbnow => TransferSpaceOwnership ownerID spaceID memberID now dbnow
  | OpPermission ownerUserID spaceID memberUserID permission effect => SetSpaceMemberPermission ownerUserID spaceID memberUserID permission effect
  | OpRegister userID licenseID email => createUser userID licenseID email
  | OpBeginDeletion userID requestID token retention now => void (BeginAccountDeletion userID requestID token retention now)
  | OpScheduleDeletion requestID => ScheduleAccountDeletion requestID
  | OpCompleteDeletion requestID dbnow => CompleteAccountDeletion requestID dbnow
  | OpLicenses ls => modify (set_licenses ls)
  | OpWallets op => modify (λ w, set_bank (WalletProps.exec op (wallet_db w)) w)
  | OpApps c => modify (set_registry c)
  | OpHolds h => modify (set_holds h)
  end.

(** An operation commits, or fails and changes nothing. *)
Definition exec (op : space_op) (w : World) : World := (run (body op) w).1.
Definition exec_all (ops : list space_op) (w : World) : World := fold_left (λ w op, exec op w) ops w.

Definition empty_world : World := mkWorld ∅ ∅ ∅ ∅ ∅ ∅ ∅ ∅ ∅ ∅ ∅ (Wallet.mkDB ∅ ∅ ∅ ∅ ∅ ∅ ∅ ∅) (mkCatalog ∅ ∅ ∅ ∅ ∅ ∅ ∅ ∅ ∅ ∅ ∅ ∅ ∅ ∅).
Inductive reachable : World → Prop :=
  | reachable_empty : reachable empty_world
  | reachable_step w op : reachable w → reachable (exec op w).

End histories.

(** ** Soundness *)

Definition counted (u : string) (kv : string * SpaceRow) : Prop := sr_Owner kv.2 = u ∧ sr_State kv.2 ≠ "deleted"%string.
#[export] Instance counted_dec u kv : Decision (counted u kv) := _.
(** The Spaces that count against a user's limit. *)
Definition own_count (sp : gmap string SpaceRow) (u : string) : Z := Z.of_nat (size (filter (counted u) sp)).

Record sound (w : World) : Prop := {
  so_owner s r : w_spaces w !! s = Some r → w_roles w !! (s, sr_Owner r) = Some "owner"%string;
  so_owned s u : w_roles w !! (s, u) = Some "owner"%string → ∃ r, w_spaces w !! s = Some r ∧ sr_Owner r = u;
  so_role s u x : w_roles w !! (s, u) = Some x → (x = "owner" ∨ x = "member")%string ∧ is_Some (w_spaces w !! s) ∧ is_Some (w_accounts w !! u);
  so_default s r : w_spaces w !! s = Some r → sr_IsDefault r = true → sr_State r = "active"%string ∧
    ∀ s' r', w_spaces w !! s' = Some r' → sr_IsDefault r' = true → sr_Owner r' = sr_Owner r → s' = s;
  so_limit u : own_count (w_spaces w) u <= 10;
  so_invite k i : w_invitations w !! k = Some i → is_Some (w_spaces w !! iv_SpaceID i) }.

(** *** Counting *)

Lemma owned_count w u : owned_spaces (directory w) u = own_count (w_spaces w) u.
Proof.
  unfold owned_spaces, own_count. simpl. f_equal. rewrite map_filter_fmap, map_size_fmap. done.
Qed.

Lemma own_insert_other sp s r u : sr_Owner r ≠ u → own_count (<[s := r]> sp) u <= own_count sp u.
Proof.
  intros Hu. unfold own_count. rewrite map_filter_insert. destruct (decide (counted u (s, r))) as [[? _]|_]; [done|].
  apply inj_le, map_subseteq_size, map_filter_subseteq_mono, delete_subseteq.
Qed.

Lemma own_insert_le sp s r u : own_count (<[s := r]> sp) u <= own_count sp u + 1.
Proof.
  unfold own_count. rewrite map_filter_insert. destruct (decide _).
  - rewrite map_size_insert. destruct (_ !! _); simpl; lia.
  - pose proof (map_subseteq_size (filter (counted u) (delete s sp)) (filter (counted u) sp)
      (map_filter_subseteq_mono _ _ _ (delete_subseteq _ _))). lia.
Qed.

Lemma own_insert_same sp s r r0 u : sp !! s = Some r0 → counted u (s, r0) → own_count (<[s := r]> sp) u <= own_count sp u.
Proof.
  intros Hs Hc. unfold own_count. rewrite map_filter_insert. destruct (decide _).
  - rewrite map_size_insert. assert (filter (counted u) sp !! s = Some r0) as -> by (by apply map_lookup_filter_Some). done.
  - apply inj_le, map_subseteq_size, map_filter_subseteq_mono, delete_subseteq.
Qed.

(** A row that keeps its owner and is not restored from deletion. *)
Lemma own_alter sp s r r' u : sp !! s = Some r → sr_Owner r' = sr_Owner r → sr_State r' = sr_State r ∨ sr_State r ≠ "deleted"%string →
  own_count (<[s := r']> sp) u <= own_count sp u.
Proof.
  intros Hr Ho Hst. destruct (decide (sr_Owner r' = u)) as [Hu|Hu]; [|by apply own_insert_other].
  destruct (decide (sr_State r = "deleted"%string)) as [Hdel|Hdel]; [|eapply own_insert_same; [exact Hr|split; [simpl; congruence|done]]].
  destruct Hst as [Hst|?]; [|done]. unfold own_count. rewrite map_filter_insert. destruct (decide (counted u (s, r'))) as [[_ Hc]|_]; [exfalso; apply Hc; simpl; by rewrite Hst|].
  apply inj_le, map_subseteq_size, map_filter_subseteq_mono, delete_subseteq.
Qed.

Lemma entitled_ten t u now e : entitlementsForUserTx t u now = Some e → MaxOwnedSpaces e <= 10.
Proof.
  unfold entitlementsForUserTx. intros (l & _ & H)%bind_Some. injection H as <-. unfold EntitlementsForTier.
  match goal with |- context [NormalizePlan ?t] => generalize (NormalizePlan t) end. intros plan.
  destruct (bool_decide (plan = TierMax)); [done|]. by destruct (bool_decide (plan = TierPro)).
Qed.
(** *** Pieces *)

Lemma in_catalog_inr {A} (m : SpaceApps.C A) w x w' : in_catalog m w = inr (x, w') → ∃ c, w' = set_registry c w.
Proof. unfold in_catalog. destruct (m _) as [|[? c]]; [done|]. intros [= <- <-]. eauto. Qed.
Lemma in_wallets_inr {A} (m : Wallet.M A) w x w' : in_wallets m w = inr (x, w') → ∃ d, m (wallet_db w) = inr (x, d) ∧ w' = set_bank d w.
Proof. unfold in_wallets. destruct (m _) as [|[? d]]; [done|]. intros [= <- <-]. eauto. Qed.

Lemma masked_inr {A} (m : S A) e w r : masked m e w = inr r → m w = inr r.
Proof. unfold masked. by destruct (m w). Qed.

Lemma member_inr s u w x w' : requireSpaceMemberTx s u w = inr (x, w') → w' = w ∧ role_of w s u = Some x.
Proof. unfold requireSpaceMemberTx. intros H. tx_inv H. done. Qed.
Lemma role_inv w s u x : role_of w s u = Some x → (∃ r, w_spaces w !! s = Some r ∧ is_active r = true) ∧ w_roles w !! (s, u) = Some x.
Proof. unfold role_of. intros (r & Hr & (Ha & _ & H)%bind_Some)%bind_Some. eauto. Qed.
Lemma owner_inr s u w x w' : requireSpaceOwnerTx s u w = inr (x, w') → w' = w ∧ role_of w s u = Some "owner"%string.
Proof.
  unfold requireSpaceOwnerTx. intros (role & w1 & [-> Hr]%member_inr & [H ->]%guard_inr)%bind_inr. apply String.eqb_eq in H as ->. done.
Qed.

Lemma addMember_inr s u role now w x w' : addMember s u role now w = inr (x, w') →
  (role = "owner" ∨ role = "member")%string ∧ w_roles w !! (s, u) = None ∧ w' = set_roles (<[(s, u) := role]> (w_roles w)) w ∧
  (role = "owner"%string → own_count (w_spaces w) u <= 10 ∧ ∃ e, entitlementsForUserTx (w_licenses w) u now = Some e ∧ own_count (w_spaces w) u <= MaxOwnedSpaces e).
Proof.
  unfold addMember. destruct (addSpaceMembershipTx s u role now (directory w)) as [|[[] d]] eqn:H; [done|]. intros [= _ <-].
  unfold addSpaceMembershipTx in H. tx_guard H as Hrole. apply bool_decide_eq_true in Hrole. tx_bind H as y d1 G.
  assert (d1 = directory w ∧ (role = "owner"%string → own_count (w_spaces w) u <= 10 ∧ ∃ e, entitlementsForUserTx (w_licenses w) u now = Some e ∧
    own_count (w_spaces w) u <= MaxOwnedSpaces e)) as [-> Hlim].
  { destruct (bool_decide (role = "owner"%string)) eqn:E.
    - tx_get G. tx_require G as e He. apply guard_inr in G as [G ->]. apply negb_true_iff, Z.ltb_ge in G. rewrite owned_count in G.
      split; [done|]. intros _. pose proof (entitled_ten _ _ _ _ He). split; [lia|]. exists e. done.
    - injection G as <- <-. split; [done|]. intros ->. by apply bool_decide_eq_false in E. }
  tx_get H. tx_guard H as Hnone. apply bool_decide_eq_true in Hnone. injection H as <-. done.
Qed.

(** Soundness reads accounts, Spaces, roles and the Spaces of invitations. *)
Lemma sound_frame w w' : sound w → w_spaces w' = w_spaces w → w_roles w' = w_roles w →
  (∀ u, is_Some (w_accounts w !! u) → is_Some (w_accounts w' !! u)) →
  (∀ k i, w_invitations w' !! k = Some i → is_Some (w_spaces w !! iv_SpaceID i)) → sound w'.
Proof.
  intros [H1 H2 H3 H4 H5 H6] Hs Hr Ha Hi. split; rewrite ?Hs, ?Hr; try done. intros s u x Hx. destruct (H3 s u x Hx) as (? & ? & ?). auto.
Qed.

Ltac framed Hw := eapply sound_frame; [exact Hw|reflexivity|reflexivity|done|try exact (so_invite _ Hw)].

(** Some invitations change, none of them its Space. *)
Lemma sound_invitations w m : sound w → (∀ k i, m !! k = Some i → is_Some (w_spaces w !! iv_SpaceID i)) → sound (set_invitations m w).
Proof. intros Hw Hm. framed Hw. exact Hm. Qed.

Lemma sound_update f w x w' : sound w → (∀ i, iv_SpaceID (f i) = iv_SpaceID i) → update_invitations f w = inr (x, w') → sound w'.
Proof.
  intros Hw Hf [= _ <-]. apply sound_invitations; [done|]. intros k i. rewrite lookup_fmap. intros (j & Hj & ->)%fmap_Some. rewrite Hf.
  by eapply so_invite.
Qed.

Lemma sound_put k i w x w' : sound w → is_Some (w_spaces w !! iv_SpaceID i) → put_invitation k i w = inr (x, w') → sound w'.
Proof.
  intros Hw Hi [= _ <-]. apply sound_invitations; [done|]. intros k' j. destruct (decide (k' = k)) as [->|].
  - rewrite lookup_insert_eq. by intros [= <-].
  - rewrite lookup_insert_ne by done. by apply so_invite.
Qed.

Lemma sweep_same i dbnow : iv_SpaceID (if (iv_ExpiresAt i <=? dbnow) && bool_decide (iv_ConsumedAt i = None)
  then set_revoked (default dbnow (iv_RevokedAt i)) i else i) = iv_SpaceID i.
Proof. by destruct (_ && _). Qed.

(** A Space appears with its owner. *)
Lemma sound_created w s u name d now x1 x2 w1 w2 : sound w → insert_space s u name d w = inr (x1, w1) → d = true ∧ has_default w u = false ∨ d = false →
  addMember s u "owner" now w1 = inr (x2, w2) → sound w2.
Proof.
  intros Hw H Hd Hm. unfold insert_space in H. tx_get H. tx_guard H as Hu. tx_guard H as Hs. injection H as _ <-.
  apply bool_decide_eq_true in Hu, Hs. apply addMember_inr in Hm as (_ & Hnone & -> & Hlim). simpl in *. destruct (Hlim eq_refl) as [Hten _].
  assert (∀ v x, w_roles w !! (s, v) ≠ Some x) as Hfresh.
  { intros v y Hy. destruct (so_role _ Hw _ _ _ Hy) as (_ & [r Hr] & _). congruence. }
  split; simpl.
  - intros s' r. destruct (decide (s' = s)) as [->|Hne].
    + rewrite lookup_insert_eq. intros [= <-]. by rewrite lookup_insert_eq.
    + rewrite lookup_insert_ne by done. intros Hr. rewrite lookup_insert_ne by congruence. by apply (so_owner _ Hw).
  - intros s' v. destruct (decide ((s', v) = (s, u))) as [[= -> ->]|Hne].
    + intros _. rewrite lookup_insert_eq. by eexists.
    + rewrite lookup_insert_ne by done. intros Hr. destruct (decide (s' = s)) as [->|]; [by destruct (Hfresh _ _ Hr)|].
      rewrite lookup_insert_ne by done. by apply (so_owned _ Hw).
  - intros s' v y. destruct (decide ((s', v) = (s, u))) as [[= -> ->]|Hne].
    + rewrite lookup_insert_eq. intros [= <-]. split; [by left|]. rewrite lookup_insert_eq. split; [by eexists|done].
    + rewrite lookup_insert_ne by done. intros Hr. destruct (so_role _ Hw _ _ _ Hr) as (Hy & Hs' & Hv). split; [done|]. split; [|done].
      destruct (decide (s' = s)) as [->|]; [rewrite lookup_insert_eq; by eexists|by rewrite lookup_insert_ne].
  - assert (∀ s' r', w_spaces w !! s' = Some r' → sr_IsDefault r' = true → d = true → sr_Owner r' ≠ u) as Hno.
    { intros s' r' Hr' Hd' -> <-. destruct Hd as [[_ Hh]|?]; [|done]. destruct (so_default _ Hw _ _ Hr' Hd') as [Ha _].
      apply not_true_iff_false in Hh. apply Hh. unfold has_default. apply existsb_exists. exists (s', r'). split.
      - by apply list_elem_of_In, elem_of_map_to_list.
      - simpl. rewrite String.eqb_refl, Hd'. unfold is_active. by rewrite Ha. }
    intros s' r. destruct (decide (s' = s)) as [->|Hne].
    + rewrite lookup_insert_eq. intros [= <-]. simpl. intros Hdt. split; [done|]. intros s'' r''. destruct (decide (s'' = s)) as [->|]; [done|].
      rewrite lookup_insert_ne by done. intros Hr'' Hd'' Hu''. by destruct (Hno _ _ Hr'' Hd'' Hdt).
    + rewrite lookup_insert_ne by done. intros Hr Hdr. destruct (so_default _ Hw _ _ Hr Hdr) as [Ha Huniq]. split; [done|].
      intros s'' r''. destruct (decide (s'' = s)) as [->|]; [|rewrite lookup_insert_ne by done; apply Huniq].
      rewrite lookup_insert_eq. intros [= <-]. simpl. intros Hdt Hu''. by destruct (Hno _ _ Hr Hdr Hdt).
  - intros v. destruct (decide (v = u)) as [->|Hne]; [done|]. etrans; [by apply own_insert_other|]. by apply so_limit.
  - intros k i Hi. destruct (so_invite _ Hw _ _ Hi) as [r Hr]. destruct (decide (iv_SpaceID i = s)) as [->|]; [rewrite lookup_insert_eq; by eexists|].
    rewrite lookup_insert_ne by done. by eexists.
Qed.
Lemma void_inr {A} (m : S A) w x w' : void m w = inr (x, w') → ∃ a, m w = inr (a, w').
Proof. unfold void. intros (a & w1 & Hm & [= <- <-])%bind_inr. eauto. Qed.

(** Decomposes an operation that returned, statement by statement. *)
Ltac op_inv H :=
  repeat lazymatch type of H with
  | void _ _ = inr _ => let a := fresh "a" in apply void_inr in H as [a H]
  | (get ≫= _) _ = inr _ => tx_get H
  | (guard_tx _ _ ≫= _) _ = inr _ => let G := fresh "G" in tx_guard H as G
  | (require _ _ ≫= _) _ = inr _ => let x := fresh "x" in let G := fresh "G" in tx_require H as x G
  | (requireSpaceOwnerTx _ _ ≫= _) _ = inr _ =>
      let y := fresh "y" in let w1 := fresh "w" in let G := fresh "G" in tx_bind H as y w1 G; apply owner_inr in G as [-> G]
  | (masked (requireSpaceOwnerTx _ _) _ ≫= _) _ = inr _ =>
      let y := fresh "y" in let w1 := fresh "w" in let G := fresh "G" in tx_bind H as y w1 G; apply masked_inr, owner_inr in G as [-> G]
  | (requireSpaceMemberTx _ _ ≫= _) _ = inr _ =>
      let y := fresh "y" in let w1 := fresh "w" in let G := fresh "G" in tx_bind H as y w1 G; apply member_inr in G as [-> G]
  | (masked (requireSpaceMemberTx _ _) _ ≫= _) _ = inr _ =>
      let y := fresh "y" in let w1 := fresh "w" in let G := fresh "G" in tx_bind H as y w1 G; apply masked_inr, member_inr in G as [-> G]
  | (_ ≫= _) _ = inr _ =>
      let y := fresh "y" in let w1 := fresh "w" in let G := fresh "G" in tx_bind H as y w1 G;
      match type of G with (if ?b then _ else _) _ = _ => idtac | _ => injection G as _ <- end
  | inr _ = inr _ => injection H as _ <-
  | _ => injection H as _ <-
  end.

(** The tables that [sound] reads are the same. *)
Definition same_core (w w' : World) : Prop :=
  w_spaces w' = w_spaces w ∧ w_roles w' = w_roles w ∧ w_accounts w' = w_accounts w ∧ w_invitations w' = w_invitations w.

Lemma same_refl w : same_core w w.
Proof. done. Qed.
Lemma same_trans w1 w2 w3 : same_core w1 w2 → same_core w2 w3 → same_core w1 w3.
Proof. intros (A1 & A2 & A3 & A4) (B1 & B2 & B3 & B4). repeat split; congruence. Qed.
Lemma sound_same w w' : same_core w w' → sound w → sound w'.
Proof. intros (A1 & A2 & A3 & A4) Hw. eapply sound_frame; [done..|by rewrite A3|]. rewrite A4. apply (so_invite _ Hw). Qed.

(** Also what the wallets read of the world is the same. *)
Definition same_view (w w' : World) : Prop := same_core w w' ∧ w_bank w' = w_bank w ∧ w_licenses w' = w_licenses w.
Lemma view_refl w : same_view w w.
Proof. done. Qed.
Lemma view_trans w1 w2 w3 : same_view w1 w2 → same_view w2 w3 → same_view w1 w3.
Proof. intros (A & A1 & A2) (B & B1 & B2). split; [by eapply same_trans|]. split; congruence. Qed.

Lemma insert_providers_same s l w x w' : insert_providers s l w = inr (x, w') → same_view w w'.
Proof. revert w. induction l as [|p l IH]; intros w H; simpl in H; [by injection H as _ <-|]. tx_bind H as y w1 G. injection G as _ <-. by apply IH in H. Qed.
Lemma install_apps_same s l t w x w' : install_apps s l t w = inr (x, w') → same_view w w'.
Proof.
  revert w. induction l as [|[p m] l IH]; intros w H; simpl in H; [by injection H as _ <-|]. tx_bind H as y w1 G.
  apply in_catalog_inr in G as [c ->]. by apply IH in H.
Qed.
Lemma when_modify_same b f w x w' : (∀ w, same_view w (f w)) → when b (modify f : S ()) w = inr (x, w') → same_view w w'.
Proof. intros Hf. destruct b; simpl; intros [= _ <-]; [apply Hf|apply view_refl]. Qed.

Section inv.
Context (fingerprint : string → string → list string → list SelectedApp → string).

(** What a creation that is not a replay did. *)
Definition created (s u : string) (now : Z) (w w' : World) : Prop := ∃ name d w1 w2 x1 x2,
  insert_space s u name d w = inr (x1, w1) ∧ d = negb (has_default w u) ∧ addMember s u "owner" now w1 = inr (x2, w2) ∧ same_view w2 w'.

Lemma create_inr newID u name t personal ps key sel now dbnow w x w' :
  CreateSpaceWithTemplateIdempotent fingerprint newID u name t personal ps key sel now dbnow w = inr (x, w') → w' = w ∨ created (space_id newID) u now w w' ∧ x = space_id newID.
Proof.
  unfold CreateSpaceWithTemplateIdempotent. intros H. tx_require H as n Hn. tx_require H as tm Ht. tx_require H as p Hp. tx_guard H as Hu. tx_guard H as Hk.
  tx_get H. destruct (if empty _ then None else _) as [[stored s]|].
  - tx_guard H as Hf. injection H as _ <-. by left.
  - right. tx_bind H as y1 w1 G1. tx_bind H as y2 w2 G2. tx_bind H as y3 w3 G3. tx_bind H as y4 w4 G4. tx_bind H as y5 w5 G5. injection H as <- <-.
    apply insert_providers_same in G3. apply install_apps_same in G4. apply when_modify_same in G5; [|done]. split; [|done].
    exists n, (negb (has_default w u)), w1, w2, y1, y2. split; [done|]. split; [done|]. split; [done|]. eauto using view_trans.
Qed.

Lemma onboard_inr newID u name sel now dbnow w x w' :
  FinishOnboarding fingerprint newID u name sel now dbnow w = inr (x, w') → w' = w ∨ created (space_id newID) u now w w' ∧ x = space_id newID.
Proof.
  unfold FinishOnboarding. intros H. tx_require H as n Hn. tx_guard H as Hu. tx_guard H as Hk. tx_get H. destruct (w_onboarded w !! u) as [[stored s]|].
  - tx_guard H as Hf. injection H as _ <-. by left.
  - right. tx_guard H as Hd. tx_bind H as y1 w1 G1. tx_bind H as y2 w2 G2. tx_bind H as y4 w4 G4. tx_bind H as y5 w5 G5. injection H as <- <-.
    apply install_apps_same in G4. injection G5 as _ <-. split; [|done]. exists n, true, w1, w2, y1, y2.
    split; [done|]. split; [by rewrite Hd|]. split; [done|]. eapply view_trans; [exact G4|done].
Qed.

Lemma sound_creation s u now w w' : created s u now w w' → sound w → sound w'.
Proof.
  intros (name & d & w1 & w2 & x1 & x2 & H1 & -> & H2 & Hs & _) Hw. eapply sound_same; [exact Hs|]. eapply sound_created; [exact Hw|exact H1| |exact H2].
  destruct (has_default w u); [by right|by left].
Qed.

(** *** Changes of one Space or member *)

Lemma sound_alter s f w r : sound w → w_spaces w !! s = Some r →
  sr_Owner (f r) = sr_Owner r → sr_IsDefault (f r) = sr_IsDefault r → sr_State (f r) = sr_State r ∨ sr_IsDefault r = false ∧ sr_State r ≠ "deleted"%string →
  sound (set_spaces (alter f s (w_spaces w)) w).
Proof.
  intros Hw Hr Ho Hd Hst. pose proof (alter_insert _ f _ _ Hr) as E.
    assert (∀ j r', <[s := f r]> (w_spaces w) !! j = Some r' → ∃ r0, w_spaces w !! j = Some r0 ∧ sr_Owner r' = sr_Owner r0 ∧ sr_IsDefault r' = sr_IsDefault r0 ∧
    (sr_IsDefault r' = true → sr_State r' = sr_State r0)) as Hback.
  { intros j r'. destruct (decide (j = s)) as [->|]; [rewrite lookup_insert_eq; intros [= <-]; exists r|rewrite lookup_insert_ne by done; eauto].
    repeat split; try done. intros Hdt. destruct Hst as [?|[? _]]; [done|congruence]. }
  rewrite E. split; simpl.
  - intros j r' (r0 & H0 & -> & _)%Hback. by apply (so_owner _ Hw).
  - intros j u (r0 & H0 & Hu)%(so_owned _ Hw). destruct (decide (j = s)) as [->|]; [|rewrite lookup_insert_ne by done; eauto].
    rewrite lookup_insert_eq. eexists. split; [done|]. congruence.
  - intros j u x Hx. destruct (so_role _ Hw _ _ _ Hx) as (? & [r0 H0] & ?). split; [done|]. split; [|done].
    destruct (decide (j = s)) as [->|]; [rewrite lookup_insert_eq; by eexists|rewrite lookup_insert_ne by done; by eexists].
  - intros j r' Hj Hdt. destruct (Hback _ _ Hj) as (r0 & H0 & HO & HD & HS). rewrite HD in Hdt. destruct (so_default _ Hw _ _ H0 Hdt) as [Ha Huniq].
    split; [rewrite HS by congruence; done|]. intros j' r'' (r1 & H1 & HO1 & HD1 & _)%Hback Hdt1 HO2. eapply Huniq; [exact H1|congruence|congruence].
  - intros u. etrans; [apply (own_alter _ _ _ _ u Hr Ho)|by apply so_limit]. destruct Hst as [?|[_ ?]]; auto.
  - intros k i Hi. destruct (so_invite _ Hw _ _ Hi) as [r0 H0]. destruct (decide (iv_SpaceID i = s)) as [->|]; [rewrite lookup_insert_eq; by eexists|].
    rewrite lookup_insert_ne by done. by eexists.
Qed.

(** Members that are not owners leave. *)
Lemma sound_leave m w : sound w → (∀ s u x, m !! (s, u) = Some x → w_roles w !! (s, u) = Some x) →
  (∀ s u, w_roles w !! (s, u) = Some "owner"%string → m !! (s, u) = Some "owner"%string) → sound (set_roles m w).
Proof.
  intros Hw H1 H2. split; simpl.
  - intros s r Hr. apply H2. by apply (so_owner _ Hw).
  - intros s u Hu. by apply (so_owned _ Hw), H1.
  - intros s u x Hx. by apply (so_role _ Hw), H1.
  - apply (so_default _ Hw).
  - apply (so_limit _ Hw).
  - apply (so_invite _ Hw).
Qed.

Lemma sound_join s u now w x w' : sound w → is_Some (w_spaces w !! s) → is_Some (w_accounts w !! u) → addMember s u "member" now w = inr (x, w') → sound w'.
Proof.
  intros Hw Hs Hu (_ & Hnone & -> & _)%addMember_inr. split; simpl.
  - intros j r Hr. rewrite lookup_insert_ne; [by apply (so_owner _ Hw)|]. intros [= -> ->]. apply (so_owner _ Hw) in Hr. congruence.
  - intros j v. destruct (decide ((j, v) = (s, u))) as [[= -> ->]|]; [by rewrite lookup_insert_eq|]. rewrite lookup_insert_ne by done. apply (so_owned _ Hw).
  - intros j v y. destruct (decide ((j, v) = (s, u))) as [[= -> ->]|]; [|rewrite lookup_insert_ne by done; apply (so_role _ Hw)].
    rewrite lookup_insert_eq. intros [= <-]. split; [by right|done].
  - apply (so_default _ Hw).
  - apply (so_limit _ Hw).
  - apply (so_invite _ Hw).
Qed.

(** The roles and the owner change together. *)
Lemma sound_transfer s u v r w : sound w → w_spaces w !! s = Some r → sr_Owner r = u → sr_IsDefault r = false → w_roles w !! (s, v) = Some "member"%string →
  own_count (w_spaces w) v + 1 <= 10 →
  sound (set_spaces (alter (set_owner v) s (w_spaces w)) (set_roles (<[(s, v) := "owner"%string]> (<[(s, u) := "member"%string]> (w_roles w))) w)).
Proof.
  intros Hw Hr Hu Hd Hv Hten. pose proof (alter_insert _ (set_owner v) _ _ Hr) as E.
    rewrite E. split; simpl.
  - intros j r'. destruct (decide (j = s)) as [->|].
    + rewrite lookup_insert_eq. intros [= <-]. simpl. by rewrite lookup_insert_eq.
    + rewrite lookup_insert_ne by done. intros Hr'. rewrite !lookup_insert_ne by congruence. by apply (so_owner _ Hw).
  - intros j x. destruct (decide ((j, x) = (s, v))) as [[= -> ->]|Hne].
    + intros _. rewrite lookup_insert_eq. by eexists.
    + rewrite lookup_insert_ne by done. destruct (decide ((j, x) = (s, u))) as [[= -> ->]|Hne2]; [by rewrite lookup_insert_eq|].
      rewrite lookup_insert_ne by done. intros Hx. destruct (decide (j = s)) as [->|].
      * destruct (so_owned _ Hw _ _ Hx) as (r' & Hr' & <-). congruence.
      * rewrite lookup_insert_ne by done. by apply (so_owned _ Hw).
  - assert (∀ j, is_Some (w_spaces w !! j) → is_Some (<[s:=set_owner v r]> (w_spaces w) !! j)) as Hsp.
    { intros j. destruct (decide (j = s)) as [->|]; [rewrite lookup_insert_eq; by eexists|by rewrite lookup_insert_ne]. }
    intros j x y. destruct (decide ((j, x) = (s, v))) as [[= -> ->]|Hne].
    + rewrite lookup_insert_eq. intros [= <-]. destruct (so_role _ Hw _ _ _ Hv) as (_ & ? & ?). split; [by left|]. auto.
    + rewrite lookup_insert_ne by done. destruct (decide ((j, x) = (s, u))) as [[= -> ->]|Hne2].
      * rewrite lookup_insert_eq. intros [= <-]. assert (w_roles w !! (s, u) = Some "owner"%string) as Ho by (rewrite <- Hu; by apply (so_owner _ Hw)).
        destruct (so_role _ Hw _ _ _ Ho) as (_ & ? & ?). split; [by right|]. auto.
      * rewrite lookup_insert_ne by done. intros Hx. destruct (so_role _ Hw _ _ _ Hx) as (? & ? & ?). auto.
  - intros j r'. destruct (decide (j = s)) as [->|].
    + rewrite lookup_insert_eq. intros [= <-]. simpl. congruence.
    + rewrite lookup_insert_ne by done. intros Hr' Hd'. destruct (so_default _ Hw _ _ Hr' Hd') as [Ha Huniq]. split; [done|].
      intros j' r''. destruct (decide (j' = s)) as [->|]; [rewrite lookup_insert_eq; intros [= <-]; simpl; congruence|].
      rewrite lookup_insert_ne by done. apply Huniq.
  - intros x. destruct (decide (x = v)) as [->|]; [etrans; [apply own_insert_le|done]|]. etrans; [by apply own_insert_other|]. by apply so_limit.
  - intros k i Hi. destruct (so_invite _ Hw _ _ Hi) as [r0 H0]. destruct (decide (iv_SpaceID i = s)) as [->|]; [rewrite lookup_insert_eq; by eexists|].
    rewrite lookup_insert_ne by done. by eexists.
Qed.
(** What a transfer did: between two refreshes of the wallet, roles and owner change. *)
Lemma transfer_inr u s v now dbnow w x w' : TransferSpaceOwnership u s v now dbnow w = inr (x, w') → ∃ r d1 d2 y1 y2 e,
  role_of w s u = Some "owner"%string ∧ w_spaces w !! s = Some r ∧ sr_IsDefault r = false ∧ w_roles w !! (s, v) = Some "member"%string ∧
  entitlementsForUserTx (w_licenses w) v now = Some e ∧ own_count (w_spaces w) v < MaxOwnedSpaces e ∧
  Wallet.refreshSpaceHostedAIWalletTx s now dbnow (wallet_db w) = inr (y1, d1) ∧
  let w1 := set_bank d1 w in
  let w2 := set_spaces (alter (set_owner v) s (w_spaces w1)) (set_roles (<[(s, v) := "owner"%string]> (<[(s, u) := "member"%string]> (w_roles w1))) w1) in
  Wallet.refreshSpaceHostedAIWalletTx s now dbnow (wallet_db w2) = inr (y2, d2) ∧ w' = set_bank d2 w2.
Proof.
  unfold TransferSpaceOwnership. intros H. tx_bind H as a w0 G. apply owner_inr in G as [-> Hrole]. tx_get H. tx_require H as r Hr. tx_guard H as Hd.
  apply negb_true_iff in Hd. tx_bind H as y1 w1 G1. apply in_wallets_inr in G1 as (d1 & G1 & ->). tx_get H. tx_require H as role Hv. tx_guard H as Hm.
  apply String.eqb_eq in Hm as ->. tx_require H as e He. tx_guard H as Hlim. tx_guard H as Hres. apply Z.ltb_lt in Hlim. rewrite owned_count in Hlim.
  tx_bind H as y3 w3 G3. injection G3 as _ <-. tx_bind H as y4 w4 G4. injection G4 as _ <-. tx_bind H as y2 w5 G2. apply in_wallets_inr in G2 as (d2 & G2 & ->).
  injection H as _ <-. exists r, d1, d2, y1, y2, e. done.
Qed.

Lemma owner_row w s u : sound w → role_of w s u = Some "owner"%string → ∃ r, w_spaces w !! s = Some r ∧ is_active r = true ∧ sr_Owner r = u.
Proof.
  intros Hw [(r & Hr & Ha) Hu]%role_inv. exists r. split; [done|]. split; [done|]. destruct (so_owned _ Hw _ _ Hu) as (r' & Hr' & Ho). congruence.
Qed.

(** An answer to an invitation: refused, or the user joins and the invitation is used. *)
Lemma respond_inr u k accept now dbnow w x w' : RespondToSpaceInvite u k accept now dbnow w = inr (x, w') → ∃ i a,
  w_invitations w !! k = Some i ∧ live i = true ∧ w_accounts w !! u = Some a ∧ normalizeEmail (iv_Email i) = normalizeEmail (ac_Email a) ∧
  now <= iv_ExpiresAt i ∧
  if accept then ∃ y w1, addMember (iv_SpaceID i) u "member" now w = inr (y, w1) ∧
    w' = set_invitations (<[k := mkInvitation (iv_SpaceID i) (Some u) (iv_Email i) (iv_By i) (iv_Token i) (iv_Delivery i) (iv_ExpiresAt i)
      (iv_RevokedAt i) (Some dbnow) (iv_LastSentAt i)]> (w_invitations w1)) w1
  else w' = set_invitations (<[k := set_revoked dbnow i]> (w_invitations w)) w.
Proof.
  unfold RespondToSpaceInvite. intros H. tx_get H. tx_require H as i Hi. destruct (w_invitations w !! k) as [j|] eqn:Hj; [|done].
  apply bind_Some in Hi as (j' & [= <-] & Hi). apply bind_Some in Hi as (Hlive & _ & [= <-]).
  tx_require H as a Ha. tx_guard H as Hem. apply String.eqb_eq in Hem. exists j, a. do 4 (split; [done|]). destruct (iv_ExpiresAt j <? now) eqn:Ht; [done|].
  split; [lia|]. destruct accept; simpl in H.
  - tx_bind H as y w1 G. injection H as _ <-. eauto.
  - by injection H as _ <-.
Qed.

Lemma respond_token_inr u t accept now dbnow w x w' : RespondToSpaceInviteToken u t accept now dbnow w = inr (x, w') →
  ∃ k, RespondToSpaceInvite u k accept now dbnow w = inr (x, w').
Proof. unfold RespondToSpaceInviteToken. intros H. tx_get H. tx_require H as k Hk. eauto. Qed.

Lemma sound_respond u k accept now dbnow w x w' : sound w → RespondToSpaceInvite u k accept now dbnow w = inr (x, w') → sound w'.
Proof.
  intros Hw (i & a & Hi & Hlive & Ha & _ & _ & H)%respond_inr. pose proof (so_invite _ Hw _ _ Hi) as Hs. destruct accept.
  - destruct H as (y & w1 & Hj & ->). pose proof (addMember_inr _ _ _ _ _ _ _ Hj) as (_ & _ & E & _).
    apply sound_join in Hj; [|done..]. apply sound_invitations; [done|]. intros k' j. destruct (decide (k' = k)) as [->|].
    + rewrite lookup_insert_eq. intros [= <-]. by rewrite E.
    + rewrite lookup_insert_ne by done. apply (so_invite _ Hj).
  - subst w'. eapply sound_put; [exact Hw| |reflexivity]. done.
Qed.
Lemma sound_invite newID u s email token now dbnow w x w' : sound w → InviteToSpaceWithToken newID u s email token now dbnow w = inr (x, w') → sound w'.
Proof.
  intros Hw H. unfold InviteToSpaceWithToken in H. tx_guard H as Hne. tx_bind H as y1 w1 G1. apply owner_inr in G1 as [-> Hrole].
  apply role_inv in Hrole as [(r & Hr & _) _]. tx_bind H as y2 w2 G2.
  assert (w_spaces w2 = w_spaces w) as Es by by injection G2 as _ <-. unfold sweep in G2. apply sound_update in G2; [|done|intros; apply sweep_same].
  tx_get H. tx_guard H as Hm. tx_guard H as Ha. tx_bind H as y3 w3 G3. assert (w_spaces w3 = w_spaces w2) as Es3 by by injection G3 as _ <-.
  apply sound_update in G3; [|done|intros i; by destruct (_ && _)]. tx_get H. tx_guard H as Hid. tx_guard H as Htok. tx_bind H as y4 w4 G4. injection H as _ <-.
  injection G4 as _ <-. eapply sound_put; [exact G3| |reflexivity]. simpl. rewrite Es3, Es. by eexists.
Qed.

Lemma sound_refresh u s k token now w x w' : sound w → RefreshSpaceInvitation u s k token now w = inr (x, w') → sound w'.
Proof.
  intros Hw H. unfold RefreshSpaceInvitation in H. tx_bind H as y1 w1 G1. apply owner_inr in G1 as [-> _]. tx_get H. tx_require H as i Hi.
  apply bind_Some in Hi as (j & Hj & Hi). apply bind_Some in Hi as (_ & _ & [= <-]). tx_guard H as Htok. tx_bind H as y2 w2 G2. injection H as _ <-.
  eapply sound_put; [exact Hw| |exact G2]. by apply (so_invite _ Hw _ _ Hj).
Qed.

Lemma sound_revoke u s k dbnow w x w' : sound w → RevokeSpaceInvitation u s k dbnow w = inr (x, w') → sound w'.
Proof.
  intros Hw H. unfold RevokeSpaceInvitation in H. tx_bind H as y1 w1 G1. apply owner_inr in G1 as [-> _]. tx_get H. tx_require H as i Hi.
  apply bind_Some in Hi as (j & Hj & Hi). apply bind_Some in Hi as (_ & _ & [= <-]). eapply sound_put; [exact Hw| |exact H]. by apply (so_invite _ Hw _ _ Hj).
Qed.

Lemma sound_rename u s n w x w' : sound w → RenameSpace u s n w = inr (x, w') → sound w'.
Proof.
  intros Hw H. unfold RenameSpace in H. tx_require H as n' Hn. tx_bind H as y1 w1 G1. apply owner_inr in G1 as [-> Hrole].
  apply owner_row in Hrole as (r & Hr & _); [|done]. injection H as _ <-. eapply sound_alter; eauto.
Qed.

Lemma sound_delete u s c t w x w' : sound w → DeleteSpace u s c t w = inr (x, w') → sound w'.
Proof.
  intros Hw H. unfold DeleteSpace in H. tx_bind H as y1 w1 G1. apply owner_inr in G1 as [-> Hrole]. apply owner_row in Hrole as (r0 & Hr0 & Ha & _); [|done].
  tx_get H. tx_require H as r Hr. assert (r0 = r) as -> by congruence. tx_guard H as Hd. apply negb_true_iff in Hd. tx_guard H as Hc. injection H as _ <-.
  eapply sound_alter; [done|exact Hr|done|done|]. right. split; [done|]. unfold is_active in Ha. apply String.eqb_eq in Ha. by rewrite Ha.
Qed.

Lemma sound_remove u s v w x w' : sound w → RemoveSpaceMember u s v w = inr (x, w') → sound w'.
Proof.
  intros Hw H. unfold RemoveSpaceMember in H. tx_bind H as y1 w1 G1. apply owner_inr in G1 as [-> Hrole]. tx_guard H as Hne. tx_get H. tx_guard H as Hm.
  apply bool_decide_eq_true in Hm. injection H as _ <-. apply sound_leave; [done|intros ? ? ? [_ ?]%lookup_delete_Some; done|].
  intros s' u' Ho. rewrite lookup_delete_ne; [done|]. congruence.
Qed.

Lemma sound_quit u s w x w' : sound w → LeaveSpace u s w = inr (x, w') → sound w'.
Proof.
  intros Hw H. unfold LeaveSpace in H. tx_bind H as role w1 G1. apply member_inr in G1 as [-> Hrole]. tx_guard H as Hne. apply role_inv in Hrole as [_ Hr].
  apply negb_true_iff, String.eqb_neq in Hne. injection H as _ <-. apply sound_leave; [done|intros ? ? ? [_ ?]%lookup_delete_Some; done|].
  intros s' u' Ho. rewrite lookup_delete_ne; [done|]. congruence.
Qed.

Lemma sound_schedule q w x w' : sound w → ScheduleAccountDeletion q w = inr (x, w') → sound w'.
Proof.
  intros Hw H. unfold ScheduleAccountDeletion in H. tx_get H. tx_require H as r Hr. tx_bind H as y1 w1 G1. injection G1 as _ <-. injection H as _ <-.
  eapply sound_same; [|apply (sound_leave (leave_all (dq_UserID r) (w_roles w)) w)]; [done|done|..].
  - intros s u y [? _]%map_lookup_filter_Some. done.
  - intros s u Ho. apply map_lookup_filter_Some. split; [done|]. by intros [_ ?].
Qed.

(** Accounts are added or keep their identifier. *)
Lemma sound_accounts m w : sound w → (∀ u, is_Some (w_accounts w !! u) → is_Some (m !! u)) → sound (set_accounts m w).
Proof. intros Hw Hm. framed Hw. Qed.

Lemma insert_account {A} (m : gmap string A) k a u : is_Some (m !! u) → is_Some (<[k := a]> m !! u).
Proof. intros Hu. destruct (decide (u = k)) as [->|]; [rewrite lookup_insert_eq; by eexists|by rewrite lookup_insert_ne]. Qed.

Lemma sound_register u l e w x w' : sound w → createUser u l e w = inr (x, w') → sound w'.
Proof.
  intros Hw H. unfold createUser in H. tx_get H. tx_guard H as H1. tx_guard H as H2. injection H as _ <-.
  eapply sound_same; [|apply (sound_accounts (<[u := mkAccount (normalizeEmail e) "active"]> (w_accounts w)) w)]; [done|done|]. apply insert_account.
Qed.

Lemma sound_begin u q t r now w x w' : sound w → BeginAccountDeletion u q t r now w = inr (x, w') → sound w'.
Proof.
  intros Hw H. unfold BeginAccountDeletion in H. tx_guard H as H1. tx_get H. tx_require H as a Ha. tx_guard H as H2. tx_guard H as H3. tx_guard H as H4.
  tx_guard H as H5. tx_bind H as y1 w1 G1. injection G1 as _ <-. injection H as _ <-.
  eapply sound_same; [|apply (sound_accounts (<[u := set_state "pending_deletion" a]> (w_accounts w)) w)]; [done|done|]. apply insert_account.
Qed.

Lemma complete_inr q t w x w' : CompleteAccountDeletion q t w = inr (x, w') → ∃ r m,
  (∀ u, is_Some (w_accounts w !! u) → is_Some (m !! u)) ∧ w' = set_deletions (<[q := set_status "completed" r]> (w_deletions w)) (set_accounts m w).
Proof.
  unfold CompleteAccountDeletion. intros H. tx_get H. tx_require H as r Hr. tx_bind H as y1 w1 G1.
  assert (∃ m, (∀ u, is_Some (w_accounts w !! u) → is_Some (m !! u)) ∧ w1 = set_accounts m w) as (m & Hm & ->).
  { assert (w = set_accounts (w_accounts w) w) as E by by destruct w.
    destruct (w_accounts w !! dq_UserID r) as [a|] eqn:Ea; [|injection G1 as _ <-; by exists (w_accounts w)].
    destruct (String.eqb _ _); simpl in G1; [|injection G1 as _ <-; by exists (w_accounts w)]. tx_guard G1 as Hm. injection G1 as _ <-.
    eexists. split; [|reflexivity]. apply insert_account. }
  injection H as _ <-. exists r, m. by split.
Qed.

Lemma sound_complete q t w x w' : sound w → CompleteAccountDeletion q t w = inr (x, w') → sound w'.
Proof. intros Hw (r & m & Hm & ->)%complete_inr. apply (sound_same (set_accounts m w)); [done|]. by apply sound_accounts. Qed.

Lemma sound_moved u s v now dbnow w x w' : sound w → TransferSpaceOwnership u s v now dbnow w = inr (x, w') → sound w'.
Proof.
  intros Hw (r & d1 & d2 & y1 & y2 & e & Hrole & Hr & Hd & Hv & He & Hlim & _ & _ & ->)%transfer_inr. apply entitled_ten in He.
  eapply sound_same; [|eapply (sound_transfer s u v r (set_bank d1 w))]; [done|by apply (sound_same w)|done| |done|done|simpl; lia].
  apply owner_row in Hrole as (r' & Hr' & _ & Ho); [congruence|done].
Qed.

(** *** What an operation does to the directory *)

(** The creator and the Space of an operation that creates one. *)
Definition creates (op : space_op) : option (string * string) :=
  match op with
  | OpCreate newID userID _ _ _ _ _ _ _ _ => Some (space_id newID, userID)
  | OpOnboard newID userID _ _ _ _ => Some (space_id newID, userID)
  | _ => None
  end.

(** The operation answers invitation [k] for [u]. *)
Definition answers (w : World) (op : space_op) (u k : string) (accept : bool) (now : Z) : Prop :=
  match op with
  | OpRespond userID inviteID accept' now' _ => userID = u ∧ inviteID = k ∧ accept' = accept ∧ now' = now
  | OpRespondToken userID tokenHash accept' now' dbnow => userID = u ∧ invitation_by_token w tokenHash dbnow = Some k ∧ accept' = accept ∧ now' = now
  | _ => False
  end.

Inductive effect (w : World) : space_op → World → Prop :=
  | eff_still op w' : w_spaces w' = w_spaces w → w_roles w' = w_roles w → w_bank w' = w_bank w → effect w op w'
  | eff_wallets o : effect w (OpWallets o) (set_bank (WalletProps.exec o (wallet_db w)) w)
  | eff_row op w' s f r : w_spaces w' = alter f s (w_spaces w) → w_spaces w !! s = Some r → sr_Owner (f r) = sr_Owner r →
      sr_State (f r) = sr_State r ∨ sr_State r ≠ "deleted"%string → w_roles w' = w_roles w → w_bank w' = w_bank w → effect w op w'
  | eff_left op w' : w_spaces w' = w_spaces w → (∀ key x, w_roles w' !! key = Some x → w_roles w !! key = Some x) → w_bank w' = w_bank w → effect w op w'
  | eff_created op w' s u now : creates op = Some (s, u) → created s u now w w' → effect w op w'
  | eff_joined op w' u k i a now : answers w op u k true now → w_invitations w !! k = Some i → live i = true → w_accounts w !! u = Some a →
      normalizeEmail (iv_Email i) = normalizeEmail (ac_Email a) → now <= iv_ExpiresAt i → w_roles w !! (iv_SpaceID i, u) = None →
      w_spaces w' = w_spaces w → w_roles w' = <[(iv_SpaceID i, u) := "member"%string]> (w_roles w) → w_bank w' = w_bank w → effect w op w'
  | eff_moved u s v now dbnow x w' : TransferSpaceOwnership u s v now dbnow w = inr (x, w') → effect w (OpTransfer u s v now dbnow) w'.

Lemma effect_respond w op u k accept now dbnow x w' : answers w op u k accept now → RespondToSpaceInvite u k accept now dbnow w = inr (x, w') → effect w op w'.
Proof.
  intros Hop (i & a & Hi & Hlive & Ha & Hem & Ht & H)%respond_inr. destruct accept; [|subst w'; by apply eff_still].
  destruct H as (y & w1 & Hj & ->). apply addMember_inr in Hj as (_ & Hnone & -> & _). by eapply eff_joined.
Qed.

Ltac still := by apply eff_still.

Lemma body_effect op w x w' : sound w → body fingerprint op w = inr (x, w') → effect w op w'.
Proof.
  intros Hw. destruct op; simpl; intros H.
  - apply void_inr in H as [a [->|[H _]]%create_inr]; [still|]. by eapply eff_created.
  - apply void_inr in H as [a [->|[H _]]%onboard_inr]; [still|]. by eapply eff_created.
  - unfold SetSpaceSetupProviderStatus in H. op_inv H. still.
  - unfold RenameSpace, update_space in H. op_inv H. apply owner_row in G0 as (r & Hr & _); [|done]. eapply eff_row; [reflexivity|exact Hr|done|by left|done..].
  - unfold DeleteSpace, update_space in H. op_inv H. apply owner_row in G as (r & Hr & Ha & _); [|done]. eapply eff_row; [reflexivity|exact Hr|done| |done..].
    right. unfold is_active in Ha. apply String.eqb_eq in Ha. by rewrite Ha.
  - unfold InviteToSpaceWithToken, sweep in H. op_inv H. still.
  - unfold IncomingSpaceInvites, sweep in H. op_inv H. still.
  - unfold RefreshSpaceInvitation in H. op_inv H. still.
  - unfold RevokeSpaceInvitation in H. op_inv H. still.
  - unfold SetSpaceInvitationDelivery in H. op_inv H. still.
  - unfold purge_invitations in H. op_inv H. still.
  - by eapply effect_respond.
  - unfold RespondToSpaceInviteToken in H. tx_get H. tx_require H as k Hk. by eapply effect_respond.
  - unfold RemoveSpaceMember, remove_member in H. op_inv H. apply eff_left; [done| |done]. simpl. by intros key z [_ ?]%lookup_delete_Some.
  - unfold LeaveSpace, remove_member in H. op_inv H. apply eff_left; [done| |done]. simpl. by intros key z [_ ?]%lookup_delete_Some.
  - by eapply eff_moved.
  - unfold SetSpaceMemberPermission in H. op_inv H; destruct (String.eqb _ "inherit"); op_inv H; still.
  - unfold createUser in H. op_inv H. still.
  - unfold BeginAccountDeletion in H. op_inv H. still.
  - unfold ScheduleAccountDeletion in H. op_inv H. apply eff_left; [done| |done]. simpl. by intros key z [? _]%map_lookup_filter_Some.
  - apply complete_inr in H as (q & m & _ & ->). still.
  - op_inv H. still.
  - op_inv H. by apply eff_wallets.
  - op_inv H. still.
  - op_inv H. still.
Qed.

Lemma body_sound op w x w' : sound w → body fingerprint op w = inr (x, w') → sound w'.
Proof.
  intros Hw. destruct op; simpl; intros H.
  - apply void_inr in H as [a [->|[H _]]%create_inr]; [done|]. by eapply sound_creation.
  - apply void_inr in H as [a [->|[H _]]%onboard_inr]; [done|]. by eapply sound_creation.
  - unfold SetSpaceSetupProviderStatus in H. tx_guard H as H1. tx_guard H as H2. tx_bind H as y1 w1 G1. apply owner_inr in G1 as [-> _]. tx_get H.
    tx_guard H as H3. injection H as _ <-. by apply (sound_same w).
  - by eapply sound_rename.
  - by eapply sound_delete.
  - apply void_inr in H as [a H]. by eapply sound_invite.
  - apply void_inr in H as [a H]. unfold IncomingSpaceInvites in H. tx_bind H as y1 w1 G1. tx_get H. injection H as _ <-.
    eapply sound_update; [exact Hw| |exact G1]. intros; apply sweep_same.
  - apply void_inr in H as [a H]. by eapply sound_refresh.
  - by eapply sound_revoke.
  - unfold SetSpaceInvitationDelivery in H. tx_guard H as H1. injection H as _ <-. apply sound_invitations; [done|]. intros k i.
    rewrite lookup_alter_Some. intros [(-> & j & Hj & ->)|[_ Hi]]; [by apply (so_invite _ Hw _ _ Hj)|by eapply so_invite].
  - injection H as _ <-. apply sound_invitations; [done|]. intros k i [Hi _]%map_lookup_filter_Some. by eapply so_invite.
  - by eapply sound_respond.
  - apply respond_token_inr in H as [k H]. by eapply sound_respond.
  - by eapply sound_remove.
  - by eapply sound_quit.
  - by eapply sound_moved.
  - unfold SetSpaceMemberPermission in H. tx_guard H as H1. tx_bind H as y1 w1 G1. apply masked_inr, owner_inr in G1 as [-> _]. tx_bind H as y2 w2 G2.
    apply masked_inr, member_inr in G2 as [-> _]. tx_guard H as H2. destruct (String.eqb _ "inherit"); injection H as _ <-; by apply (sound_same w).
  - by eapply sound_register.
  - apply void_inr in H as [a H]. by eapply sound_begin.
  - by eapply sound_schedule.
  - by eapply sound_complete.
  - injection H as _ <-. destruct Hw. by split.
  - injection H as _ <-. by apply (sound_same w).
  - injection H as _ <-. by apply (sound_same w).
  - injection H as _ <-. by apply (sound_same w).
Qed.

Lemma op_sound op w : sound w → sound (exec fingerprint op w).
Proof. intros Hw. unfold exec. apply (run_inv sound); [|done]. intros x w'. by apply body_sound. Qed.

Lemma sound_empty : sound empty_world.
Proof. by split. Qed.

Lemma reachable_sound w : reachable fingerprint w → sound w.
Proof. induction 1; [apply sound_empty|by apply op_sound]. Qed.
End inv.
