(* ===== verification/SpacesDemo.v ===== *)
(** * A small world of Spaces

    Two accounts, a Space that one creates and the other joins by invitation, for the
    witnesses; and a history after which an anonymized account owns a shared Space. *)
From S2P Require Import Prelude Tx GoStrings GoTime Entitlements RunStore Contracts SpaceApps Spaces SpacesInv.

Definition demo_print (name template : string) (providers : list string) (apps : list SelectedApp) : string := name.

Definition demo_create : space_op := OpCreate "2" "ada" "Team" "blank" None ["google"%string] "k2" [] 0 0.
Definition demo_invite : space_op := OpInvite "inv_1" "ada" "space_2" "Bob@misty.test" "token_1" 0 0.
Definition demo_join : space_op := OpRespond "bob" "inv_1" true 1 1.

Definition demo_home : World := Eval vm_compute in exec_all demo_print
  [OpRegister "ada" "l1" "ada@misty.test"; OpRegister "bob" "l2" "bob@misty.test"; OpOnboard "1" "ada" "Home" [] 0 0] empty_world.
Definition demo_team : World := Eval vm_compute in exec demo_print demo_create demo_home.
Definition demo_invited : World := Eval vm_compute in exec demo_print demo_invite demo_team.
Definition demo_world : World := Eval vm_compute in exec demo_print demo_join demo_invited.
Definition demo_denied : World := Eval vm_compute in exec demo_print (OpPermission "ada" "space_2" "bob" "library.edit" "deny") demo_world.

(** The deletion of an account is begun before an invitation to its Space is answered. *)
Definition demo_orphaned : World := Eval vm_compute in exec_all demo_print
  [OpBeginDeletion "ada" "del_1" "status_1" 0 1; demo_join; OpScheduleDeletion "del_1"; OpCompleteDeletion "del_1" (31 * Day)] demo_invited.

Lemma all_reachable fingerprint ops w : reachable fingerprint w → reachable fingerprint (exec_all fingerprint ops w).
Proof. revert w. induction ops as [|op ops IH]; intros w Hw; [done|]. by apply IH, reachable_step. Qed.

Lemma demo_home_reachable : reachable demo_print demo_home.
Proof.
  assert (demo_home = exec_all demo_print [OpRegister "ada" "l1" "ada@misty.test"; OpRegister "bob" "l2" "bob@misty.test"; OpOnboard "1" "ada" "Home" [] 0 0]
    empty_world) as -> by (vm_compute; reflexivity). apply all_reachable, reachable_empty.
Qed.
Lemma demo_invited_reachable : reachable demo_print demo_invited.
Proof.
  assert (demo_invited = exec_all demo_print [demo_create; demo_invite] demo_home) as -> by (vm_compute; reflexivity). apply all_reachable, demo_home_reachable.
Qed.
Lemma demo_reachable : reachable demo_print demo_world.
Proof. assert (demo_world = exec demo_print demo_join demo_invited) as -> by (vm_compute; reflexivity). apply reachable_step, demo_invited_reachable. Qed.

Lemma demo_creates : CreateSpaceWithTemplateIdempotent demo_print "2" "ada" "Team" "blank" None ["google"%string] "k2" [] 0 0 demo_home =
  inr ("space_2"%string, demo_team).
Proof. vm_compute. reflexivity. Qed.
Lemma demo_joins : body demo_print demo_join demo_invited = inr (tt, demo_world).
Proof. vm_compute. reflexivity. Qed.
Lemma demo_denies : body demo_print (OpPermission "ada" "space_2" "bob" "library.edit" "deny") demo_world = inr (tt, demo_denied).
Proof. vm_compute. reflexivity. Qed.
Lemma demo_outside : w_roles demo_invited !! ("space_2", "bob")%string = None.
Proof. vm_compute. reflexivity. Qed.
Lemma demo_inside : w_roles (exec demo_print demo_join demo_invited) !! ("space_2", "bob")%string = Some "member"%string.
Proof. vm_compute. reflexivity. Qed.
Lemma demo_grows : own_count (w_spaces demo_home) "ada" < own_count (w_spaces (exec demo_print demo_create demo_home)) "ada".
Proof. vm_compute. reflexivity. Qed.

(** Account deletion is blocked for owners of shared Spaces, but only when it begins:
    here it completes and the shared Space belongs to an anonymized account. *)
Example deletion_orphans_space : reachable demo_print demo_orphaned ∧
  (∃ r, w_spaces demo_orphaned !! "space_2"%string = Some r ∧ sr_Owner r = "ada"%string ∧ is_active r = true) ∧
  w_roles demo_orphaned !! ("space_2", "bob")%string = Some "member"%string ∧
  (∃ a, w_accounts demo_orphaned !! "ada"%string = Some a ∧ ac_State a = "deleted"%string).
Proof.
  split; [|vm_compute; eauto 10].
  assert (demo_orphaned = exec_all demo_print [OpBeginDeletion "ada" "del_1" "status_1" 0 1; demo_join; OpScheduleDeletion "del_1";
    OpCompleteDeletion "del_1" (31 * Day)] demo_invited) as -> by (vm_compute; reflexivity). apply all_reachable, demo_invited_reachable.
Qed.

(** An expired invitation is meant to be deleted by the answer that finds it expired,
    but the error rolls the deletion back. *)
Example expired_invitation_stays : let '(w, r) := run (RespondToSpaceInvite "bob" "inv_1" true (8 * Day) (8 * Day)) demo_invited in
  r = inl ErrSpaceInviteExpired ∧ is_Some (w_invitations w !! "inv_1"%string).
Proof. vm_compute. split; [reflexivity|by eexists]. Qed.
