(* ===== verification/SpacesProps.v ===== *)
(** * What holds of Spaces over time

    Theorems on every history of the operations of [SpacesInv]: the directory is
    sound, nobody becomes a member without asking, an invitation is answered once,
    plans bound what users own, creation is idempotent, permissions are what was set,
    and the wallets see nothing but the directory changes [Wallet] allows for. *)
From S2P Require Import Prelude Tx GoStrings GoTime Entitlements RunStore Contracts SpaceApps Spaces SpacesInv SpacesDemo.
From S2P Require Wallet WalletProps.

#[local] Set Default Proof Using "Type".

(** Whether a user has a permission in a Space; [None] for users that are not members. *)
Definition permission_of (w : World) (userID spaceID permission : string) : option bool :=
  match in_catalog (hasSpacePermissionTx userID spaceID permission) w with inr (allowed, _) => Some allowed | inl _ => None end.

(** The world after an operation, and what the caller sees of it. *)
Definition respond (u k : string) (accept : bool) (now dbnow : Z) (w : World) : World * (space_error + ()) := run (RespondToSpaceInvite u k accept now dbnow) w.

Section props.
Context (fingerprint : string → string → list string → list SelectedApp → string).

Local Abbreviation exec := (SpacesInv.exec fingerprint).
Local Abbreviation exec_all := (SpacesInv.exec_all fingerprint).
Local Abbreviation reachable := (SpacesInv.reachable fingerprint).
Local Abbreviation create := (CreateSpaceWithTemplateIdempotent fingerprint).

(** An operation that fails changes nothing. *)
Lemma exec_cases op w : exec op w = w ∨ ∃ x, body fingerprint op w = inr (x, exec op w).
Proof. unfold SpacesInv.exec, run. destruct (body fingerprint op w) as [|[x w']]; [by left|right; eauto]. Qed.

Lemma exec_effect op w : reachable w → exec op w = w ∨ effect w op (exec op w).
Proof. intros Hw. destruct (exec_cases op w) as [?|[x H]]; [by left|right]. eapply body_effect; [by eapply reachable_sound|exact H]. Qed.

Lemma created_directory s u now w w' : created s u now w w' → w_spaces w !! s = None ∧
  (∃ name d, w_spaces w' = <[s := mkSpaceRow u name d "active" None]> (w_spaces w)) ∧ w_roles w' = <[(s, u) := "owner"%string]> (w_roles w) ∧
  (∃ e, entitlementsForUserTx (w_licenses w) u now = Some e ∧ own_count (w_spaces w') u <= MaxOwnedSpaces e) ∧ w_bank w' = w_bank w.
Proof.
  intros (name & d & w1 & w2 & x1 & x2 & H1 & _ & H2 & (E1 & E2 & _) & E3 & _). unfold insert_space in H1. tx_get H1. tx_guard H1 as Hu. tx_guard H1 as Hs.
  injection H1 as _ <-. apply bool_decide_eq_true in Hs. apply addMember_inr in H2 as (_ & _ & -> & Hlim). simpl in *.
  rewrite E1, E2, E3. split; [done|]. split; [by do 2 eexists|]. split; [done|]. split; [by apply Hlim|done].
Qed.

(** C23: the directory is sound in every reachable world: each Space has exactly one
    member with the role of owner, its recorded owner; every membership is of an
    existing account in an existing Space; a user's default Space is unique and
    active; and nobody owns more than ten Spaces. *)
Theorem spaces_sound w : reachable w →
  (∀ s r, w_spaces w !! s = Some r → ∀ u, w_roles w !! (s, u) = Some "owner"%string ↔ u = sr_Owner r) ∧
  (∀ s u x, w_roles w !! (s, u) = Some x → (x = "owner" ∨ x = "member")%string ∧ is_Some (w_spaces w !! s) ∧ is_Some (w_accounts w !! u)) ∧
  (∀ s r s' r', w_spaces w !! s = Some r → w_spaces w !! s' = Some r' → sr_IsDefault r = true → sr_IsDefault r' = true → sr_Owner r = sr_Owner r' →
    s = s' ∧ sr_State r = "active"%string) ∧
  (∀ u, own_count (w_spaces w) u <= 10).
Proof.
  intros H%reachable_sound. split; [|split; [|split]].
  - intros s r Hr u. split; [intros (r' & Hr' & <-)%(so_owned _ H); congruence|intros ->; by apply (so_owner _ H)].
  - apply (so_role _ H).
  - intros s r s' r' Hr Hr' Hd Hd' Ho. destruct (so_default _ H _ _ Hr Hd) as [Ha Hu]. split; [|done]. symmetry. by eapply Hu.
  - apply (so_limit _ H).
Qed.

(** C24: nobody becomes a member without asking.  When an operation makes [u] a
    member of a Space, it is [u]'s own creation of that Space, or [u]'s own answer to
    an invitation to that Space, neither revoked nor used nor expired, addressed to
    the e-mail address of [u]'s account. *)
Theorem membership_consented w op s u x : reachable w → w_roles w !! (s, u) = None → w_roles (exec op w) !! (s, u) = Some x →
  x = "owner"%string ∧ creates op = Some (s, u) ∧ w_spaces w !! s = None ∨
  x = "member"%string ∧ ∃ k i a now, answers w op u k true now ∧ w_invitations w !! k = Some i ∧ iv_SpaceID i = s ∧ live i = true ∧ now <= iv_ExpiresAt i ∧
    w_accounts w !! u = Some a ∧ normalizeEmail (iv_Email i) = normalizeEmail (ac_Email a).
Proof.
  intros Hw Hnone Hx. destruct (exec_effect op w Hw) as [E|He]; [rewrite E in Hx; congruence|].
  destruct He as [op w' _ Er _|o|op w' s' f r _ _ _ _ Er _|op w' _ Hl _|op w' s' u' now Hc Hcr|op w' v k i a now Ha Hi Hlive Hacc Hem Ht _ _ Er _|v s' m now dbnow y w' Hm].
  - congruence.
  - simpl in Hx. congruence.
  - congruence.
  - apply Hl in Hx. congruence.
  - apply created_directory in Hcr as (Hfresh & _ & Er & _). rewrite Er in Hx. destruct (decide ((s, u) = (s', u'))) as [[= -> ->]|]; [|rewrite lookup_insert_ne in Hx by done; congruence].
    rewrite lookup_insert_eq in Hx. injection Hx as <-. by left.
  - rewrite Er in Hx. destruct (decide ((s, u) = (iv_SpaceID i, v))) as [[= -> ->]|]; [|rewrite lookup_insert_ne in Hx by done; congruence].
    rewrite lookup_insert_eq in Hx. injection Hx as <-. right. split; [done|]. by exists k, i, a, now.
  - apply transfer_inr in Hm as (r & d1 & d2 & y1 & y2 & e & Hrole & _ & _ & Hv & _ & _ & _ & _ & ->). simpl in Hx.
    apply role_inv in Hrole as [_ Ho]. destruct (decide ((s, u) = (s', m))) as [[= -> ->]|]; [congruence|]. rewrite lookup_insert_ne in Hx by done.
    destruct (decide ((s, u) = (s', v))) as [[= -> ->]|]; [congruence|]. rewrite lookup_insert_ne in Hx by done. congruence.
Qed.

(** *** Records that stay *)

Definition closed (k : string) (w : World) : Prop := ∀ i, w_invitations w !! k = Some i → live i = false.

(** The operation issues a new invitation under the identifier [k]. *)
Definition reissues (k : string) (op : space_op) : Prop := match op with OpInvite newID _ _ _ _ _ _ => newID = k | _ => False end.

Definition kept (w w' : World) : Prop := ∀ key v, w_creations w !! key = Some v → w_creations w' !! key = Some v.

Lemma closed_map k f w : closed k w → (∀ i, live (f i) = true → live i = true) → closed k (set_invitations (f <$> w_invitations w) w).
Proof. intros Hk Hf i. simpl. rewrite lookup_fmap. intros (j & Hj & ->)%fmap_Some. destruct (live (f j)) eqn:E; [|done]. apply Hf in E. rewrite (Hk _ Hj) in E. done. Qed.

Lemma closed_insert k k' i w : closed k w → k' = k → live i = false → closed k (set_invitations (<[k' := i]> (w_invitations w)) w).
Proof. intros Hk -> Hi j. simpl. rewrite lookup_insert_eq. by intros [= <-]. Qed.
Lemma closed_other k k' i w : closed k w → k' ≠ k → closed k (set_invitations (<[k' := i]> (w_invitations w)) w).
Proof. intros Hk Hne j. simpl. rewrite lookup_insert_ne by done. apply Hk. Qed.

(** Only a live invitation is written over by another live one. *)
Lemma closed_put k k' i j w : closed k w → w_invitations w !! k' = Some j → live j = true → closed k (set_invitations (<[k' := i]> (w_invitations w)) w).
Proof. intros Hk Hj Hlive. destruct (decide (k' = k)) as [->|]; [rewrite (Hk _ Hj) in Hlive; done|by apply closed_other]. Qed.

Lemma live_revoked t i : live (set_revoked t i) = false.
Proof. done. Qed.
Lemma live_sweep i dbnow : live (if (iv_ExpiresAt i <=? dbnow) && bool_decide (iv_ConsumedAt i = None) then set_revoked (default dbnow (iv_RevokedAt i)) i else i) = true →
  live i = true.
Proof. destruct (_ && _); [by rewrite live_revoked|done]. Qed.

Lemma closed_respond k u k' accept now dbnow w x w' : closed k w → RespondToSpaceInvite u k' accept now dbnow w = inr (x, w') → closed k w' ∧ kept w w'.
Proof.
  intros Hk (i & a & Hi & Hlive & _ & _ & _ & H)%respond_inr. destruct accept.
  - destruct H as (y & w1 & Hj & ->). apply addMember_inr in Hj as (_ & _ & -> & _). split; [|by intros key v].
    intros j. simpl. destruct (decide (k = k')) as [->|]; [rewrite (Hk _ Hi) in Hlive; done|]. rewrite lookup_insert_ne by done. apply Hk.
  - subst w'. split; [by eapply closed_put|by intros key v].
Qed.

Lemma providers_creations s l w x w' : insert_providers s l w = inr (x, w') → w_creations w' = w_creations w.
Proof. revert w. induction l as [|p l IH]; intros w H; simpl in H; [by injection H as _ <-|]. tx_bind H as y w1 G. injection G as _ <-. by apply IH in H. Qed.
Lemma apps_creations s l t w x w' : install_apps s l t w = inr (x, w') → w_creations w' = w_creations w.
Proof.
  revert w. induction l as [|[p m] l IH]; intros w H; simpl in H; [by injection H as _ <-|]. tx_bind H as y w1 G.
  apply in_catalog_inr in G as [c ->]. by apply IH in H.
Qed.

(** A creation's record of its key; a replay changes nothing. *)
Lemma create_record newID u name t personal ps key sel now dbnow w x w' : create newID u name t personal ps key sel now dbnow w = inr (x, w') →
  w_invitations w' = w_invitations w ∧ kept w w' ∧ (empty (TrimSpace key) = false → ∃ n tm p, normalizeSpaceName name = Some n ∧
    match TestingTemplateByID t with Some t => Some t | None => personal end = Some tm ∧ TestingNormalizeSetupProviders ps = Some p ∧
    w_creations w' !! (u, TrimSpace key) = Some (fingerprint n tm p sel, x)).
Proof.
  unfold CreateSpaceWithTemplateIdempotent. intros H. tx_require H as n Hn. tx_require H as tm Ht. tx_require H as p Hp. tx_guard H as Hu. tx_guard H as Hk.
  tx_get H. destruct (if empty (TrimSpace key) then None else w_creations w !! (u, TrimSpace key)) as [[stored s]|] eqn:E.
  - tx_guard H as Hf. injection H as <- <-. apply String.eqb_eq in Hf as ->. split; [done|]. split; [by intros ? ?|]. intros Hne. rewrite Hne in E. eauto 10.
  - tx_bind H as y1 w1 G1. tx_bind H as y2 w2 G2. tx_bind H as y3 w3 G3. tx_bind H as y4 w4 G4. tx_bind H as y5 w5 G5. injection H as <- <-.
    unfold insert_space in G1. tx_get G1. tx_guard G1 as Ha. tx_guard G1 as Hs. injection G1 as _ <-. apply addMember_inr in G2 as (_ & _ & -> & _).
    pose proof (providers_creations _ _ _ _ _ G3) as C3. pose proof (apps_creations _ _ _ _ _ _ G4) as C4. simpl in C3. rewrite C3 in C4.
    apply insert_providers_same in G3 as ((_ & _ & _ & I3) & _). apply install_apps_same in G4 as ((_ & _ & _ & I4) & _). simpl in I3. rewrite I3 in I4.
    destruct (empty (TrimSpace key)) eqn:Ek; simpl in G5; injection G5 as _ <-; simpl.
    + split; [done|]. split; [intros k v; by rewrite C4|done].
    + split; [done|]. split.
      * intros k v Hv. simpl. rewrite C4. rewrite lookup_insert_ne; [done|]. congruence.
      * intros _. exists n, tm, p. do 3 (split; [done|]). by rewrite lookup_insert_eq.
Qed.

Lemma onboard_record newID u name sel now dbnow w x w' : FinishOnboarding fingerprint newID u name sel now dbnow w = inr (x, w') →
  w_invitations w' = w_invitations w ∧ kept w w'.
Proof.
  unfold FinishOnboarding. intros H. tx_require H as n Hn. tx_guard H as Hu. tx_guard H as Hk. tx_get H. destruct (w_onboarded w !! u) as [[stored s]|].
  - tx_guard H as Hf. injection H as <- <-. split; [done|by intros ? ?].
  - tx_guard H as Hd. tx_bind H as y1 w1 G1. tx_bind H as y2 w2 G2. tx_bind H as y4 w4 G4. tx_bind H as y5 w5 G5. injection H as <- <-.
    unfold insert_space in G1. tx_get G1. tx_guard G1 as Ha. tx_guard G1 as Hs. injection G1 as _ <-. apply addMember_inr in G2 as (_ & _ & -> & _).
    pose proof (apps_creations _ _ _ _ _ _ G4) as C4. apply install_apps_same in G4 as ((_ & _ & _ & I4) & _). injection G5 as _ <-. simpl in *.
    split; [done|]. intros k v. simpl. by rewrite C4.
Qed.

(** Closed invitations stay closed, and the records of creations stay. *)
Lemma body_records op k w x w' : body fingerprint op w = inr (x, w') → closed k w → ¬ reissues k op → closed k w' ∧ kept w w'.
Proof.
  intros H Hk Hre. assert (∀ w2, w_invitations w2 = w_invitations w → w_creations w2 = w_creations w → closed k w2 ∧ kept w w2) as Hsame.
  { intros w2 Ei Ec. split; [intros i; rewrite Ei; apply Hk|intros key v; by rewrite Ec]. }
  destruct op; simpl in H.
  - apply void_inr in H as [a (Ei & Hc & _)%create_record]. split; [intros i; rewrite Ei; apply Hk|done].
  - apply void_inr in H as [a (Ei & Hc)%onboard_record]. split; [intros i; rewrite Ei; apply Hk|done].
  - unfold SetSpaceSetupProviderStatus in H. op_inv H. by apply Hsame.
  - unfold RenameSpace, update_space in H. op_inv H. by apply Hsame.
  - unfold DeleteSpace, update_space in H. op_inv H. by apply Hsame.
  - unfold InviteToSpaceWithToken, sweep in H. op_inv H. split; [|by intros ? ?]. apply closed_other; [|exact Hre].
    apply (closed_map k); [|intros i; by destruct (_ && _)]. apply closed_map; [done|]. intros i. apply live_sweep.
  - unfold IncomingSpaceInvites, sweep in H. op_inv H. split; [|by intros ? ?]. apply closed_map; [done|]. intros i. apply live_sweep.
  - unfold RefreshSpaceInvitation in H. op_inv H. split; [|by intros ? ?]. apply bind_Some in G0 as (j & Hj & G0).
    apply bind_Some in G0 as ((_ & Hlive & _) & _ & [= <-]). by eapply closed_put.
  - unfold RevokeSpaceInvitation, put_invitation in H. op_inv H. split; [|by intros ? ?]. apply bind_Some in G0 as (j & Hj & G0).
    apply bind_Some in G0 as ((_ & Hlive) & _ & [= <-]). by eapply closed_put.
  - unfold SetSpaceInvitationDelivery in H. op_inv H. split; [|by intros ? ?]. intros i. simpl. rewrite lookup_alter_Some.
    intros [(-> & j & Hj & ->)|[_ Hi]]; [exact (Hk _ Hj)|by apply Hk].
  - unfold purge_invitations in H. op_inv H. split; [|by intros ? ?]. intros i. simpl. intros [Hi _]%map_lookup_filter_Some. by apply Hk.
  - by eapply closed_respond.
  - apply respond_token_inr in H as [k' H]. by eapply closed_respond.
  - unfold RemoveSpaceMember, remove_member in H. op_inv H. by apply Hsame.
  - unfold LeaveSpace, remove_member in H. op_inv H. by apply Hsame.
  - apply transfer_inr in H as (r & d1 & d2 & y1 & y2 & e & _ & _ & _ & _ & _ & _ & _ & _ & ->). by apply Hsame.
  - unfold SetSpaceMemberPermission in H. op_inv H; destruct (String.eqb _ "inherit"); op_inv H; by apply Hsame.
  - unfold createUser in H. op_inv H. by apply Hsame.
  - unfold BeginAccountDeletion in H. op_inv H. by apply Hsame.
  - unfold ScheduleAccountDeletion in H. op_inv H. by apply Hsame.
  - apply complete_inr in H as (q & m & _ & ->). by apply Hsame.
  - op_inv H. by apply Hsame.
  - op_inv H. by apply Hsame.
  - op_inv H. by apply Hsame.
  - op_inv H. by apply Hsame.
Qed.
Lemma exec_records op k w : closed k w → ¬ reissues k op → closed k (exec op w) ∧ kept w (exec op w).
Proof.
  intros Hk Hre. destruct (exec_cases op w) as [->|[x H]]; [split; [done|by intros ? ?]|]. by eapply body_records.
Qed.

Lemma all_closed ops k w : closed k w → Forall (λ op, ¬ reissues k op) ops → closed k (exec_all ops w).
Proof.
  intros Hk Hops. revert w Hk. induction Hops as [|op ops Hop _ IH]; intros w Hk; [done|]. apply IH. by apply exec_records.
Qed.

Lemma exec_kept op w : kept w (exec op w).
Proof.
  destruct (exec_cases op w) as [->|[x H]]; [by intros ? ?|]. destruct (exist_fresh (dom (w_invitations w) ∪
    (match op with OpInvite newID _ _ _ _ _ _ => {[newID]} | _ => ∅ end : gset string))) as [k Hfresh].
  eapply (body_records _ k); [exact H| |].
  - intros i Hi. exfalso. apply Hfresh, elem_of_union_l. apply elem_of_dom. by exists i.
  - intros Hre. apply Hfresh, elem_of_union_r. destruct op; try done. simpl in Hre. subst newID. apply elem_of_singleton. done.
Qed.

Lemma all_kept ops w : kept w (exec_all ops w).
Proof. revert w. induction ops as [|op ops IH]; intros w; [by intros ? ?|]. intros key v Hv. apply (IH (exec op w)). by apply exec_kept. Qed.

Lemma closed_refused k u accept now dbnow w : closed k w → (respond u k accept now dbnow w).2 = inl ErrSpaceInviteNotFound.
Proof.
  intros Hk. unfold respond, run, RespondToSpaceInvite, mbind, tx_bind, get, require. destruct (w_invitations w !! k) as [i|] eqn:Hi; simpl; [|done].
  by rewrite (Hk _ Hi).
Qed.

(** C25: an invitation is answered once.  After an answer that was accepted by the
    server, or a revocation, whatever happens in between, every later answer to the
    same invitation, by anybody, finds no invitation. *)
Theorem invitation_answered_once op k w x w' ops u accept now dbnow : body fingerprint op w = inr (x, w') →
  (∃ u0 accept0 now0, answers w op u0 k accept0 now0) ∨ (∃ owner space dbnow0, op = OpRevoke owner space k dbnow0) →
  Forall (λ op, ¬ reissues k op) ops → (respond u k accept now dbnow (exec_all ops w')).2 = inl ErrSpaceInviteNotFound.
Proof.
  intros H Hop Hops. apply closed_refused, all_closed; [|done]. destruct Hop as [(u0 & accept0 & now0 & Ha)|(owner & space & dbnow0 & ->)].
  - assert (∃ t y, RespondToSpaceInvite u0 k accept0 now0 t w = inr (y, w')) as (t & y & Hr).
    { destruct op; simpl in Ha; try done.
      - destruct Ha as (<- & <- & <- & <-). simpl in H. eauto.
      - destruct Ha as (<- & Hk & <- & <-). simpl in H. unfold RespondToSpaceInviteToken in H. tx_get H. rewrite Hk in H. tx_require H as k' Hk'.
        injection Hk' as <-. eauto. }
    apply respond_inr in Hr as (i & a & _ & _ & _ & _ & _ & Hr). destruct accept0.
    + destruct Hr as (z & w1 & _ & ->). intros j. simpl. rewrite lookup_insert_eq. intros [= <-]. unfold live. simpl. apply andb_false_r.
    + subst w'. intros j. simpl. rewrite lookup_insert_eq. by intros [= <-].
  - simpl in H. unfold RevokeSpaceInvitation, put_invitation in H. op_inv H. intros j. simpl. rewrite lookup_insert_eq. by intros [= <-].
Qed.

(** *** What the wallets see *)

Lemma no_empty_id w : reachable w → w_spaces w !! ""%string = None.
Proof.
  intros Hw. induction Hw as [|w op Hw IH]; [done|]. destruct (exec_effect op w Hw) as [->|He]; [done|].
  destruct He as [op w' Es _ _|o|op w' s' f r Es Hr _ _ _ _|op w' Es _ _|op w' s' u' now Hc Hcr|op w' v k i a now _ _ _ _ _ _ _ Es _ _|v s' m now dbnow y w' Hm].
  - by rewrite Es.
  - done.
  - rewrite Es. apply eq_None_not_Some. rewrite lookup_alter_is_Some, IH. by intros [? ?].
  - by rewrite Es.
  - apply created_directory in Hcr as (_ & (name & d & Es) & _). rewrite Es. rewrite lookup_insert_ne; [done|].
    destruct op; try done; injection Hc as <- _; unfold space_id; simpl; discriminate.
  - by rewrite Es.
  - apply transfer_inr in Hm as (r & d1 & d2 & y1 & y2 & e & _ & _ & _ & _ & _ & _ & _ & _ & ->). simpl.
    apply eq_None_not_Some. rewrite lookup_alter_is_Some, IH. by intros [? ?].
Qed.

Lemma reach_view w w' : w_bank w' = w_bank w → w_spaces w' !! ""%string = None → WalletProps.reach (wallet_db w) → WalletProps.reach (wallet_db w').
Proof.
  intros Hb Hs Hr. unfold wallet_db at 1. rewrite Hb. apply (WalletProps.reach_directory (wallet_db w)); [done|]. by rewrite lookup_fmap, Hs.
Qed.

Lemma reach_bank w d : WalletProps.reach d → w_spaces w !! ""%string = None → WalletProps.reach (wallet_db (set_bank d w)).
Proof. intros Hd Hs. apply (WalletProps.reach_directory d); [done|]. simpl. by rewrite lookup_fmap, Hs. Qed.

Lemma reach_refresh s now dbnow w y d : WalletProps.reach (wallet_db w) → Wallet.refreshSpaceHostedAIWalletTx s now dbnow (wallet_db w) = inr (y, d) →
  WalletProps.reach d.
Proof.
  intros Hr H. pose proof (WalletProps.reach_op (wallet_db w) (WalletProps.OpSpaceWallet s now dbnow) Hr) as Hop.
  simpl in Hop. unfold Wallet.GetOrCreateSpaceHostedAIWallet, run in Hop. by rewrite H in Hop.
Qed.


(** *** Permissions *)

Lemma permission_eq w u s p : permission_of w u s p = role ← role_of w s u; Some (if String.eqb role "owner" then true
  else match w_overrides w !! (s, u, p) with Some effect => String.eqb effect "allow" | None => fixedMemberPermission p end).
Proof.
  unfold permission_of, in_catalog, hasSpacePermissionTx, requireMemberTx, mbind, tx_bind, get, require. simpl.
  assert (member_role (catalog w) s u = role_of w s u) as ->.
  { unfold member_role, role_of. simpl. rewrite lookup_fmap. destruct (w_spaces w !! s) as [r|]; [|done]. simpl. done. }
  destruct (role_of w s u) as [role|]; simpl; [|done]. by destruct (String.eqb role "owner").
Qed.

(** A permission is what the owner set.  Only the owner sets it, for a member
    that is not the owner; then that member has the permission exactly when it was
    allowed, or inherited and among the fixed ones; no other permission of anybody
    changes. *)
Theorem permission_exact w owner s u p effect x w' : body fingerprint (OpPermission owner s u p effect) w = inr (x, w') →
  role_of w s owner = Some "owner"%string ∧ (∃ role, role_of w s u = Some role ∧ role ≠ "owner"%string) ∧
  permission_of w' u s p = Some (if String.eqb effect "inherit" then fixedMemberPermission p else String.eqb effect "allow") ∧
  (∀ u' s' p', (s', u', p') ≠ (s, u, p) → permission_of w' u' s' p' = permission_of w u' s' p').
Proof.
  simpl. unfold SetSpaceMemberPermission. intros H. tx_guard H as G. tx_bind H as y w1 G1. apply masked_inr, owner_inr in G1 as [-> G1].
  tx_bind H as role w2 G2. apply masked_inr, member_inr in G2 as [-> G2]. tx_guard H as G3. apply negb_true_iff in G3.
  split; [done|]. split; [exists role; split; [done|by apply String.eqb_neq]|].
  assert (∃ m, w' = set_overrides m w ∧ m !! (s, u, p) = (if String.eqb effect "inherit" then None else Some effect) ∧
    ∀ key, key ≠ (s, u, p) → m !! key = w_overrides w !! key) as (m & -> & Hm & Hother).
  { destruct (String.eqb effect "inherit"); op_inv H; eexists; (split; [reflexivity|]).
    - split; [apply lookup_delete_eq|]. intros key Hne. by rewrite lookup_delete_ne.
    - split; [apply lookup_insert_eq|]. intros key Hne. by rewrite lookup_insert_ne. }
  split.
  - rewrite permission_eq. change (role_of (set_overrides m w) s u) with (role_of w s u). rewrite G2. simpl. rewrite G3, Hm.
    by destruct (String.eqb effect "inherit").
  - intros u' s' p' Hne. rewrite !permission_eq. simpl. change (role_of (set_overrides m w) s' u') with (role_of w s' u'). by rewrite Hother.
Qed.
End props.

(** ** At a concrete input *)

Lemma spaces_sound_witness : SpacesInv.reachable demo_print demo_world ∧ own_count (w_spaces demo_world) "ada" <= 10.
Proof. split; [exact demo_reachable|]. exact (proj2 (proj2 (proj2 (spaces_sound demo_print demo_world demo_reachable))) "ada"%string). Defined.

Lemma membership_consented_witness : w_roles demo_invited !! ("space_2", "bob")%string = None ∧
  ∃ k i, w_invitations demo_invited !! k = Some i ∧ iv_SpaceID i = "space_2"%string ∧ live i = true.
Proof.
  split; [exact demo_outside|].
  destruct (membership_consented demo_print demo_invited demo_join "space_2" "bob" "member" demo_invited_reachable demo_outside demo_inside)
    as [[E _]|(_ & k & i & a & now & _ & Hi & Hs & Hl & _)]; [discriminate E|]. exists k, i. split; [exact Hi|]. split; [exact Hs|exact Hl].
Defined.


Lemma invitation_answered_once_witness : body demo_print demo_join demo_invited = inr (tt, demo_world) ∧
  (respond "bob" "inv_1" true 5 5 (SpacesInv.exec_all demo_print [OpRemove "ada" "space_2" "bob"] demo_world)).2 = inl ErrSpaceInviteNotFound.
Proof.
  split; [exact demo_joins|].
  apply (invitation_answered_once demo_print demo_join "inv_1" demo_invited tt demo_world [OpRemove "ada" "space_2" "bob"] "bob" true 5 5 demo_joins).
  - left. exists "bob"%string, true, 1. split; [reflexivity|]. split; [reflexivity|]. split; reflexivity.
  - apply Forall_cons. split; [exact (λ H, H)|apply Forall_nil; exact I].
Defined.



Lemma permission_exact_witness : body demo_print (OpPermission "ada" "space_2" "bob" "library.edit" "deny") demo_world = inr (tt, demo_denied) ∧
  permission_of demo_denied "bob" "space_2" "library.edit" = Some false.
Proof.
  split; [exact demo_denies|].
  exact (proj1 (proj2 (proj2 (permission_exact demo_print demo_world "ada" "space_2" "bob" "library.edit" "deny" tt demo_denied demo_denies)))).
Defined.
