(* ===== verification/Planner.v ===== *)
(** * The planner of a Space: tasks and roadmaps

    The tables of [internal/platform/postgres] behind the planner app: tasks with
    their board ([space_tasks_*.go]), the runs of agents working on them, and
    roadmaps ([space_roadmap*.go]).  The operations are in [Board] and [Roadmap].
    What they only read is in [Surroundings]: the directory of [Spaces] with its
    permissions, conversations and their people, Ask identities, and the files that
    tasks refer to.

    Identifiers are unique across Spaces, as the primary keys are.  Columns that may
    be [NULL] and that the code reads through [COALESCE(...,'')] are strings with
    [""] for [NULL].  Coordinates are finite, as JSON numbers are.  Events and
    creation times are left out. *)
From S2P Require Import Prelude Tx GoStrings Json RunStore Contracts SpaceApps Spaces.

(** ** Tables *)

Record Conversation := mkConversation { cv_SpaceID : string; cv_People : gset string }.

(** A row of [misty_ask_identities]. *)
Record AskIdentity := mkIdentity { id_Owner : string; id_SystemManaged : bool; id_Enabled : bool; id_Deleted : bool }.

Record LibraryItem := mkItem { li_SpaceID : string; li_State : string; li_Hidden : bool }.
Record Attachment := mkAttachment { at_SpaceID : string; at_Message : bool; at_State : string; at_Uploader : string }.

Record Surroundings := mkSurroundings {
  su_World : World;
  su_Conversations : gmap string Conversation;
  su_Identities : gmap string AskIdentity;
  su_Items : gmap string LibraryItem;
  su_Attachments : gmap string Attachment }.

(** A row of [space_tasks]. *)
Record SpaceTask := mkTask {
  tk_SpaceID : string; tk_TaskNumber : Z; tk_TaskKey : string; tk_Title : string; tk_Notes : string; tk_Status : string;
  tk_Priority : string; tk_Rank : Z; tk_AssigneeUserID : string; tk_AssigneeAgentID : string; tk_DueAt : option Z;
  tk_DueTimezone : string; tk_SourceRefs : raw; tk_CreatedByUserID : string; tk_CreatedByAgentID : string; tk_SourceRunID : string;
  tk_AudienceKind : string; tk_AudienceConversationID : string; tk_AudienceCreatorUserID : string; tk_Version : Z;
  tk_CompletedAt : option Z; tk_ArchivedAt : option Z }.

(** What an operation reads and writes of [space_runs], and of the three tables of
    rows that belong to a run: [agent_run_jobs], [agent_run_tool_approvals] and
    [agent_run_contexts]. *)
Record TaskRun := mkTaskRun { wr_SourceTaskID : string; wr_AgentID : string; wr_State : string; wr_ErrorCode : string }.
Record RunPart := mkPart { rp_RunID : string; rp_State : string }.

(** A row of [space_task_activity] that an assignment leaves. *)
Record Assigned := mkAssigned { as_TaskID : string; as_ActorUserID : string; as_AgentID : string; as_TaskVersion : Z }.

Record Board := mkBoard {
  bd_Counters : gmap string Z;
  bd_Tasks : gmap string SpaceTask;
  bd_Runs : gmap string TaskRun;
  bd_Jobs : gmap string RunPart;
  bd_Approvals : gmap string RunPart;
  bd_Contexts : gmap string RunPart;
  bd_Activity : list Assigned }.

Record SpaceRoadmap := mkRoadmap {
  rm_SpaceID : string; rm_Name : string; rm_Description : string; rm_GraphVersion : Z; rm_CreatedBy : string;
  rm_AudienceKind : string; rm_AudienceConversationID : string; rm_Archived : bool }.

Record Milestone := mkMilestone {
  ms_SpaceID : string; ms_RoadmapID : string; ms_Title : string; ms_Description : string; ms_TargetDate : option Z; ms_Rank : Z;
  ms_X : number; ms_Y : number; ms_Width : number; ms_Height : number; ms_Version : Z; ms_Archived : bool }.

Record Goal := mkGoal {
  gl_SpaceID : string; gl_RoadmapID : string; gl_MilestoneID : string; gl_Title : string; gl_Description : string;
  gl_TargetDate : option Z; gl_Rank : Z; gl_X : number; gl_Y : number; gl_ManualCompletedAt : option Z;
  gl_ManualCompletedBy : string; gl_Version : Z; gl_Archived : bool }.

Record FieldDefinition := mkField { fd_ID : string; fd_Label : string; fd_Type : string; fd_Options : list string; fd_Archived : bool }.

Record NodeDefinition := mkNodeDefinition {
  nd_SpaceID : string; nd_Name : string; nd_Description : string; nd_Icon : string; nd_Color : string; nd_AgendaVisible : bool;
  nd_Schema : raw; nd_Version : Z; nd_Archived : bool }.

Record RoadmapNode := mkNode {
  rn_SpaceID : string; rn_RoadmapID : string; rn_MilestoneID : string; rn_DefinitionID : string; rn_Kind : string; rn_Title : string;
  rn_Description : string; rn_TargetDate : option Z; rn_X : number; rn_Y : number; rn_Values : raw; rn_Version : Z; rn_Archived : bool }.

(** [SpaceRoadmapEdgeEndpoint]. *)
Record Endpoint := mkEndpoint { ep_Kind : string; ep_ID : string }.

#[export] Instance endpoint_eq_dec : EqDecision Endpoint.
Proof. solve_decision. Defined.

Record RoadmapEdge := mkEdge {
  eg_SpaceID : string; eg_RoadmapID : string; eg_Source : Endpoint; eg_Target : Endpoint; eg_Type : string; eg_Label : string; eg_Version : Z }.

(** [mp_GoalTasks] is keyed by (goal, task) and holds who added it. *)
Record Maps := mkMaps {
  mp_Roadmaps : gmap string SpaceRoadmap;
  mp_Milestones : gmap string Milestone;
  mp_Goals : gmap string Goal;
  mp_Nodes : gmap string RoadmapNode;
  mp_Definitions : gmap string NodeDefinition;
  mp_Edges : gmap string RoadmapEdge;
  mp_GoalTasks : gmap (string * string) string }.

Record Planner := mkPlanner { pn_Around : Surroundings; pn_Board : Board; pn_Maps : Maps }.

(** ** Updates *)

Definition on_board (f : Board → Board) (p : Planner) : Planner := mkPlanner (pn_Around p) (f (pn_Board p)) (pn_Maps p).
Definition on_maps (f : Maps → Maps) (p : Planner) : Planner := mkPlanner (pn_Around p) (pn_Board p) (f (pn_Maps p)).

Definition upd_counters f (b : Board) : Board :=
  mkBoard (f (bd_Counters b)) (bd_Tasks b) (bd_Runs b) (bd_Jobs b) (bd_Approvals b) (bd_Contexts b) (bd_Activity b).
Definition upd_tasks f (b : Board) : Board :=
  mkBoard (bd_Counters b) (f (bd_Tasks b)) (bd_Runs b) (bd_Jobs b) (bd_Approvals b) (bd_Contexts b) (bd_Activity b).
Definition upd_runs fr fj fa fc (b : Board) : Board :=
  mkBoard (bd_Counters b) (bd_Tasks b) (fr (bd_Runs b)) (fj (bd_Jobs b)) (fa (bd_Approvals b)) (fc (bd_Contexts b)) (bd_Activity b).
Definition upd_activity f (b : Board) : Board :=
  mkBoard (bd_Counters b) (bd_Tasks b) (bd_Runs b) (bd_Jobs b) (bd_Approvals b) (bd_Contexts b) (f (bd_Activity b)).

Definition upd_roadmaps f (m : Maps) : Maps :=
  mkMaps (f (mp_Roadmaps m)) (mp_Milestones m) (mp_Goals m) (mp_Nodes m) (mp_Definitions m) (mp_Edges m) (mp_GoalTasks m).
Definition upd_milestones f (m : Maps) : Maps :=
  mkMaps (mp_Roadmaps m) (f (mp_Milestones m)) (mp_Goals m) (mp_Nodes m) (mp_Definitions m) (mp_Edges m) (mp_GoalTasks m).
Definition upd_goals f (m : Maps) : Maps :=
  mkMaps (mp_Roadmaps m) (mp_Milestones m) (f (mp_Goals m)) (mp_Nodes m) (mp_Definitions m) (mp_Edges m) (mp_GoalTasks m).
Definition upd_nodes f (m : Maps) : Maps :=
  mkMaps (mp_Roadmaps m) (mp_Milestones m) (mp_Goals m) (f (mp_Nodes m)) (mp_Definitions m) (mp_Edges m) (mp_GoalTasks m).
Definition upd_definitions f (m : Maps) : Maps :=
  mkMaps (mp_Roadmaps m) (mp_Milestones m) (mp_Goals m) (mp_Nodes m) (f (mp_Definitions m)) (mp_Edges m) (mp_GoalTasks m).
Definition upd_edges f (m : Maps) : Maps :=
  mkMaps (mp_Roadmaps m) (mp_Milestones m) (mp_Goals m) (mp_Nodes m) (mp_Definitions m) (f (mp_Edges m)) (mp_GoalTasks m).
Definition upd_goal_tasks f (m : Maps) : Maps :=
  mkMaps (mp_Roadmaps m) (mp_Milestones m) (mp_Goals m) (mp_Nodes m) (mp_Definitions m) (mp_Edges m) (f (mp_GoalTasks m)).

(** ** Access *)

Definition P := tx Planner space_error.

(** A check of the directory, which it only reads. *)
Definition reading {A} (m : SpaceApps.C A) : P A := λ p,
  match m (catalog (su_World (pn_Around p))) with inl e => inl (RunErr e) | inr (x, _) => inr (x, p) end.

#[export] Instance reads_reading {A} (m : SpaceApps.C A) : Reads (reading m).
Proof. intros p x p'. unfold reading. destruct (m _) as [e|[y c]]; [done|]. by intros [= <- <-]. Qed.

Definition PermissionTasksView : string := "tasks.view".

Definition space_audience : string := "space".
Definition conversation_audience : string := "conversation".

(** [SpaceResourceAudience]. *)
Record Audience := mkAudience { ad_Kind : string; ad_Conversation : string }.

Definition NormalizeResourceAudience (kind conversationID : string) : option Audience :=
  let kind := TrimSpace kind in
  let conversationID := TrimSpace conversationID in
  if empty kind || String.eqb kind space_audience
  then if empty conversationID then Some (mkAudience space_audience "") else None
  else if negb (String.eqb kind conversation_audience) || empty conversationID then None
  else Some (mkAudience kind conversationID).

Definition humanConversationParticipantTx (a : Surroundings) (userID spaceID conversationID : string) : bool :=
  match su_Conversations a !! conversationID with
  | Some c => String.eqb (cv_SpaceID c) spaceID && bool_decide (userID ∈ cv_People c)
  | None => false
  end.

Definition validateResourceAudienceTx (userID spaceID : string) (audience : Audience) : P () :=
  p ← get;
  guard_tx (String.eqb (ad_Kind audience) space_audience ||
    humanConversationParticipantTx (pn_Around p) userID spaceID (ad_Conversation audience)) (RunErr ErrSpaceForbidden).

(** [resourceEntityAudienceVisibleTx] for a roadmap. *)
Definition roadmap_visible (p : Planner) (userID spaceID roadmapID : string) : bool :=
  match mp_Roadmaps (pn_Maps p) !! roadmapID with
  | Some r => negb (String.eqb (rm_SpaceID r) spaceID) || String.eqb (rm_AudienceKind r) space_audience ||
              humanConversationParticipantTx (pn_Around p) userID spaceID (rm_AudienceConversationID r)
  | None => true
  end.

(** [askExecutionContextTx], of which the planner uses only that it succeeds: it
    replaces the error. *)
Definition ask_allowed (p : Planner) (userID identityID : string) : bool :=
  match su_Identities (pn_Around p) !! identityID with
  | Some a => String.eqb (id_Owner a) userID && id_SystemManaged a && id_Enabled a && negb (id_Deleted a)
  | None => false
  end.

Definition askExecutionContextTx (userID spaceID identityID : string) : P () :=
  reading (requireMemberTx spaceID userID);;
  p ← get; guard_tx (ask_allowed p userID identityID) (ErrSQL "personal agent not found").

(** Any error of the first transaction becomes [e]. *)
Definition failing_as {A} (m : P A) (e : space_error) : P A := λ p, match m p with inl _ => inl e | inr r => inr r end.

#[export] Instance reads_failing {A} (m : P A) e : Reads m → Reads (failing_as m e).
Proof. intros Hm p x p'. unfold failing_as. destruct (m p) as [?|[y q]] eqn:E; [done|]. intros [= <- <-]. by apply Hm in E. Qed.
