(* ===== verification/Board.v ===== *)
(** * Tasks and their board

    [space_tasks_decode_task_cursor.go], [space_tasks_archive_space_task.go],
    [space_tasks_batch.go] and the checks of [space_tasks_space_task.go] in
    [internal/platform/postgres], with the trigger of
    [migrations/20261001000000_space_roadmaps.sql] that reopens goals.

    The tasks of a Space in one status are a column, ordered by rank.  [dbnow] is the
    database's clock.  [known_zone] says which time zones [time.LoadLocation]
    finds.  Advisory and row locks make each operation atomic. *)
From S2P Require Import Prelude Tx GoStrings GoTime Json RunStore Contracts SpaceApps Spaces Planner.

(** ** Source references *)

(** [json.Unmarshal] into a slice of objects. *)
Definition decode_refs (v : json) : option (list object) :=
  match v with
  | JNull => Some []
  | JArr l => mapM (λ x, match x with JObj o => Some o | JNull => Some [] | _ => None end) l
  | _ => None
  end.

Definition text_of (v : option json) : string := match v with Some (JStr s) => s | _ => ""%string end.

Definition valid_ref (o : object) : bool :=
  let kind := text_of (get_field o "kind") in
  empty kind || one_of kind ["library_item"; "task_attachment"; "chat_attachment"]%string &&
                negb (empty (TrimSpace (text_of (get_field o "resource_id")))).

(** A field of [typedTaskSourceRef]. *)
Definition typed_text (v : option json) : option string :=
  match v with None | Some JNull => Some ""%string | Some (JStr s) => Some s | _ => None end.

Definition typed_ref (o : object) : option (string * string) :=
  kind ← typed_text (get_field o "kind"); id ← typed_text (get_field o "resource_id"); Some (kind, id).

(** [source_refs @> jsonb_build_array(jsonb_build_object('kind','task_attachment','resource_id',id))]. *)
Definition holds_attachment (refs : raw) (id : string) : bool :=
  match refs with
  | RJson (JArr l) => existsb (λ x, match x with
      | JObj o => match get_field o "kind", get_field o "resource_id" with
                  | Some (JStr k), Some (JStr r) => String.eqb k "task_attachment" && String.eqb r id
                  | _, _ => false
                  end
      | _ => false end) l
  | _ => false
  end.

Definition item_available (p : Planner) (spaceID id : string) : bool :=
  match su_Items (pn_Around p) !! id with
  | Some i => String.eqb (li_SpaceID i) spaceID && String.eqb (li_State i) "ready" && negb (li_Hidden i)
  | None => false
  end.

Definition task_attachment_available (p : Planner) (actorUserID spaceID taskID id : string) : bool :=
  match su_Attachments (pn_Around p) !! id with
  | Some a => String.eqb (at_SpaceID a) spaceID && negb (at_Message a) && String.eqb (at_State a) "ready" &&
      (String.eqb (at_Uploader a) actorUserID ||
       match bd_Tasks (pn_Board p) !! taskID with
       | Some t => String.eqb (tk_SpaceID t) spaceID && holds_attachment (tk_SourceRefs t) id
       | None => false
       end)
  | None => false
  end.

Definition chat_attachment_available (p : Planner) (spaceID id : string) : bool :=
  match su_Attachments (pn_Around p) !! id with
  | Some a => String.eqb (at_SpaceID a) spaceID && at_Message a && String.eqb (at_State a) "ready"
  | None => false
  end.

Definition PermissionLibraryView : string := "library.view".
Definition PermissionMessagesRead : string := "messages.read".

Definition require_view (actorUserID spaceID permission : string) : P () :=
  allowed ← failing_as (reading (hasSpacePermissionTx actorUserID spaceID permission)) (RunErr ErrLibraryForbidden);
  guard_tx allowed (RunErr ErrLibraryForbidden).

Definition check_ref (actorUserID spaceID taskID kind id : string) : P () :=
  p ← get;
  if empty kind then mret ()
  else if String.eqb kind "library_item" then
    require_view actorUserID spaceID PermissionLibraryView;; guard_tx (item_available p spaceID id) ErrLibraryNotFound
  else if String.eqb kind "task_attachment" then guard_tx (task_attachment_available p actorUserID spaceID taskID id) ErrLibraryNotFound
  else if String.eqb kind "chat_attachment" then
    require_view actorUserID spaceID PermissionMessagesRead;; guard_tx (chat_attachment_available p spaceID id) ErrLibraryNotFound
  else fail (RunErr ErrSpaceInvalid).

Fixpoint check_refs (actorUserID spaceID taskID : string) (refs : list (string * string)) : P () :=
  match refs with
  | [] => mret ()
  | (kind, id) :: rest => check_ref actorUserID spaceID taskID kind id;; check_refs actorUserID spaceID taskID rest
  end.

Definition typed_refs (refs : raw) : option (list (string * string)) :=
  v ← unmarshal refs; l ← decode_refs v; mapM typed_ref l.

Definition validateTaskSourceRefsTx (actorUserID spaceID taskID : string) (refs : raw) : P () :=
  l ← require (typed_refs refs) (RunErr ErrSpaceInvalid);
  check_refs actorUserID spaceID taskID l.

(** ** Columns *)

Definition in_column (spaceID status : string) (t : SpaceTask) : bool :=
  String.eqb (tk_SpaceID t) spaceID && String.eqb (tk_Status t) status && bool_decide (tk_ArchivedAt t = None).

(** [COALESCE(MAX(rank),0)] over the tasks chosen; ranks are positive. *)
Definition max_rank (chosen : string → SpaceTask → bool) (tasks : gmap string SpaceTask) : Z :=
  map_fold (λ id t acc, if chosen id t then Z.max (tk_Rank t) acc else acc) 0 tasks.

(** The sort keys [rank,id]. *)
Definition key : Type := Z * string.
Definition key_le (a b : key) : Prop := a.1 < b.1 ∨ a.1 = b.1 ∧ String.le a.2 b.2.

#[export] Instance key_le_dec : RelDecision key_le.
Proof. intros a b. unfold key_le. apply _. Defined.

Definition keys (chosen : string → SpaceTask → bool) (tasks : gmap string SpaceTask) : list key :=
  (λ kv : string * SpaceTask, (tk_Rank kv.2, kv.1)) <$> filter (λ kv, chosen kv.1 kv.2 = true) (map_to_list tasks).

(** The identifiers chosen, in board order. *)
Definition ordered (chosen : string → SpaceTask → bool) (tasks : gmap string SpaceTask) : list string :=
  snd <$> merge_sort key_le (keys chosen tasks).

Definition column (spaceID status : string) (tasks : gmap string SpaceTask) : list string := ordered (λ _, in_column spaceID status) tasks.

(** The column without one task. *)
Definition others (spaceID status taskID : string) (id : string) (t : SpaceTask) : bool :=
  in_column spaceID status t && negb (String.eqb id taskID).

(** ** Rows *)

Definition with_rank (rank : Z) (t : SpaceTask) : SpaceTask :=
  mkTask (tk_SpaceID t) (tk_TaskNumber t) (tk_TaskKey t) (tk_Title t) (tk_Notes t) (tk_Status t) (tk_Priority t) rank
    (tk_AssigneeUserID t) (tk_AssigneeAgentID t) (tk_DueAt t) (tk_DueTimezone t) (tk_SourceRefs t) (tk_CreatedByUserID t)
    (tk_CreatedByAgentID t) (tk_SourceRunID t) (tk_AudienceKind t) (tk_AudienceConversationID t) (tk_AudienceCreatorUserID t)
    (tk_Version t) (tk_CompletedAt t) (tk_ArchivedAt t).

(** [SET status,rank,completed_at,version=version+1]. *)
Definition placed (status : string) (rank dbnow : Z) (t : SpaceTask) : SpaceTask :=
  mkTask (tk_SpaceID t) (tk_TaskNumber t) (tk_TaskKey t) (tk_Title t) (tk_Notes t) status (tk_Priority t) rank
    (tk_AssigneeUserID t) (tk_AssigneeAgentID t) (tk_DueAt t) (tk_DueTimezone t) (tk_SourceRefs t) (tk_CreatedByUserID t)
    (tk_CreatedByAgentID t) (tk_SourceRunID t) (tk_AudienceKind t) (tk_AudienceConversationID t) (tk_AudienceCreatorUserID t)
    (tk_Version t + 1) (if String.eqb status "done" then Some (default dbnow (tk_CompletedAt t)) else None) (tk_ArchivedAt t).

(** The other columns a client's update sets. *)
Definition described (item : SpaceTask) (t : SpaceTask) : SpaceTask :=
  mkTask (tk_SpaceID t) (tk_TaskNumber t) (tk_TaskKey t) (tk_Title item) (tk_Notes item) (tk_Status t) (tk_Priority item) (tk_Rank t)
    (tk_AssigneeUserID item) (tk_AssigneeAgentID item) (tk_DueAt item) (tk_DueTimezone item) (tk_SourceRefs item) (tk_CreatedByUserID t)
    (tk_CreatedByAgentID t) (tk_SourceRunID t) (tk_AudienceKind t) (tk_AudienceConversationID t) (tk_AudienceCreatorUserID t)
    (tk_Version t) (tk_CompletedAt t) (tk_ArchivedAt t).

Definition archived (dbnow : Z) (t : SpaceTask) : SpaceTask :=
  mkTask (tk_SpaceID t) (tk_TaskNumber t) (tk_TaskKey t) (tk_Title t) (tk_Notes t) (tk_Status t) (tk_Priority t) (tk_Rank t)
    (tk_AssigneeUserID t) (tk_AssigneeAgentID t) (tk_DueAt t) (tk_DueTimezone t) (tk_SourceRefs t) (tk_CreatedByUserID t)
    (tk_CreatedByAgentID t) (tk_SourceRunID t) (tk_AudienceKind t) (tk_AudienceConversationID t) (tk_AudienceCreatorUserID t)
    (tk_Version t + 1) (tk_CompletedAt t) (Some dbnow).

Definition array_refs (r : raw) : bool := match r with RJson (JArr _) => true | _ => false end.

(** The [CHECK]s of the row that the operations do not make themselves. *)
Definition check_row (t : SpaceTask) : P () :=
  guard_tx (0 <? tk_Rank t) (ErrSQL "space_tasks_rank_check");;
  guard_tx (array_refs (tk_SourceRefs t)) (ErrSQL "space_tasks_source_refs_check").

(** [bigint] arithmetic of the database. *)
Definition bigint (z : Z) : P Z := guard_tx (z <=? MaxInt64) (ErrSQL "bigint out of range");; mret z.

Definition put_task (id : string) (t : SpaceTask) : P () := modify (on_board (upd_tasks (<[id := t]>))).

(** ** The trigger on tasks *)

Definition reopened (g : Goal) : Goal :=
  mkGoal (gl_SpaceID g) (gl_RoadmapID g) (gl_MilestoneID g) (gl_Title g) (gl_Description g) (gl_TargetDate g) (gl_Rank g) (gl_X g) (gl_Y g)
    None "" (gl_Version g + 1) (gl_Archived g).

(** A task that counts towards its goals. *)
Definition counts (t : SpaceTask) : bool := bool_decide (tk_ArchivedAt t = None) && negb (String.eqb (tk_Status t) "canceled").

Definition reopen_goals (taskID : string) (m : Maps) : Maps :=
  upd_goals (map_imap (λ id g, Some (if bool_decide (is_Some (gl_ManualCompletedAt g)) && bool_decide (is_Some (mp_GoalTasks m !! (id, taskID)))
                                      then reopened g else g))) m.

(** [clear_roadmap_manual_completion_for_reopened_task], after an update of [status]
    or [archived_at]. *)
Definition reopen_trigger (taskID : string) (old new : SpaceTask) : P () :=
  when (counts new && negb (bool_decide (tk_ArchivedAt old = tk_ArchivedAt new) && String.eqb (tk_Status old) (tk_Status new)))
    (modify (on_maps (reopen_goals taskID))).

(** An update of [status] or [archived_at] of a row. *)
Definition update_task (taskID : string) (old new : SpaceTask) : P () :=
  check_row new;; put_task taskID new;; reopen_trigger taskID old new.

Section board.
Context (known_zone : string → bool).

(** ** Validation *)

Definition valid_statuses : list string := ["todo"; "in_progress"; "done"; "canceled"]%string.

(** The normalized task; every error is [ErrSpaceInvalid]. *)
Definition TestingValidateSpaceTask (item : SpaceTask) : option SpaceTask :=
  let title := TrimSpace (tk_Title item) in
  let notes := TrimSpace (tk_Notes item) in
  let status := TrimSpace (tk_Status item) in
  let priority := TrimSpace (tk_Priority item) in
  let zone := TrimSpace (tk_DueTimezone item) in
  let priority := if empty priority then "medium"%string else priority in
  let zone := if empty zone then "UTC"%string else zone in
  let refs := match tk_SourceRefs item with RNil => RJson (JArr []) | r => r end in
  if (rune_count title <? 1) || (240 <? rune_count title) || (20000 <? rune_count notes) then None
  else if negb (one_of status valid_statuses) || negb (one_of priority ["high"; "medium"; "low"]%string) || negb (known_zone zone) then None
  else match unmarshal refs ≫= decode_refs with
       | None => None
       | Some l =>
           if (20 <? len l) || negb (forallb valid_ref l) then None
           else if negb (empty (tk_AssigneeUserID item)) && negb (empty (tk_AssigneeAgentID item)) then None
           else Some (mkTask (tk_SpaceID item) (tk_TaskNumber item) (tk_TaskKey item) title notes status priority (tk_Rank item)
                  (tk_AssigneeUserID item) (tk_AssigneeAgentID item) (tk_DueAt item) zone refs (tk_CreatedByUserID item)
                  (tk_CreatedByAgentID item) (tk_SourceRunID item) (tk_AudienceKind item) (tk_AudienceConversationID item)
                  (tk_AudienceCreatorUserID item) (tk_Version item) (tk_CompletedAt item) (tk_ArchivedAt item))
       end.

(** ** Creation *)

(** [INSERT INTO space_task_counters ... ON CONFLICT DO UPDATE ... RETURNING last_number]. *)
Definition next_number (spaceID : string) : P Z :=
  p ← get;
  let n := default 0 (bd_Counters (pn_Board p) !! spaceID) + 1 in
  modify (on_board (upd_counters (<[spaceID := n]>)));; mret n.

Definition task_key (n : Z) : string := "MST-" +:+ Itoa n.

(** [COALESCE(MAX(rank),0)+1024] of a column, in SQL. *)
Definition rank_after (spaceID status : string) : P Z :=
  p ← get; bigint (max_rank (λ _, in_column spaceID status) (bd_Tasks (pn_Board p)) + 1024).

Definition number_used (spaceID : string) (n : Z) (tasks : gmap string SpaceTask) : bool :=
  existsb (λ kv : string * SpaceTask, String.eqb (tk_SpaceID kv.2) spaceID && (tk_TaskNumber kv.2 =? n)) (map_to_list tasks).

Definition insert_task (id : string) (t : SpaceTask) : P () :=
  check_row t;;
  p ← get;
  guard_tx (bool_decide (bd_Tasks (pn_Board p) !! id = None)) (ErrSQL "space_tasks_pkey");;
  guard_tx (negb (number_used (tk_SpaceID t) (tk_TaskNumber t) (bd_Tasks (pn_Board p)))) (ErrSQL "space_tasks_number_unique");;
  put_task id t.

(** The agent is enabled and its owner a member. *)
Definition agent_of_member (p : Planner) (agentID spaceID : string) : bool :=
  match su_Identities (pn_Around p) !! agentID with
  | Some a => id_Enabled a && negb (id_Deleted a) && bool_decide (is_Some (w_roles (su_World (pn_Around p)) !! (spaceID, id_Owner a)))
  | None => false
  end.

Definition record_assignment (taskID actorUserID agentID : string) (version : Z) : P () :=
  modify (on_board (upd_activity (λ l, l ++ [mkAssigned taskID actorUserID agentID version]))).

Definition or_else (a b : string) : string := if empty a then b else a.

(** The row of a new task; [number], [rank] and [dbnow] come from the database. *)
Definition new_row (item : SpaceTask) (status : string) (number rank dbnow : Z) : SpaceTask :=
  mkTask (tk_SpaceID item) number (task_key number) (tk_Title item) (tk_Notes item) status (tk_Priority item) rank
    (tk_AssigneeUserID item) (tk_AssigneeAgentID item) (tk_DueAt item) (tk_DueTimezone item) (tk_SourceRefs item)
    (tk_CreatedByUserID item) (tk_CreatedByAgentID item) (tk_SourceRunID item) (tk_AudienceKind item) (tk_AudienceConversationID item)
    (tk_AudienceCreatorUserID item) 1 (if String.eqb status "done" then Some dbnow else None) None.

(** The item with the creator, audience and status [CreateSpaceTask] gives it. *)
Definition submitted (actorUserID : string) (audience : Audience) (item : SpaceTask) : SpaceTask :=
  mkTask (tk_SpaceID item) (tk_TaskNumber item) (tk_TaskKey item) (tk_Title item) (tk_Notes item) (or_else (tk_Status item) "todo")
    (tk_Priority item) (tk_Rank item) (tk_AssigneeUserID item) (tk_AssigneeAgentID item) (tk_DueAt item) (tk_DueTimezone item)
    (tk_SourceRefs item)
    (if empty (tk_CreatedByUserID item) && empty (tk_CreatedByAgentID item) then actorUserID else tk_CreatedByUserID item)
    (tk_CreatedByAgentID item) (tk_SourceRunID item) (ad_Kind audience) (ad_Conversation audience)
    (if String.eqb (ad_Kind audience) conversation_audience then or_else (tk_AudienceCreatorUserID item) actorUserID
     else tk_AudienceCreatorUserID item) (tk_Version item) (tk_CompletedAt item) (tk_ArchivedAt item).

(** [newID] is the identifier the task gets when the item has none. *)
Definition CreateSpaceTask (newID actorUserID id : string) (item : SpaceTask) (dbnow : Z) : P SpaceTask :=
  let id := or_else id ("task_" +:+ newID) in
  audience ← require (NormalizeResourceAudience (tk_AudienceKind item) (tk_AudienceConversationID item)) (RunErr ErrSpaceInvalid);
  item ← require (TestingValidateSpaceTask (submitted actorUserID audience item)) (RunErr ErrSpaceInvalid);
  reading (requireSpacePermissionTx actorUserID (tk_SpaceID item) PermissionTasksManage);;
  validateTaskSourceRefsTx actorUserID (tk_SpaceID item) id (tk_SourceRefs item);;
  validateResourceAudienceTx actorUserID (tk_SpaceID item) audience;;
  when (negb (empty (tk_AssigneeUserID item)))
    (failing_as (reading (requireMemberTx (tk_SpaceID item) (tk_AssigneeUserID item));; mret ()) (RunErr ErrSpaceInvalid));;
  when (negb (empty (tk_AssigneeAgentID item)))
    (failing_as (askExecutionContextTx actorUserID (tk_SpaceID item) (tk_AssigneeAgentID item)) (RunErr ErrSpaceInvalid));;
  let status := if negb (empty (tk_AssigneeAgentID item)) && String.eqb (tk_Status item) "todo" then "in_progress"%string else tk_Status item in
  p ← get;
  guard_tx (empty (tk_CreatedByAgentID item) || agent_of_member p (tk_CreatedByAgentID item) (tk_SpaceID item)) (RunErr ErrSpaceInvalid);;
  number ← next_number (tk_SpaceID item);
  rank ← rank_after (tk_SpaceID item) status;
  let row := new_row item status number rank dbnow in
  insert_task id row;;
  when (negb (empty (tk_AssigneeAgentID item))) (record_assignment id actorUserID (tk_AssigneeAgentID item) (tk_Version row));;
  mret row.

(** The row of a task of a batch; only these columns are inserted. *)
Definition batch_row (actorUserID : string) (item : SpaceTask) (number rank : Z) : SpaceTask :=
  mkTask (tk_SpaceID item) number (task_key number) (tk_Title item) (tk_Notes item) (tk_Status item) (tk_Priority item) rank
    "" "" None (tk_DueTimezone item) (tk_SourceRefs item) actorUserID "" "" space_audience "" "" 1 None None.

(** One task of a batch: an existing one is returned as it is. *)
Definition create_one (actorUserID spaceID id : string) (item : SpaceTask) : P SpaceTask :=
  validateTaskSourceRefsTx actorUserID spaceID id (tk_SourceRefs item);;
  p ← get;
  match bd_Tasks (pn_Board p) !! id with
  | Some t => guard_tx (String.eqb (tk_SpaceID t) spaceID && bool_decide (tk_ArchivedAt t = None)) (RunErr ErrSpaceConflict);; mret t
  | None =>
      number ← next_number spaceID;
      rank ← rank_after spaceID "todo";
      let row := batch_row actorUserID item number rank in
      insert_task id row;; mret row
  end.

Fixpoint create_all (actorUserID spaceID : string) (items : list (string * SpaceTask)) : P (list SpaceTask) :=
  match items with
  | [] => mret []
  | (id, item) :: rest => t ← create_one actorUserID spaceID id item; l ← create_all actorUserID spaceID rest; mret (t :: l)
  end.

Definition batch_item (actorUserID spaceID : string) (item : SpaceTask) : SpaceTask :=
  mkTask spaceID (tk_TaskNumber item) (tk_TaskKey item) (tk_Title item) (tk_Notes item) (or_else (tk_Status item) "todo") (tk_Priority item)
    (tk_Rank item) (tk_AssigneeUserID item) (tk_AssigneeAgentID item) (tk_DueAt item) (tk_DueTimezone item) (tk_SourceRefs item)
    (or_else (tk_CreatedByUserID item) actorUserID) (tk_CreatedByAgentID item) (tk_SourceRunID item) space_audience ""
    (tk_AudienceCreatorUserID item) (tk_Version item) (tk_CompletedAt item) (tk_ArchivedAt item).

(** The items with their identifiers, normalized. *)
Definition batch_items (actorUserID spaceID : string) (items : list (string * SpaceTask)) : option (list (string * SpaceTask)) :=
  mapM (λ it : string * SpaceTask, if empty it.1 then None else
    item ← TestingValidateSpaceTask (batch_item actorUserID spaceID it.2); Some (it.1, item)) items.

Definition CreateSpaceTaskBatch (actorUserID spaceID : string) (items : list (string * SpaceTask)) : P (list SpaceTask) :=
  guard_tx ((1 <=? len items) && (len items <=? 25)) (RunErr ErrSpaceInvalid);;
  items ← require (batch_items actorUserID spaceID items) (RunErr ErrSpaceInvalid);
  reading (requireSpacePermissionTx actorUserID spaceID PermissionTasksManage);;
  create_all actorUserID spaceID items.

(** ** Updates *)

Definition lockActiveSpaceTaskTx (spaceID taskID : string) : P SpaceTask :=
  p ← get;
  t ← require (bd_Tasks (pn_Board p) !! taskID) (RunErr ErrSpaceNotFound);
  guard_tx (String.eqb (tk_SpaceID t) spaceID && bool_decide (tk_ArchivedAt t = None)) (RunErr ErrSpaceNotFound);; mret t.

(** The runs of an agent that lost its task end, with what belongs to them: the
    jobs of the runs canceled now, the approvals and contexts of all runs that ended
    this way. *)
Definition cancel_runs (taskID agentID : string) (b : Board) : Board :=
  let mine (r : TaskRun) := String.eqb (wr_SourceTaskID r) taskID && String.eqb (wr_AgentID r) agentID in
  let live (r : TaskRun) := mine r &&
    one_of (wr_State r) ["queued"; "running"; "cooldown"; "awaiting_approval"; "awaiting_device"; "awaiting_intervention"]%string in
  let runs := (λ r, if live r then mkTaskRun (wr_SourceTaskID r) (wr_AgentID r) "canceled" "task_unassigned" else r) <$> bd_Runs b in
  let canceled_now (x : RunPart) := match bd_Runs b !! rp_RunID x with Some r => live r | None => false end in
  let unassigned (x : RunPart) := match runs !! rp_RunID x with
    | Some r => mine r && String.eqb (wr_State r) "canceled" && String.eqb (wr_ErrorCode r) "task_unassigned" | None => false end in
  let set_state (chosen : RunPart → bool) (from : list string) (to : string) (x : RunPart) :=
    if chosen x && one_of (rp_State x) from then mkPart (rp_RunID x) to else x in
  upd_runs (λ _, runs) (fmap (set_state canceled_now ["queued"; "leased"; "dispatched"]%string "canceled"))
    (fmap (set_state unassigned ["pending"%string] "denied")) (fmap (set_state unassigned ["attached"%string] "detached")) b.

Definition UpdateSpaceTask (actorUserID id : string) (item : SpaceTask) (dbnow : Z) : P SpaceTask :=
  guard_tx (negb (empty id) && negb (empty (tk_SpaceID item)) && (1 <=? tk_Version item)) (RunErr ErrSpaceInvalid);;
  item ← require (TestingValidateSpaceTask item) (RunErr ErrSpaceInvalid);
  reading (requireSpacePermissionTx actorUserID (tk_SpaceID item) PermissionTasksManage);;
  validateTaskSourceRefsTx actorUserID (tk_SpaceID item) id (tk_SourceRefs item);;
  when (negb (empty (tk_AssigneeUserID item)))
    (failing_as (reading (requireMemberTx (tk_SpaceID item) (tk_AssigneeUserID item));; mret ()) (RunErr ErrSpaceInvalid));;
  when (negb (empty (tk_AssigneeAgentID item)))
    (failing_as (askExecutionContextTx actorUserID (tk_SpaceID item) (tk_AssigneeAgentID item)) (RunErr ErrSpaceInvalid));;
  t ← lockActiveSpaceTaskTx (tk_SpaceID item) id;
  let changed := negb (String.eqb (tk_AssigneeAgentID t) (tk_AssigneeAgentID item)) in
  when (changed && negb (empty (tk_AssigneeAgentID t))) (modify (on_board (cancel_runs id (tk_AssigneeAgentID t))));;
  let status := if changed && negb (empty (tk_AssigneeAgentID item)) && String.eqb (tk_Status item) "todo" then "in_progress"%string
                else tk_Status item in
  rank ← (if String.eqb (tk_Status t) status then mret (tk_Rank t) else rank_after (tk_SpaceID item) status);
  let row := placed status rank dbnow (described item t) in
  update_task id t row;;
  when (changed && negb (empty (tk_AssigneeAgentID item))) (record_assignment id actorUserID (tk_AssigneeAgentID item) (tk_Version row));;
  mret row.

(** ** Moving *)

(** The rank before a task of the column, or after all of them; 0 when there is no
    room. *)
Definition taskRankBefore (spaceID taskID status beforeTaskID : string) : P Z :=
  p ← get;
  let rest := others spaceID status taskID in
  if empty beforeTaskID then mret (wrap64 (max_rank rest (bd_Tasks (pn_Board p)) + 1024))
  else
    t ← require (bd_Tasks (pn_Board p) !! beforeTaskID) (RunErr ErrSpaceInvalid);
    guard_tx (rest beforeTaskID t) (RunErr ErrSpaceInvalid);;
    let before := tk_Rank t in
    let previous := max_rank (λ id u, rest id u && (tk_Rank u <? before)) (bd_Tasks (pn_Board p)) in
    mret (if before - previous <=? 1 then 0 else previous + (before - previous) / 2).

(** The place of an identifier in a list. *)
Fixpoint position (id : string) (l : list string) : option Z :=
  match l with
  | [] => None
  | x :: l => if String.eqb x id then Some 0 else (λ n, n + 1) <$> position id l
  end.

(** [rebalanceTaskColumn]: the rank is 1024 times the row number. *)
Definition renumbered (order : list string) (tasks : gmap string SpaceTask) : gmap string SpaceTask :=
  map_imap (λ id t, Some (match position id order with Some n => with_rank (1024 * (n + 1)) t | None => t end)) tasks.

Definition rebalanceTaskColumn (spaceID status movingTaskID : string) : P () :=
  p ← get;
  let order := ordered (others spaceID status movingTaskID) (bd_Tasks (pn_Board p)) in
  bigint (1024 * len order);;
  modify (on_board (upd_tasks (renumbered order))).

(** The task as moved, and its column. *)
Definition MoveSpaceTask (actorUserID spaceID taskID : string) (version : Z) (status beforeTaskID : string) (dbnow : Z)
    : P (SpaceTask * list string) :=
  guard_tx (negb (empty taskID) && (1 <=? version) && one_of status valid_statuses) (RunErr ErrSpaceInvalid);;
  reading (requireSpacePermissionTx actorUserID spaceID PermissionTasksManage);;
  t ← lockActiveSpaceTaskTx spaceID taskID;
  rank ← taskRankBefore spaceID taskID status beforeTaskID;
  rank ← (if rank =? 0 then
            rebalanceTaskColumn spaceID status taskID;;
            rank ← failing_as (taskRankBefore spaceID taskID status beforeTaskID) (RunErr ErrSpaceConflict);
            guard_tx (negb (rank =? 0)) (RunErr ErrSpaceConflict);; mret rank
          else mret rank);
  let row := placed status rank dbnow t in
  update_task taskID t row;;
  p ← get;
  mret (row, column spaceID status (bd_Tasks (pn_Board p))).

(** ** Archiving *)

(** Archiving again returns the tombstone. *)
Definition ArchiveSpaceTask (actorUserID spaceID taskID : string) (dbnow : Z) : P SpaceTask :=
  reading (requireSpacePermissionTx actorUserID spaceID PermissionTasksManage);;
  p ← get;
  t ← require (bd_Tasks (pn_Board p) !! taskID) (RunErr ErrSpaceNotFound);
  guard_tx (String.eqb (tk_SpaceID t) spaceID) (RunErr ErrSpaceNotFound);;
  match tk_ArchivedAt t with
  | Some _ => mret t
  | None => update_task taskID t (archived dbnow t);; mret (archived dbnow t)
  end.

(** ** Reading *)

Definition SpaceTaskForMember (userID spaceID taskID : string) : P SpaceTask :=
  reading (requireSpacePermissionTx userID spaceID PermissionTasksView);;
  p ← get;
  t ← require (bd_Tasks (pn_Board p) !! taskID) (RunErr ErrSpaceNotFound);
  guard_tx (String.eqb (tk_SpaceID t) spaceID && bool_decide (tk_ArchivedAt t = None) &&
    (String.eqb (tk_AudienceKind t) space_audience ||
     match su_Conversations (pn_Around p) !! tk_AudienceConversationID t with
     | Some c => bool_decide (userID ∈ cv_People c) | None => false end)) (RunErr ErrSpaceNotFound);;
  mret t.
End board.
