(* ===== verification/RoadmapFields.v ===== *)
(** * Fields of custom roadmap nodes

    The pure part of [internal/platform/postgres/space_roadmap_nodes.go]: field
    schemas, when a schema may replace another, and the values of a node's fields.

    The arguments [size] are the lengths of the documents' texts, which decoded
    values do not have. *)
From S2P Require Import Prelude Tx GoStrings Json RunStore Contracts SpaceApps Spaces Planner.

(** ** Schemas *)

(** [^[a-z][a-z0-9_-]{0,63}$] *)
Definition field_id (s : string) : bool := starts_lower s && all_bytes (word_byte [95; 45]) s && (strlen s <=? 64).

Definition field_types : list string := ["short_text"; "long_text"; "number"; "date"; "url"; "select"; "checkbox"]%string.

(** [json.Unmarshal] into a [SpaceRoadmapFieldDefinition]. *)
Definition text_field (o : object) (key : string) : option string :=
  match get_field o key with None | Some JNull => Some ""%string | Some (JStr s) => Some s | _ => None end.
Definition bool_field (o : object) (key : string) : option bool :=
  match get_field o key with None | Some JNull => Some false | Some (JBool b) => Some b | _ => None end.
Definition texts_field (o : object) (key : string) : option (list string) :=
  match get_field o key with
  | None | Some JNull => Some []
  | Some (JArr l) => mapM (λ x, match x with JStr s => Some s | JNull => Some ""%string | _ => None end) l
  | _ => None
  end.

Definition decode_field (v : json) : option FieldDefinition :=
  match v with
  | JNull => Some (mkField "" "" "" [] false)
  | JObj o =>
      id ← text_field o "id"; label ← text_field o "label"; type ← text_field o "type";
      options ← texts_field o "options"; archived ← bool_field o "archived";
      Some (mkField id label type options archived)
  | _ => None
  end.

Definition decode_fields (v : json) : option (list FieldDefinition) :=
  match v with JNull => Some [] | JArr l => mapM decode_field l | _ => None end.

(** The checks of one field; [seen] are the trimmed identifiers before it. *)
Definition field_ok (seen : list string) (f : FieldDefinition) : bool :=
  let options := TrimSpace <$> fd_Options f in
  field_id (TrimSpace (fd_ID f)) && negb (one_of (TrimSpace (fd_ID f)) seen) && one_of (fd_Type f) field_types &&
  negb (empty (TrimSpace (fd_Label f))) && (rune_count (TrimSpace (fd_Label f)) <=? 80) &&
  negb (negb (String.eqb (fd_Type f) "select") && negb (len (fd_Options f) =? 0) || (50 <? len (fd_Options f))) &&
  forallb (λ o, negb (empty o) && (rune_count o <=? 80)) options && unique options.

Fixpoint fields_ok (seen : list string) (fields : list FieldDefinition) : bool :=
  match fields with
  | [] => true
  | f :: rest => field_ok seen f && fields_ok (TrimSpace (fd_ID f) :: seen) rest
  end.

(** The fields are returned as they were decoded: the loop trims its own copies. *)
Definition decodeRoadmapFieldSchema (size : Z) (r : raw) : option (list FieldDefinition) :=
  match r with
  | RNil => Some []
  | _ =>
      if 32768 <? size then None
      else v ← unmarshal r; fields ← decode_fields v;
           if (20 <? len fields) || negb (fields_ok [] fields) then None else Some fields
  end.

(** A map built from a list of fields: the last one of an identifier counts. *)
Definition by_id (fields : list FieldDefinition) : gmap string FieldDefinition :=
  foldl (λ m f, <[fd_ID f := f]> m) ∅ fields.

(** No field of the earlier schema goes or changes its type. *)
Definition validRoadmapDefinitionUpdate (previous next : list FieldDefinition) : bool :=
  forallb (λ f, match by_id previous !! fd_ID f with Some old => String.eqb (fd_Type old) (fd_Type f) | None => true end) next &&
  forallb (λ kv : string * FieldDefinition, bool_decide (is_Some (by_id next !! kv.1))) (map_to_list (by_id previous)).

(** ** Values *)

Definition value_ok (f : FieldDefinition) (v : json) : bool :=
  if String.eqb (fd_Type f) "number" then match v with JNum _ => true | _ => false end
  else if String.eqb (fd_Type f) "checkbox" then match v with JBool _ => true | _ => false end
  else match v with
       | JStr text =>
           (rune_count text <=? 20000) &&
           (negb (String.eqb (fd_Type f) "select" && negb (empty text)) || one_of text (fd_Options f))
       | _ => false
       end.

(** [json.Unmarshal] into a map. *)
Definition decode_map (v : json) : option object := match v with JObj o => Some o | JNull => Some [] | _ => None end.

Definition validateRoadmapFieldValues (size : Z) (r : raw) (fields : list FieldDefinition) : bool :=
  match r with
  | RNil => true
  | _ =>
      (size <=? 65536) &&
      match unmarshal r ≫= decode_map with
      | Some values => forallb (λ kv : string * json, match by_id fields !! kv.1 with Some f => value_ok f kv.2 | None => false end) values
      | None => false
      end
  end.

(** ** Types of values

    What a later version of a schema keeps: the Go type behind a value, without the
    options of a selection. *)
Definition value_typed (f : FieldDefinition) (v : json) : bool :=
  if String.eqb (fd_Type f) "number" then match v with JNum _ => true | _ => false end
  else if String.eqb (fd_Type f) "checkbox" then match v with JBool _ => true | _ => false end
  else match v with JStr text => rune_count text <=? 20000 | _ => false end.

Definition values_typed (r : raw) (fields : list FieldDefinition) : bool :=
  match unmarshal r ≫= decode_map with
  | Some values => forallb (λ kv : string * json, match by_id fields !! kv.1 with Some f => value_typed f kv.2 | None => false end) values
  | None => false
  end.

Lemma value_ok_typed f v : value_ok f v = true → value_typed f v = true.
Proof. unfold value_ok, value_typed. repeat case_if; try done. destruct v; try done. intros H. by apply andb_true_iff in H as [H _]. Qed.

Lemma values_ok_typed size r fields : r ≠ RNil → validateRoadmapFieldValues size r fields = true → values_typed r fields = true.
Proof.
  unfold validateRoadmapFieldValues, values_typed. intros Hr H. destruct r as [| |v]; [done| |]; simpl in *; apply andb_true_iff in H as [_ H]; [done|].
  destruct (decode_map v) as [values|]; [|done]. rewrite forallb_forall in H |- *. intros kv Hkv. specialize (H kv Hkv).
  destruct (by_id fields !! kv.1); [|done]. by apply value_ok_typed.
Qed.

Lemma value_typed_type f g v : fd_Type f = fd_Type g → value_typed f v = value_typed g v.
Proof. unfold value_typed. by intros ->. Qed.

Lemma by_id_in fields id f : by_id fields !! id = Some f → f ∈ fields ∧ fd_ID f = id.
Proof.
  unfold by_id. assert (∀ m : gmap string FieldDefinition, foldl (λ (m : gmap string FieldDefinition) f, <[fd_ID f := f]> m) m fields !! id = Some f → (f ∈ fields ∧ fd_ID f = id) ∨ m !! id = Some f) as H.
  { induction fields as [|g fields IH]; intros m H; simpl in H; [by right|].
    apply IH in H as [[H1 H2]|H]; [left; split; [by right|done]|].
    apply lookup_insert_Some in H as [[H1 ->]|[_ H]]; [left; split; [by left|done]|by right]. }
  intros Hf. by destruct (H _ Hf) as [|H0]; [|rewrite lookup_empty in H0].
Qed.

(** Values keep their types when the schema they were stored under is replaced. *)
Lemma update_keeps_types previous next r : validRoadmapDefinitionUpdate previous next = true → values_typed r previous = true →
  values_typed r next = true.
Proof.
  unfold validRoadmapDefinitionUpdate, values_typed. intros [H1 H2]%andb_true_iff. destruct (_ ≫= _) as [values|]; [|done].
  intros H. rewrite forallb_forall in H1. rewrite forallb_forall in H2. rewrite forallb_forall in H. apply forallb_forall. intros kv Hkv. specialize (H kv Hkv).
  destruct (by_id previous !! kv.1) as [f|] eqn:Hf; [|done].
  specialize (H2 (kv.1, f)). rewrite <- list_elem_of_In, elem_of_map_to_list in H2. specialize (H2 Hf). apply bool_decide_eq_true in H2 as [g Hg]. simpl in Hg. rewrite Hg.
  apply by_id_in in Hg as Hin. destruct Hin as [Hin Hid]. specialize (H1 g). rewrite <- list_elem_of_In in H1. specialize (H1 Hin). rewrite Hid, Hf in H1.
  apply String.eqb_eq in H1. by rewrite <- (value_typed_type f g).
Qed.
