(* ===== verification/Roadmap.v ===== *)
(** * Roadmaps

    [space_roadmaps.go], [space_roadmap_mutations.go], [space_roadmap_nodes.go],
    [space_roadmap_goal_tasks.go] and [space_roadmap_edge_deletion.go] of
    [internal/platform/postgres].

    Every change of a roadmap names the version of its graph that the caller saw and
    goes through [roadmapMutationTx].  [newID] is a fresh identifier, [now] the
    server's clock.  [jsonb_size] is the length of a stored document when it is read
    back; [size] that of a document as it was sent.  Listings are unordered. *)
From S2P Require Import Prelude Tx GoStrings Json RunStore Contracts SpaceApps Spaces Planner Board RoadmapFields.

(** ** Edges and cycles *)

Definition causalRoadmapEdge (edgeType : string) : bool := one_of edgeType ["depends_on"; "dependency"; "blocks"; "enables"]%string.

(** The targets of a node, in the order they were appended. *)
Definition targets_of (graph : list (string * string)) (source : string) : list string :=
  snd <$> filter (λ e, e.1 = source) graph.

(** The depth-first search with an explicit stack, whose top is the head here;
    [None] is out of fuel. *)
Fixpoint search (fuel : nat) (graph : list (string * string)) (goal : string) (seen : gset string) (stack : list string) : option bool :=
  match fuel, stack with
  | O, _ => None
  | Datatypes.S _, [] => Some false
  | Datatypes.S fuel, current :: stack =>
      if String.eqb current goal then Some true
      else if bool_decide (current ∈ seen) then search fuel graph goal seen stack
      else search fuel graph goal ({[current]} ∪ seen) (rev (targets_of graph current) ++ stack)
  end.

(** Each edge is followed once, so these steps are enough. *)
Definition search_fuel (graph : list (string * string)) : nat := (2 + length graph)%nat.

(** Whether an edge from [sourceID] to [targetID] closes a cycle with [edges]. *)
Definition would_cycle (edges : list (string * string)) (sourceID targetID : string) : bool :=
  let graph := (sourceID, targetID) :: edges in
  default true (search (search_fuel graph) graph sourceID ∅ [targetID]).

Definition goal_id (explicit legacy : string) : string := or_else explicit legacy.

(** An edge as [TestingRoadmapDependencyWouldCycle] gets it, with its goal ids. *)
Definition ListedEdge : Type := (RoadmapEdge * string * string)%type.

Definition TestingRoadmapDependencyWouldCycle (edges : list ListedEdge) (sourceID targetID : string) : bool :=
  would_cycle ((λ e : ListedEdge, (goal_id (ep_ID (eg_Source e.1.1)) e.1.2, goal_id (ep_ID (eg_Target e.1.1)) e.2)) <$>
    filter (λ e : ListedEdge, causalRoadmapEdge (eg_Type e.1.1) = true) edges) sourceID targetID.

(** The causal edges between goals of a roadmap, but for one edge. *)
Definition causal_goal_edge (roadmapID : string) (e : RoadmapEdge) : bool :=
  String.eqb (eg_RoadmapID e) roadmapID && String.eqb (ep_Kind (eg_Source e)) "goal" && String.eqb (ep_Kind (eg_Target e)) "goal" &&
  causalRoadmapEdge (eg_Type e).

Definition causal_edges (m : Maps) (roadmapID excludedEdgeID : string) : list (string * string) :=
  (λ kv : string * RoadmapEdge, (ep_ID (eg_Source kv.2), ep_ID (eg_Target kv.2))) <$>
    filter (λ kv, causal_goal_edge roadmapID kv.2 && negb (String.eqb kv.1 excludedEdgeID) = true) (map_to_list (mp_Edges m)).

Definition roadmapDependencyWouldCycleTx (m : Maps) (roadmapID excludedEdgeID sourceID targetID : string) : bool :=
  would_cycle (causal_edges m roadmapID excludedEdgeID) sourceID targetID.

(** ** Mutations *)

Definition live_roadmap (m : Maps) (spaceID roadmapID : string) : option SpaceRoadmap :=
  r ← mp_Roadmaps m !! roadmapID; guard (rm_SpaceID r = spaceID ∧ rm_Archived r = false);; Some r.

Definition set_version (version : Z) (r : SpaceRoadmap) : SpaceRoadmap :=
  mkRoadmap (rm_SpaceID r) (rm_Name r) (rm_Description r) version (rm_CreatedBy r) (rm_AudienceKind r) (rm_AudienceConversationID r) (rm_Archived r).

Definition change_maps (f : Maps → Maps) : P () := modify (on_maps f).
Definition change_roadmap (roadmapID : string) (f : SpaceRoadmap → SpaceRoadmap) : P () := change_maps (upd_roadmaps (alter f roadmapID)).

Definition bumpSpaceRoadmapVersionTx (spaceID roadmapID : string) (expected : Z) : P Z :=
  guard_tx (1 <=? expected) (RunErr ErrSpaceInvalid);;
  p ← get;
  r ← require (live_roadmap (pn_Maps p) spaceID roadmapID) (RunErr ErrSpaceNotFound);
  guard_tx (rm_GraphVersion r =? expected) (RunErr ErrSpaceConflict);;
  change_roadmap roadmapID (set_version (expected + 1));;
  mret (expected + 1).

Definition roadmapMutationTx {A} (userID spaceID roadmapID : string) (expected : Z) (mutate : P A) : P (A * Z) :=
  reading (requireSpacePermissionTx userID spaceID PermissionTasksManage);;
  p ← get;
  guard_tx (roadmap_visible p userID spaceID roadmapID) (RunErr ErrSpaceNotFound);;
  version ← bumpSpaceRoadmapVersionTx spaceID roadmapID expected;
  x ← mutate;
  mret (x, version).

Definition validRoadmapText (value : string) (maximum : Z) : bool :=
  let n := rune_count (TrimSpace value) in (0 <? n) && (n <=? maximum).

Definition validRoadmapPosition (x : number) : bool := negb (below 10000000 x) && negb (above (-10000000) x).

Definition within_size (low high : Z) (x : number) : bool := negb (above low x) && negb (below high x).
Definition valid_size (width height : number) : bool := within_size 280 2400 width && within_size 220 2400 height.

(** ** Roadmaps *)

Definition set_texts (name description : string) (r : SpaceRoadmap) : SpaceRoadmap :=
  mkRoadmap (rm_SpaceID r) name description (rm_GraphVersion r) (rm_CreatedBy r) (rm_AudienceKind r) (rm_AudienceConversationID r) (rm_Archived r).
Definition set_archived (r : SpaceRoadmap) : SpaceRoadmap :=
  mkRoadmap (rm_SpaceID r) (rm_Name r) (rm_Description r) (rm_GraphVersion r) (rm_CreatedBy r) (rm_AudienceKind r) (rm_AudienceConversationID r) true.

Definition CreateSpaceRoadmapWithAudience (newID newMilestoneID userID spaceID name description : string) (audience : Audience) : P string :=
  let name := TrimSpace name in
  let description := TrimSpace description in
  guard_tx (negb (empty name || (160 <? rune_count name) || (5000 <? rune_count description))) (RunErr ErrSpaceInvalid);;
  reading (requireSpacePermissionTx userID spaceID PermissionTasksManage);;
  normalized ← require (NormalizeResourceAudience (ad_Kind audience) (ad_Conversation audience)) (RunErr ErrSpaceInvalid);
  validateResourceAudienceTx userID spaceID normalized;;
  p ← get;
  let roadmapID := "roadmap_" +:+ newID in
  let milestoneID := "milestone_" +:+ newMilestoneID in
  guard_tx (bool_decide (mp_Roadmaps (pn_Maps p) !! roadmapID = None)) (ErrSQL "space_roadmaps_pkey");;
  guard_tx (bool_decide (mp_Milestones (pn_Maps p) !! milestoneID = None)) (ErrSQL "space_roadmap_milestones_pkey");;
  change_maps (upd_roadmaps (<[roadmapID := mkRoadmap spaceID name description 1 userID (ad_Kind normalized) (ad_Conversation normalized) false]>));;
  change_maps (upd_milestones (<[milestoneID := mkMilestone spaceID roadmapID "First milestone" "" None 1024 (NInt 80) (NInt 80) (NInt 440) (NInt 360) 1 false]>));;
  mret roadmapID.

Definition UpdateSpaceRoadmap (userID spaceID roadmapID name description : string) (expected : Z) : P ((() * Z)) :=
  let name := TrimSpace name in
  let description := TrimSpace description in
  guard_tx (validRoadmapText name 160 && (rune_count description <=? 5000)) (RunErr ErrSpaceInvalid);;
  roadmapMutationTx userID spaceID roadmapID expected (change_roadmap roadmapID (set_texts name description)).

Definition ArchiveSpaceRoadmap (userID spaceID roadmapID : string) (expected : Z) : P (() * Z) :=
  roadmapMutationTx userID spaceID roadmapID expected (change_roadmap roadmapID set_archived).

(** ** Milestones *)

Definition live_milestone (m : Maps) (spaceID roadmapID milestoneID : string) : option Milestone :=
  x ← mp_Milestones m !! milestoneID; guard (ms_RoadmapID x = roadmapID ∧ ms_SpaceID x = spaceID ∧ ms_Archived x = false);; Some x.

(** [COALESCE(MAX(rank),0)+1024] over the rows chosen. *)
Definition rank_of_new {A} (rows : gmap string A) (chosen : A → bool) (rank : A → Z) : P Z :=
  bigint (map_fold (λ _ x acc, if chosen x then Z.max (rank x) acc else acc) 0 rows + 1024).

Definition or_default (n : Z) (x : number) : number := match x with NInt 0 => NInt n | _ => x end.

(** The item's other fields are not read. *)
Definition CreateSpaceRoadmapMilestone (newID userID spaceID roadmapID : string) (item : Milestone) (expected : Z) : P (string * Z) :=
  let title := TrimSpace (ms_Title item) in
  let description := TrimSpace (ms_Description item) in
  guard_tx (validRoadmapText title 200 && (rune_count description <=? 10000) && validRoadmapPosition (ms_X item) && validRoadmapPosition (ms_Y item))
    (RunErr ErrSpaceInvalid);;
  let width := or_default 440 (ms_Width item) in
  let height := or_default 360 (ms_Height item) in
  guard_tx (valid_size width height) (RunErr ErrSpaceInvalid);;
  let id := "milestone_" +:+ newID in
  roadmapMutationTx userID spaceID roadmapID expected (
    p ← get;
    rank ← rank_of_new (mp_Milestones (pn_Maps p)) (λ x, String.eqb (ms_RoadmapID x) roadmapID && negb (ms_Archived x)) ms_Rank;
    guard_tx (bool_decide (mp_Milestones (pn_Maps p) !! id = None)) (ErrSQL "space_roadmap_milestones_pkey");;
    change_maps (upd_milestones (<[id := mkMilestone spaceID roadmapID title description (ms_TargetDate item) rank (ms_X item) (ms_Y item) width height 1 false]>));;
    mret id).

Definition UpdateSpaceRoadmapMilestone (userID spaceID roadmapID milestoneID : string) (item : Milestone) (expected : Z) : P (() * Z) :=
  let title := TrimSpace (ms_Title item) in
  let description := TrimSpace (ms_Description item) in
  guard_tx (validRoadmapText title 200 && (rune_count description <=? 10000)) (RunErr ErrSpaceInvalid);;
  roadmapMutationTx userID spaceID roadmapID expected (
    p ← get;
    x ← require (live_milestone (pn_Maps p) spaceID roadmapID milestoneID) (RunErr ErrSpaceNotFound);
    change_maps (upd_milestones (<[milestoneID := mkMilestone spaceID roadmapID title description (ms_TargetDate item)
      (if 0 <? ms_Rank item then ms_Rank item else ms_Rank x) (ms_X x) (ms_Y x) (ms_Width x) (ms_Height x) (ms_Version x + 1) false]>))).

Definition archive_milestone (x : Milestone) : Milestone :=
  mkMilestone (ms_SpaceID x) (ms_RoadmapID x) (ms_Title x) (ms_Description x) (ms_TargetDate x) (ms_Rank x) (ms_X x) (ms_Y x) (ms_Width x)
    (ms_Height x) (ms_Version x + 1) true.
Definition archive_goal (g : Goal) : Goal :=
  mkGoal (gl_SpaceID g) (gl_RoadmapID g) (gl_MilestoneID g) (gl_Title g) (gl_Description g) (gl_TargetDate g) (gl_Rank g) (gl_X g) (gl_Y g)
    (gl_ManualCompletedAt g) (gl_ManualCompletedBy g) (gl_Version g + 1) true.
Definition archive_node (n : RoadmapNode) : RoadmapNode :=
  mkNode (rn_SpaceID n) (rn_RoadmapID n) (rn_MilestoneID n) (rn_DefinitionID n) (rn_Kind n) (rn_Title n) (rn_Description n) (rn_TargetDate n)
    (rn_X n) (rn_Y n) (rn_Values n) (rn_Version n + 1) true.

Definition is_endpoint (kind id : string) (e : Endpoint) : bool := String.eqb (ep_Kind e) kind && String.eqb (ep_ID e) id.

(** The edges of the roadmap that touch neither endpoint chosen stay. *)
Definition drop_edges (roadmapID : string) (chosen : Endpoint → bool) (m : Maps) : Maps :=
  upd_edges (filter (λ kv : string * RoadmapEdge,
    negb (String.eqb (eg_RoadmapID kv.2) roadmapID && (chosen (eg_Source kv.2) || chosen (eg_Target kv.2))) = true)) m.

(** The milestone, or a node in it. *)
Definition of_milestone (m : Maps) (milestoneID : string) (e : Endpoint) : bool :=
  is_endpoint "milestone" milestoneID e ||
  String.eqb (ep_Kind e) "node" && match mp_Nodes m !! ep_ID e with Some n => String.eqb (rn_MilestoneID n) milestoneID | None => false end.

Definition ArchiveSpaceRoadmapMilestone (userID spaceID roadmapID milestoneID : string) (expected : Z) : P (() * Z) :=
  roadmapMutationTx userID spaceID roadmapID expected (
    p ← get;
    require (live_milestone (pn_Maps p) spaceID roadmapID milestoneID) (RunErr ErrSpaceNotFound);;
    change_maps (upd_milestones (alter archive_milestone milestoneID));;
    change_maps (upd_goals (fmap (λ g, if String.eqb (gl_MilestoneID g) milestoneID && negb (gl_Archived g) then archive_goal g else g)));;
    change_maps (upd_nodes (fmap (λ n, if String.eqb (rn_MilestoneID n) milestoneID && negb (rn_Archived n) then archive_node n else n)));;
    change_maps (λ m, drop_edges roadmapID (of_milestone m milestoneID) m)).

(** ** Goals *)

Definition live_goal (m : Maps) (spaceID roadmapID goalID : string) : option Goal :=
  g ← mp_Goals m !! goalID; guard (gl_RoadmapID g = roadmapID ∧ gl_SpaceID g = spaceID ∧ gl_Archived g = false);; Some g.

Definition CreateSpaceRoadmapGoal (newID userID spaceID roadmapID : string) (item : Goal) (expected : Z) : P (string * Z) :=
  let title := TrimSpace (gl_Title item) in
  let description := TrimSpace (gl_Description item) in
  guard_tx (validRoadmapText title 240 && (rune_count description <=? 20000) && negb (empty (gl_MilestoneID item)) &&
    validRoadmapPosition (gl_X item) && validRoadmapPosition (gl_Y item)) (RunErr ErrSpaceInvalid);;
  let id := "goal_" +:+ newID in
  roadmapMutationTx userID spaceID roadmapID expected (
    p ← get;
    rank ← rank_of_new (mp_Goals (pn_Maps p)) (λ g, String.eqb (gl_MilestoneID g) (gl_MilestoneID item) && negb (gl_Archived g)) gl_Rank;
    require (live_milestone (pn_Maps p) spaceID roadmapID (gl_MilestoneID item)) (RunErr ErrSpaceNotFound);;
    guard_tx (bool_decide (mp_Goals (pn_Maps p) !! id = None)) (ErrSQL "space_roadmap_goals_pkey");;
    change_maps (upd_goals (<[id := mkGoal spaceID roadmapID (gl_MilestoneID item) title description (gl_TargetDate item) rank
      (gl_X item) (gl_Y item) None "" 1 false]>));;
    mret id).

(** A goal waits for these tasks. *)
Definition counts_for (p : Planner) (goalID taskID : string) : bool :=
  match bd_Tasks (pn_Board p) !! taskID with
  | Some t => bool_decide (is_Some (mp_GoalTasks (pn_Maps p) !! (goalID, taskID))) && counts t
  | None => false
  end.

Definition has_active_task (p : Planner) (goalID : string) : bool :=
  existsb (λ kv : string * SpaceTask, counts_for p goalID kv.1) (map_to_list (bd_Tasks (pn_Board p))).

(** The completion a client submits: what it asks for, or what its item says. *)
Definition submitted_completion (item : Goal) (userID : string) (completeManually : option bool) (now : Z) : option Z * string :=
  match completeManually with
  | Some true => (Some now, userID)
  | Some false => (None, ""%string)
  | None => (gl_ManualCompletedAt item, gl_ManualCompletedBy item)
  end.

Definition UpdateSpaceRoadmapGoal (userID spaceID roadmapID goalID : string) (item : Goal) (completeManually : option bool) (expected now : Z)
    : P (() * Z) :=
  let title := TrimSpace (gl_Title item) in
  let description := TrimSpace (gl_Description item) in
  guard_tx (validRoadmapText title 240 && (rune_count description <=? 20000) && negb (empty (gl_MilestoneID item))) (RunErr ErrSpaceInvalid);;
  roadmapMutationTx userID spaceID roadmapID expected (
    p ← get;
    when (bool_decide (completeManually = Some true)) (guard_tx (negb (has_active_task p goalID)) (RunErr ErrSpaceInvalid));;
    let manual := submitted_completion item userID completeManually now in
    require (live_milestone (pn_Maps p) spaceID roadmapID (gl_MilestoneID item)) (RunErr ErrSpaceNotFound);;
    g ← require (live_goal (pn_Maps p) spaceID roadmapID goalID) (RunErr ErrSpaceNotFound);
    guard_tx (Bool.eqb (bool_decide (manual.1 = None)) (empty manual.2)) (ErrSQL "space_roadmap_goals_check");;
    change_maps (upd_goals (<[goalID := mkGoal spaceID roadmapID (gl_MilestoneID item) title description (gl_TargetDate item)
      (if 0 <? gl_Rank item then gl_Rank item else gl_Rank g) (gl_X g) (gl_Y g) manual.1 manual.2 (gl_Version g + 1) false]>))).

Definition ArchiveSpaceRoadmapGoal (userID spaceID roadmapID goalID : string) (expected : Z) : P (() * Z) :=
  roadmapMutationTx userID spaceID roadmapID expected (
    p ← get;
    require (live_goal (pn_Maps p) spaceID roadmapID goalID) (RunErr ErrSpaceNotFound);;
    change_maps (upd_goals (alter archive_goal goalID))).

(** Trimmed, sorted and without repetition; the order only decides that of the
    insertions. *)
Definition sortedUniqueStrings (values : list string) : option (list string) :=
  let values := TrimSpace <$> values in
  if forallb (λ v, negb (empty v)) values && unique values then Some (merge_sort String.le values) else None.

Definition live_task (p : Planner) (spaceID taskID : string) : bool :=
  match bd_Tasks (pn_Board p) !! taskID with
  | Some t => String.eqb (tk_SpaceID t) spaceID && bool_decide (tk_ArchivedAt t = None) | None => false end.

Definition ReplaceSpaceRoadmapGoalTasks (userID spaceID roadmapID goalID : string) (taskIDs : list string) (expected : Z) : P (() * Z) :=
  taskIDs ← require (sortedUniqueStrings taskIDs) (RunErr ErrSpaceInvalid);
  guard_tx (len taskIDs <=? 100) (RunErr ErrSpaceInvalid);;
  roadmapMutationTx userID spaceID roadmapID expected (
    p ← get;
    require (live_goal (pn_Maps p) spaceID roadmapID goalID) (RunErr ErrSpaceNotFound);;
    guard_tx (forallb (live_task p spaceID) taskIDs) (RunErr ErrSpaceInvalid);;
    change_maps (upd_goal_tasks (filter (λ kv : (string * string) * string, kv.1.1 ≠ goalID)));;
    change_maps (upd_goal_tasks (λ m, foldl (λ m task, <[(goalID, task) := userID]> m) m taskIDs));;
    when (negb (len taskIDs =? 0)) (change_maps (upd_goals (alter reopened goalID)))).

(** ** Edges *)

(** What the snapshot calls the type of an endpoint. *)
Definition roadmapEndpointExistsTx (m : Maps) (spaceID roadmapID : string) (e : Endpoint) : option string :=
  if String.eqb (ep_Kind e) "milestone" then (λ _, "milestone"%string) <$> live_milestone m spaceID roadmapID (ep_ID e)
  else if String.eqb (ep_Kind e) "goal" then (λ _, "goal"%string) <$> live_goal m spaceID roadmapID (ep_ID e)
  else if String.eqb (ep_Kind e) "node" then
    n ← mp_Nodes m !! ep_ID e; guard (rn_RoadmapID n = roadmapID ∧ rn_SpaceID n = spaceID ∧ rn_Archived n = false);; Some (rn_Kind n)
  else None.

Definition validRoadmapEdge (edgeType : string) (source target : Endpoint) (sourceType targetType : string) : bool :=
  let is_goal (e : Endpoint) := String.eqb (ep_Kind e) "goal" in
  let achievable := is_goal target || String.eqb (ep_Kind target) "milestone" in
  (if String.eqb edgeType "depends_on" then is_goal source && is_goal target
   else if String.eqb edgeType "blocks" then (is_goal source || String.eqb sourceType "risk") && achievable
   else if String.eqb edgeType "enables" then (is_goal source || String.eqb sourceType "decision") && achievable
   else if String.eqb edgeType "contributes_to" then String.eqb (ep_Kind source) "node" && achievable
   else if String.eqb edgeType "measures" then String.eqb sourceType "metric" && achievable
   else if String.eqb edgeType "documents" then String.eqb sourceType "note"
   else String.eqb edgeType "related") && negb (empty targetType).

Definition validateRoadmapEdgeTx (spaceID roadmapID edgeType : string) (source target : Endpoint) : P () :=
  p ← get;
  sourceType ← require (roadmapEndpointExistsTx (pn_Maps p) spaceID roadmapID source) (RunErr ErrSpaceNotFound);
  targetType ← require (roadmapEndpointExistsTx (pn_Maps p) spaceID roadmapID target) (RunErr ErrSpaceNotFound);
  guard_tx (validRoadmapEdge edgeType source target sourceType targetType) (RunErr ErrSpaceInvalid).

(** The unique index on roadmap, endpoints and type. *)
Definition edge_used (m : Maps) (id : string) (e : RoadmapEdge) : bool :=
  existsb (λ kv : string * RoadmapEdge, negb (String.eqb kv.1 id) && String.eqb (eg_RoadmapID kv.2) (eg_RoadmapID e) &&
    bool_decide (eg_Source kv.2 = eg_Source e) && bool_decide (eg_Target kv.2 = eg_Target e) && String.eqb (eg_Type kv.2) (eg_Type e))
    (map_to_list (mp_Edges m)).

Definition put_edge (id : string) (e : RoadmapEdge) : P () :=
  p ← get;
  guard_tx (negb (edge_used (pn_Maps p) id e)) (ErrSQL "space_roadmap_edges_endpoint_unique_idx");;
  change_maps (upd_edges (<[id := e]>)).

(** A goal named by the older field. *)
Definition or_goal (e : Endpoint) (goalID : string) : Endpoint :=
  if empty (ep_ID e) && negb (empty goalID) then mkEndpoint "goal" goalID else e.

(** [id] is empty for a new edge. *)
Definition SaveSpaceRoadmapEdge (newID userID spaceID roadmapID id : string) (item : RoadmapEdge) (sourceGoalID targetGoalID : string) (expected : Z)
    : P (string * Z) :=
  let edgeType := TrimSpace (eg_Type item) in
  let label := TrimSpace (eg_Label item) in
  let edgeType := if String.eqb edgeType "dependency" then "depends_on"%string else edgeType in
  let source := or_goal (eg_Source item) sourceGoalID in
  let target := or_goal (eg_Target item) targetGoalID in
  guard_tx (negb (empty (ep_ID source) || empty (ep_ID target) || bool_decide (source = target) || (120 <? rune_count label)))
    (RunErr ErrSpaceInvalid);;
  let creating := empty id in
  let id := if creating then "edge_" +:+ newID else id in
  roadmapMutationTx userID spaceID roadmapID expected (
    validateRoadmapEdgeTx spaceID roadmapID edgeType source target;;
    p ← get;
    when (causalRoadmapEdge edgeType && String.eqb (ep_Kind source) "goal" && String.eqb (ep_Kind target) "goal")
      (guard_tx (negb (roadmapDependencyWouldCycleTx (pn_Maps p) roadmapID id (ep_ID source) (ep_ID target))) (RunErr ErrSpaceInvalid));;
    let row version := mkEdge spaceID roadmapID source target edgeType label version in
    (if creating then
       guard_tx (bool_decide (mp_Edges (pn_Maps p) !! id = None)) (ErrSQL "space_roadmap_edges_pkey");;
       put_edge id (row 1)
     else
       e ← require (mp_Edges (pn_Maps p) !! id) (RunErr ErrSpaceNotFound);
       guard_tx (String.eqb (eg_RoadmapID e) roadmapID && String.eqb (eg_SpaceID e) spaceID) (RunErr ErrSpaceNotFound);;
       put_edge id (row (eg_Version e + 1)));;
    mret id).

Definition DeleteSpaceRoadmapEdge (userID spaceID roadmapID edgeID : string) (expected : Z) : P (() * Z) :=
  roadmapMutationTx userID spaceID roadmapID expected (
    p ← get;
    e ← require (mp_Edges (pn_Maps p) !! edgeID) (RunErr ErrSpaceNotFound);
    guard_tx (String.eqb (eg_RoadmapID e) roadmapID && String.eqb (eg_SpaceID e) spaceID) (RunErr ErrSpaceNotFound);;
    change_maps (upd_edges (delete edgeID))).

(** ** Layout *)

(** An item of a layout: what it places, where, and in which milestone. *)
Record Placement := mkPlacement { lp_ID : string; lp_MilestoneID : string; lp_X : number; lp_Y : number; lp_Width : number; lp_Height : number }.

Record SpaceRoadmapLayout := mkLayout { ly_Milestones : list Placement; ly_Goals : list Placement; ly_Nodes : list Placement }.

Definition position_ok (x : Placement) : bool := negb (empty (lp_ID x)) && validRoadmapPosition (lp_X x) && validRoadmapPosition (lp_Y x).

Definition place_milestone (spaceID roadmapID : string) (x : Placement) : P () :=
  p ← get;
  require (live_milestone (pn_Maps p) spaceID roadmapID (lp_ID x)) (RunErr ErrSpaceNotFound);;
  change_maps (upd_milestones (alter (λ m, mkMilestone (ms_SpaceID m) (ms_RoadmapID m) (ms_Title m) (ms_Description m) (ms_TargetDate m) (ms_Rank m)
    (lp_X x) (lp_Y x) (lp_Width x) (lp_Height x) (ms_Version m + 1) (ms_Archived m)) (lp_ID x))).

(** The milestone is found by its roadmap only. *)
Definition milestone_of_roadmap (m : Maps) (roadmapID milestoneID : string) : bool :=
  match mp_Milestones m !! milestoneID with Some x => String.eqb (ms_RoadmapID x) roadmapID && negb (ms_Archived x) | None => false end.

Definition place_goal (spaceID roadmapID : string) (x : Placement) : P () :=
  p ← get;
  require (live_goal (pn_Maps p) spaceID roadmapID (lp_ID x)) (RunErr ErrSpaceNotFound);;
  guard_tx (milestone_of_roadmap (pn_Maps p) roadmapID (lp_MilestoneID x)) (RunErr ErrSpaceNotFound);;
  change_maps (upd_goals (alter (λ g, mkGoal (gl_SpaceID g) (gl_RoadmapID g) (lp_MilestoneID x) (gl_Title g) (gl_Description g) (gl_TargetDate g)
    (gl_Rank g) (lp_X x) (lp_Y x) (gl_ManualCompletedAt g) (gl_ManualCompletedBy g) (gl_Version g + 1) (gl_Archived g)) (lp_ID x))).

Definition live_node (m : Maps) (spaceID roadmapID nodeID : string) : option RoadmapNode :=
  n ← mp_Nodes m !! nodeID; guard (rn_RoadmapID n = roadmapID ∧ rn_SpaceID n = spaceID ∧ rn_Archived n = false);; Some n.

Definition place_node (spaceID roadmapID : string) (x : Placement) : P () :=
  p ← get;
  require (live_node (pn_Maps p) spaceID roadmapID (lp_ID x)) (RunErr ErrSpaceNotFound);;
  guard_tx (empty (lp_MilestoneID x) || milestone_of_roadmap (pn_Maps p) roadmapID (lp_MilestoneID x)) (RunErr ErrSpaceNotFound);;
  change_maps (upd_nodes (alter (λ n, mkNode (rn_SpaceID n) (rn_RoadmapID n) (lp_MilestoneID x) (rn_DefinitionID n) (rn_Kind n) (rn_Title n)
    (rn_Description n) (rn_TargetDate n) (lp_X x) (lp_Y x) (rn_Values n) (rn_Version n + 1) (rn_Archived n)) (lp_ID x))).

Fixpoint each_item (place : Placement → P ()) (l : list Placement) : P () :=
  match l with [] => mret () | x :: l => place x;; each_item place l end.

Definition UpdateSpaceRoadmapLayout (userID spaceID roadmapID : string) (layout : SpaceRoadmapLayout) (expected : Z) : P (() * Z) :=
  guard_tx (len (ly_Milestones layout) + len (ly_Goals layout) + len (ly_Nodes layout) <=? 1000) (RunErr ErrSpaceInvalid);;
  guard_tx (forallb (λ x, position_ok x && valid_size (lp_Width x) (lp_Height x)) (ly_Milestones layout)) (RunErr ErrSpaceInvalid);;
  guard_tx (forallb (λ x, position_ok x && negb (empty (lp_MilestoneID x))) (ly_Goals layout)) (RunErr ErrSpaceInvalid);;
  guard_tx (forallb position_ok (ly_Nodes layout)) (RunErr ErrSpaceInvalid);;
  roadmapMutationTx userID spaceID roadmapID expected (
    each_item (place_milestone spaceID roadmapID) (ly_Milestones layout);;
    each_item (place_goal spaceID roadmapID) (ly_Goals layout);;
    each_item (place_node spaceID roadmapID) (ly_Nodes layout)).

(** ** Node definitions *)

Section nodes.
Context (jsonb_size : raw → Z).

Definition node_colors : list string := ["slate"; "blue"; "cyan"; "emerald"; "amber"; "orange"; "rose"; "violet"]%string.

(** The trimmed definition and its fields, if it is valid. *)
Definition normalizeRoadmapNodeDefinition (item : NodeDefinition) (size : Z) : option (NodeDefinition * list FieldDefinition) :=
  let name := TrimSpace (nd_Name item) in
  let description := TrimSpace (nd_Description item) in
  let icon := TrimSpace (nd_Icon item) in
  let color := TrimSpace (nd_Color item) in
  fields ← decodeRoadmapFieldSchema size (nd_Schema item);
  if validRoadmapText name 120 && (rune_count description <=? 2000) && negb (empty icon) && (rune_count icon <=? 80) && one_of color node_colors
  then Some (mkNodeDefinition (nd_SpaceID item) name description icon color (nd_AgendaVisible item) (nd_Schema item) (nd_Version item)
               (nd_Archived item), fields)
  else None.

Definition is_array (r : raw) : bool := match r with RJson (JArr _) => true | _ => false end.
Definition is_object (r : raw) : bool := match r with RJson (JObj _) => true | _ => false end.

Definition CreateSpaceRoadmapNodeDefinition (newID userID spaceID : string) (item : NodeDefinition) (size : Z) : P string :=
  x ← require (normalizeRoadmapNodeDefinition item size) (RunErr ErrSpaceInvalid);
  let d := x.1 in
  reading (requireSpacePermissionTx userID spaceID PermissionTasksManage);;
  let id := "roadmap_node_definition_" +:+ newID in
  p ← get;
  guard_tx (bool_decide (mp_Definitions (pn_Maps p) !! id = None)) (ErrSQL "space_roadmap_node_definitions_pkey");;
  guard_tx (is_array (nd_Schema d)) (ErrSQL "space_roadmap_node_definitions_field_schema_check");;
  change_maps (upd_definitions (<[id := mkNodeDefinition spaceID (nd_Name d) (nd_Description d) (nd_Icon d) (nd_Color d) (nd_AgendaVisible d) (nd_Schema d) 1 false]>));;
  mret id.

Definition live_definition (m : Maps) (spaceID definitionID : string) : option NodeDefinition :=
  d ← mp_Definitions m !! definitionID; guard (nd_SpaceID d = spaceID ∧ nd_Archived d = false);; Some d.

Definition UpdateSpaceRoadmapNodeDefinition (userID spaceID definitionID : string) (item : NodeDefinition) (size expected : Z) : P Z :=
  x ← require (normalizeRoadmapNodeDefinition item size) (RunErr ErrSpaceInvalid);
  let d := x.1 in
  guard_tx (1 <=? expected) (RunErr ErrSpaceInvalid);;
  reading (requireSpacePermissionTx userID spaceID PermissionTasksManage);;
  p ← get;
  old ← require (live_definition (pn_Maps p) spaceID definitionID) (RunErr ErrSpaceNotFound);
  previous ← require (decodeRoadmapFieldSchema (jsonb_size (nd_Schema old)) (nd_Schema old)) (RunErr ErrSpaceInvalid);
  guard_tx (validRoadmapDefinitionUpdate previous x.2) (RunErr ErrSpaceInvalid);;
  guard_tx (nd_Version old =? expected) (RunErr ErrSpaceConflict);;
  guard_tx (is_array (nd_Schema d)) (ErrSQL "space_roadmap_node_definitions_field_schema_check");;
  change_maps (upd_definitions (<[definitionID := mkNodeDefinition spaceID (nd_Name d) (nd_Description d) (nd_Icon d) (nd_Color d) (nd_AgendaVisible d)
    (nd_Schema d) (expected + 1) false]>));;
  mret (expected + 1).

Definition archive_definition (d : NodeDefinition) : NodeDefinition :=
  mkNodeDefinition (nd_SpaceID d) (nd_Name d) (nd_Description d) (nd_Icon d) (nd_Color d) (nd_AgendaVisible d) (nd_Schema d) (nd_Version d + 1) true.

Definition ArchiveSpaceRoadmapNodeDefinition (userID spaceID definitionID : string) (expected : Z) : P () :=
  guard_tx (1 <=? expected) (RunErr ErrSpaceInvalid);;
  reading (requireSpacePermissionTx userID spaceID PermissionTasksManage);;
  p ← get;
  d ← require (live_definition (pn_Maps p) spaceID definitionID) (RunErr ErrSpaceConflict);
  guard_tx (nd_Version d =? expected) (RunErr ErrSpaceConflict);;
  change_maps (upd_definitions (alter archive_definition definitionID)).

(** ** Nodes *)

Definition validRoadmapNodeKind (kind : string) : bool := one_of kind ["risk"; "decision"; "metric"; "note"; "custom"]%string.

(** [json.Valid] *)
Definition json_valid (r : raw) : bool := match r with RJson _ => true | _ => false end.

(** The normalized node. *)
Definition validateSpaceRoadmapNodeTx (spaceID roadmapID : string) (item : RoadmapNode) (size : Z) (allowArchivedDefinition : bool) : P RoadmapNode :=
  let kind := TrimSpace (rn_Kind item) in
  let title := TrimSpace (rn_Title item) in
  let description := TrimSpace (rn_Description item) in
  guard_tx (validRoadmapNodeKind kind && validRoadmapText title 240 && (rune_count description <=? 20000) &&
    validRoadmapPosition (rn_X item) && validRoadmapPosition (rn_Y item)) (RunErr ErrSpaceInvalid);;
  let values := match rn_Values item with RNil => RJson (JObj []) | r => r end in
  p ← get;
  guard_tx (empty (rn_MilestoneID item) || bool_decide (is_Some (live_milestone (pn_Maps p) spaceID roadmapID (rn_MilestoneID item))))
    (RunErr ErrSpaceNotFound);;
  (if String.eqb kind "custom" then
     guard_tx (negb (empty (rn_DefinitionID item))) (RunErr ErrSpaceInvalid);;
     d ← require (mp_Definitions (pn_Maps p) !! rn_DefinitionID item) (RunErr ErrSpaceNotFound);
     guard_tx (String.eqb (nd_SpaceID d) spaceID && (allowArchivedDefinition || negb (nd_Archived d))) (RunErr ErrSpaceNotFound);;
     fields ← require (decodeRoadmapFieldSchema (jsonb_size (nd_Schema d)) (nd_Schema d)) (RunErr ErrSpaceInvalid);
     guard_tx (validateRoadmapFieldValues size values fields) (RunErr ErrSpaceInvalid)
   else guard_tx (empty (rn_DefinitionID item) && (size <=? 65536) && json_valid values) (RunErr ErrSpaceInvalid));;
  mret (mkNode spaceID roadmapID (rn_MilestoneID item) (rn_DefinitionID item) kind title description (rn_TargetDate item) (rn_X item) (rn_Y item)
    values (rn_Version item) (rn_Archived item)).

Definition numbered_node (version : Z) (n : RoadmapNode) : RoadmapNode :=
  mkNode (rn_SpaceID n) (rn_RoadmapID n) (rn_MilestoneID n) (rn_DefinitionID n) (rn_Kind n) (rn_Title n) (rn_Description n) (rn_TargetDate n)
    (rn_X n) (rn_Y n) (rn_Values n) version false.

(** The columns an update sets; kind and definition stay. *)
Definition updated_node (old n : RoadmapNode) : RoadmapNode :=
  mkNode (rn_SpaceID old) (rn_RoadmapID old) (rn_MilestoneID n) (rn_DefinitionID old) (rn_Kind old) (rn_Title n) (rn_Description n)
    (rn_TargetDate n) (rn_X n) (rn_Y n) (rn_Values n) (rn_Version old + 1) (rn_Archived old).

Definition CreateSpaceRoadmapNode (newID userID spaceID roadmapID : string) (item : RoadmapNode) (size expected : Z) : P (string * Z) :=
  let id := "roadmap_node_" +:+ newID in
  roadmapMutationTx userID spaceID roadmapID expected (
    n ← validateSpaceRoadmapNodeTx spaceID roadmapID item size false;
    p ← get;
    guard_tx (bool_decide (mp_Nodes (pn_Maps p) !! id = None)) (ErrSQL "space_roadmap_nodes_pkey");;
    guard_tx (is_object (rn_Values n)) (ErrSQL "space_roadmap_nodes_field_values_check");;
    change_maps (upd_nodes (<[id := numbered_node 1 n]>));; mret id).

Definition UpdateSpaceRoadmapNode (userID spaceID roadmapID nodeID : string) (item : RoadmapNode) (size expected : Z) : P (() * Z) :=
  roadmapMutationTx userID spaceID roadmapID expected (
    p ← get;
    old ← require (live_node (pn_Maps p) spaceID roadmapID nodeID) (RunErr ErrSpaceNotFound);
    guard_tx (String.eqb (rn_Kind item) (rn_Kind old) && String.eqb (rn_DefinitionID item) (rn_DefinitionID old)) (RunErr ErrSpaceInvalid);;
    n ← validateSpaceRoadmapNodeTx spaceID roadmapID item size true;
    guard_tx (is_object (rn_Values n)) (ErrSQL "space_roadmap_nodes_field_values_check");;
    change_maps (upd_nodes (<[nodeID := updated_node old n]>))).

Definition ArchiveSpaceRoadmapNode (userID spaceID roadmapID nodeID : string) (expected : Z) : P (() * Z) :=
  roadmapMutationTx userID spaceID roadmapID expected (
    p ← get;
    require (live_node (pn_Maps p) spaceID roadmapID nodeID) (RunErr ErrSpaceNotFound);;
    change_maps (upd_nodes (alter archive_node nodeID));;
    change_maps (drop_edges roadmapID (is_endpoint "node" nodeID))).
End nodes.

(** ** The snapshot and its progress *)

Record Progress := mkProgress { pg_Total : Z; pg_Done : Z; pg_Percentage : Z; pg_Status : string }.

(** Rounded to the nearest per cent, halves up. *)
Definition percentage (done total : Z) : Z := (done * 100 + total / 2) / total.

Definition goal_progress (tasks : list SpaceTask) (manual : option Z) : Progress :=
  let counted := filter (λ t, counts t = true) tasks in
  let total := len counted in
  let done := len (filter (λ t, tk_Status t = "done"%string) counted) in
  let started := existsb (λ t, one_of (tk_Status t) ["done"; "in_progress"]%string) counted in
  if total =? 0 then
    match manual with Some _ => mkProgress 0 0 100 "done" | None => mkProgress 0 0 0 "not_started" end
  else mkProgress total done (percentage done total)
         (if done =? total then "done" else if started then "in_progress" else "not_started").

Definition finished (g : Progress) : bool := String.eqb (pg_Status g) "done".

(** Progress of a list of goals; the percentage is used for the whole roadmap only. *)
Definition goals_progress (goals : list Progress) : Progress :=
  let total := len goals in
  let done := len (filter (λ g, finished g = true) goals) in
  mkProgress total done (if 0 <? total then percentage done total else 0)
    (if (0 <? total) && (done =? total) then "done" else if 0 <? done then "in_progress" else "not_started").

Record GoalView := mkGoalView { gv_ID : string; gv_Goal : Goal; gv_Tasks : list (string * SpaceTask); gv_Progress : Progress }.

Record SpaceRoadmapSnapshot := mkSnapshot {
  sn_Roadmap : SpaceRoadmap;
  sn_Milestones : list (string * Milestone * Progress);
  sn_Goals : list GoalView;
  sn_Nodes : list (string * RoadmapNode);
  sn_Definitions : list (string * NodeDefinition);
  sn_Edges : list (string * RoadmapEdge);
  sn_Progress : Progress;
  sn_MilestonesDone : Z }.

Definition goal_tasks (p : Planner) (goalID : string) : list (string * SpaceTask) :=
  filter (λ kv : string * SpaceTask, is_Some (mp_GoalTasks (pn_Maps p) !! (goalID, kv.1))) (map_to_list (bd_Tasks (pn_Board p))).

Definition goal_view (p : Planner) (kv : string * Goal) : GoalView :=
  let tasks := goal_tasks p kv.1 in
  mkGoalView kv.1 kv.2 tasks (goal_progress (snd <$> tasks) (gl_ManualCompletedAt kv.2)).

Definition roadmapEndpointVisible (e : Endpoint) (milestones goals nodes : list string) : bool :=
  if String.eqb (ep_Kind e) "milestone" then one_of (ep_ID e) milestones
  else if String.eqb (ep_Kind e) "goal" then one_of (ep_ID e) goals
  else if String.eqb (ep_Kind e) "node" then one_of (ep_ID e) nodes else false.

Definition visible_edge (milestones goals nodes : list string) (e : RoadmapEdge) : bool :=
  roadmapEndpointVisible (eg_Source e) milestones goals nodes && roadmapEndpointVisible (eg_Target e) milestones goals nodes.

(** [loadSpaceRoadmapTx] and [calculateSpaceRoadmapProgress]. *)
Definition snapshot (p : Planner) (spaceID roadmapID : string) (r : SpaceRoadmap) : SpaceRoadmapSnapshot :=
  let m := pn_Maps p in
  let milestones := filter (λ kv : string * Milestone, is_Some (live_milestone m spaceID roadmapID kv.1)) (map_to_list (mp_Milestones m)) in
  let goals := goal_view p <$> filter (λ kv : string * Goal, is_Some (live_goal m spaceID roadmapID kv.1)) (map_to_list (mp_Goals m)) in
  let nodes := filter (λ kv : string * RoadmapNode, is_Some (live_node m spaceID roadmapID kv.1)) (map_to_list (mp_Nodes m)) in
  let definitions := filter (λ kv : string * NodeDefinition, nd_SpaceID kv.2 = spaceID ∧
    (nd_Archived kv.2 = false ∨ Exists (λ n : string * RoadmapNode, rn_DefinitionID n.2 = kv.1) nodes)) (map_to_list (mp_Definitions m)) in
  let edges := filter (λ kv : string * RoadmapEdge, eg_RoadmapID kv.2 = roadmapID ∧ eg_SpaceID kv.2 = spaceID ∧
    visible_edge milestones.*1 (gv_ID <$> goals) nodes.*1 kv.2 = true) (map_to_list (mp_Edges m)) in
  let milestone_view (kv : string * Milestone) :=
    (kv, goals_progress (gv_Progress <$> filter (λ g, gl_MilestoneID (gv_Goal g) = kv.1) goals)) in
  mkSnapshot r (milestone_view <$> milestones) goals nodes definitions edges (goals_progress (gv_Progress <$> goals))
    (len (filter (λ x, finished x.2 = true) (milestone_view <$> milestones))).

Definition LoadSpaceRoadmap (userID spaceID roadmapID : string) : P SpaceRoadmapSnapshot :=
  reading (requireSpacePermissionTx userID spaceID PermissionTasksView);;
  p ← get;
  r ← require (live_roadmap (pn_Maps p) spaceID roadmapID) (RunErr ErrSpaceNotFound);
  guard_tx (String.eqb (rm_AudienceKind r) space_audience ||
     match su_Conversations (pn_Around p) !! rm_AudienceConversationID r with
     | Some c => bool_decide (userID ∈ cv_People c) | None => false end) (RunErr ErrSpaceNotFound);;
  mret (snapshot p spaceID roadmapID r).
