(* ===== verification/PlannerOps.v ===== *)
(** * The planner's operations

    One constructor for each operation of [Board] and [Roadmap], and for what other
    parts change: the surroundings, and the runs of agents.  [reachable] are the
    states from an empty planner. *)
From S2P Require Import Prelude Tx GoStrings Json RunStore Contracts SpaceApps Spaces Planner Board RoadmapFields Roadmap.

Inductive planner_op :=
  | OpAround (a : Surroundings)
  | OpRuns (runs : gmap string TaskRun) (jobs approvals contexts : gmap string RunPart)
  | OpCreateTask (newID actor id : string) (item : SpaceTask) (dbnow : Z)
  | OpBatch (actor space : string) (items : list (string * SpaceTask))
  | OpUpdateTask (actor id : string) (item : SpaceTask) (dbnow : Z)
  | OpMoveTask (actor space task : string) (version : Z) (status before : string) (dbnow : Z)
  | OpArchiveTask (actor space task : string) (dbnow : Z)
  | OpCreateRoadmap (newID newMilestoneID user space name description : string) (audience : Audience)
  | OpUpdateRoadmap (user space roadmap name description : string) (expected : Z)
  | OpArchiveRoadmap (user space roadmap : string) (expected : Z)
  | OpCreateMilestone (newID user space roadmap : string) (item : Milestone) (expected : Z)
  | OpUpdateMilestone (user space roadmap milestone : string) (item : Milestone) (expected : Z)
  | OpArchiveMilestone (user space roadmap milestone : string) (expected : Z)
  | OpCreateGoal (newID user space roadmap : string) (item : Goal) (expected : Z)
  | OpUpdateGoal (user space roadmap goal : string) (item : Goal) (complete : option bool) (expected now : Z)
  | OpArchiveGoal (user space roadmap goal : string) (expected : Z)
  | OpGoalTasks (user space roadmap goal : string) (tasks : list string) (expected : Z)
  | OpSaveEdge (newID user space roadmap id : string) (item : RoadmapEdge) (sourceGoal targetGoal : string) (expected : Z)
  | OpDeleteEdge (user space roadmap edge : string) (expected : Z)
  | OpLayout (user space roadmap : string) (layout : SpaceRoadmapLayout) (expected : Z)
  | OpCreateDefinition (newID user space : string) (item : NodeDefinition) (size : Z)
  | OpUpdateDefinition (user space definition : string) (item : NodeDefinition) (size expected : Z)
  | OpArchiveDefinition (user space definition : string) (expected : Z)
  | OpCreateNode (newID user space roadmap : string) (item : RoadmapNode) (size expected : Z)
  | OpUpdateNode (user space roadmap node : string) (item : RoadmapNode) (size expected : Z)
  | OpArchiveNode (user space roadmap node : string) (expected : Z).

Section ops.
Context (known_zone : string → bool) (jsonb_size : raw → Z).

Definition void {A} (m : P A) : P () := m;; mret ().

Definition body (op : planner_op) : P () :=
  match op with
  | OpAround a => modify (λ p, mkPlanner a (pn_Board p) (pn_Maps p))
  | OpRuns runs jobs approvals contexts => modify (on_board (upd_runs (λ _, runs) (λ _, jobs) (λ _, approvals) (λ _, contexts)))
  | OpCreateTask newID actor id item dbnow => void (CreateSpaceTask known_zone newID actor id item dbnow)
  | OpBatch actor space items => void (CreateSpaceTaskBatch known_zone actor space items)
  | OpUpdateTask actor id item dbnow => void (UpdateSpaceTask known_zone actor id item dbnow)
  | OpMoveTask actor space task version status before dbnow => void (MoveSpaceTask actor space task version status before dbnow)
  | OpArchiveTask actor space task dbnow => void (ArchiveSpaceTask actor space task dbnow)
  | OpCreateRoadmap newID newMilestoneID user space name description audience =>
      void (CreateSpaceRoadmapWithAudience newID newMilestoneID user space name description audience)
  | OpUpdateRoadmap user space roadmap name description expected => void (UpdateSpaceRoadmap user space roadmap name description expected)
  | OpArchiveRoadmap user space roadmap expected => void (ArchiveSpaceRoadmap user space roadmap expected)
  | OpCreateMilestone newID user space roadmap item expected => void (CreateSpaceRoadmapMilestone newID user space roadmap item expected)
  | OpUpdateMilestone user space roadmap milestone item expected => void (UpdateSpaceRoadmapMilestone user space roadmap milestone item expected)
  | OpArchiveMilestone user space roadmap milestone expected => void (ArchiveSpaceRoadmapMilestone user space roadmap milestone expected)
  | OpCreateGoal newID user space roadmap item expected => void (CreateSpaceRoadmapGoal newID user space roadmap item expected)
  | OpUpdateGoal user space roadmap goal item complete expected now =>
      void (UpdateSpaceRoadmapGoal user space roadmap goal item complete expected now)
  | OpArchiveGoal user space roadmap goal expected => void (ArchiveSpaceRoadmapGoal user space roadmap goal expected)
  | OpGoalTasks user space roadmap goal tasks expected => void (ReplaceSpaceRoadmapGoalTasks user space roadmap goal tasks expected)
  | OpSaveEdge newID user space roadmap id item sourceGoal targetGoal expected =>
      void (SaveSpaceRoadmapEdge newID user space roadmap id item sourceGoal targetGoal expected)
  | OpDeleteEdge user space roadmap edge expected => void (DeleteSpaceRoadmapEdge user space roadmap edge expected)
  | OpLayout user space roadmap layout expected => void (UpdateSpaceRoadmapLayout user space roadmap layout expected)
  | OpCreateDefinition newID user space item size => void (CreateSpaceRoadmapNodeDefinition newID user space item size)
  | OpUpdateDefinition user space definition item size expected =>
      void (UpdateSpaceRoadmapNodeDefinition jsonb_size user space definition item size expected)
  | OpArchiveDefinition user space definition expected => ArchiveSpaceRoadmapNodeDefinition user space definition expected
  | OpCreateNode newID user space roadmap item size expected => void (CreateSpaceRoadmapNode jsonb_size newID user space roadmap item size expected)
  | OpUpdateNode user space roadmap node item size expected => void (UpdateSpaceRoadmapNode jsonb_size user space roadmap node item size expected)
  | OpArchiveNode user space roadmap node expected => void (ArchiveSpaceRoadmapNode user space roadmap node expected)
  end.

(** An operation that fails changes nothing. *)
Definition exec (op : planner_op) (p : Planner) : Planner := (run (body op) p).1.

(** Batches hold tasks to do, as the artifacts that become batches do. *)
Definition honest (op : planner_op) : Prop :=
  match op with OpBatch _ _ items => Forall (λ it : string * SpaceTask, or_else (tk_Status it.2) "todo" = "todo"%string) items | _ => True end.

Definition no_planner (a : Surroundings) : Planner := mkPlanner a (mkBoard ∅ ∅ ∅ ∅ ∅ ∅ []) (mkMaps ∅ ∅ ∅ ∅ ∅ ∅ ∅).

Inductive reachable : Planner → Prop :=
  | reach_start a : reachable (no_planner a)
  | reach_op op p : reachable p → honest op → reachable (exec op p).

Definition executes (ops : list planner_op) (p : Planner) : Planner := foldl (λ p op, exec op p) p ops.

Lemma op_cases op p : exec op p = p ∨ body op p = inr ((), exec op p).
Proof. unfold exec, run. destruct (body op p) as [e|[[] q]]; [by left|by right]. Qed.

Lemma reachable_executes ops p : Forall honest ops → reachable p → reachable (executes ops p).
Proof. revert p. induction ops as [|op ops IH]; intros p Hall Hp; [done|]. apply Forall_cons in Hall as [Hop Hall]. apply IH; [done|]. by constructor. Qed.
End ops.
