(* ===== verification/BoardInv.v ===== *)
(** * The order of a board

    Lemmas about columns: the largest rank, listings by rank, renumbering, and the
    place a rank gives a task. *)
From S2P Require Import Prelude Tx GoStrings Json RunStore Contracts SpaceApps Spaces Planner Board.

(** ** Sort keys *)

#[export] Instance key_le_trans : Transitive key_le.
Proof.
  intros [r1 s1] [r2 s2] [r3 s3]. unfold key_le. simpl. intros [H1|[-> H1]] [H2|[-> H2]]; [left; lia|by left|by left|right; split; [done|]].
  by transitivity s2.
Qed.
#[export] Instance key_le_total : Total key_le.
Proof.
  intros [r1 s1] [r2 s2]. unfold key_le. simpl. destruct (Z.lt_trichotomy r1 r2) as [H|[->|H]]; [by left; left| |by right; left].
  destruct (total String.le s1 s2); [left|right]; by right.
Qed.
#[export] Instance key_le_antisym : AntiSymm (=) key_le.
Proof.
  intros [r1 s1] [r2 s2]. unfold key_le. simpl. intros [H1|[-> H1]] [H2|[H2 H3]]; try lia. f_equal. by apply (anti_symm String.le).
Qed.

Lemma key_lt_le (a b : key) : a.1 < b.1 → key_le a b.
Proof. by left. Qed.

(** A sorted list falls apart at a rank that none of its keys has. *)
Lemma sorted_split (r : Z) (l : list key) : StronglySorted key_le l → Forall (λ k, k.1 ≠ r) l →
  ∃ l1 l2, l = l1 ++ l2 ∧ Forall (λ k, k.1 < r) l1 ∧ Forall (λ k, r < k.1) l2.
Proof.
  induction 1 as [|k l Hl IH Hk]; intros Hr; [by exists [], []|]. apply Forall_cons in Hr as [Hr1 Hr]. destruct (IH Hr) as (l1 & l2 & -> & H1 & H2).
  destruct (Z.lt_ge_cases k.1 r) as [H|H]; [exists (k :: l1), l2; split; [done|]; split; [by constructor|done]|].
  exists [], (k :: l1 ++ l2). split; [done|]. split; [constructor|]. constructor; [lia|]. eapply Forall_impl; [exact Hk|].
  intros k' [Hlt|[He _]]; lia.
Qed.

Lemma sorted_place (k : key) (l1 l2 : list key) : StronglySorted key_le (l1 ++ l2) → Forall (λ x, x.1 < k.1) l1 → Forall (λ x, k.1 < x.1) l2 →
  StronglySorted key_le (l1 ++ k :: l2).
Proof.
  intros H H1 H2. apply StronglySorted_app in H as (Hs1 & Hs2 & H12). apply StronglySorted_app. split; [|split; [done|]].
  - intros x1 x2 Hx1 Hx2. rewrite Forall_forall in H1. apply elem_of_cons in Hx2 as [->|Hx2]; [by apply key_lt_le, H1|by apply Hs1].
  - constructor; [done|]. eapply Forall_impl; [exact H2|]. intros x. apply key_lt_le.
Qed.

(** ** Listings *)

Section listing.
Implicit Types (chosen : string → SpaceTask → bool) (tasks : gmap string SpaceTask).

(** The task is chosen and has this rank. *)
Definition ranked chosen tasks (id : string) (r : Z) : Prop := ∃ t, tasks !! id = Some t ∧ chosen id t = true ∧ tk_Rank t = r.

Lemma elem_keys chosen tasks k : k ∈ keys chosen tasks ↔ ranked chosen tasks k.2 k.1.
Proof.
  unfold keys, ranked. rewrite list_elem_of_fmap. split.
  - intros ([id t] & -> & H). apply list_elem_of_filter in H as [H1 H2]. apply elem_of_map_to_list in H2. simpl in *. eauto.
  - intros (t & H1 & H2 & H3). exists (k.2, t). split; [destruct k; simpl in *; congruence|]. apply list_elem_of_filter. split; [done|].
    by apply elem_of_map_to_list.
Qed.

Lemma filter_nodup {A B} (Q : A * B → Prop) `{!∀ x, Decision (Q x)} (l : list (A * B)) : NoDup l.*1 → NoDup (filter Q l).*1.
Proof.
  induction l as [|kv l IH]; [done|]. rewrite fmap_cons, NoDup_cons, filter_cons. intros [Hout Hnd]. destruct (decide _); [|by apply IH].
  rewrite fmap_cons. apply NoDup_cons. split; [|by apply IH]. intros [kv' [E Hin]]%list_elem_of_fmap. apply list_elem_of_filter in Hin as [_ Hin].
  apply Hout. rewrite E. by apply list_elem_of_fmap_2.
Qed.

Lemma keys_nodup chosen tasks : NoDup (keys chosen tasks).*2.
Proof.
  unfold keys. rewrite <- list_fmap_compose. change (snd ∘ (λ kv : string * SpaceTask, (tk_Rank kv.2, kv.1))) with (@fst string SpaceTask).
  apply filter_nodup, NoDup_fst_map_to_list.
Qed.

Lemma ordered_spec chosen tasks : ∃ ks, ordered chosen tasks = ks.*2 ∧ StronglySorted key_le ks ∧ ks ≡ₚ keys chosen tasks.
Proof.
  exists (merge_sort key_le (keys chosen tasks)). split; [done|]. split; [|apply merge_sort_Permutation]. apply (StronglySorted_merge_sort key_le).
Qed.

Lemma ordered_of chosen tasks ks : StronglySorted key_le ks → NoDup ks → (∀ k, k ∈ ks ↔ ranked chosen tasks k.2 k.1) → ordered chosen tasks = ks.*2.
Proof.
  intros Hs Hn He. destruct (ordered_spec chosen tasks) as (ks' & -> & Hs' & Hp). f_equal. apply (StronglySorted_unique key_le); [done|done|].
  rewrite Hp. apply NoDup_Permutation; [eapply NoDup_fmap_1, keys_nodup|done|]. intros k. by rewrite He, elem_keys.
Qed.

Lemma elem_ordered chosen tasks id : id ∈ ordered chosen tasks ↔ ∃ t, tasks !! id = Some t ∧ chosen id t = true.
Proof.
  destruct (ordered_spec chosen tasks) as (ks & -> & _ & Hp). rewrite list_elem_of_fmap. split.
  - intros (k & -> & Hk). rewrite Hp, elem_keys in Hk. destruct Hk as (t & H1 & H2 & _). eauto.
  - intros (t & H1 & H2). exists (tk_Rank t, id). split; [done|]. rewrite Hp. apply elem_keys. exists t. eauto.
Qed.

Lemma ordered_nodup chosen tasks : NoDup (ordered chosen tasks).
Proof. destruct (ordered_spec chosen tasks) as (ks & -> & _ & Hp). rewrite Hp. apply keys_nodup. Qed.

Lemma ordered_ext chosen tasks chosen' tasks' : (∀ id r, ranked chosen tasks id r ↔ ranked chosen' tasks' id r) →
  ordered chosen tasks = ordered chosen' tasks'.
Proof.
  intros H. destruct (ordered_spec chosen' tasks') as (ks & -> & Hs & Hp). apply ordered_of; [done|rewrite Hp; eapply NoDup_fmap_1, keys_nodup|].
  intros k. by rewrite Hp, elem_keys, H.
Qed.

Lemma sorted_filter (Q : key → Prop) `{!∀ k, Decision (Q k)} (ks : list key) : StronglySorted key_le ks → StronglySorted key_le (filter Q ks).
Proof.
  induction 1 as [|k ks Hs IH Hk]; [constructor|]. rewrite filter_cons. destruct (decide _); [|done]. constructor; [done|].
  rewrite Forall_forall in Hk |- *. intros x [_ Hx]%list_elem_of_filter. by apply Hk.
Qed.

Lemma filter_snd (Q : string → Prop) `{!∀ x, Decision (Q x)} (ks : list key) : (filter (λ k : key, Q k.2) ks).*2 = filter Q ks.*2.
Proof. induction ks as [|k ks IH]; [done|]. rewrite fmap_cons, !filter_cons. destruct (decide (Q k.2)); [|done]. by rewrite fmap_cons, IH. Qed.

(** Leaving some tasks out leaves the order of the rest. *)
Lemma ordered_filter (Q : string → Prop) `{!∀ x, Decision (Q x)} chosen tasks chosen' tasks' :
  (∀ id r, ranked chosen' tasks' id r ↔ ranked chosen tasks id r ∧ Q id) → ordered chosen' tasks' = filter Q (ordered chosen tasks).
Proof.
  intros Hsame. destruct (ordered_spec chosen tasks) as (ks & -> & Hs & Hp). rewrite <- filter_snd. apply ordered_of.
  - by apply sorted_filter.
  - apply NoDup_filter. rewrite Hp. eapply NoDup_fmap_1, keys_nodup.
  - intros k. rewrite list_elem_of_filter, Hp, elem_keys, Hsame. tauto.
Qed.

(** A new rank decides the place in a listing. *)
Lemma ordered_place chosen tasks chosen' tasks' id r :
  (∀ i, ¬ ranked chosen tasks i r) → (∀ r', ¬ ranked chosen tasks id r') →
  (∀ i r', ranked chosen' tasks' i r' ↔ ranked chosen tasks i r' ∨ i = id ∧ r' = r) →
  ∃ l1 l2, ordered chosen tasks = l1 ++ l2 ∧ ordered chosen' tasks' = l1 ++ id :: l2 ∧
    (∀ i, i ∈ l1 → ∃ r', ranked chosen tasks i r' ∧ r' < r) ∧ (∀ i, i ∈ l2 → ∃ r', ranked chosen tasks i r' ∧ r < r') ∧
    (∀ i i' r1 r2, head l2 = Some i → i' ∈ l2 → ranked chosen tasks i r1 → ranked chosen tasks i' r2 → r1 <= r2).
Proof.
  intros Hr Hid Hnew. destruct (ordered_spec chosen tasks) as (ks & -> & Hs & Hp).
  assert (Hk : ∀ k, k ∈ ks ↔ ranked chosen tasks k.2 k.1) by (intros k; by rewrite Hp, elem_keys).
  destruct (sorted_split r ks Hs) as (k1 & k2 & -> & H1 & H2).
  { apply Forall_forall. intros k Hin E. apply (Hr k.2). rewrite <- E. by apply Hk. }
  rewrite Forall_forall in H1, H2. exists k1.*2, k2.*2. split_and!.
  - by rewrite fmap_app.
  - change (id :: k2.*2) with (((r, id) :: k2).*2). rewrite <- fmap_app. apply ordered_of.
    + by apply sorted_place; [|apply Forall_forall..].
    + rewrite <- Permutation_middle. apply NoDup_cons. split; [intros Hin; by apply (Hid r), (Hk (r, id))|].
      rewrite Hp. eapply NoDup_fmap_1, keys_nodup.
    + intros k. rewrite Hnew, <- Hk, !elem_of_app, elem_of_cons. destruct k as [r' i]. simpl. split; [intros [?|[[= -> ->]|?]]; tauto|].
      intros [[?|?]|[-> ->]]; tauto.
  - intros i (k & -> & Hin)%list_elem_of_fmap. exists k.1. split; [apply Hk, elem_of_app; by left|by apply H1].
  - intros i (k & -> & Hin)%list_elem_of_fmap. exists k.1. split; [apply Hk, elem_of_app; by right|by apply H2].
  - intros i i' r1 r2 Hh (k' & -> & Hin)%list_elem_of_fmap (t1 & Ht1 & _ & <-) (t2 & Ht2 & _ & <-). destruct k2 as [|k k2]; [done|].
    simpl in Hh. injection Hh as <-. apply StronglySorted_app_1_r in Hs. apply StronglySorted_cons in Hs as [Hle _]. rewrite Forall_forall in Hle.
    assert (∀ x, x ∈ k :: k2 → x ∈ k1 ++ k :: k2) as Hsub by (intros x Hx; apply elem_of_app; by right).
    assert (k ∈ k1 ++ k :: k2) as Hk0 by (apply Hsub; by left). apply Hk in Hk0 as (u & Hu & _ & Hur). rewrite Hu in Ht1. injection Ht1 as ->.
    pose proof (Hsub _ Hin) as Hk1. apply Hk in Hk1 as (u' & Hu' & _ & Hur'). rewrite Hu' in Ht2. injection Ht2 as ->.
    rewrite Hur, Hur'. apply elem_of_cons in Hin as [->|Hin]; [lia|]. destruct (Hle _ Hin) as [|[-> _]]; lia.
Qed.

(** ** The largest rank *)

Lemma max_rank_spec chosen tasks :
  (∀ id t, tasks !! id = Some t → chosen id t = true → tk_Rank t <= max_rank chosen tasks) ∧
  (max_rank chosen tasks = 0 ∨ ∃ id, ranked chosen tasks id (max_rank chosen tasks)) ∧ 0 <= max_rank chosen tasks.
Proof.
  unfold max_rank, ranked. apply (map_fold_weak_ind (λ acc (m : gmap string SpaceTask), (∀ id t, m !! id = Some t → chosen id t = true → tk_Rank t <= acc) ∧
    (acc = 0 ∨ ∃ id, ∃ t, m !! id = Some t ∧ chosen id t = true ∧ tk_Rank t = acc) ∧ 0 <= acc)).
  - split; [by intros id t; rewrite lookup_empty|]. by split; [left|].
  - intros id t m acc Hid (IH1 & IH2 & IH3). assert (∀ i x, m !! i = Some x → <[id:=t]> m !! i = Some x) as Hgrow.
    { intros i x Hx. rewrite lookup_insert_ne; [done|]. intros ->. by rewrite Hid in Hx. }
    destruct (chosen id t) eqn:Hc.
    + split; [|split; [|lia]].
      * intros i x [[-> ->]|[_ Hx]]%lookup_insert_Some Hcx; [lia|]. specialize (IH1 i x Hx Hcx). lia.
      * destruct (Z.max_spec (tk_Rank t) acc) as [[_ ->]|[_ ->]].
        -- destruct IH2 as [?|(i & x & Hx & ?)]; [by left|right]. exists i, x. split; [by apply Hgrow|done].
        -- right. exists id, t. by rewrite lookup_insert_eq.
    + split; [|split; [|done]].
      * intros i x [[-> ->]|[_ Hx]]%lookup_insert_Some Hcx; [by rewrite Hc in Hcx|]. by apply (IH1 i x).
      * destruct IH2 as [?|(i & x & Hx & ?)]; [by left|right]. exists i, x. split; [by apply Hgrow|done].
Qed.

Lemma max_rank_le chosen tasks id r : ranked chosen tasks id r → r <= max_rank chosen tasks.
Proof. intros (t & H1 & H2 & <-). by eapply (max_rank_spec chosen tasks). Qed.
End listing.

(** ** Renumbering *)

Lemma position_None id l : position id l = None ↔ id ∉ l.
Proof.
  induction l as [|x l IH]; simpl; [split; [by intros _ []%not_elem_of_nil|done]|]. rewrite not_elem_of_cons, <- IH.
  destruct (String.eqb_spec x id) as [->|Hne]; [naive_solver|]. destruct (position id l); simpl; naive_solver.
Qed.

Lemma position_bounds id l n : position id l = Some n → 0 <= n < len l.
Proof.
  revert n. induction l as [|x l IH]; intros n; simpl; [done|]. rewrite len_cons. pose proof (len_nonneg l).
  destruct (String.eqb_spec x id) as [->|Hne]; [intros [= <-]; lia|]. destruct (position id l) as [m|] eqn:E; [|done]. intros [= <-].
  specialize (IH m eq_refl). lia.
Qed.

Lemma position_inj id id' l n : position id l = Some n → position id' l = Some n → id = id'.
Proof.
  revert n. induction l as [|x l IH]; intros n; simpl; [done|].
  destruct (String.eqb_spec x id) as [E1|H1], (String.eqb_spec x id') as [E2|H2]; [congruence|..].
  - intros [= <-]. destruct (position id' l) as [m|] eqn:E; [|done]. apply position_bounds in E. intros [=]. lia.
  - destruct (position id l) as [m|] eqn:E; [|done]. apply position_bounds in E. intros [= Hn] [= <-]. lia.
  - destruct (position id l) as [m|]; [|done]. destruct (position id' l) as [m'|]; [|done]. intros [= <-] [= Hm]. apply (IH m); [done|].
    f_equal. lia.
Qed.

Lemma position_head x l : position x (x :: l) = Some 0.
Proof. simpl. by rewrite String.eqb_refl. Qed.

Fixpoint number_from (n : Z) (l : list string) : list key :=
  match l with [] => [] | id :: l => (1024 * n, id) :: number_from (n + 1) l end.

Lemma number_from_snd n l : (number_from n l).*2 = l.
Proof. revert n. induction l as [|x l IH]; intros n; [done|]. simpl. by rewrite IH. Qed.

Lemma number_from_elem l n k : NoDup l → k ∈ number_from n l ↔ ∃ m, position k.2 l = Some m ∧ k.1 = 1024 * (n + m).
Proof.
  revert n. induction l as [|x l IH]; intros n Hn; simpl; [split; [by intros []%not_elem_of_nil|by intros (?&?&?)]|].
  apply NoDup_cons in Hn as [Hx Hn]. rewrite elem_of_cons, (IH (n + 1) Hn). destruct k as [r id]. simpl.
  destruct (String.eqb_spec x id) as [->|Hne].
  - split.
    + intros [[= ->]|(m & Hm & _)]; [exists 0; split; [done|lia]|]. apply position_None in Hx. congruence.
    + intros (m & [= <-] & ->). left. f_equal; lia.
  - split.
    + intros [[= _ E]|(m & -> & ->)]; [by rewrite E in Hne|]. exists (m + 1). split; [done|lia].
    + intros (m & Hm & ->). right. destruct (position id l) as [m'|]; [|done]. injection Hm as <-. exists m'. split; [done|lia].
Qed.

Lemma number_from_sorted n l : StronglySorted key_le (number_from n l).
Proof.
  revert n. induction l as [|x l IH]; intros n; [constructor|]. simpl. constructor; [done|].
  assert (∀ m k, k ∈ number_from m l → 1024 * m <= k.1) as H.
  { clear IH. induction l as [|y l IH]; intros m k; simpl; [by intros []%not_elem_of_nil|]. intros [->|Hk]%elem_of_cons; [done|].
    specialize (IH (m + 1) k Hk). lia. }
  apply Forall_forall. intros k Hk. apply key_lt_le. simpl. specialize (H _ _ Hk). lia.
Qed.

(** The rank a listing gives. *)
Definition number_of (order : list string) (id : string) : option Z := (λ n, 1024 * (n + 1)) <$> position id order.

Lemma renumbered_lookup order tasks id : renumbered order tasks !! id =
  (λ t, match number_of order id with Some r => with_rank r t | None => t end) <$> tasks !! id.
Proof.
  unfold renumbered, number_of. rewrite map_lookup_imap. destruct (tasks !! id) as [t|]; simpl; [|done]. by destruct (position id order).
Qed.

Lemma number_of_bounds order id r : number_of order id = Some r → 1024 <= r <= 1024 * len order.
Proof. unfold number_of. destruct (position id order) as [n|] eqn:E; simpl; [|done]. intros [= <-]. apply position_bounds in E. lia. Qed.

Lemma number_of_inj order id id' r : number_of order id = Some r → number_of order id' = Some r → id = id'.
Proof.
  unfold number_of. destruct (position id order) as [n|] eqn:E, (position id' order) as [n'|] eqn:E'; simpl; try done. intros [= <-] [=].
  eapply position_inj; [exact E|]. rewrite E'. f_equal. lia.
Qed.

Lemma number_of_apart order id id' r r' : number_of order id = Some r → number_of order id' = Some r' → r < r' → r + 1024 <= r'.
Proof.
  unfold number_of. destruct (position id order) as [n|], (position id' order) as [n'|]; simpl; try done. intros [= <-] [= <-] H. lia.
Qed.

Section renumber.
Context (chosen : string → SpaceTask → bool) (Hchosen : ∀ id t r, chosen id (with_rank r t) = chosen id t) (tasks : gmap string SpaceTask).
Abbreviation order := (ordered chosen tasks).

(** In the chosen tasks the new rank is the number; the others keep theirs. *)
Lemma renumbered_ranked id r : ranked chosen (renumbered order tasks) id r ↔ number_of order id = Some r.
Proof using Hchosen.
  split.
  - intros (t & Ht & Hc & <-). rewrite renumbered_lookup in Ht. destruct (tasks !! id) as [u|] eqn:Hu; [|done]. injection Ht as <-.
    destruct (number_of order id) as [n|] eqn:En; [done|]. exfalso. unfold number_of in En. destruct (position id order) eqn:Ep; [done|].
    apply position_None in Ep. apply Ep, elem_ordered. eauto.
  - intros Hn. assert (id ∈ order) as Hin.
    { unfold number_of in Hn. destruct (position id order) eqn:E; [|done]. destruct (decide (id ∈ order)) as [|Hni]; [done|].
      apply position_None in Hni. by rewrite Hni in E. }
    apply elem_ordered in Hin as (t & Ht & Hc). exists (with_rank r t). rewrite renumbered_lookup, Ht, Hn. simpl. by rewrite Hchosen.
Qed.

Lemma renumbered_ordered : ordered chosen (renumbered order tasks) = order.
Proof using Hchosen.
  pose proof (ordered_nodup chosen tasks) as Hn. rewrite <- (number_from_snd 1 order) at 2. apply ordered_of.
  - apply number_from_sorted.
  - eapply NoDup_fmap_1. by rewrite number_from_snd.
  - intros k. rewrite (number_from_elem order 1 k Hn), renumbered_ranked. unfold number_of. split.
    + intros (m & -> & ->). simpl. f_equal. lia.
    + destruct (position k.2 order) as [m|]; [|done]. intros [= <-]. exists m. split; [done|lia].
Qed.
End renumber.

(** ** The invariant of the board *)

Definition row_ok (t : SpaceTask) : Prop :=
  tk_TaskKey t = task_key (tk_TaskNumber t) ∧ tk_Status t ∈ valid_statuses ∧ (tk_CompletedAt t = None ↔ tk_Status t ≠ "done"%string) ∧
  array_refs (tk_SourceRefs t) = true.

(** The tasks with this rank in a column. *)
Definition in_place (tasks : gmap string SpaceTask) (s st id : string) (r : Z) : Prop := ranked (λ _, in_column s st) tasks id r.

(** [skip] is a task whose place does not matter: the one being moved. *)
Record board_ok (skip : option string) (b : Board) : Prop := {
  bo_rank : ∀ id t, bd_Tasks b !! id = Some t → 1 <= tk_Rank t <= MaxInt64;
  bo_place : ∀ s st i j r, Some i ≠ skip → Some j ≠ skip → in_place (bd_Tasks b) s st i r → in_place (bd_Tasks b) s st j r → i = j;
  bo_counter : ∀ s n, bd_Counters b !! s = Some n → 0 <= n;
  bo_number : ∀ id t, bd_Tasks b !! id = Some t → 1 <= tk_TaskNumber t <= default 0 (bd_Counters b !! tk_SpaceID t);
  bo_numbers : ∀ i j t u, bd_Tasks b !! i = Some t → bd_Tasks b !! j = Some u → tk_SpaceID t = tk_SpaceID u →
    tk_TaskNumber t = tk_TaskNumber u → i = j;
  bo_row : ∀ id t, bd_Tasks b !! id = Some t → row_ok t }.

Lemma board_skip skip b : board_ok None b → board_ok skip b.
Proof. intros [H1 H2 H0 H3 H4 H5]. split; [done| |done..]. intros s st i j r _ _. by apply H2. Qed.

Lemma in_place_insert tasks id row s st i r : in_place (<[id:=row]> tasks) s st i r ↔
  i = id ∧ in_column s st row = true ∧ tk_Rank row = r ∨ i ≠ id ∧ in_place tasks s st i r.
Proof.
  unfold in_place, ranked. destruct (decide (i = id)) as [->|Hne].
  - rewrite lookup_insert_eq. split; [intros (t & [= <-] & H1 & H2); by left|]. intros [(_ & H1 & H2)|[? _]]; [|done]. by exists row.
  - rewrite lookup_insert_ne by done. split; [by right|]. by intros [[-> _]|[_ H]].
Qed.

Lemma in_column_true s st t : in_column s st t = true ↔ tk_SpaceID t = s ∧ tk_Status t = st ∧ tk_ArchivedAt t = None.
Proof. unfold in_column. rewrite !andb_true_iff, !String.eqb_eq, bool_decide_eq_true. tauto. Qed.

(** The row takes no other task's place. *)
Definition free_place (tasks : gmap string SpaceTask) (id : string) (row : SpaceTask) : Prop :=
  ∀ j, j ≠ id → in_column (tk_SpaceID row) (tk_Status row) row = true → ¬ in_place tasks (tk_SpaceID row) (tk_Status row) j (tk_Rank row).

Lemma place_insert skip tasks id row s st i j r :
  (∀ s st i j r, Some i ≠ skip → Some j ≠ skip → in_place tasks s st i r → in_place tasks s st j r → i = j) → (∀ i, i ≠ id → Some i ≠ skip) →
  free_place tasks id row → in_place (<[id:=row]> tasks) s st i r → in_place (<[id:=row]> tasks) s st j r → i = j.
Proof.
  intros Hp Hs Hf [(-> & H1 & H2)|[H1 H2]]%in_place_insert [(-> & H3 & H4)|[H3 H4]]%in_place_insert; [done|..|by apply (Hp s st i j r); auto].
  - exfalso. pose proof H1 as Hc. apply in_column_true in Hc as (<- & <- & _). rewrite <- H2 in H4. by apply (Hf j H3).
  - exfalso. pose proof H3 as Hc. apply in_column_true in Hc as (<- & <- & _). rewrite <- H4 in H2. by apply (Hf i H1).
Qed.

Lemma board_put b id t row : board_ok (Some id) b → bd_Tasks b !! id = Some t → tk_SpaceID row = tk_SpaceID t → tk_TaskNumber row = tk_TaskNumber t →
  row_ok row → 1 <= tk_Rank row <= MaxInt64 → free_place (bd_Tasks b) id row → board_ok None (upd_tasks (<[id:=row]>) b).
Proof.
  intros [H1 H2 H0 H3 H4 H5] Ht Hs Hn Hrow Hr Hf. split; simpl.
  - intros i u [[-> ->]|[_ Hu]]%lookup_insert_Some; [done|by apply (H1 i)].
  - intros s st i j r _ _. eapply place_insert; [exact H2|naive_solver|done].
  - exact H0.
  - intros i u [[-> ->]|[_ Hu]]%lookup_insert_Some; [rewrite Hs, Hn; by eapply H3|by apply (H3 i)].
  - intros i j u v [[-> ->]|[Hi Hu]]%lookup_insert_Some [[-> ->]|[Hj Hv]]%lookup_insert_Some; [done|..|by apply (H4 i j u v)].
    + rewrite Hs, Hn. intros E1 E2. by apply (H4 _ _ t v).
    + rewrite Hs, Hn. intros E1 E2. by apply (H4 _ _ u t).
  - intros i u [[-> ->]|[_ Hu]]%lookup_insert_Some; [done|by apply (H5 i)].
Qed.

Lemma board_insert b id row : board_ok None b → bd_Tasks b !! id = None → tk_TaskNumber row = default 0 (bd_Counters b !! tk_SpaceID row) + 1 →
  row_ok row → 1 <= tk_Rank row <= MaxInt64 → free_place (bd_Tasks b) id row →
  board_ok None (upd_tasks (<[id:=row]>) (upd_counters (<[tk_SpaceID row := tk_TaskNumber row]>) b)).
Proof.
  intros [H1 H2 H0 H3 H4 H5] Ht Hn Hrow Hr Hf. split; simpl.
  - intros i u [[-> ->]|[_ Hu]]%lookup_insert_Some; [done|by apply (H1 i)].
  - intros s st i j r _ _. by eapply (place_insert None).
  - intros s n [[<- <-]|[_ Hc]]%lookup_insert_Some; [|by apply (H0 s)]. rewrite Hn.
    destruct (bd_Counters b !! tk_SpaceID row) as [c|] eqn:Ec; simpl; [apply H0 in Ec; lia|lia].
  - assert (∀ s n, n <= default 0 (bd_Counters b !! s) → n <= default 0 (<[tk_SpaceID row:=tk_TaskNumber row]> (bd_Counters b) !! s)) as Hgrow.
    { intros s n Hle. destruct (decide (s = tk_SpaceID row)) as [E|Hne]; [rewrite E, lookup_insert_eq; rewrite E in Hle; simpl; lia|by rewrite lookup_insert_ne]. }
    intros i u [[-> ->]|[_ Hu]]%lookup_insert_Some; [rewrite lookup_insert_eq; simpl|specialize (H3 i u Hu); split; [lia|apply Hgrow; lia]].
    split; [|lia]. rewrite Hn. destruct (bd_Counters b !! tk_SpaceID u) as [c|] eqn:Ec; simpl; [apply H0 in Ec; lia|lia].
  - intros i j u v [[-> ->]|[Hi Hu]]%lookup_insert_Some [[-> ->]|[Hj Hv]]%lookup_insert_Some; [done|..|by apply (H4 i j u v)].
    + intros E1 E2. specialize (H3 _ _ Hv). rewrite <- E1 in H3. lia.
    + intros E1 E2. specialize (H3 _ _ Hu). rewrite E1 in H3. lia.
  - intros i u [[-> ->]|[_ Hu]]%lookup_insert_Some; [done|by apply (H5 i)].
Qed.

(** ** Ranks the code chooses *)

Lemma rank_after_inr s st p r p' : rank_after s st p = inr (r, p') →
  p' = p ∧ r = max_rank (λ _, in_column s st) (bd_Tasks (pn_Board p)) + 1024 ∧ r <= MaxInt64.
Proof. unfold rank_after. intros H. tx_get H. unfold bigint in H. tx_guard H as G. injection H as <- <-. apply Z.leb_le in G. done. Qed.

(** Above the largest rank there is room. *)
Lemma above_free tasks s st id row : tk_SpaceID row = s → tk_Status row = st → max_rank (λ _, in_column s st) tasks < tk_Rank row → free_place tasks id row.
Proof. intros <- <- Hlt j _ _ Hj. apply max_rank_le in Hj. lia. Qed.

Lemma max_rank_nonneg chosen tasks : 0 <= max_rank chosen tasks.
Proof. by destruct (max_rank_spec chosen tasks) as (_ & _ & H). Qed.

(** What a rank from [taskRankBefore] says about the tasks of the column: it lies
    directly before the task named, or behind all. *)
Definition rank_fits (rest : string → SpaceTask → bool) (tasks : gmap string SpaceTask) (before : string) (r : Z) : Prop :=
  1 <= r <= MaxInt64 ∧ (∀ i, ¬ ranked rest tasks i r) ∧
  (if empty before then ∀ i r', ranked rest tasks i r' → r' < r
   else ∃ rb, ranked rest tasks before rb ∧ r < rb ∧ ∀ i r', ranked rest tasks i r' → r < r' → rb <= r').

Lemma taskRankBefore_inr s task st before p r p' : taskRankBefore s task st before p = inr (r, p') → p' = p ∧
  (let rest := others s st task in let tasks := bd_Tasks (pn_Board p) in
   if empty before then r = wrap64 (max_rank rest tasks + 1024)
   else ∃ rb prev, ranked rest tasks before rb ∧ (∀ i r', ranked rest tasks i r' → r' < rb → r' <= prev) ∧ 0 <= prev ∧
     (prev = 0 ∨ ∃ i, ranked rest tasks i prev ∧ prev < rb) ∧ r = (if rb - prev <=? 1 then 0 else prev + (rb - prev) / 2)).
Proof.
  unfold taskRankBefore. intros H. tx_get H. destruct (empty before); [by injection H as <- <-|].
  tx_require H as t G. tx_guard H as G1. injection H as <- <-. split; [done|]. simpl.
  set (low := λ id u, others s st task id u && (tk_Rank u <? tk_Rank t)).
  destruct (max_rank_spec low (bd_Tasks (pn_Board p))) as (H1 & H2 & H3). exists (tk_Rank t), (max_rank low (bd_Tasks (pn_Board p))). split_and!; [by exists t| |done| |done].
  - intros i r' (u & Hu & Hc & <-) Hlt. apply (H1 i u Hu). unfold low. rewrite Hc. simpl. by apply Z.ltb_lt.
  - destruct H2 as [?|(i & u & Hu & Hc & Hr)]; [by left|right]. unfold low in Hc. apply andb_true_iff in Hc as [Hc Hlt]. apply Z.ltb_lt in Hlt.
    exists i. split; [by exists u|]. by rewrite <- Hr.
Qed.

Lemma rank_before_fits s task st before p r p' : (∀ id t, bd_Tasks (pn_Board p) !! id = Some t → 1 <= tk_Rank t <= MaxInt64) →
  taskRankBefore s task st before p = inr (r, p') → 0 < r → rank_fits (others s st task) (bd_Tasks (pn_Board p)) before r.
Proof.
  intros Hr H Hpos. apply taskRankBefore_inr in H as [-> H]. unfold rank_fits. simpl in H. destruct (empty before).
  - assert (max_rank (others s st task) (bd_Tasks (pn_Board p)) <= MaxInt64) as Hm.
    { destruct (max_rank_spec (others s st task) (bd_Tasks (pn_Board p))) as (_ & [->|(i & t & Ht & _ & <-)] & _); [unfold MaxInt64; lia|by apply (Hr i)]. }
    pose proof (max_rank_nonneg (others s st task) (bd_Tasks (pn_Board p))).
    assert (r = max_rank (others s st task) (bd_Tasks (pn_Board p)) + 1024 ∧ r <= MaxInt64) as [-> Hle].
    { rewrite H in Hpos |- *. unfold wrap64, MaxInt64 in *. 
      destruct (Z.lt_ge_cases (max_rank (others s st task) (bd_Tasks (pn_Board p)) + 1024) (2 ^ 63)); [rewrite Z.mod_small; lia|].
      exfalso. assert ((max_rank (others s st task) (bd_Tasks (pn_Board p)) + 1024 + 2 ^ 63) mod 2 ^ 64 =
        max_rank (others s st task) (bd_Tasks (pn_Board p)) + 1024 + 2 ^ 63 - 2 ^ 64) as E; [|lia].
      symmetry. apply (Z.mod_unique _ _ 1); lia. }
    split; [lia|]. split; [|intros i r' Hi; apply max_rank_le in Hi; lia]. intros i Hi. apply max_rank_le in Hi. lia.
  - destruct H as (rb & prev & Hb & Hlow & Hprev & Hatt & ->). destruct (rb - prev <=? 1) eqn:E; [lia|]. apply Z.leb_gt in E.
    assert (prev < prev + (rb - prev) / 2 < rb) as Hmid.
    { pose proof (Z.div_mod (rb - prev) 2 ltac:(lia)). pose proof (Z.mod_pos_bound (rb - prev) 2 ltac:(lia)). lia. }
    assert (1 <= rb <= MaxInt64) by (destruct Hb as (t & Ht & _ & <-); by apply (Hr before)).
    split; [lia|]. split.
    + intros i Hi. specialize (Hlow i _ Hi). lia.
    + exists rb. split; [done|]. split; [lia|]. intros i r' Hi Hlt. destruct (Z.lt_ge_cases r' rb); [|lia]. specialize (Hlow i r' Hi). lia.
Qed.
