(* ===== verification/BoardMoves.v ===== *)
(** * What the operations on tasks do to the board

    Every operation on tasks keeps the invariant [board_ok], and a move puts its task
    where it says. *)
From S2P Require Import Prelude Tx GoStrings GoTime Json RunStore Contracts SpaceApps Spaces Planner Board BoardInv.

(** ** Statements that only read *)

#[export] Instance reads_view actor s perm : Reads (require_view actor s perm).
Proof. unfold require_view. apply _. Qed.
#[export] Instance reads_check_ref actor s task kind id : Reads (check_ref actor s task kind id).
Proof. unfold check_ref. apply _. Qed.
#[export] Instance reads_check_refs actor s task refs : Reads (check_refs actor s task refs).
Proof. induction refs as [|[kind id] refs IH]; simpl; apply _. Qed.
#[export] Instance reads_source_refs actor s task refs : Reads (validateTaskSourceRefsTx actor s task refs).
Proof. unfold validateTaskSourceRefsTx. apply _. Qed.
#[export] Instance reads_ask_context user s id : Reads (askExecutionContextTx user s id).
Proof. unfold askExecutionContextTx. apply _. Qed.
#[export] Instance reads_audience user s a : Reads (validateResourceAudienceTx user s a).
Proof. unfold validateResourceAudienceTx. apply _. Qed.

(** ** Statements *)

Definition tasks_of (p : Planner) : gmap string SpaceTask := bd_Tasks (pn_Board p).

Definition reopens (old new : SpaceTask) : bool :=
  counts new && negb (bool_decide (tk_ArchivedAt old = tk_ArchivedAt new) && String.eqb (tk_Status old) (tk_Status new)).

(** The planner after an update of a row, with its trigger. *)
Definition updated (id : string) (old new : SpaceTask) (p : Planner) : Planner :=
  let p := on_board (upd_tasks (<[id := new]>)) p in
  if reopens old new then on_maps (reopen_goals id) p else p.

Lemma when_modify b (f : Planner → Planner) p u p' : when b (modify f : P ()) p = inr (u, p') → p' = if b then f p else p.
Proof. destruct b; [by intros [= <- <-]|by intros [= <- <-]]. Qed.

(** What an operation leaves of the tasks. *)
Definition same_tasks (p p' : Planner) : Prop :=
  tasks_of p' = tasks_of p ∧ bd_Counters (pn_Board p') = bd_Counters (pn_Board p) ∧ pn_Maps p' = pn_Maps p ∧ pn_Around p' = pn_Around p.

Lemma same_when b (f : Planner → Planner) p u p' : same_tasks p (f p) → when b (modify f : P ()) p = inr (u, p') → same_tasks p p'.
Proof. intros Hf H. apply when_modify in H as ->. by destruct b. Qed.

Lemma check_row_inr t p u p' : check_row t p = inr (u, p') →
  p' = p ∧ 1 <= tk_Rank t ∧ array_refs (tk_SourceRefs t) = true.
Proof. unfold check_row. intros H. tx_guard H as G. apply guard_inr in H as [H ->]. apply Z.ltb_lt in G. split; [done|]. split; [lia|done]. Qed.

Lemma update_task_inr id old new p u p' : update_task id old new p = inr (u, p') →
  p' = updated id old new p ∧ 1 <= tk_Rank new ∧ array_refs (tk_SourceRefs new) = true.
Proof.
  unfold update_task. intros H. tx_bind H as y q G. apply check_row_inr in G as (-> & G & G'). split; [|done]. unfold put_task in H. tx_modify H.
  unfold reopen_trigger in H. fold (reopens old new) in H. unfold updated, when in *. destruct (reopens old new).
  - by injection H as <- <-.
  - by injection H as <- <-.
Qed.

Lemma updated_board id old new p : pn_Board (updated id old new p) = upd_tasks (<[id:=new]>) (pn_Board p).
Proof. unfold updated. by destruct (reopens old new). Qed.

Lemma updated_tasks id old new p : tasks_of (updated id old new p) = <[id:=new]> (tasks_of p).
Proof. unfold tasks_of. by rewrite updated_board. Qed.

Lemma updated_around id old new p : pn_Around (updated id old new p) = pn_Around p.
Proof. unfold updated. by destruct (reopens old new). Qed.

Lemma insert_task_inr id t p u p' : insert_task id t p = inr (u, p') →
  p' = on_board (upd_tasks (<[id:=t]>)) p ∧ tasks_of p !! id = None ∧ 1 <= tk_Rank t ∧ array_refs (tk_SourceRefs t) = true.
Proof.
  unfold insert_task. intros H. tx_bind H as y q G. apply check_row_inr in G as (-> & G & G'). tx_get H. tx_guard H as G1. apply bool_decide_eq_true in G1.
  tx_guard H as G2. unfold put_task in H. injection H as <-. done.
Qed.

Lemma next_number_inr s p n p' : next_number s p = inr (n, p') →
  n = default 0 (bd_Counters (pn_Board p) !! s) + 1 ∧ p' = on_board (upd_counters (<[s:=n]>)) p.
Proof. unfold next_number. intros H. tx_get H. tx_modify H. injection H as <- <-. done. Qed.

Lemma lock_inr s id p t p' : lockActiveSpaceTaskTx s id p = inr (t, p') →
  p' = p ∧ tasks_of p !! id = Some t ∧ tk_SpaceID t = s ∧ tk_ArchivedAt t = None.
Proof.
  unfold lockActiveSpaceTaskTx. intros H. tx_get H. tx_require H as x G. tx_guard H as G1. injection H as <- <-.
  apply andb_true_iff in G1 as [G1 G2]. apply String.eqb_eq in G1. by apply bool_decide_eq_true in G2.
Qed.

(** ** Rows *)

Lemma placed_ok st r dbnow t : row_ok t → st ∈ valid_statuses → row_ok (placed st r dbnow t).
Proof.
  intros (H1 & _ & _ & H4) Hst. split; [done|]. split; [done|]. split; [|done]. simpl. destruct (String.eqb_spec st "done"); [split; [done|]|]; naive_solver.
Qed.

Lemma one_of_elem s l : one_of s l = true ↔ s ∈ l.
Proof. apply bool_decide_eq_true. Qed.

Lemma valid_status (known_zone : string → bool) item item' : TestingValidateSpaceTask known_zone item = Some item' → tk_Status item' ∈ valid_statuses ∧
  tk_SpaceID item' = tk_SpaceID item ∧ tk_Status item' = TrimSpace (tk_Status item).
Proof.
  unfold TestingValidateSpaceTask. destruct (_ || _ || _); [done|]. destruct (negb (one_of (TrimSpace (tk_Status item)) valid_statuses)) eqn:E; [done|].
  intros H. apply negb_false_iff, one_of_elem in E. simpl in H. destruct (_ || _); [done|]. destruct (_ ≫= _); [|done]. destruct (_ || _); [done|].
  destruct (_ && _); [done|]. by injection H as <-.
Qed.

(** A task in its own place takes nobody else's. *)
Lemma own_place b id t row : board_ok None b → bd_Tasks b !! id = Some t → tk_ArchivedAt t = None → tk_SpaceID row = tk_SpaceID t →
  tk_Status row = tk_Status t → tk_Rank row = tk_Rank t → free_place (bd_Tasks b) id row.
Proof.
  intros [_ Hp _ _ _ _] Ht Ha Hs Hst Hr j Hj _ Hin. apply Hj. rewrite Hs, Hst, Hr in Hin. apply (Hp (tk_SpaceID t) (tk_Status t) j id (tk_Rank t)); [done..|].
  exists t. split; [done|]. split; [by apply in_column_true|done].
Qed.

(** The same board up to the runs of agents. *)
Lemma board_same skip b b' : bd_Tasks b' = bd_Tasks b → bd_Counters b' = bd_Counters b → board_ok skip b → board_ok skip b'.
Proof. intros Ht Hc [H1 H2 H0 H3 H4 H5]. split; rewrite ?Ht, ?Hc; done. Qed.

(** ** Renumbering a column *)

Lemma others_rank s st task id t r : others s st task id (with_rank r t) = others s st task id t.
Proof. done. Qed.

Lemma number_of_out s st task tasks : number_of (ordered (others s st task) tasks) task = None.
Proof.
  unfold number_of. destruct (position _ _) eqn:E; [|done]. exfalso. assert (task ∉ ordered (others s st task) tasks) as Hni.
  { rewrite elem_ordered. intros (t & _ & H). unfold others in H. by rewrite String.eqb_refl, andb_false_r in H. }
  apply position_None in Hni. by rewrite Hni in E.
Qed.

Lemma number_of_in s st task tasks id r t : number_of (ordered (others s st task) tasks) id = Some r → tasks !! id = Some t →
  in_column s st t = true ∧ id ≠ task.
Proof.
  intros Hn Ht. apply (renumbered_ranked (others s st task) (others_rank s st task)) in Hn as (u & Hu & Hc & _). rewrite renumbered_lookup, Ht in Hu.
  injection Hu as <-. unfold others in Hc. apply andb_true_iff in Hc as [Hc Hne]. split; [by destruct (number_of _ _)|].
  apply negb_true_iff in Hne. by apply String.eqb_neq.
Qed.

Lemma others_in_place s st task tasks i r : i ≠ task → ranked (others s st task) tasks i r ↔ in_place tasks s st i r.
Proof.
  intros Hne. unfold in_place, ranked, others. apply String.eqb_neq in Hne. rewrite Hne. simpl.
  split; intros (t & H1 & H2 & H3); exists t; (split; [done|]); (split; [|done]); [by rewrite andb_true_r in H2|by rewrite andb_true_r].
Qed.

(** Another column is not touched. *)
Lemma renumbered_elsewhere s st task tasks s' st' i r : (s', st') ≠ (s, st) →
  in_place (renumbered (ordered (others s st task) tasks) tasks) s' st' i r ↔ in_place tasks s' st' i r.
Proof.
  intros Hne. unfold in_place, ranked. rewrite renumbered_lookup. destruct (tasks !! i) as [t|] eqn:Ht; simpl; [|done].
  destruct (number_of _ i) as [n|] eqn:En; [|done]. destruct (number_of_in s st task tasks i n t En Ht) as [Hc _].
  apply in_column_true in Hc as (H1 & H2 & H3).
  split; intros (u & [= <-] & Hu & _); exfalso; apply in_column_true in Hu as (E1 & E2 & _); simpl in *; congruence.
Qed.

Lemma board_renumber b s st task : board_ok None b → 1024 * len (ordered (others s st task) (bd_Tasks b)) <= MaxInt64 →
  board_ok (Some task) (upd_tasks (renumbered (ordered (others s st task) (bd_Tasks b))) b).
Proof.
  intros [H1 H2 H0 H3 H4 H5] Hlen. set (order := ordered _ _). assert (Hback : ∀ id t, renumbered order (bd_Tasks b) !! id = Some t →
    ∃ u, bd_Tasks b !! id = Some u ∧ t = match number_of order id with Some r => with_rank r u | None => u end).
  { intros id t Ht. rewrite renumbered_lookup in Ht. destruct (bd_Tasks b !! id) as [u|]; [|done]. injection Ht as <-. by exists u. }
  split; simpl.
  - intros id t (u & Hu & ->)%Hback. destruct (number_of order id) as [r|] eqn:E; [|by apply (H1 id)]. apply number_of_bounds in E. simpl. fold order in Hlen. lia.
  - intros s' st' i j r Hi Hj Hpi Hpj. destruct (decide ((s', st') = (s, st))) as [[= -> ->]|Hne].
    + rewrite <- (others_in_place s st task) in Hpi, Hpj by congruence.
      apply (renumbered_ranked (others s st task) (others_rank s st task)) in Hpi, Hpj. by eapply number_of_inj.
    + unfold order in Hpi, Hpj. rewrite renumbered_elsewhere in Hpi, Hpj by done. by apply (H2 s' st' i j r).
  - exact H0.
  - intros id t (u & Hu & ->)%Hback. specialize (H3 id u Hu). by destruct (number_of order id).
  - intros i j t u (t' & Ht & ->)%Hback (u' & Hu & ->)%Hback Es En. apply (H4 i j t' u'); [done|done|..]; by destruct (number_of order i), (number_of order j).
  - intros id t (u & Hu & ->)%Hback. specialize (H5 id u Hu). by destruct (number_of order id).
Qed.

(** ** Moving *)

(** The tasks a rank is computed in: as they are, or renumbered. *)
Definition prepared (s st task : string) (tasks tasks' : gmap string SpaceTask) : Prop :=
  tasks' = tasks ∨ tasks' = renumbered (ordered (others s st task) tasks) tasks ∧ 1024 * len (ordered (others s st task) tasks) <= MaxInt64.

Definition with_tasks (tasks : gmap string SpaceTask) (p : Planner) : Planner := on_board (upd_tasks (λ _, tasks)) p.

Lemma with_same_tasks p : with_tasks (tasks_of p) p = p.
Proof. by destruct p as [a [] m]. Qed.

Lemma failing_inr {A} (m : P A) e p x p' : failing_as m e p = inr (x, p') → m p = inr (x, p').
Proof. unfold failing_as. by destruct (m p) as [?|[? ?]]. Qed.

Lemma reading_bind {A B} (m : SpaceApps.C A) (f : A → P B) p r : (reading m ≫= f) p = inr r → ∃ x, f x p = inr r.
Proof. intros H. apply bind_inr in H as (x & q & G & H). pose proof (reads _ _ _ G) as ->. by exists x. Qed.

Lemma rebalance_inr s st task p u p' : rebalanceTaskColumn s st task p = inr (u, p') →
  1024 * len (ordered (others s st task) (tasks_of p)) <= MaxInt64 ∧ p' = with_tasks (renumbered (ordered (others s st task) (tasks_of p)) (tasks_of p)) p.
Proof.
  unfold rebalanceTaskColumn. intros H. tx_get H. tx_bind H as z q G. unfold bigint in G. tx_guard G as G1. injection G as <- <-. apply Z.leb_le in G1.
  injection H as <- <-. done.
Qed.

Lemma move_inr actor s task version st before dbnow p row col p' :
  MoveSpaceTask actor s task version st before dbnow p = inr ((row, col), p') → ∃ t tasks' rank,
  tasks_of p !! task = Some t ∧ tk_SpaceID t = s ∧ tk_ArchivedAt t = None ∧ st ∈ valid_statuses ∧ prepared s st task (tasks_of p) tasks' ∧
  taskRankBefore s task st before (with_tasks tasks' p) = inr (rank, with_tasks tasks' p) ∧ 1 <= rank ∧ row = placed st rank dbnow t ∧
  p' = updated task t row (with_tasks tasks' p) ∧ col = column s st (tasks_of p').
Proof.
  unfold MoveSpaceTask. intros H. tx_guard H as G. apply andb_true_iff in G as [_ G]. apply one_of_elem in G. apply reading_bind in H as [_ H].
  tx_bind H as t q G1. apply lock_inr in G1 as (-> & Ht & Hs & Ha). tx_bind H as r1 q1 G2.
  pose proof G2 as G2'. apply taskRankBefore_inr in G2' as [-> _]. tx_bind H as rank q G3. tx_bind H as y q2 G4. apply update_task_inr in G4 as (-> & Hr & _).
  simpl in Hr. tx_get H. injection H as <- <- <-. destruct (r1 =? 0).
  - tx_bind G3 as z q3 G5. apply rebalance_inr in G5 as [Hlen ->]. tx_bind G3 as r2 q4 G6. apply failing_inr in G6.
    pose proof G6 as G6'. apply taskRankBefore_inr in G6' as [-> _]. tx_guard G3 as G7. injection G3 as <- <-.
    exists t, (renumbered (ordered (others s st task) (tasks_of p)) (tasks_of p)), r2. split_and!; try done. by right.
  - injection G3 as <- <-. exists t, (tasks_of p), r1. rewrite !with_same_tasks. split_and!; try done. by left.
Qed.

Lemma prepared_ok b s st task tasks' : board_ok None b → prepared s st task (bd_Tasks b) tasks' → board_ok (Some task) (upd_tasks (λ _, tasks') b).
Proof.
  intros Hb [->|[-> Hlen]]; [apply (board_same _ b); [done|done|]; by apply board_skip|].
  apply (board_same _ (upd_tasks (renumbered (ordered (others s st task) (bd_Tasks b))) b)); [done|done|]. by apply board_renumber.
Qed.

Lemma prepared_self s st task tasks tasks' t : prepared s st task tasks tasks' → tasks !! task = Some t → tasks' !! task = Some t.
Proof. intros [->|[-> _]] Ht; [done|]. by rewrite renumbered_lookup, Ht, number_of_out. Qed.

Lemma fits_free s st task before tasks row : rank_fits (others s st task) tasks before (tk_Rank row) → tk_SpaceID row = s → tk_Status row = st →
  free_place tasks task row.
Proof. intros (_ & Hf & _) <- <- j Hj _ Hin. apply (Hf j). by apply others_in_place. Qed.

Lemma move_ok actor s task version st before dbnow p row col p' : board_ok None (pn_Board p) →
  MoveSpaceTask actor s task version st before dbnow p = inr ((row, col), p') → board_ok None (pn_Board p').
Proof.
  intros Hb H. apply move_inr in H as (t & tasks' & rank & Ht & Hs & Ha & Hst & Hp & Hrank & Hpos & -> & -> & _).
  apply (prepared_ok (pn_Board p)) in Hp as Hb'; [|done]. rewrite updated_board.
  apply rank_before_fits in Hrank; [|apply (bo_rank _ _ Hb')|lia]. simpl in Hrank.
  apply (board_put _ task t); [done|exact (prepared_self s st task _ tasks' t Hp Ht)|done|done|apply placed_ok; [by apply (bo_row _ _ Hb task)|done]|apply Hrank|].
  by eapply fits_free.
Qed.

(** ** The other operations *)

Lemma described_ok item t : row_ok t → array_refs (tk_SourceRefs item) = true → row_ok (described item t).
Proof. intros (H1 & H2 & H3 & _) H. done. Qed.

Lemma update_inr known_zone actor id item dbnow p row p' : UpdateSpaceTask known_zone actor id item dbnow p = inr (row, p') →
  ∃ t item' p1 st rank, tasks_of p !! id = Some t ∧ tk_SpaceID t = tk_SpaceID item ∧ tk_ArchivedAt t = None ∧ st ∈ valid_statuses ∧
  same_tasks p p1 ∧
  (tk_Status t = st ∧ rank = tk_Rank t ∨
   tk_Status t ≠ st ∧ rank = max_rank (λ _, in_column (tk_SpaceID t) st) (tasks_of p) + 1024 ∧ rank <= MaxInt64) ∧
  row = placed st rank dbnow (described item' t) ∧ 1 <= rank ∧ array_refs (tk_SourceRefs item') = true ∧ same_tasks (updated id t row p1) p'.
Proof.
  unfold UpdateSpaceTask. intros H. tx_guard H as G. tx_require H as it Hit. apply valid_status in Hit as (Hst & Hsp & _).
  apply reading_bind in H as [_ H]. tx_read H as y G1. clear G1. tx_read H as z G1. clear G1. tx_read H as w G1. clear G1.
  tx_bind H as t q G1. apply lock_inr in G1 as (-> & Ht & Hs & Ha). tx_bind H as w0 p1 G1.
  assert (same_tasks p p1) as Hsame by (refine (same_when _ _ _ _ _ _ G1); by repeat split).
  tx_bind H as rank q G2. tx_bind H as v q2 G3. apply update_task_inr in G3 as (-> & Hpos & Hr). tx_bind H as v2 q3 G4.
  injection H as <- <-. set (st := if (_ : bool) then "in_progress"%string else tk_Status it) in *.
  assert (st ∈ valid_statuses) as Hst' by (unfold st; clear -Hst; destruct (_ && _); [by right; left|done]).
  assert (q = p1 ∧ (tk_Status t = st ∧ rank = tk_Rank t ∨ tk_Status t ≠ st ∧ rank = max_rank (λ _, in_column (tk_SpaceID t) st) (tasks_of p) + 1024 ∧
    rank <= MaxInt64)) as [-> Hrank].
  { destruct (String.eqb_spec (tk_Status t) st) as [E|E]; [injection G2 as <- <-; by eauto|].
    apply rank_after_inr in G2 as (-> & -> & Hle). split; [done|right]. destruct Hsame as (E1 & _). unfold tasks_of in *. rewrite Hs, <- E1. done. }
  exists t, it, p1, st, rank. split_and!; try done; [by rewrite Hs|].
  unfold record_assignment in G4. refine (same_when _ _ _ _ _ _ G4). by repeat split.
Qed.

Lemma update_ok known_zone actor id item dbnow p row p' : board_ok None (pn_Board p) →
  UpdateSpaceTask known_zone actor id item dbnow p = inr (row, p') → board_ok None (pn_Board p').
Proof.
  intros Hb H. apply update_inr in H as (t & item' & p1 & st & rank & Ht & _ & Ha & Hst & (E1 & E2 & _) & Hrank & -> & Hpos & Hrefs & (E3 & E4 & _)).
  unfold tasks_of in E3. rewrite updated_board in E3, E4. eapply board_same; [exact E3|exact E4|].
  assert (board_ok None (pn_Board p1)) as Hb1 by by eapply board_same.
  assert (bd_Tasks (pn_Board p1) !! id = Some t) as Ht1 by (unfold tasks_of in *; by rewrite E1).
  assert (1 <= rank <= MaxInt64) as Hr.
  { destruct Hrank as [[_ ->]|(_ & _ & ?)]; [by apply (bo_rank _ _ Hb id)|lia]. }
  apply (board_put _ id t); [by apply board_skip|done|done|done|apply placed_ok; [apply described_ok; [exact (bo_row _ _ Hb id t Ht)|done]|done]|done|].
  destruct Hrank as [[Es ->]|(_ & -> & _)]; [by apply (own_place (pn_Board p1) id t)|].
  eapply above_free; [done|done|]. unfold tasks_of in *. simpl. rewrite E1. lia.
Qed.

Lemma archive_inr actor s id dbnow p t p' : ArchiveSpaceTask actor s id dbnow p = inr (t, p') →
  ∃ u, tasks_of p !! id = Some u ∧ (tk_ArchivedAt u ≠ None ∧ p' = p ∧ t = u ∨
    tk_ArchivedAt u = None ∧ t = archived dbnow u ∧ p' = on_board (upd_tasks (<[id:=t]>)) p).
Proof.
  unfold ArchiveSpaceTask. intros H. apply reading_bind in H as [_ H]. tx_get H. tx_require H as u G. tx_guard H as G1. exists u. split; [done|].
  destruct (tk_ArchivedAt u) eqn:E; [injection H as <- <-; by left|]. tx_bind H as y q G2. apply update_task_inr in G2 as [-> _]. injection H as <- <-.
  right. split; [done|]. split; [done|]. unfold updated, reopens, counts. done.
Qed.

Lemma archive_ok actor s id dbnow p t p' : board_ok None (pn_Board p) → ArchiveSpaceTask actor s id dbnow p = inr (t, p') → board_ok None (pn_Board p').
Proof.
  intros Hb H. apply archive_inr in H as (u & Hu & [(_ & -> & _)|(Ha & -> & ->)]); [done|]. simpl.
  apply (board_put _ id u); [by apply board_skip|done..|exact (bo_row _ _ Hb id u Hu)|exact (bo_rank _ _ Hb id u Hu)|].
  intros j _ Hin. apply in_column_true in Hin as (_ & _ & Hin). done.
Qed.

(** A new row with the next number, behind its column. *)
Lemma new_ok b id row : board_ok None b → bd_Tasks b !! id = None → tk_TaskNumber row = default 0 (bd_Counters b !! tk_SpaceID row) + 1 →
  row_ok row → tk_Rank row = max_rank (λ _, in_column (tk_SpaceID row) (tk_Status row)) (bd_Tasks b) + 1024 → tk_Rank row <= MaxInt64 →
  board_ok None (upd_tasks (<[id:=row]>) (upd_counters (<[tk_SpaceID row := tk_TaskNumber row]>) b)).
Proof.
  intros Hb Hid Hn Hrow Hr Hle. pose proof (max_rank_nonneg (λ _, in_column (tk_SpaceID row) (tk_Status row)) (bd_Tasks b)).
  apply board_insert; [done|done|done|done|lia|]. eapply above_free; [done|done|]. lia.
Qed.

Lemma create_task_inr known_zone newID actor id item dbnow p row p' : CreateSpaceTask known_zone newID actor id item dbnow p = inr (row, p') →
  let id' := or_else id ("task_" +:+ newID) in
  tasks_of p !! id' = None ∧ tk_SpaceID row = tk_SpaceID item ∧ tk_ArchivedAt row = None ∧
  tk_TaskNumber row = default 0 (bd_Counters (pn_Board p) !! tk_SpaceID row) + 1 ∧ row_ok row ∧
  tk_Rank row = max_rank (λ _, in_column (tk_SpaceID row) (tk_Status row)) (tasks_of p) + 1024 ∧ tk_Rank row <= MaxInt64 ∧
  same_tasks (on_board (upd_tasks (<[id':=row]>)) (on_board (upd_counters (<[tk_SpaceID row := tk_TaskNumber row]>)) p)) p'.
Proof.
  unfold CreateSpaceTask. intros H. tx_require H as audience G0. tx_require H as it Hit. apply valid_status in Hit as (Hst & Hsp & _).
  apply reading_bind in H as [_ H]. tx_read H as y1 G1. clear G1. tx_read H as y2 G1. clear G1. tx_read H as y3 G1. clear G1. tx_read H as y4 G1. clear G1.
  tx_get H. tx_guard H as G2. tx_bind H as n q G3. apply next_number_inr in G3 as [Hn ->]. tx_bind H as r q G4. apply rank_after_inr in G4 as (-> & Hr & Hle).
  tx_bind H as u q G5. apply insert_task_inr in G5 as (-> & Hid & _ & Hrefs). tx_bind H as u2 q G6. injection H as <- <-.
  set (st := if (_ : bool) then "in_progress"%string else tk_Status it) in *.
  assert (st ∈ valid_statuses) as Hst' by (unfold st; clear -Hst; destruct (_ && _); [by right; left|done]).
  split_and!; simpl; try done.
  - split; [done|]. split; [done|]. split; [|done]. simpl. destruct (String.eqb_spec st "done"); naive_solver.
  - unfold record_assignment in G6. refine (same_when _ _ _ _ _ _ G6). by repeat split.
Qed.

Lemma create_ok known_zone newID actor id item dbnow p row p' : board_ok None (pn_Board p) →
  CreateSpaceTask known_zone newID actor id item dbnow p = inr (row, p') → board_ok None (pn_Board p').
Proof.
  intros Hb H. apply create_task_inr in H as (Hid & _ & _ & Hn & Hrow & Hr & Hle & (E1 & E2 & _)). eapply board_same; [exact E1|exact E2|].
  by apply new_ok.
Qed.

(** ** Batches *)

(** The tasks of a batch are to do. *)
Definition to_do (items : list (string * SpaceTask)) : Prop := Forall (λ it : string * SpaceTask, tk_Status it.2 = "todo"%string) items.

Lemma batch_items_to_do known_zone actor s items items' :
  Forall (λ it : string * SpaceTask, or_else (tk_Status it.2) "todo" = "todo"%string) items →
  batch_items known_zone actor s items = Some items' → to_do items' ∧ Forall (λ it : string * SpaceTask, tk_SpaceID it.2 = s) items'.
Proof.
  unfold batch_items, to_do. intros Hall H. apply mapM_Some in H. revert items' H. induction Hall as [|x l Hx Hl IH]; intros items' H; inversion H as [|y z k k' Hy Hk]; subst; [done|].
  destruct (empty x.1); [done|]. destruct (TestingValidateSpaceTask _ _) as [item|] eqn:E; [|done]. injection Hy as <-.
  apply valid_status in E as (_ & E1 & E2). destruct (IH _ Hk) as [H1 H2]. split; constructor; try done. simpl. rewrite E2. simpl. by rewrite Hx.
Qed.

(** The planner with a new row, which takes the next number of its Space. *)
Definition with_new (id : string) (row : SpaceTask) (p : Planner) : Planner :=
  on_board (upd_tasks (<[id:=row]>)) (on_board (upd_counters (<[tk_SpaceID row := tk_TaskNumber row]>)) p).

Lemma create_one_inr actor s id item p t p' : create_one actor s id item p = inr (t, p') →
  (tasks_of p !! id = Some t ∧ p' = p ∧ tk_SpaceID t = s ∧ tk_ArchivedAt t = None) ∨
  tasks_of p !! id = None ∧ t = batch_row actor item (tk_TaskNumber t) (tk_Rank t) ∧ tk_TaskNumber t = default 0 (bd_Counters (pn_Board p) !! s) + 1 ∧
  tk_Rank t = max_rank (λ _, in_column s "todo") (tasks_of p) + 1024 ∧ tk_Rank t <= MaxInt64 ∧
  array_refs (tk_SourceRefs item) = true ∧ p' = on_board (upd_tasks (<[id:=t]>)) (on_board (upd_counters (<[s := tk_TaskNumber t]>)) p).
Proof.
  unfold create_one. intros H. tx_read H as y G. clear G. tx_get H. fold (tasks_of p) in H. destruct (tasks_of p !! id) as [u|] eqn:Hu.
  - tx_guard H as G. injection H as <- <-. apply andb_true_iff in G as [G1 G2]. apply String.eqb_eq in G1. apply bool_decide_eq_true in G2. by left.
  - tx_bind H as n q G3. apply next_number_inr in G3 as [Hn ->]. tx_bind H as r q G4. apply rank_after_inr in G4 as (-> & Hr & Hle).
    tx_bind H as v q G5. apply insert_task_inr in G5 as (-> & Hid & _ & Hrefs). injection H as <- <-. right. by split_and!.
Qed.

Lemma create_one_ok actor s id item p t p' : tk_Status item = "todo"%string → tk_SpaceID item = s → board_ok None (pn_Board p) →
  create_one actor s id item p = inr (t, p') → board_ok None (pn_Board p').
Proof.
  intros Hst <- Hb H. apply create_one_inr in H as [(_ & -> & _)|(Hid & Ht & Hn & Hr & Hle & Hrefs & ->)]; [done|]. simpl.
  rewrite Ht in Hn, Hr, Hle |- *. simpl in *. pose proof (new_ok (pn_Board p) id (batch_row actor item (tk_TaskNumber t) (tk_Rank t)) Hb Hid) as Hnew.
  simpl in Hnew. rewrite Hst in Hnew. apply Hnew; [done| |done|done]. unfold row_ok. simpl. rewrite Hst. split; [done|]. split; [by left|]. by split.
Qed.

Lemma create_all_ok actor s items p l p' : to_do items → Forall (λ it : string * SpaceTask, tk_SpaceID it.2 = s) items → board_ok None (pn_Board p) →
  create_all actor s items p = inr (l, p') → board_ok None (pn_Board p').
Proof.
  revert p l. induction items as [|[id item] items IH]; intros p l Htd Hs Hb H; simpl in H; [by injection H as <- <-|].
  apply Forall_cons in Htd as [H1 Htd]. apply Forall_cons in Hs as [H2 Hs]. tx_bind H as t q G. tx_bind H as l' q2 G2. injection H as <- <-.
  apply (IH q l'); [done|done| |done]. by eapply create_one_ok.
Qed.

Lemma batch_ok known_zone actor s items p l p' : Forall (λ it : string * SpaceTask, or_else (tk_Status it.2) "todo" = "todo"%string) items →
  board_ok None (pn_Board p) → CreateSpaceTaskBatch known_zone actor s items p = inr (l, p') → board_ok None (pn_Board p').
Proof.
  unfold CreateSpaceTaskBatch. intros Hall Hb H. tx_guard H as G. tx_require H as items' Hi. apply reading_bind in H as [_ H].
  destruct (batch_items_to_do _ _ _ _ _ Hall Hi). by eapply create_all_ok.
Qed.
