(* ===== verification/PlannerInv.v ===== *)
(** * The invariant of the board in all reachable planners

    Operations on roadmaps leave tasks alone ([OffBoard]); with the lemmas of
    [BoardMoves] every reachable planner has a well-formed board. *)
From S2P Require Import Prelude Tx GoStrings Json RunStore Contracts SpaceApps Spaces Planner Board RoadmapFields Roadmap PlannerOps BoardInv BoardMoves.

(** Statements that change roadmaps only. *)
Class OffBoard {A} (m : P A) : Prop := off_board p x p' : m p = inr (x, p') → pn_Board p' = pn_Board p ∧ pn_Around p' = pn_Around p.

#[export] Instance off_reads {A} (m : P A) : Reads m → OffBoard m.
Proof. intros Hm p x p' H. by apply Hm in H as ->. Qed.
#[export] Instance off_bind {A B} (m : P A) (f : A → P B) : OffBoard m → (∀ a, OffBoard (f a)) → OffBoard (m ≫= f).
Proof. intros Hm Hf p x p' H. apply bind_inr in H as (a & q & H1 & H2). apply Hm in H1 as [<- <-]. by apply Hf in H2. Qed.
#[export] Instance off_modify f : OffBoard (modify (on_maps f) : P ()).
Proof. intros p x p' [= <- <-]. done. Qed.
#[export] Instance off_when b (m : P ()) : OffBoard m → OffBoard (when b m).
Proof. destruct b; [done|]. intros _. apply _. Qed.
#[export] Instance off_if {A} (b : bool) (m n : P A) : OffBoard m → OffBoard n → OffBoard (if b then m else n).
Proof. by destruct b. Qed.
#[export] Instance off_match {A B} (o : option B) (f : B → P A) (n : P A) : (∀ x, OffBoard (f x)) → OffBoard n → OffBoard (match o with Some x => f x | None => n end).
Proof. by destruct o. Qed.
#[export] Instance off_change f : OffBoard (change_maps f).
Proof. unfold change_maps. apply _. Qed.
#[export] Instance off_change_roadmap id f : OffBoard (change_roadmap id f).
Proof. unfold change_roadmap. apply _. Qed.
#[export] Instance off_bigint z : OffBoard (bigint z).
Proof. unfold bigint. apply _. Qed.
#[export] Instance off_rank {A} (rows : gmap string A) chosen rank : OffBoard (rank_of_new rows chosen rank).
Proof. unfold rank_of_new. apply _. Qed.
#[export] Instance off_bump s r e : OffBoard (bumpSpaceRoadmapVersionTx s r e).
Proof. unfold bumpSpaceRoadmapVersionTx. apply _. Qed.
#[export] Instance off_mutation {A} u s r e (m : P A) : OffBoard m → OffBoard (roadmapMutationTx u s r e m).
Proof. unfold roadmapMutationTx. apply _. Qed.
#[export] Instance off_edge s r t a b : OffBoard (validateRoadmapEdgeTx s r t a b).
Proof. unfold validateRoadmapEdgeTx. apply _. Qed.
#[export] Instance off_put_edge id e : OffBoard (put_edge id e).
Proof. unfold put_edge. apply _. Qed.
#[export] Instance off_each (f : Placement → P ()) l : (∀ x, OffBoard (f x)) → OffBoard (each_item f l).
Proof. intros Hf. induction l; simpl; apply _. Qed.
#[export] Instance off_place_milestone s r x : OffBoard (place_milestone s r x).
Proof. unfold place_milestone. apply _. Qed.
#[export] Instance off_place_goal s r x : OffBoard (place_goal s r x).
Proof. unfold place_goal. apply _. Qed.
#[export] Instance off_place_node s r x : OffBoard (place_node s r x).
Proof. unfold place_node. apply _. Qed.
#[export] Instance off_validate_node size s r item n b : OffBoard (validateSpaceRoadmapNodeTx size s r item n b).
Proof. unfold validateSpaceRoadmapNodeTx. apply _. Qed.
#[export] Instance off_void {A} (m : P A) : OffBoard m → OffBoard (void m).
Proof. unfold void. apply _. Qed.

(** The operations on roadmaps. *)
Definition on_tasks (op : planner_op) : bool :=
  match op with
  | OpAround _ | OpRuns _ _ _ _ | OpCreateTask _ _ _ _ _ | OpBatch _ _ _ | OpUpdateTask _ _ _ _ | OpMoveTask _ _ _ _ _ _ _ | OpArchiveTask _ _ _ _ => true
  | _ => false
  end.

Section board.
Context (known_zone : string → bool) (jsonb_size : raw → Z).
Abbreviation body := (body known_zone jsonb_size).
Abbreviation exec := (exec known_zone jsonb_size).
Abbreviation reachable := (reachable known_zone jsonb_size).

Lemma roadmap_ops_off op : on_tasks op = false → OffBoard (body op).
Proof.
  destruct op; try done; intros _; simpl.
  - unfold CreateSpaceRoadmapWithAudience. apply _.
  - unfold UpdateSpaceRoadmap. apply _.
  - unfold ArchiveSpaceRoadmap. apply _.
  - unfold CreateSpaceRoadmapMilestone. apply _.
  - unfold UpdateSpaceRoadmapMilestone. apply _.
  - unfold ArchiveSpaceRoadmapMilestone. apply _.
  - unfold CreateSpaceRoadmapGoal. apply _.
  - unfold UpdateSpaceRoadmapGoal. apply _.
  - unfold ArchiveSpaceRoadmapGoal. apply _.
  - unfold ReplaceSpaceRoadmapGoalTasks. apply _.
  - unfold SaveSpaceRoadmapEdge. apply _.
  - unfold DeleteSpaceRoadmapEdge. apply _.
  - unfold UpdateSpaceRoadmapLayout. apply _.
  - unfold CreateSpaceRoadmapNodeDefinition. apply _.
  - unfold UpdateSpaceRoadmapNodeDefinition. apply _.
  - unfold ArchiveSpaceRoadmapNodeDefinition. apply _.
  - unfold CreateSpaceRoadmapNode. apply _.
  - unfold UpdateSpaceRoadmapNode. apply _.
  - unfold ArchiveSpaceRoadmapNode. apply _.
Qed.

Lemma void_done {A} (m : P A) p u p' : void m p = inr (u, p') → ∃ x, m p = inr (x, p').
Proof. unfold void. intros H. apply bind_inr in H as (x & q & H & [= <- <-]). by exists x. Qed.

Lemma body_board op p p' : honest op → board_ok None (pn_Board p) → body op p = inr ((), p') → board_ok None (pn_Board p').
Proof.
  intros Hop Hb H. destruct (on_tasks op) eqn:E; [|by apply (roadmap_ops_off op E) in H as [-> _]].
  destruct op; try done; simpl in H, Hop; try apply void_done in H as [x H].
  - by injection H as <-.
  - injection H as <-. by apply (board_same _ (pn_Board p)).
  - by eapply create_ok.
  - by eapply batch_ok.
  - by eapply update_ok.
  - destruct x. by eapply move_ok.
  - by eapply archive_ok.
Qed.

Lemma empty_board a : board_ok None (pn_Board (no_planner a)).
Proof.
  split; simpl; try (intros *; by rewrite ?lookup_empty). intros s st i j r _ _ (t & Ht & _). by rewrite lookup_empty in Ht.
Qed.

Lemma reachable_board p : reachable p → board_ok None (pn_Board p).
Proof.
  induction 1 as [a|op p Hp IH Hop]; [apply empty_board|]. destruct (op_cases known_zone jsonb_size op p) as [->|H]; [done|]. by eapply body_board.
Qed.
End board.
