(* ===== verification/BoardRefine.v ===== *)
(** * The board as lists

    What the ranks of tasks stand for: a board is a list of tasks for each Space and
    status.  Creating appends to a list, archiving takes a task out, moving puts it
    before another one.  Every operation of the planner rearranges the lists of the
    ranked board in this way. *)
From S2P Require Import Prelude Tx GoStrings GoTime Json RunStore Contracts SpaceApps Spaces Planner Board RoadmapFields Roadmap PlannerOps BoardInv BoardMoves PlannerInv.

(** ** Boards as lists *)

Definition columns : Type := string → string → list string.

#[export] Instance columns_equiv : Equiv columns := λ c c', ∀ s st, c s st = c' s st.

#[export] Instance columns_equivalence : Equivalence (≡@{columns}).
Proof. split; [done|by intros c c' H s st|by intros c c' c'' H H' s st; rewrite H, H']. Qed.

Definition without (id : string) (l : list string) : list string := filter (λ i, i ≠ id) l.

(** Before the first occurrence of [before]. *)
Fixpoint put_before (before id : string) (l : list string) : list string :=
  match l with
  | [] => [id]
  | x :: l => if String.eqb x before then id :: x :: l else x :: put_before before id l
  end.

(** At the end when [before] is empty. *)
Definition put_at (before id : string) (l : list string) : list string := if empty before then l ++ [id] else put_before before id l.

Definition take_out (id : string) (c : columns) : columns := λ s st, without id (c s st).
Definition put_in (space status before id : string) (c : columns) : columns := λ s st,
  if bool_decide (s = space ∧ st = status) then put_at before id (c s st) else c s st.
Definition put_all (space status : string) (ids : list string) (c : columns) : columns := foldl (λ c id, put_in space status "" id c) c ids.

#[export] Instance take_out_proper id : Proper ((≡) ==> (≡)) (take_out id).
Proof. intros c c' H s st. unfold take_out. by rewrite H. Qed.
#[export] Instance put_in_proper s0 st0 before id : Proper ((≡) ==> (≡)) (put_in s0 st0 before id).
Proof. intros c c' H s st. unfold put_in. by rewrite (H s st). Qed.
#[export] Instance put_all_proper s0 st0 ids : Proper ((≡) ==> (≡)) (put_all s0 st0 ids).
Proof. induction ids as [|id ids IH]; intros c c' H; [done|]. simpl. apply IH. by rewrite H. Qed.

(** How an operation of the planner rearranges the lists; [on_board id] says that the
    board has the task already. *)
Definition rearranged (on_board : string → Prop) (op : planner_op) (c c' : columns) : Prop :=
  match op with
  | OpCreateTask newID _ id item _ => ∃ status, status ∈ valid_statuses ∧ c' ≡ put_in (tk_SpaceID item) status "" (or_else id ("task_" +:+ newID)) c
  | OpBatch _ space items => ∃ new, new `sublist_of` (items.*1) ∧ NoDup new ∧ (∀ id, id ∈ new ↔ (id ∈ items.*1 ∧ ¬ on_board id)) ∧ c' ≡ put_all space "todo" new c
  | OpUpdateTask _ id item _ => c' ≡ c ∨ (∃ status, status ∈ valid_statuses ∧ ¬ (id ∈ c (tk_SpaceID item) status) ∧
      c' ≡ put_in (tk_SpaceID item) status "" id (take_out id c))
  | OpMoveTask _ space task _ status before _ => (before = ""%string ∨ before ≠ task ∧ before ∈ c space status) ∧
      c' ≡ put_in space status before task (take_out task c)
  | OpArchiveTask _ _ task _ => c' ≡ take_out task c
  | _ => c' ≡ c
  end.

(** The lists that a board stands for. *)
Definition lists_of (b : Board) : columns := λ s st, column s st (bd_Tasks b).

(** ** The lists of changed tables *)

Lemma others_column s st id tasks : ordered (others s st id) tasks = without id (column s st tasks).
Proof.
  apply ordered_filter. intros i r. unfold ranked, others. split.
  - intros (t & H1 & [H2 H3]%andb_true_iff & H4). apply negb_true_iff, String.eqb_neq in H3. split; [by exists t|done].
  - intros [(t & H1 & H2 & H3) H4]. exists t. split; [done|]. split; [|done]. apply String.eqb_neq in H4. by rewrite H2, H4.
Qed.

Lemma without_all id l : id ∉ l → without id l = l.
Proof.
  intros H. unfold without. induction l as [|x l IH]; [done|]. apply not_elem_of_cons in H as [H1 H2]. rewrite filter_cons, decide_True by done.
  by rewrite IH.
Qed.

Lemma put_before_middle before id l1 l2 : before ∉ l1 → head l2 = Some before → put_before before id (l1 ++ l2) = l1 ++ id :: l2.
Proof.
  induction l1 as [|x l1 IH]; intros H1 H2.
  - destruct l2 as [|y l2]; [done|]. injection H2 as ->. simpl. by rewrite String.eqb_refl.
  - apply not_elem_of_cons in H1 as [Hx H1]. simpl. destruct (String.eqb_spec x before); [congruence|]. by rewrite IH.
Qed.

Lemma ranked_fun chosen tasks id r r' : ranked chosen tasks id r → ranked chosen tasks id r' → r = r'.
Proof. intros (t & Ht & _ & <-) (t' & Ht' & _ & <-). congruence. Qed.

Section table.
Context (tasks : gmap string SpaceTask) (id : string) (row : SpaceTask).

(** Outside the column of the new row, the task is gone. *)
Lemma column_elsewhere s st : in_column s st row = false → column s st (<[id:=row]> tasks) = without id (column s st tasks).
Proof using Type.
  intros Hc. apply ordered_filter. intros i r. fold (in_place (<[id:=row]> tasks) s st i r). rewrite in_place_insert, Hc. unfold in_place. naive_solver.
Qed.

Lemma put_ranked s st i r : in_column s st row = true →
  in_place (<[id:=row]> tasks) s st i r ↔ ranked (others s st id) tasks i r ∨ i = id ∧ r = tk_Rank row.
Proof using Type.
  intros Hc. rewrite in_place_insert, Hc. split.
  - intros [(-> & _ & <-)|[Hi H]]; [by right|left]. by apply others_in_place.
  - intros [H|[-> ->]]; [right|by left]. assert (i ≠ id) as Hi; [|split; [done|]; by apply others_in_place in H].
    destruct H as (t & _ & H & _). intros ->. unfold others in H. by rewrite String.eqb_refl, andb_false_r in H.
Qed.

(** In its column, the task is where its rank puts it. *)
Lemma column_put s st : in_column s st row = true → (∀ i, ¬ ranked (others s st id) tasks i (tk_Rank row)) →
  ∃ l1 l2, without id (column s st tasks) = l1 ++ l2 ∧ column s st (<[id:=row]> tasks) = l1 ++ id :: l2 ∧
    (∀ i, i ∈ l1 → ∃ r', ranked (others s st id) tasks i r' ∧ r' < tk_Rank row) ∧
    (∀ i, i ∈ l2 → ∃ r', ranked (others s st id) tasks i r' ∧ tk_Rank row < r') ∧
    (∀ i i' r1 r2, head l2 = Some i → i' ∈ l2 → ranked (others s st id) tasks i r1 → ranked (others s st id) tasks i' r2 → r1 <= r2).
Proof using Type.
  intros Hc Hfree. rewrite <- others_column. apply ordered_place; [done| |intros i r; by apply put_ranked].
  intros r' (t & _ & H & _). unfold others in H. by rewrite String.eqb_refl, andb_false_r in H.
Qed.

(** A rank that fits before a task puts it there. *)
Lemma column_fits s st before : in_column s st row = true → rank_fits (others s st id) tasks before (tk_Rank row) →
  (∀ i j r, ranked (others s st id) tasks i r → ranked (others s st id) tasks j r → i = j) →
  column s st (<[id:=row]> tasks) = put_at before id (without id (column s st tasks)).
Proof using Type.
  intros Hc (Hr & Hfree & Hfit) Hinj. destruct (column_put s st Hc Hfree) as (l1 & l2 & E & -> & H1 & H2 & H3). unfold put_at.
  destruct (empty before).
  - destruct l2 as [|i l2]; [by rewrite E, app_nil_r|]. destruct (H2 i) as (r' & Hi & Hlt); [by left|]. specialize (Hfit i r' Hi). lia.
  - destruct Hfit as (rb & Hb & Hlt & Hnext).
    assert (before ∉ l1) as Hl1.
    { intros Hin. destruct (H1 before Hin) as (r' & Hb' & Hlt'). rewrite (ranked_fun _ _ _ _ _ Hb Hb') in Hlt. lia. }
    assert (before ∈ l2) as Hl2.
    { destruct Hb as (t & Ht & Hbc & _). assert (before ∈ ordered (others s st id) tasks) as Hin by (apply elem_ordered; by exists t).
      rewrite others_column, E in Hin. by apply elem_of_app in Hin as [|]. }
    rewrite E. symmetry. apply put_before_middle; [done|]. destruct l2 as [|h l2]; [by apply not_elem_of_nil in Hl2|]. simpl. f_equal.
    destruct (H2 h) as (rh & Hh & Hlth); [by left|]. apply (Hinj _ _ rb); [|done].
    pose proof (Hnext _ _ Hh Hlth). pose proof (H3 h before rh rb eq_refl Hl2 Hh Hb). by replace rb with rh by lia.
Qed.

(** Behind all others when it is the largest. *)
Lemma column_last s st : in_column s st row = true → max_rank (λ _, in_column s st) tasks < tk_Rank row →
  column s st (<[id:=row]> tasks) = without id (column s st tasks) ++ [id].
Proof using Type.
  intros Hc Hlt. assert (∀ i r, ranked (others s st id) tasks i r → r < tk_Rank row) as Hbelow.
  { intros i r (t & Ht & Ho & <-). apply andb_true_iff in Ho as [Ho _].
    assert (tk_Rank t <= max_rank (λ _, in_column s st) tasks) by (apply (max_rank_le _ _ i); by exists t). lia. }
  destruct (column_put s st Hc) as (l1 & l2 & -> & -> & _ & H2 & _); [intros i Hi; specialize (Hbelow _ _ Hi); lia|].
  destruct l2 as [|i l2]; [by rewrite app_nil_r|]. destruct (H2 i) as (r' & Hi & Hr); [by left|]. specialize (Hbelow _ _ Hi). lia.
Qed.
End table.

Definition lists (tasks : gmap string SpaceTask) : columns := λ s st, column s st tasks.

Lemma lists_of_tasks p : lists_of (pn_Board p) = lists (tasks_of p).
Proof. done. Qed.

Lemma not_in_column s st t : (s, st) ≠ (tk_SpaceID t, tk_Status t) → in_column s st t = false.
Proof. intros H. apply not_true_iff_false. intros (H1 & H2 & _)%in_column_true. congruence. Qed.

Lemma own_column t : tk_ArchivedAt t = None → in_column (tk_SpaceID t) (tk_Status t) t = true.
Proof. intros H. by apply in_column_true. Qed.

Lemma lists_put tasks id row before : let s := tk_SpaceID row in let st := tk_Status row in tk_ArchivedAt row = None →
  column s st (<[id:=row]> tasks) = put_at before id (without id (column s st tasks)) →
  lists (<[id:=row]> tasks) ≡ put_in s st before id (take_out id (lists tasks)).
Proof.
  intros s st Ha Hcol s' st'. unfold lists, put_in, take_out. case_bool_decide as E; [by destruct E as [-> ->]|].
  apply column_elsewhere, not_in_column. intros [= -> ->]. by apply E.
Qed.

Lemma lists_put_last tasks id row : tk_ArchivedAt row = None → max_rank (λ _, in_column (tk_SpaceID row) (tk_Status row)) tasks < tk_Rank row →
  lists (<[id:=row]> tasks) ≡ put_in (tk_SpaceID row) (tk_Status row) "" id (take_out id (lists tasks)).
Proof. intros Ha Hlt. apply lists_put; [done|]. apply column_last; [by apply own_column|done]. Qed.

Lemma take_out_new tasks id : tasks !! id = None → take_out id (lists tasks) ≡ lists tasks.
Proof. intros H s st. apply without_all. unfold lists, column. rewrite elem_ordered. intros (t & Ht & _). congruence. Qed.

Lemma lists_archived tasks id row : tk_ArchivedAt row ≠ None → lists (<[id:=row]> tasks) ≡ take_out id (lists tasks).
Proof. intros Ha s st. apply column_elsewhere. apply not_true_iff_false. by intros (_ & _ & H)%in_column_true. Qed.

(** A task that stays in its place. *)
Lemma lists_same tasks id t row : tasks !! id = Some t → tk_SpaceID row = tk_SpaceID t → tk_Status row = tk_Status t → tk_Rank row = tk_Rank t →
  tk_ArchivedAt row = tk_ArchivedAt t → lists (<[id:=row]> tasks) ≡ lists tasks.
Proof.
  intros Ht H1 H2 H3 H4 s st. apply ordered_ext. intros i r. fold (in_place (<[id:=row]> tasks) s st i r). rewrite in_place_insert.
  assert (in_column s st row = in_column s st t) as E by (unfold in_column; by rewrite H1, H2, H4). rewrite E, H3. unfold in_place.
  destruct (decide (i = id)) as [->|Hne]; [|naive_solver]. split; [intros [(_ & Hc & <-)|[? _]]; [by exists t|done]|].
  intros Hr. destruct Hr as (t' & Ht' & Hc & <-). rewrite Ht in Ht'. injection Ht' as <-. by left.
Qed.

(** Renumbering a column leaves the lists, but for the task that moves. *)
Lemma prepared_lists s st task tasks tasks' : prepared s st task tasks tasks' → take_out task (lists tasks') ≡ take_out task (lists tasks).
Proof.
  intros [->|[-> _]]; [done|]. intros s' st'. unfold take_out, lists. destruct (decide ((s', st') = (s, st))) as [[= -> ->]|Hne].
  - rewrite <- !others_column. apply renumbered_ordered. intros. apply others_rank.
  - f_equal. apply ordered_ext. intros i r. by apply renumbered_elsewhere.
Qed.

(** ** The operations *)

Lemma move_lists actor s task version st before dbnow p row col p' : board_ok None (pn_Board p) →
  MoveSpaceTask actor s task version st before dbnow p = inr ((row, col), p') →
  lists (tasks_of p') ≡ put_in s st before task (take_out task (lists (tasks_of p))) ∧ (before = ""%string ∨ before ≠ task ∧ before ∈ column s st (tasks_of p)).
Proof.
  intros Hb H. apply move_inr in H as (t & tasks' & rank & Ht & Hs & Ha & Hst & Hp & Hrank & Hpos & -> & -> & _).
  apply (prepared_ok (pn_Board p)) in Hp as Hb'; [|done]. rewrite updated_tasks. simpl.
  apply rank_before_fits in Hrank as Hfit; [|apply (bo_rank _ _ Hb')|lia]. simpl in Hfit. split.
  - rewrite <- (prepared_lists s st task (tasks_of p) tasks' Hp). rewrite <- Hs at 1. apply (lists_put tasks' task (placed st rank dbnow t) before); [done|].
    simpl. rewrite Hs. apply column_fits; [by apply in_column_true|done|]. intros i j r Hi Hj.
    assert (∀ k, ranked (others s st task) tasks' k r → k ≠ task) as Hne.
    { intros k (u & _ & Hu & _) ->. unfold others in Hu. by rewrite String.eqb_refl, andb_false_r in Hu. }
    apply (bo_place _ _ Hb' s st i j r); [intros [= E]; by apply (Hne i)|intros [= E]; by apply (Hne j)|..];
      apply (others_in_place s st task); auto.
  - destruct (empty before) eqn:E; [left; by apply bool_decide_eq_true in E|right]. destruct Hfit as (_ & _ & Hfit). rewrite E in Hfit.
    destruct Hfit as (rb & (u & Hu & Hc & _) & _). assert (before ∈ ordered (others s st task) tasks') as Hin by (apply elem_ordered; by exists u).
    rewrite others_column in Hin. change (before ∈ take_out task (lists tasks') s st) in Hin. rewrite (prepared_lists s st task (tasks_of p) tasks' Hp s st) in Hin.
    by apply list_elem_of_filter in Hin.
Qed.

Lemma create_lists known_zone newID actor id item dbnow p row p' : CreateSpaceTask known_zone newID actor id item dbnow p = inr (row, p') →
  tk_Status row ∈ valid_statuses ∧
  lists (tasks_of p') ≡ put_in (tk_SpaceID item) (tk_Status row) "" (or_else id ("task_" +:+ newID)) (lists (tasks_of p)).
Proof.
  intros H. apply create_task_inr in H as (Hid & <- & Ha & _ & (_ & Hst & _) & Hr & _ & (E & _)). split; [done|]. rewrite E. simpl.
  transitivity (put_in (tk_SpaceID row) (tk_Status row) "" (or_else id ("task_" +:+ newID)) (take_out (or_else id ("task_" +:+ newID)) (lists (tasks_of p)))).
  - apply lists_put_last; [done|lia].
  - by rewrite take_out_new.
Qed.

Lemma update_lists known_zone actor id item dbnow p row p' : UpdateSpaceTask known_zone actor id item dbnow p = inr (row, p') →
  let c := lists (tasks_of p) in lists (tasks_of p') ≡ c ∨
  (∃ status, status ∈ valid_statuses ∧ ¬ (id ∈ c (tk_SpaceID item) status) ∧ lists (tasks_of p') ≡ put_in (tk_SpaceID item) status "" id (take_out id c)).
Proof.
  intros H. apply update_inr in H as (t & item' & p1 & st & rank & Ht & Hs & Ha & Hst & (E1 & _) & Hrank & -> & _ & _ & (E3 & _)).
  simpl. rewrite E3, updated_tasks, E1.
  destruct Hrank as [[Es ->]|(Es & -> & _)]; [left; by apply (lists_same _ _ t)|right]. exists st. split; [done|]. split.
  - unfold lists, column. rewrite elem_ordered. intros (t' & Ht' & (_ & E & _)%in_column_true). congruence.
  - rewrite <- Hs. apply (lists_put_last _ id (placed st _ dbnow (described item' t))); [done|]. simpl. lia.
Qed.

Lemma archive_lists actor s id dbnow p t p' : ArchiveSpaceTask actor s id dbnow p = inr (t, p') →
  lists (tasks_of p') ≡ take_out id (lists (tasks_of p)).
Proof.
  intros H. apply archive_inr in H as (u & Hu & [(Ha & -> & _)|(_ & -> & ->)]); [|by apply lists_archived].
  intros s' st'. symmetry. apply without_all. unfold lists, column. rewrite elem_ordered. intros (u' & Hu' & (_ & _ & Hn)%in_column_true). congruence.
Qed.

Lemma create_one_lists actor s id item p t p' : tk_Status item = "todo"%string → tk_SpaceID item = s → create_one actor s id item p = inr (t, p') →
  is_Some (tasks_of p !! id) ∧ p' = p ∨
  tasks_of p !! id = None ∧ tasks_of p' = <[id:=t]> (tasks_of p) ∧ lists (tasks_of p') ≡ put_in s "todo" "" id (lists (tasks_of p)).
Proof.
  intros Hst <- H. apply create_one_inr in H as [(Ht & -> & _)|(Hid & Ht & _ & Hr & _ & _ & ->)]; [left; by eauto|right]. split; [done|]. split; [done|]. simpl.
  assert (tk_SpaceID t = tk_SpaceID item ∧ tk_Status t = "todo"%string ∧ tk_ArchivedAt t = None) as (E1 & E2 & E3) by (rewrite Ht; simpl; by rewrite Hst).
  rewrite <- E1, <- E2 in Hr |- *. change (tasks_of (on_board _ _)) with (<[id:=t]> (tasks_of p)).
  transitivity (put_in (tk_SpaceID t) (tk_Status t) "" id (take_out id (lists (tasks_of p)))); [|by rewrite take_out_new].
  apply lists_put_last; [done|lia].
Qed.

Lemma create_all_lists actor s items p l p' : to_do items → Forall (λ it : string * SpaceTask, tk_SpaceID it.2 = s) items →
  create_all actor s items p = inr (l, p') → ∃ new, new `sublist_of` (items.*1) ∧ NoDup new ∧
  (∀ id, id ∈ new ↔ (id ∈ items.*1 ∧ tasks_of p !! id = None)) ∧ lists (tasks_of p') ≡ put_all s "todo" new (lists (tasks_of p)).
Proof.
  revert p l. induction items as [|[id item] items IH]; intros p l Htd Hs H; simpl in H.
  - injection H as <- <-. exists []. split; [done|]. split; [constructor|]. split; [|done]. intros id. by split; [intros ?%not_elem_of_nil|intros [?%not_elem_of_nil _]].
  - apply Forall_cons in Htd as [H1 Htd]. apply Forall_cons in Hs as [H2 Hs]. tx_bind H as t q G. tx_bind H as l' q2 G2. injection H as <- <-.
    destruct (IH q l' Htd Hs G2) as (new & Hsub & Hnd & Hin & Hl). apply create_one_lists in G as [[[u Hu] ->]|(Hn & E & Hc)]; [..|done|done]; simpl in *.
    + exists new. split; [by apply sublist_cons|]. split; [done|]. split; [|done]. intros i. rewrite Hin, elem_of_cons. naive_solver.
    + assert (∀ i, tasks_of q !! i = None ↔ i ≠ id ∧ tasks_of p !! i = None) as Hq.
      { intros i. rewrite E, lookup_insert_None. naive_solver. }
      exists (id :: new). split; [by apply sublist_skip|]. split; [|split].
      * apply NoDup_cons. split; [|done]. rewrite Hin, Hq. naive_solver.
      * intros i. rewrite !elem_of_cons, Hin, Hq. destruct (decide (i = id)) as [->|]; naive_solver.
      * rewrite Hl, Hc. done.
Qed.

Lemma batch_ids known_zone actor s items items' : batch_items known_zone actor s items = Some items' → items'.*1 = items.*1.
Proof.
  unfold batch_items. intros H. apply mapM_Some in H. induction H as [|x y l l' Hx Hl IH]; [done|]. rewrite !fmap_cons, IH. f_equal.
  destruct (empty x.1); [done|]. destruct (TestingValidateSpaceTask _ _); [|done]. by injection Hx as <-.
Qed.
