(* ===== verification/PlannerDemo.v ===== *)
(** * A small planner

    The planner of a Space with three tasks and a roadmap with two goals, for the
    witnesses. *)
From S2P Require Import Prelude Tx GoStrings GoTime Json Wallet RunStore Contracts SpaceApps Spaces Planner Board RoadmapFields Roadmap PlannerOps.

Definition demo_zone (zone : string) : bool := String.eqb zone "UTC".
Definition demo_size (r : raw) : Z := 100.

(** A Space of ada and bob with the planner app; only this of the directory is used. *)
Definition demo_apps : Catalog :=
  mkCatalog ∅ ∅ ∅ {[ ("space_2", "planner")%string := mkApp "installed" "1" 1 [] 0 1 (mkMetadata "core" [] None "" None) 0 None ]} ∅ ∅ ∅ ∅ ∅ ∅ ∅ ∅ ∅ ∅.

Definition demo_around : Surroundings := Eval vm_compute in mkSurroundings
  (mkWorld ∅ ∅ {[ "space_2"%string := mkSpaceRow "ada" "Team" false "active" None ]}
     {[ ("space_2", "ada")%string := "owner"%string; ("space_2", "bob")%string := "member"%string ]} ∅ ∅ ∅ ∅ ∅ ∅ ∅ (Wallet.mkDB ∅ ∅ ∅ ∅ ∅ ∅ ∅ ∅) demo_apps)
  ∅ ∅ ∅ ∅.

Definition demo_item (title status : string) (version : Z) : SpaceTask :=
  mkTask "space_2" 0 "" title "" status "" 0 "" "" None "" RNil "" "" "" "" "" "" version None None.

Definition demo_tasks : list planner_op :=
  [OpCreateTask "1" "ada" "a" (demo_item "First" "todo" 0) 1; OpCreateTask "2" "ada" "b" (demo_item "Second" "todo" 0) 2;
   OpCreateTask "3" "bob" "c" (demo_item "Third" "todo" 0) 3].

Definition demo_board : Planner := executes demo_zone demo_size demo_tasks (no_planner demo_around).

Definition demo_move : planner_op := OpMoveTask "ada" "space_2" "c" 1 "todo" "a" 4.
Definition demo_moved : Planner := exec demo_zone demo_size demo_move demo_board.

Definition demo_goal (title : string) : Goal := mkGoal "" "" "milestone_1" title "" None 0 (NInt 0) (NInt 0) None "" 0 false.
Definition demo_edge (source target : string) : RoadmapEdge :=
  mkEdge "" "" (mkEndpoint "goal" source) (mkEndpoint "goal" target) "depends_on" "" 0.

Definition demo_plans : list planner_op :=
  [OpCreateRoadmap "1" "1" "ada" "space_2" "Plan" "" (mkAudience "space" ""); OpCreateGoal "1" "ada" "space_2" "roadmap_1" (demo_goal "Ship") 1;
   OpCreateGoal "2" "ada" "space_2" "roadmap_1" (demo_goal "Test") 2; OpGoalTasks "ada" "space_2" "roadmap_1" "goal_1" ["a"; "b"]%string 3].

Definition demo_plan : Planner := executes demo_zone demo_size demo_plans demo_board.

Definition demo_save : planner_op := OpSaveEdge "1" "ada" "space_2" "roadmap_1" "" (demo_edge "goal_1" "goal_2") "" "" 4.
Definition demo_linked : Planner := exec demo_zone demo_size demo_save demo_plan.

Abbreviation demo_reaches := (reachable demo_zone demo_size).

Lemma demo_board_reachable : demo_reaches demo_board.
Proof. apply reachable_executes; [by repeat constructor|constructor]. Qed.

Lemma demo_plan_reachable : demo_reaches demo_plan.
Proof. apply reachable_executes; [by repeat constructor|apply demo_board_reachable]. Qed.

Lemma demo_linked_reachable : demo_reaches demo_linked.
Proof. apply reach_op; [apply demo_plan_reachable|done]. Qed.

Definition succeeds (op : planner_op) (p : Planner) : bool := match body demo_zone demo_size op p with inl _ => false | inr _ => true end.

Lemma succeeds_exec op p : succeeds op p = true → body demo_zone demo_size op p = inr ((), exec demo_zone demo_size op p).
Proof. unfold succeeds, exec, run. by destruct (body demo_zone demo_size op p) as [e|[[] q]]. Qed.

Lemma demo_moves : body demo_zone demo_size demo_move demo_board = inr ((), demo_moved).
Proof. apply succeeds_exec. vm_compute. reflexivity. Qed.

Lemma demo_links : body demo_zone demo_size demo_save demo_plan = inr ((), demo_linked).
Proof. apply succeeds_exec. vm_compute. reflexivity. Qed.

Lemma demo_order : column "space_2" "todo" (bd_Tasks (pn_Board demo_moved)) = ["c"; "a"; "b"]%string.
Proof. vm_compute. reflexivity. Qed.
