(* ===== verification/BoardProps.v ===== *)
(** * Properties of the board

    The ranked board is the board of lists ([BoardRefine]), a move succeeds whenever
    there is a rank left, rows keep their identity and tombstones stay, and a batch
    can be sent again. *)
From S2P Require Import Prelude Tx GoStrings GoTime Json RunStore Contracts SpaceApps Spaces Planner Board RoadmapFields Roadmap PlannerOps.
From S2P Require Import BoardInv BoardMoves PlannerInv BoardRefine PlannerDemo.

(** ** The history of rows *)

(** A later row of a task: the same task, changed only while it is not archived. *)
Definition follows (t t' : SpaceTask) : Prop :=
  tk_SpaceID t' = tk_SpaceID t ∧ tk_TaskNumber t' = tk_TaskNumber t ∧ tk_TaskKey t' = tk_TaskKey t ∧
  tk_CreatedByUserID t' = tk_CreatedByUserID t ∧ tk_AudienceKind t' = tk_AudienceKind t ∧
  tk_AudienceConversationID t' = tk_AudienceConversationID t ∧ tk_Version t <= tk_Version t' ∧ (tk_ArchivedAt t ≠ None → t' = t).

#[export] Instance follows_preorder : PreOrder follows.
Proof.
  split; [by repeat split|]. intros t1 t2 t3 (A1 & A2 & A3 & A4 & A5 & A6 & A7 & A8) (B1 & B2 & B3 & B4 & B5 & B6 & B7 & B8).
  repeat split; try congruence; [lia|]. intros H. rewrite <- (A8 H). apply B8. by rewrite (A8 H).
Qed.

Definition continues (tasks tasks' : gmap string SpaceTask) : Prop := ∀ id t, tasks !! id = Some t → ∃ t', tasks' !! id = Some t' ∧ follows t t'.

#[export] Instance continues_preorder : PreOrder continues.
Proof.
  split; [by intros tasks id t Ht; exists t|]. intros m1 m2 m3 H1 H2 id t Ht. destruct (H1 id t Ht) as (t2 & Ht2 & F1). destruct (H2 id t2 Ht2) as (t3 & Ht3 & F2).
  exists t3. split; [done|]. by transitivity t2.
Qed.

Lemma continues_put tasks id t row : tasks !! id = Some t → follows t row → continues tasks (<[id:=row]> tasks).
Proof.
  intros Ht Hrow i u Hu. destruct (decide (i = id)) as [->|Hne]; [|exists u; by rewrite lookup_insert_ne].
  exists row. rewrite lookup_insert_eq. split; [done|]. congruence.
Qed.

Lemma continues_new tasks id row : tasks !! id = None → continues tasks (<[id:=row]> tasks).
Proof. intros Hn i u Hu. exists u. split; [|done]. rewrite lookup_insert_ne; [done|congruence]. Qed.

Lemma placed_follows st r dbnow t : tk_ArchivedAt t = None → follows t (placed st r dbnow t).
Proof. intros Ha. repeat split; simpl; [lia|done]. Qed.

Lemma described_follows item t : tk_ArchivedAt t = None → follows t (described item t).
Proof. intros Ha. repeat split; simpl; [lia|done]. Qed.

Lemma archived_follows dbnow t : tk_ArchivedAt t = None → follows t (archived dbnow t).
Proof. intros Ha. repeat split; simpl; [lia|done]. Qed.

Lemma prepared_continues s st task tasks tasks' : prepared s st task tasks tasks' → continues tasks tasks'.
Proof.
  intros [->|[-> _]]; [done|]. intros i t Ht. rewrite renumbered_lookup, Ht. simpl. eexists. split; [done|].
  destruct (number_of _ i) as [r|] eqn:E; [|done]. apply (number_of_in _ _ _ _ _ _ t) in E as [Hc _]; [|done]. apply in_column_true in Hc as (_ & _ & Ha). done.
Qed.

Lemma continues_sub tasks tasks' : tasks ⊆ tasks' → continues tasks tasks'.
Proof. intros Hsub id t Ht. exists t. split; [|done]. by apply (lookup_weaken tasks). Qed.

(** A batch only adds tasks. *)
Lemma create_one_adds actor s id item p t p' : create_one actor s id item p = inr (t, p') →
  tasks_of p ⊆ tasks_of p' ∧ pn_Around p' = pn_Around p ∧ tasks_of p' !! id = Some t.
Proof.
  intros H. apply create_one_inr in H as [(Ht & -> & _)|(Hn & _ & _ & _ & _ & _ & ->)]; [done|]. split; [by apply insert_subseteq|].
  split; [done|]. apply lookup_insert_eq.
Qed.

Lemma create_all_adds actor s items p l p' : create_all actor s items p = inr (l, p') → tasks_of p ⊆ tasks_of p' ∧ pn_Around p' = pn_Around p.
Proof.
  revert p l. induction items as [|[id item] items IH]; intros p l H; simpl in H; [by injection H as <- <-|].
  tx_bind H as t q G. tx_bind H as l' q2 G2. injection H as <- <-. apply create_one_adds in G as (G1 & G3 & _). apply IH in G2 as [G2 G4].
  split; [by transitivity (tasks_of q)|congruence].
Qed.

Section history.
Context (known_zone : string → bool) (jsonb_size : raw → Z).
Abbreviation body := (body known_zone jsonb_size).
Abbreviation exec := (exec known_zone jsonb_size).
Abbreviation executes := (executes known_zone jsonb_size).
Abbreviation reachable := (reachable known_zone jsonb_size).

Lemma body_continues op p p' : body op p = inr ((), p') → continues (tasks_of p) (tasks_of p').
Proof.
  intros H. destruct (on_tasks op) eqn:E; [|apply (roadmap_ops_off _ _ op E) in H as [Hb _]; unfold tasks_of; by rewrite Hb].
  destruct op; try done; simpl in H; try apply void_done in H as [x H].
  - by injection H as <-.
  - by injection H as <-.
  - apply create_task_inr in H as (Hid & _ & _ & _ & _ & _ & _ & (-> & _)). by apply continues_new.
  - unfold CreateSpaceTaskBatch in H. tx_guard H as G. tx_require H as items' Hi. apply reading_bind in H as [_ H]. apply continues_sub. by eapply create_all_adds.
  - apply update_inr in H as (t & item' & p1 & st & rank & Ht & Hs & Ha & Hst & (E1 & _) & _ & -> & _ & _ & (-> & _)). rewrite updated_tasks, E1.
    eapply continues_put; [done|]. transitivity (described item' t); [by apply described_follows|by apply placed_follows].
  - destruct x as [row col]. apply move_inr in H as (t & tasks' & rank & Ht & Hs & Ha & Hst & Hp & _ & _ & -> & -> & _). rewrite updated_tasks. simpl.
    transitivity tasks'; [by eapply prepared_continues|]. eapply continues_put; [by eapply prepared_self|by apply placed_follows].
  - apply archive_inr in H as (u & Hu & [(_ & -> & _)|(Ha & -> & ->)]); [done|]. eapply continues_put; [done|by apply archived_follows].
Qed.

Lemma executes_continues ops p : continues (tasks_of p) (tasks_of (executes ops p)).
Proof.
  revert p. induction ops as [|op ops IH]; intros p; [done|]. simpl. transitivity (tasks_of (exec op p)); [|apply IH].
  destruct (op_cases known_zone jsonb_size op p) as [->|H]; [done|]. by eapply body_continues.
Qed.
End history.

(** ** Sending a batch again *)

(** What only reads at [p] and does the same at [q]. *)
Class Repeats {A} (p q : Planner) (m : P A) : Prop := repeats x p' : m p = inr (x, p') → p' = p ∧ m q = inr (x, q).

#[export] Instance repeats_ret {A} p q (x : A) : Repeats p q (mret x).
Proof. by intros y p' [= -> ->]. Qed.
#[export] Instance repeats_guard p q b e : Repeats p q (guard_tx b e : P ()).
Proof. intros x p' H. apply guard_inr in H as [-> ->]. by destruct x. Qed.
#[export] Instance repeats_require {A} p q (o : option A) e : Repeats p q (require o e : P A).
Proof. intros x p' H. by apply require_inr in H as [-> ->]. Qed.
#[export] Instance repeats_bind {A B} p q (m : P A) (f : A → P B) : Repeats p q m → (∀ a, Repeats p q (f a)) → Repeats p q (m ≫= f).
Proof.
  intros Hm Hf x p' H. apply bind_inr in H as (a & r & H1 & H2). apply Hm in H1 as [-> H1]. apply Hf in H2 as [-> H2]. split; [done|].
  apply bind_inr. by exists a, q.
Qed.
#[export] Instance repeats_failing {A} p q (m : P A) e : Repeats p q m → Repeats p q (failing_as m e).
Proof. intros Hm x p' H. apply failing_inr in H. apply Hm in H as [-> H]. split; [done|]. unfold failing_as. by rewrite H. Qed.

(** A check that holds at [q] when it holds at [p]. *)
Lemma repeats_checked p q (b b' : bool) e u p' : (b = true → b' = true) → (guard_tx b e : P ()) p = inr (u, p') →
  p' = p ∧ (guard_tx b' e : P ()) q = inr (u, q).
Proof. intros Hb H. apply guard_inr in H as [H ->]. by destruct u; rewrite Hb. Qed.

Section again.
Context (p q : Planner) (Haround : pn_Around q = pn_Around p).

#[local] Instance repeats_reading {A} (m : SpaceApps.C A) : Repeats p q (reading m).
Proof using Haround. intros x p'. unfold reading. rewrite Haround. destruct (m _) as [e|[y c]]; [done|]. by intros [= -> <-]. Qed.

#[local] Instance repeats_view actor s perm : Repeats p q (require_view actor s perm).
Proof using Haround. unfold require_view. apply _. Qed.

Context (id : string) (Hid : ∀ t, tasks_of p !! id = Some t → tasks_of q !! id = Some t).

Lemma attachment_again actor s rid : task_attachment_available p actor s id rid = true → task_attachment_available q actor s id rid = true.
Proof using Haround Hid.
  unfold task_attachment_available. rewrite Haround. destruct (su_Attachments _ !! rid) as [a|]; [|done]. unfold tasks_of in Hid. destruct (bd_Tasks (pn_Board p) !! id) as [t|].
  - by rewrite (Hid t eq_refl).
  - rewrite orb_false_r. rewrite !andb_true_iff. intros [H1 ->]. by split.
Qed.

#[local] Instance repeats_check_ref actor s kind rid : Repeats p q (check_ref actor s id kind rid).
Proof using Haround Hid.
  intros x p' H. unfold check_ref in *. tx_get H. rewrite (bind_at get _ q q q eq_refl). destruct (empty kind); [by apply (repeats_ret p q ())|].
  destruct (String.eqb kind "library_item").
  { revert H. unfold item_available. rewrite Haround. apply (repeats (p:=p) (q:=q)). }
  destruct (String.eqb kind "task_attachment"); [eapply repeats_checked; [apply attachment_again|exact H]|].
  destruct (String.eqb kind "chat_attachment"); [|done]. revert H. unfold chat_attachment_available. rewrite Haround. apply (repeats (p:=p) (q:=q)).
Qed.

#[local] Instance repeats_check_refs actor s refs : Repeats p q (check_refs actor s id refs).
Proof using Haround Hid. induction refs as [|[kind rid] refs IH]; simpl; apply _. Qed.

#[local] Instance repeats_source_refs actor s refs : Repeats p q (validateTaskSourceRefsTx actor s id refs).
Proof using Haround Hid. unfold validateTaskSourceRefsTx. apply _. Qed.

Lemma create_one_again actor s item t p' : tk_SpaceID item = s → create_one actor s id item p = inr (t, p') → tasks_of q !! id = Some t →
  create_one actor s id item q = inr (t, q).
Proof using Haround Hid.
  intros Hs H Hq. apply create_one_inr in H as Hrow. unfold create_one in *. tx_bind H as y r G.
  apply (repeats (p:=p) (q:=q)) in G as [-> G]. rewrite (bind_at _ _ _ _ _ G), (bind_at get _ q q q eq_refl).
  unfold tasks_of in Hq. rewrite Hq. assert (tk_SpaceID t = s ∧ tk_ArchivedAt t = None) as [-> ->]; [|by rewrite String.eqb_refl].
  destruct Hrow as [(_ & _ & ? & ?)|(_ & -> & _)]; [done|]. done.
Qed.
End again.

Lemma create_all_again actor s items p l p' q : Forall (λ it : string * SpaceTask, tk_SpaceID it.2 = s) items →
  create_all actor s items p = inr (l, p') → pn_Around q = pn_Around p →
  (∀ id t, id ∈ items.*1 → tasks_of p' !! id = Some t → tasks_of q !! id = Some t) → create_all actor s items q = inr (l, q).
Proof.
  revert p l. induction items as [|[id item] items IH]; intros p l Hs H Ha Hk; cbn [create_all] in *; [by injection H as <- <-|].
  apply Forall_cons in Hs as [H1 Hs]. tx_bind H as t r G. tx_bind H as l' r2 G2. injection H as <- <-.
  pose proof (create_one_adds _ _ _ _ _ _ _ G) as (Hpr & Har & Ht). pose proof (create_all_adds _ _ _ _ _ _ G2) as [Hrp _].
  assert (tasks_of q !! id = Some t) as Hq by (apply Hk; [by left|]; by apply (lookup_weaken (tasks_of r))).
  apply bind_inr. exists t, q. split; [|apply bind_inr; exists l', q; split; [|done]].
  - apply (create_one_again p q Ha id) with r; [|done..]. intros u Hu. apply Hk; [by left|]. apply (lookup_weaken (tasks_of r)); [|done].
    by apply (lookup_weaken (tasks_of p)).
  - apply (IH r); [done|done|congruence|]. intros i u Hi. apply Hk. by right.
Qed.

Lemma batch_around known_zone actor s items p l p' : CreateSpaceTaskBatch known_zone actor s items p = inr (l, p') → pn_Around p' = pn_Around p.
Proof.
  unfold CreateSpaceTaskBatch. intros H. tx_guard H as G. tx_require H as items' Hi. apply reading_bind in H as [_ H]. eapply create_all_adds, H.
Qed.

(** ** A move has room *)

(** The target of a move: behind the column, or a task of it other than the moved one. *)
Definition has_place (s st task before : string) (tasks : gmap string SpaceTask) : Prop :=
  if empty before then max_rank (others s st task) tasks + 1024 <= MaxInt64 else ∃ r, ranked (others s st task) tasks before r.

Lemma rank_before_ret s task st before p : has_place s st task before (tasks_of p) → ∃ r, taskRankBefore s task st before p = inr (r, p).
Proof.
  unfold has_place, taskRankBefore, tasks_of. rewrite (bind_at get _ p p p eq_refl). destruct (empty before); [by eexists|].
  intros (rb & t & Ht & Hc & _). rewrite Ht. simpl. eexists. apply bind_inr. exists t, p. split; [done|]. apply bind_inr. exists (), p. by rewrite Hc.
Qed.

(** The rank is zero only between tasks without room. *)
Lemma rank_before_room s task st before p r : board_ok None (pn_Board p) → has_place s st task before (tasks_of p) →
  taskRankBefore s task st before p = inr (r, p) → 1 <= r ∨ r = 0 ∧ empty before = false.
Proof.
  intros Hb Hp H. apply taskRankBefore_inr in H as [_ H]. unfold has_place, tasks_of in *. destruct (empty before).
  - left. rewrite H. pose proof (max_rank_nonneg (others s st task) (bd_Tasks (pn_Board p))). rewrite wrap64_id; unfold in64, MinInt64, MaxInt64 in *; lia.
  - destruct H as (rb & prev & _ & _ & H1 & _ & ->). destruct (Z.leb_spec (rb - prev) 1); [by right|left]. pose proof (Z.div_le_lower_bound (rb - prev) 2 1 ltac:(lia) ltac:(lia)). lia.
Qed.

(** After renumbering there is room between any two tasks. *)
Lemma renumbered_room s task st before p r : let tasks := renumbered (ordered (others s st task) (tasks_of p)) (tasks_of p) in
  empty before = false → taskRankBefore s task st before (with_tasks tasks p) = inr (r, with_tasks tasks p) → 1 <= r.
Proof.
  intros tasks Hbefore H. apply taskRankBefore_inr in H as [_ H]. rewrite Hbefore in H.
  destruct H as (rb & prev & Hb & _ & H0 & Hprev & ->). simpl in Hb, Hprev. fold tasks in Hb, Hprev.
  apply (renumbered_ranked (others s st task) (others_rank s st task)) in Hb. apply number_of_bounds in Hb as Hbb.
  assert (rb - prev >= 1024) as Hroom; [|destruct (Z.leb_spec (rb - prev) 1); [lia|pose proof (Z.div_le_lower_bound (rb - prev) 2 1 ltac:(lia) ltac:(lia)); lia]].
  destruct Hprev as [->|(i & Hi & Hlt)]; [lia|]. apply (renumbered_ranked (others s st task) (others_rank s st task)) in Hi.
  pose proof (number_of_apart _ _ _ _ _ Hi Hb Hlt). lia.
Qed.

(** Renumbering keeps the target. *)
Lemma renumbered_place s task st before tasks : empty before = false → has_place s st task before tasks →
  has_place s st task before (renumbered (ordered (others s st task) tasks) tasks).
Proof.
  unfold has_place. intros -> (r & t & Ht & Hc & _). assert (before ∈ ordered (others s st task) tasks) as Hin by (apply elem_ordered; by exists t).
  rewrite <- (renumbered_ordered (others s st task) (others_rank s st task)) in Hin. apply elem_ordered in Hin as (u & Hu & Hcu). by exists (tk_Rank u), u.
Qed.

Lemma update_task_ret id old new p : 1 <= tk_Rank new → array_refs (tk_SourceRefs new) = true → ∃ p', update_task id old new p = inr ((), p').
Proof.
  intros H1 H2. unfold update_task, check_row. rewrite H2. assert ((0 <? tk_Rank new) = true) as -> by (apply Z.ltb_lt; lia).
  unfold reopen_trigger, when. destruct (_ && _); by eexists.
Qed.

(** The rank of a move, renumbering the column when it has no room. *)
Lemma move_rank s task st before p : board_ok None (pn_Board p) → has_place s st task before (tasks_of p) →
  1024 * len (column s st (tasks_of p)) <= MaxInt64 → ∃ rank q, (rank ← taskRankBefore s task st before;
    if rank =? 0 then rebalanceTaskColumn s st task;; rank ← failing_as (taskRankBefore s task st before) (RunErr ErrSpaceConflict);
                      guard_tx (negb (rank =? 0)) (RunErr ErrSpaceConflict);; mret rank
    else mret rank) p = inr (rank, q) ∧ 1 <= rank.
Proof.
  intros Hb Hplace Hlen.
  destruct (rank_before_ret s task st before p Hplace) as [r Hr]. rewrite (bind_at (taskRankBefore s task st before) _ p r p Hr).
  destruct (rank_before_room _ _ _ _ _ _ Hb Hplace Hr) as [H|[-> Hbefore]].
  { exists r, p. assert ((r =? 0) = false) as -> by (apply Z.eqb_neq; lia). done. }
  set (tasks := renumbered (ordered (others s st task) (tasks_of p)) (tasks_of p)).
  pose proof (renumbered_place s task st before _ Hbefore Hplace) as Hplace'.
  destruct (rank_before_ret s task st before (with_tasks tasks p) Hplace') as [r2 Hr2]. pose proof (renumbered_room _ _ _ _ _ _ Hbefore Hr2).
  exists r2, (with_tasks tasks p). split; [|done]. apply bind_inr. exists (), (with_tasks tasks p). split.
  - unfold rebalanceTaskColumn. rewrite (bind_at get _ p p p eq_refl). apply bind_inr. eexists _, p. split; [|done].
    unfold bigint. fold (tasks_of p). rewrite others_column. assert ((1024 * len (without task (column s st (tasks_of p))) <=? MaxInt64) = true) as ->; [|done].
    apply Z.leb_le. unfold without, len in *. pose proof (length_filter (λ i, i ≠ task) (column s st (tasks_of p))). lia.
  - apply bind_inr. exists r2, (with_tasks tasks p). split; [unfold failing_as; by rewrite Hr2|]. apply bind_inr. exists (), (with_tasks tasks p).
    assert ((r2 =? 0) = false) as -> by (apply Z.eqb_neq; lia). done.
Qed.

Lemma move_returns actor s task version st before dbnow p t c : board_ok None (pn_Board p) →
  requireSpacePermissionTx actor s PermissionTasksManage (catalog (su_World (pn_Around p))) = inr ((), c) →
  1 <= version → one_of st valid_statuses = true → task ≠ ""%string →
  tasks_of p !! task = Some t → tk_SpaceID t = s → tk_ArchivedAt t = None → has_place s st task before (tasks_of p) →
  1024 * len (column s st (tasks_of p)) <= MaxInt64 → ∃ row col p', MoveSpaceTask actor s task version st before dbnow p = inr ((row, col), p').
Proof.
  intros Hb Hperm Hv Hst Hne Ht Hs Ha Hplace Hlen.
  destruct (move_rank s task st before p Hb Hplace Hlen) as (rank & q & Hrank & Hpos).
  destruct (bo_row _ _ Hb task t Ht) as (_ & _ & _ & Hrefs).
  destruct (update_task_ret task t (placed st rank dbnow t) q Hpos Hrefs) as [p' Hp']. apply bind_inr in Hrank as (r1 & q1 & Hr1 & Hr2).
  eexists _, _, p'. unfold MoveSpaceTask. apply bind_inr. exists (), p. split.
  { apply guard_inr. split; [|done]. apply Z.leb_le in Hv. rewrite Hv, Hst. unfold empty. by rewrite bool_decide_eq_false_2. }
  apply bind_inr. exists (), p. split; [unfold reading; by rewrite Hperm|]. apply bind_inr. exists t, p. split.
  { unfold lockActiveSpaceTaskTx. apply bind_inr. exists p, p. split; [done|]. apply bind_inr. exists t, p. unfold tasks_of in Ht. rewrite Ht. split; [done|].
    by rewrite Hs, Ha, String.eqb_refl. }
  apply bind_inr. exists r1, q1. split; [done|]. apply bind_inr. exists rank, q. split; [done|]. apply bind_inr. by exists (), p'.
Qed.

(** ** The theorems *)

Section theorems.
Context (known_zone : string → bool) (jsonb_size : raw → Z).
Abbreviation body := (body known_zone jsonb_size).
Abbreviation executes := (executes known_zone jsonb_size).
Abbreviation reachable := (reachable known_zone jsonb_size).


(** In every reachable planner the tasks of a column have ranks of their own,
    between 1 and the largest [bigint], the numbers of a Space's tasks are unique and
    at most its counter, a task's key is made from its number, its status is one of
    four, and it has a completion time just when it is done. *)
Theorem board_sound p : reachable p →
  (∀ id t, tasks_of p !! id = Some t → 1 <= tk_Rank t <= MaxInt64 ∧ 1 <= tk_TaskNumber t <= default 0 (bd_Counters (pn_Board p) !! tk_SpaceID t) ∧
    tk_TaskKey t = task_key (tk_TaskNumber t) ∧ tk_Status t ∈ valid_statuses ∧ (tk_CompletedAt t = None ↔ tk_Status t ≠ "done"%string)) ∧
  (∀ i j t u, tasks_of p !! i = Some t → tasks_of p !! j = Some u → tk_SpaceID t = tk_SpaceID u → i ≠ j →
    tk_TaskNumber t ≠ tk_TaskNumber u ∧
    (in_column (tk_SpaceID t) (tk_Status t) t = true → in_column (tk_SpaceID t) (tk_Status t) u = true → tk_Rank t ≠ tk_Rank u)).
Proof.
  intros [H1 H2 H0 H3 H4 H5]%reachable_board. split.
  - intros id t Ht. destruct (H5 id t Ht) as (R1 & R2 & R3 & _). split; [by apply (H1 id)|]. split; [by apply (H3 id)|done].
  - intros i j t u Ht Hu Hs Hij. split; [intros Hn; by apply Hij, (H4 i j t u)|]. intros Hct Hcu Hr. apply Hij.
    apply (H2 (tk_SpaceID t) (tk_Status t) i j (tk_Rank t)); [done|done|by exists t|by exists u].
Qed.

(** C34: a move by a member with the permission of a live task to a place in a column
    returns, in every reachable planner: where two neighbours leave no rank between
    them, renumbering the column makes room. *)
Theorem move_succeeds p actor s task version st before dbnow t c : reachable p →
  requireSpacePermissionTx actor s PermissionTasksManage (catalog (su_World (pn_Around p))) = inr ((), c) →
  1 <= version → one_of st valid_statuses = true → task ≠ ""%string →
  tasks_of p !! task = Some t → tk_SpaceID t = s → tk_ArchivedAt t = None → has_place s st task before (tasks_of p) →
  1024 * len (column s st (tasks_of p)) <= MaxInt64 →
  ∃ row p', MoveSpaceTask actor s task version st before dbnow p = inr ((row, column s st (tasks_of p')), p').
Proof.
  intros Hp%reachable_board Hperm Hv Hst Hne Ht Hs Ha Hplace Hlen.
  destruct (move_returns actor s task version st before dbnow p t c) as (row & col & p' & H); [done..|].
  pose proof H as Hm. apply move_inr in Hm as (? & ? & ? & _ & _ & _ & _ & _ & _ & _ & _ & _ & ->). by exists row, p'.
Qed.

(** C35: a task stays: whatever happens, its row remains with its Space, number, key,
    creator and audience, its version never decreases, and from the moment it is
    archived the row never changes again. *)
Theorem task_history p ops id t : tasks_of p !! id = Some t → ∃ t', tasks_of (executes ops p) !! id = Some t' ∧
  tk_SpaceID t' = tk_SpaceID t ∧ tk_TaskNumber t' = tk_TaskNumber t ∧ tk_TaskKey t' = tk_TaskKey t ∧
  tk_CreatedByUserID t' = tk_CreatedByUserID t ∧ tk_AudienceKind t' = tk_AudienceKind t ∧
  tk_AudienceConversationID t' = tk_AudienceConversationID t ∧ tk_Version t <= tk_Version t' ∧ (tk_ArchivedAt t ≠ None → t' = t).
Proof. intros Ht. exact (executes_continues known_zone jsonb_size ops p id t Ht). Qed.

(** A batch can be sent again: while the directory and the files are as they were
    and the batch's tasks are untouched, the same request returns the same tasks and
    changes nothing, whatever happened to other tasks in between. *)
Theorem batch_replay p q actor s items l p' : CreateSpaceTaskBatch known_zone actor s items p = inr (l, p') → pn_Around q = pn_Around p →
  (∀ id, id ∈ items.*1 → tasks_of q !! id = tasks_of p' !! id) → CreateSpaceTaskBatch known_zone actor s items q = inr (l, q).
Proof.
  unfold CreateSpaceTaskBatch. intros H Ha Hk. tx_bind H as u r G. apply guard_inr in G as [G ->]. apply bind_inr. exists (), q. split; [by rewrite G|].
  tx_bind H as items' r Hi. apply require_inr in Hi as [Hi ->]. apply bind_inr. exists items', q. split; [by rewrite Hi|].
  tx_bind H as v r Hr. destruct (repeats_reading p q Ha _ _ _ Hr) as [-> Hq]. apply bind_inr. exists v, q. split; [done|].
  apply (create_all_again actor s items' p l p'); [|done|done|].
  - clear -Hi. unfold batch_items in Hi. apply mapM_Some in Hi. induction Hi as [|x y l l' Hx Hl IH]; [done|]. constructor; [|done].
    destruct (empty x.1); [done|]. destruct (TestingValidateSpaceTask _ _) as [item|] eqn:E; [|done]. injection Hx as <-. by apply valid_status in E as (_ & E & _).
  - intros id t Hin Ht. rewrite (batch_ids _ _ _ _ _ Hi) in Hin. by rewrite (Hk id Hin).
Qed.
End theorems.

(** ** Witnesses *)


Lemma board_sound_witness : ∃ t, tasks_of demo_board !! "b"%string = Some t ∧ tk_TaskKey t = task_key (tk_TaskNumber t).
Proof.
  destruct (tasks_of demo_board !! "b"%string) as [t|] eqn:E; [|vm_compute in E; discriminate]. exists t. split; [reflexivity|].
  apply (proj1 (board_sound demo_zone demo_size demo_board demo_board_reachable) "b"%string t E).
Defined.

Lemma demo_task_c : ∃ t, tasks_of demo_board !! "c"%string = Some t ∧ tk_SpaceID t = "space_2"%string ∧ tk_ArchivedAt t = None ∧ tk_Version t = 1.
Proof. vm_compute. eexists. repeat split. Qed.
Lemma demo_place : has_place "space_2" "todo" "c" "a" (tasks_of demo_board).
Proof. unfold has_place. simpl. exists 1024. unfold ranked. vm_compute. eexists. repeat split. Qed.
Lemma demo_permission : ∃ c, requireSpacePermissionTx "bob" "space_2" PermissionTasksManage (catalog (su_World (pn_Around demo_board))) = inr ((), c).
Proof. vm_compute. eexists. reflexivity. Qed.

Lemma move_succeeds_witness : ∃ row p', MoveSpaceTask "bob" "space_2" "c" 1 "todo" "a" 4 demo_board =
  inr ((row, column "space_2" "todo" (tasks_of p')), p').
Proof.
  destruct demo_task_c as (t & Ht & Hs & Ha & _). destruct demo_permission as [c Hc].
  apply (move_succeeds demo_zone demo_size demo_board "bob" "space_2" "c" 1 "todo" "a" 4 t c demo_board_reachable Hc);
    [lia|reflexivity|discriminate|exact Ht|exact Hs|exact Ha|exact demo_place|vm_compute; discriminate].
Defined.

Definition demo_archive : list planner_op := [OpArchiveTask "bob" "space_2" "c" 5; OpMoveTask "ada" "space_2" "c" 2 "done" "" 6].

Lemma task_history_witness : ∃ t', tasks_of (executes demo_zone demo_size demo_archive demo_board) !! "c"%string = Some t' ∧ 1 <= tk_Version t'.
Proof.
  destruct demo_task_c as (t & Ht & _ & _ & Hv). destruct (task_history demo_zone demo_size demo_board demo_archive "c" t Ht) as (t' & H1 & H).
  exists t'. split; [exact H1|]. rewrite <- Hv. apply H.
Defined.

Definition demo_batch : list (string * SpaceTask) := [("d", demo_item "Fourth" "" 0); ("e", demo_item "Fifth" "" 0)]%string.
Lemma demo_batch_runs : match CreateSpaceTaskBatch demo_zone "bob" "space_2" demo_batch demo_board with inl _ => false | inr _ => true end = true.
Proof. vm_compute. reflexivity. Qed.

Lemma batch_replay_witness : ∃ l p', CreateSpaceTaskBatch demo_zone "bob" "space_2" demo_batch p' = inr (l, p').
Proof.
  pose proof demo_batch_runs as Hr. destruct (CreateSpaceTaskBatch demo_zone "bob" "space_2" demo_batch demo_board) as [e|[l p']] eqn:E; [discriminate|].
  exists l, p'. exact (batch_replay demo_zone demo_board p' "bob" "space_2" demo_batch l p' E (batch_around _ _ _ _ _ _ _ E) (λ _ _, eq_refl)).
Defined.
