(* ===== verification/RoadmapEdits.v ===== *)
(** * What the operations write

    Every operation on roadmaps is a sequence of edits of the tables, each with what
    the code has checked at that point.  Invariants of roadmaps are proved of single
    edits. *)
From S2P Require Import Prelude Tx GoStrings Json RunStore Contracts SpaceApps Spaces Planner Board RoadmapFields Roadmap PlannerOps.
From S2P Require Import BoardInv BoardMoves PlannerInv.

(** ** Conditions *)

Definition roadmap_in (m : Maps) (s r : string) : Prop := ∃ row, mp_Roadmaps m !! r = Some row ∧ rm_SpaceID row = s.

(** The milestone is live, in this roadmap. *)
Definition milestone_in (m : Maps) (r id : string) : Prop := ∃ x, mp_Milestones m !! id = Some x ∧ ms_RoadmapID x = r ∧ ms_Archived x = false.

(** The fields of a schema, whatever the length of its text. *)
Definition schema_fields (r : raw) : option (list FieldDefinition) := decodeRoadmapFieldSchema 0 r.

(** The values of a custom node have the types of its definition's fields; another
    node has no definition. *)
Definition node_typed (m : Maps) (n : RoadmapNode) : Prop :=
  validRoadmapNodeKind (rn_Kind n) = true ∧ is_object (rn_Values n) = true ∧
  if String.eqb (rn_Kind n) "custom"
  then ∃ d fields, mp_Definitions m !! rn_DefinitionID n = Some d ∧ nd_SpaceID d = rn_SpaceID n ∧ schema_fields (nd_Schema d) = Some fields ∧
         values_typed (rn_Values n) fields = true
  else rn_DefinitionID n = ""%string.

(** The endpoint is in the roadmap: what it is. *)
Definition endpoint_type (m : Maps) (s r : string) (e : Endpoint) (type : string) : Prop :=
  (ep_Kind e = "milestone"%string ∧ type = "milestone"%string ∧
    ∃ x, mp_Milestones m !! ep_ID e = Some x ∧ ms_SpaceID x = s ∧ ms_RoadmapID x = r ∧ ms_Archived x = false) ∨
  (ep_Kind e = "goal"%string ∧ type = "goal"%string ∧ ∃ g, mp_Goals m !! ep_ID e = Some g ∧ gl_SpaceID g = s ∧ gl_RoadmapID g = r) ∨
  (ep_Kind e = "node"%string ∧ ∃ n, mp_Nodes m !! ep_ID e = Some n ∧ rn_SpaceID n = s ∧ rn_RoadmapID n = r ∧ rn_Archived n = false ∧ rn_Kind n = type).

(** Both ends are in the roadmap and of kinds that the type of the edge allows. *)
Definition edge_fits (m : Maps) (e : RoadmapEdge) : Prop :=
  eg_Source e ≠ eg_Target e ∧ ∃ st tt, endpoint_type m (eg_SpaceID e) (eg_RoadmapID e) (eg_Source e) st ∧
  endpoint_type m (eg_SpaceID e) (eg_RoadmapID e) (eg_Target e) tt ∧ validRoadmapEdge (eg_Type e) (eg_Source e) (eg_Target e) st tt = true.

(** ** Edits *)

Definition archived_milestone (r id : string) (m : Maps) : Maps :=
  let m := upd_milestones (alter archive_milestone id) m in
  let m := upd_goals (fmap (λ g, if String.eqb (gl_MilestoneID g) id && negb (gl_Archived g) then archive_goal g else g)) m in
  let m := upd_nodes (fmap (λ n, if String.eqb (rn_MilestoneID n) id && negb (rn_Archived n) then archive_node n else n)) m in
  drop_edges r (of_milestone m id) m.

Definition archived_node (r id : string) (m : Maps) : Maps := drop_edges r (is_endpoint "node" id) (upd_nodes (alter archive_node id) m).

Definition with_goal_tasks (goal user : string) (tasks : list string) (m : Maps) : Maps :=
  upd_goal_tasks (λ x, foldl (λ x task, <[(goal, task) := user]> x) x tasks)
    (upd_goal_tasks (filter (λ kv : (string * string) * string, kv.1.1 ≠ goal)) m).

Inductive edit (m : Maps) : Maps → Prop :=
  | ed_version r row : mp_Roadmaps m !! r = Some row → rm_Archived row = false →
      edit m (upd_roadmaps (alter (set_version (rm_GraphVersion row + 1)) r) m)
  | ed_texts r row name description : mp_Roadmaps m !! r = Some row → rm_Archived row = false →
      edit m (upd_roadmaps (alter (set_texts name description) r) m)
  | ed_archive r row : mp_Roadmaps m !! r = Some row → rm_Archived row = false → edit m (upd_roadmaps (alter set_archived r) m)
  | ed_create r row : mp_Roadmaps m !! r = None → edit m (upd_roadmaps (<[r := row]>) m)
  | ed_new_milestone id x : mp_Milestones m !! id = None → id ≠ ""%string → roadmap_in m (ms_SpaceID x) (ms_RoadmapID x) → ms_Archived x = false →
      edit m (upd_milestones (<[id := x]>) m)
  | ed_milestone id old x : mp_Milestones m !! id = Some old → ms_Archived old = false → ms_Archived x = false →
      ms_SpaceID x = ms_SpaceID old → ms_RoadmapID x = ms_RoadmapID old → edit m (upd_milestones (<[id := x]>) m)
  | ed_archive_milestone id x : mp_Milestones m !! id = Some x → ms_Archived x = false → edit m (archived_milestone (ms_RoadmapID x) id m)
  | ed_new_goal id g : mp_Goals m !! id = None → roadmap_in m (gl_SpaceID g) (gl_RoadmapID g) → milestone_in m (gl_RoadmapID g) (gl_MilestoneID g) →
      gl_Archived g = false → edit m (upd_goals (<[id := g]>) m)
  | ed_goal id old g : mp_Goals m !! id = Some old → gl_Archived old = false → gl_Archived g = false → gl_SpaceID g = gl_SpaceID old →
      gl_RoadmapID g = gl_RoadmapID old → milestone_in m (gl_RoadmapID g) (gl_MilestoneID g) → edit m (upd_goals (<[id := g]>) m)
  | ed_archive_goal id g : mp_Goals m !! id = Some g → gl_Archived g = false → edit m (upd_goals (alter archive_goal id) m)
  | ed_reopen_goal id g : mp_Goals m !! id = Some g → gl_Archived g = false → edit m (upd_goals (alter reopened id) m)
  | ed_goal_tasks goal user tasks : len tasks <= 100 → edit m (with_goal_tasks goal user tasks m)
  | ed_reopen task : edit m (reopen_goals task m)
  | ed_edge id e : roadmap_in m (eg_SpaceID e) (eg_RoadmapID e) →
      (∀ old, mp_Edges m !! id = Some old → eg_SpaceID old = eg_SpaceID e ∧ eg_RoadmapID old = eg_RoadmapID e) → edge_fits m e →
      (causal_goal_edge (eg_RoadmapID e) e = true →
        roadmapDependencyWouldCycleTx m (eg_RoadmapID e) id (ep_ID (eg_Source e)) (ep_ID (eg_Target e)) = false) →
      edit m (upd_edges (<[id := e]>) m)
  | ed_delete_edge id : edit m (upd_edges (delete id) m)
  | ed_new_definition id d fields : mp_Definitions m !! id = None → schema_fields (nd_Schema d) = Some fields → edit m (upd_definitions (<[id := d]>) m)
  | ed_definition id old d previous next : mp_Definitions m !! id = Some old → nd_SpaceID d = nd_SpaceID old →
      schema_fields (nd_Schema old) = Some previous → schema_fields (nd_Schema d) = Some next → validRoadmapDefinitionUpdate previous next = true →
      edit m (upd_definitions (<[id := d]>) m)
  | ed_archive_definition id : edit m (upd_definitions (alter archive_definition id) m)
  | ed_new_node id n : mp_Nodes m !! id = None → roadmap_in m (rn_SpaceID n) (rn_RoadmapID n) →
      (rn_MilestoneID n = ""%string ∨ milestone_in m (rn_RoadmapID n) (rn_MilestoneID n)) → node_typed m n → rn_Archived n = false →
      edit m (upd_nodes (<[id := n]>) m)
  | ed_node id old n : mp_Nodes m !! id = Some old → rn_Archived old = false → rn_Archived n = false → rn_SpaceID n = rn_SpaceID old →
      rn_RoadmapID n = rn_RoadmapID old → rn_Kind n = rn_Kind old → rn_DefinitionID n = rn_DefinitionID old →
      (rn_MilestoneID n = ""%string ∨ milestone_in m (rn_RoadmapID n) (rn_MilestoneID n)) → ((TrimSpace (rn_Kind old) = rn_Kind old → node_typed m n) ∨ rn_Values n = rn_Values old) →
      edit m (upd_nodes (<[id := n]>) m)
  | ed_archive_node id n : mp_Nodes m !! id = Some n → rn_Archived n = false → edit m (archived_node (rn_RoadmapID n) id m).

(** ** The operations *)

Definition at_version (r : string) (v : Z) (p : Planner) : Planner := on_maps (upd_roadmaps (alter (set_version v) r)) p.

Lemma live_roadmap_inr m s r row : live_roadmap m s r = Some row ↔ mp_Roadmaps m !! r = Some row ∧ rm_SpaceID row = s ∧ rm_Archived row = false.
Proof. unfold live_roadmap. destruct (mp_Roadmaps m !! r) as [x|]; simpl; [|naive_solver]. case_guard; simpl; naive_solver. Qed.

Lemma mutation_inr {A} u s r e (mutate : P A) p x v p' : roadmapMutationTx u s r e mutate p = inr ((x, v), p') → ∃ row,
  mp_Roadmaps (pn_Maps p) !! r = Some row ∧ rm_SpaceID row = s ∧ rm_Archived row = false ∧ rm_GraphVersion row = e ∧ v = e + 1 ∧
  mutate (at_version r v p) = inr (x, p').
Proof.
  unfold roadmapMutationTx. intros H. apply reading_bind in H as [_ H]. tx_get H. tx_guard H as G. tx_bind H as w q Hb. tx_bind H as y q2 Hm.
  injection H as <- <- <-. unfold bumpSpaceRoadmapVersionTx in Hb. tx_guard Hb as G1. tx_get Hb. tx_require Hb as row Hr. tx_guard Hb as G2.
  unfold change_roadmap, change_maps in Hb. tx_modify Hb. injection Hb as <- <-. apply live_roadmap_inr in Hr as (H1 & H2 & H3). apply Z.eqb_eq in G2.
  by exists row.
Qed.

(** A mutation of a roadmap at version [e]: a new version, then edits. *)
Definition Mutates (r : string) (e : Z) {A} (m : P A) : Prop := ∀ p x p', m p = inr (x, p') → ∃ row,
  mp_Roadmaps (pn_Maps p) !! r = Some row ∧ rm_Archived row = false ∧ rm_GraphVersion row = e ∧
  rtc edit (upd_roadmaps (alter (set_version (e + 1)) r) (pn_Maps p)) (pn_Maps p').

Definition Edits {A} (m : P A) : Prop := ∀ p x p', m p = inr (x, p') → rtc edit (pn_Maps p) (pn_Maps p').

Lemma mutates_edits {A} r e (m : P A) : Mutates r e m → Edits m.
Proof. intros Hm p x p' H. destruct (Hm p x p' H) as (row & Hr & Ha & <- & He). by eapply rtc_l; [eapply ed_version|]. Qed.

Lemma mutation_edits {A} u s r e (mutate : P A) p x p' : roadmapMutationTx u s r e mutate p = inr (x, p') →
  (∀ q y, roadmap_in (pn_Maps q) s r → (∃ row, mp_Roadmaps (pn_Maps q) !! r = Some row ∧ rm_Archived row = false) → mutate q = inr (y, p') →
    rtc edit (pn_Maps q) (pn_Maps p')) →
  ∃ row, mp_Roadmaps (pn_Maps p) !! r = Some row ∧ rm_Archived row = false ∧ rm_GraphVersion row = e ∧
    rtc edit (upd_roadmaps (alter (set_version (e + 1)) r) (pn_Maps p)) (pn_Maps p').
Proof.
  destruct x as [x v]. intros H Hm. apply mutation_inr in H as (row & Hr & Hs & Ha & He & -> & H). exists row. split_and!; [done..|].
  apply Hm in H; [done|..]; unfold at_version, roadmap_in; simpl.
  - exists (set_version (e + 1) row). rewrite lookup_alter_eq, Hr. by split.
  - exists (set_version (e + 1) row). rewrite lookup_alter_eq, Hr. by split.
Qed.

Lemma live_milestone_inr m s r id x : live_milestone m s r id = Some x ↔
  mp_Milestones m !! id = Some x ∧ ms_RoadmapID x = r ∧ ms_SpaceID x = s ∧ ms_Archived x = false.
Proof. unfold live_milestone. destruct (mp_Milestones m !! id) as [y|]; simpl; [|naive_solver]. case_guard; simpl; naive_solver. Qed.

Lemma live_goal_inr m s r id g : live_goal m s r id = Some g ↔ mp_Goals m !! id = Some g ∧ gl_RoadmapID g = r ∧ gl_SpaceID g = s ∧ gl_Archived g = false.
Proof. unfold live_goal. destruct (mp_Goals m !! id) as [y|]; simpl; [|naive_solver]. case_guard; simpl; naive_solver. Qed.

Lemma live_node_inr m s r id n : live_node m s r id = Some n ↔ mp_Nodes m !! id = Some n ∧ rn_RoadmapID n = r ∧ rn_SpaceID n = s ∧ rn_Archived n = false.
Proof. unfold live_node. destruct (mp_Nodes m !! id) as [y|]; simpl; [|naive_solver]. case_guard; simpl; naive_solver. Qed.

Lemma live_in m s r id x : live_milestone m s r id = Some x → milestone_in m r id.
Proof. intros (H1 & H2 & _ & H3)%live_milestone_inr. by exists x. Qed.

Lemma of_roadmap_in m r id : milestone_of_roadmap m r id = true → milestone_in m r id.
Proof.
  unfold milestone_of_roadmap, milestone_in. destruct (mp_Milestones m !! id) as [x|]; [|done]. rewrite andb_true_iff, negb_true_iff, String.eqb_eq.
  intros [H1 H2]. by exists x.
Qed.

Lemma rank_of_new_inr {A} (rows : gmap string A) chosen rank p r p' : rank_of_new rows chosen rank p = inr (r, p') → p' = p.
Proof. unfold rank_of_new, bigint. intros H. tx_guard H as G. by injection H. Qed.

Lemma create_roadmap_edits newID newM u s name d a : Edits (CreateSpaceRoadmapWithAudience newID newM u s name d a).
Proof.
  intros p x p' H. unfold CreateSpaceRoadmapWithAudience in H. tx_guard H as G. apply reading_bind in H as [_ H]. tx_require H as n G1.
  tx_read H as y G2. clear G2. tx_get H. tx_guard H as G3. apply bool_decide_eq_true in G3. tx_guard H as G4. apply bool_decide_eq_true in G4.
  unfold change_maps in H. tx_modify H. tx_modify H. injection H as <- <-. simpl.
  eapply rtc_l; [by apply ed_create|]. apply rtc_once, ed_new_milestone; [done|done| |done]. simpl. unfold roadmap_in. simpl. rewrite lookup_insert_eq. by eexists.
Qed.

Lemma update_roadmap_mutates u s r name d e : Mutates r e (UpdateSpaceRoadmap u s r name d e).
Proof.
  intros p x p' H. unfold UpdateSpaceRoadmap in H. tx_guard H as G. eapply mutation_edits; [exact H|]. intros q y _ (row & Hr & Ha) [= <- <-].
  by eapply rtc_once, ed_texts.
Qed.

Lemma archive_roadmap_mutates u s r e : Mutates r e (ArchiveSpaceRoadmap u s r e).
Proof.
  intros p x p' H. unfold ArchiveSpaceRoadmap in H. eapply mutation_edits; [exact H|]. intros q y _ (row & Hr & Ha) [= <- <-]. by eapply rtc_once, ed_archive.
Qed.

Lemma create_milestone_mutates newID u s r item e : Mutates r e (CreateSpaceRoadmapMilestone newID u s r item e).
Proof.
  intros p x p' H. unfold CreateSpaceRoadmapMilestone in H. tx_guard H as G. tx_guard H as G1. eapply mutation_edits; [exact H|]. clear. intros q y Hin _ H.
  tx_get H. tx_bind H as rank q2 G. apply rank_of_new_inr in G as ->. tx_guard H as G. apply bool_decide_eq_true in G. unfold change_maps in H. tx_modify H.
  injection H as <- <-. apply rtc_once. by apply ed_new_milestone.
Qed.

Lemma update_milestone_mutates u s r id item e : Mutates r e (UpdateSpaceRoadmapMilestone u s r id item e).
Proof.
  intros p x p' H. unfold UpdateSpaceRoadmapMilestone in H. tx_guard H as G. eapply mutation_edits; [exact H|]. clear. intros q y _ _ H.
  tx_get H. tx_require H as old G. apply live_milestone_inr in G as (H1 & H2 & H3 & H4). unfold change_maps in H. injection H as <- <-.
  apply rtc_once. by eapply ed_milestone.
Qed.

Lemma archive_milestone_mutates u s r id e : Mutates r e (ArchiveSpaceRoadmapMilestone u s r id e).
Proof.
  intros p x p' H. unfold ArchiveSpaceRoadmapMilestone in H. eapply mutation_edits; [exact H|]. clear. intros q y _ _ H.
  tx_get H. tx_require H as old G. apply live_milestone_inr in G as (H1 & <- & H3 & H4). unfold change_maps in H. do 3 tx_modify H. injection H as <- <-.
  apply rtc_once. by apply (ed_archive_milestone _ id old).
Qed.

Lemma create_goal_mutates newID u s r item e : Mutates r e (CreateSpaceRoadmapGoal newID u s r item e).
Proof.
  intros p x p' H. unfold CreateSpaceRoadmapGoal in H. tx_guard H as G. eapply mutation_edits; [exact H|]. clear. intros q y Hin _ H.
  tx_get H. tx_bind H as rank q2 G. apply rank_of_new_inr in G as ->. tx_require H as w Hw. apply live_in in Hw. tx_guard H as G. apply bool_decide_eq_true in G.
  unfold change_maps in H. tx_modify H. injection H as <- <-. apply rtc_once. by apply ed_new_goal.
Qed.

Lemma update_goal_mutates u s r id item c e now : Mutates r e (UpdateSpaceRoadmapGoal u s r id item c e now).
Proof.
  intros p x p' H. unfold UpdateSpaceRoadmapGoal in H. tx_guard H as G. eapply mutation_edits; [exact H|]. clear. intros q y _ _ H.
  tx_get H. tx_read H as w G. clear G. tx_require H as w2 Hw. apply live_in in Hw. tx_require H as g G. apply live_goal_inr in G as (H1 & H2 & H3 & H4).
  tx_guard H as G. injection H as <- <-. apply rtc_once. by eapply ed_goal.
Qed.

Lemma archive_goal_mutates u s r id e : Mutates r e (ArchiveSpaceRoadmapGoal u s r id e).
Proof.
  intros p x p' H. unfold ArchiveSpaceRoadmapGoal in H. eapply mutation_edits; [exact H|]. clear. intros q y _ _ H.
  tx_get H. tx_require H as g G. apply live_goal_inr in G as (H1 & _ & _ & H4). injection H as <- <-. apply rtc_once. by eapply ed_archive_goal.
Qed.

Lemma goal_tasks_mutates u s r id tasks e : Mutates r e (ReplaceSpaceRoadmapGoalTasks u s r id tasks e).
Proof.
  intros p x p' H. unfold ReplaceSpaceRoadmapGoalTasks in H. tx_require H as ts Gt. tx_guard H as G. apply Z.leb_le in G. eapply mutation_edits; [exact H|].
  clear H Gt. intros q y _ _ H. tx_get H. tx_require H as g Gg. apply live_goal_inr in Gg as (H1 & _ & _ & H4). tx_guard H as G1. unfold change_maps in H. do 2 tx_modify H.
  eapply rtc_l; [by apply (ed_goal_tasks _ id u ts)|]. apply when_modify in H as ->. destruct (negb _); [|done].
  apply rtc_once. by apply (ed_reopen_goal _ id g).
Qed.

Lemma endpoint_inr m s r e type : roadmapEndpointExistsTx m s r e = Some type → endpoint_type m s r e type.
Proof.
  unfold roadmapEndpointExistsTx, endpoint_type. destruct (String.eqb_spec (ep_Kind e) "milestone").
  { destruct (live_milestone m s r (ep_ID e)) as [x|] eqn:E; [|done]. intros [= <-]. apply live_milestone_inr in E as (?&?&?&?). left. naive_solver. }
  destruct (String.eqb_spec (ep_Kind e) "goal").
  { destruct (live_goal m s r (ep_ID e)) as [x|] eqn:E; [|done]. intros [= <-]. apply live_goal_inr in E as (?&?&?&?). right. left. naive_solver. }
  destruct (String.eqb_spec (ep_Kind e) "node"); [|done]. destruct (mp_Nodes m !! ep_ID e) as [nd|] eqn:E; simpl; [|done]. case_guard; simpl; [|done].
  intros [= <-]. right. right. naive_solver.
Qed.

Lemma put_edge_inr id e p u p' : put_edge id e p = inr (u, p') → p' = on_maps (upd_edges (<[id := e]>)) p.
Proof. unfold put_edge. intros H. tx_get H. tx_guard H as G. by injection H as <-. Qed.

Lemma save_edge_mutates newID u s r id item sg tg e : Mutates r e (SaveSpaceRoadmapEdge newID u s r id item sg tg e).
Proof.
  intros p x p' H. unfold SaveSpaceRoadmapEdge in H. tx_guard H as G. set (type := if String.eqb (TrimSpace (eg_Type item)) "dependency" then _ else _) in *.
  set (src := or_goal (eg_Source item) sg) in *. set (tgt := or_goal (eg_Target item) tg) in *. set (id' := if empty id then _ else id) in *.
  assert (src ≠ tgt) as Hne. { intros E. rewrite E in G. rewrite bool_decide_eq_true_2 in G by done. by rewrite !orb_true_r in G. }
  eapply mutation_edits; [exact H|]. clear -Hne. intros q y Hin _ H.
  tx_bind H as v1 q1 G1. unfold validateRoadmapEdgeTx in G1. tx_get G1. tx_require G1 as st Hst. tx_require G1 as tt Htt. apply guard_inr in G1 as [Hvalid ->].
  tx_get H. tx_bind H as v2 q2 G2. assert (q2 = q ∧ (causalRoadmapEdge type && String.eqb (ep_Kind src) "goal" && String.eqb (ep_Kind tgt) "goal" = true →
    roadmapDependencyWouldCycleTx (pn_Maps q) r id' (ep_ID src) (ep_ID tgt) = false)) as [-> Hcycle].
  { destruct (_ && _ && _); [|by injection G2 as <-]. apply guard_inr in G2 as [G2 ->]. split; [done|]. intros _. by apply negb_true_iff. }
  tx_bind H as v3 q3 G3. injection H as <- <-.
  assert (∃ v, q3 = on_maps (upd_edges (<[id' := mkEdge s r src tgt type (TrimSpace (eg_Label item)) v]>)) q ∧
    ∀ old, mp_Edges (pn_Maps q) !! id' = Some old → eg_SpaceID old = s ∧ eg_RoadmapID old = r) as (v & -> & Hold).
  { destruct (empty id); [tx_guard G3 as G4; apply bool_decide_eq_true in G4; apply put_edge_inr in G3 as ->; exists 1; split; [done|intros old Ho; congruence]|].
    tx_require G3 as old Ho. tx_guard G3 as G4. apply andb_true_iff in G4 as [G4 G5]. apply String.eqb_eq in G4, G5. apply put_edge_inr in G3 as ->.
    eexists. split; [done|]. intros old' Ho'. rewrite Ho in Ho'. by injection Ho' as <-. }
  apply rtc_once. apply (ed_edge _ id'); simpl; [done|done| |].
  - split; [done|]. simpl. exists st, tt. split; [by apply endpoint_inr|]. split; [by apply endpoint_inr|done].
  - unfold causal_goal_edge. simpl. rewrite String.eqb_refl. simpl. intros Hc. apply Hcycle. by rewrite <- andb_assoc, andb_comm.
Qed.

Lemma delete_edge_mutates u s r id e : Mutates r e (DeleteSpaceRoadmapEdge u s r id e).
Proof.
  intros p x p' H. unfold DeleteSpaceRoadmapEdge in H. eapply mutation_edits; [exact H|]. clear. intros q y _ _ H.
  tx_get H. tx_require H as old G. tx_guard H as G1. injection H as <- <-. apply rtc_once, ed_delete_edge.
Qed.

(** ** Layouts *)

Lemma place_milestone_edits s r x : Edits (place_milestone s r x).
Proof.
  intros p y p' H. unfold place_milestone in H. tx_get H. tx_require H as old G. apply live_milestone_inr in G as (H1 & H2 & H3 & H4). injection H as <- <-.
  apply rtc_once. simpl. unfold upd_milestones. rewrite (alter_insert _ _ _ _ H1). by eapply (ed_milestone _ (lp_ID x) old).
Qed.

Lemma place_goal_edits s r x : Edits (place_goal s r x).
Proof.
  intros p y p' H. unfold place_goal in H. tx_get H. tx_require H as old G. apply live_goal_inr in G as (H1 & H2 & H3 & H4). tx_guard H as G.
  apply of_roadmap_in in G. injection H as <- <-. apply rtc_once. simpl. unfold upd_goals. rewrite (alter_insert _ _ _ _ H1).
  eapply (ed_goal _ (lp_ID x) old); simpl; try done. by rewrite H2.
Qed.

Lemma place_node_edits s r x : Edits (place_node s r x).
Proof.
  intros p y p' H. unfold place_node in H. tx_get H. tx_require H as old G. apply live_node_inr in G as (H1 & H2 & H3 & H4). tx_guard H as G.
  injection H as <- <-. apply rtc_once. simpl. unfold upd_nodes. rewrite (alter_insert _ _ _ _ H1).
  eapply (ed_node _ (lp_ID x) old); simpl; try done; [|by right].
  rewrite H2. apply orb_true_iff in G as [G|G]; [left; by apply bool_decide_eq_true in G|right; by apply of_roadmap_in].
Qed.

Lemma each_edits (f : Placement → P ()) l : (∀ x, Edits (f x)) → Edits (each_item f l).
Proof.
  intros Hf. induction l as [|x l IH]; intros p y p' H; simpl in H; [by injection H as <- <-|]. tx_bind H as w q G. etransitivity; [by eapply Hf|by eapply IH].
Qed.

Lemma layout_mutates u s r layout e : Mutates r e (UpdateSpaceRoadmapLayout u s r layout e).
Proof.
  intros p x p' H. unfold UpdateSpaceRoadmapLayout in H. do 4 (tx_guard H as G; clear G). eapply mutation_edits; [exact H|]. clear. intros q y _ _ H.
  tx_bind H as v1 q1 G1. tx_bind H as v2 q2 G2. etransitivity; [by eapply each_edits, G1; intros; apply place_milestone_edits|].
  etransitivity; [by eapply each_edits, G2; intros; apply place_goal_edits|by eapply each_edits, H; intros; apply place_node_edits].
Qed.

(** ** Definitions and nodes *)

Lemma decode_any size r fields : decodeRoadmapFieldSchema size r = Some fields → schema_fields r = Some fields.
Proof. unfold schema_fields, decodeRoadmapFieldSchema. destruct r; [done|..]; by destruct (32768 <? size). Qed.

Lemma normalize_inr item size d fields : normalizeRoadmapNodeDefinition item size = Some (d, fields) → schema_fields (nd_Schema d) = Some fields.
Proof.
  unfold normalizeRoadmapNodeDefinition. intros H. destruct (decodeRoadmapFieldSchema size (nd_Schema item)) as [fs|] eqn:E; simpl in H; [|done].
  destruct (_ && _); [|done]. injection H as <- <-. simpl. by eapply decode_any.
Qed.

Lemma create_definition_edits newID u s item size : Edits (CreateSpaceRoadmapNodeDefinition newID u s item size).
Proof.
  intros p x p' H. unfold CreateSpaceRoadmapNodeDefinition in H. tx_require H as d Hd. destruct d as [d fields]. apply normalize_inr in Hd.
  apply reading_bind in H as [_ H]. tx_get H. tx_guard H as G. apply bool_decide_eq_true in G. tx_guard H as G1. unfold change_maps in H. tx_modify H.
  injection H as <- <-. apply rtc_once. by eapply ed_new_definition.
Qed.

Lemma live_definition_inr m s id d : live_definition m s id = Some d ↔ mp_Definitions m !! id = Some d ∧ nd_SpaceID d = s ∧ nd_Archived d = false.
Proof. unfold live_definition. destruct (mp_Definitions m !! id) as [y|]; simpl; [|naive_solver]. case_guard; simpl; naive_solver. Qed.

Lemma update_definition_edits jsonb_size u s id item size e : Edits (UpdateSpaceRoadmapNodeDefinition jsonb_size u s id item size e).
Proof.
  intros p x p' H. unfold UpdateSpaceRoadmapNodeDefinition in H. tx_require H as d Hd. destruct d as [d fields]. apply normalize_inr in Hd.
  tx_guard H as G1. apply reading_bind in H as [_ H]. tx_get H. tx_require H as old Ho. apply live_definition_inr in Ho as (H1 & H2 & H3).
  tx_require H as prev Hprev. apply decode_any in Hprev. tx_guard H as G2. tx_guard H as G3. tx_guard H as G4. unfold change_maps in H. tx_modify H.
  injection H as <- <-. apply rtc_once. by eapply ed_definition.
Qed.

Lemma archive_definition_edits u s id e : Edits (ArchiveSpaceRoadmapNodeDefinition u s id e).
Proof.
  intros p x p' H. unfold ArchiveSpaceRoadmapNodeDefinition in H. tx_guard H as G1. apply reading_bind in H as [_ H]. tx_get H. tx_require H as d G. tx_guard H as G2.
  injection H as <- <-. apply rtc_once, ed_archive_definition.
Qed.

(** What the validation of a node says of it. *)
Lemma validate_node_inr jsonb_size s r item size b p n p' : validateSpaceRoadmapNodeTx jsonb_size s r item size b p = inr (n, p') →
  p' = p ∧ rn_SpaceID n = s ∧ rn_RoadmapID n = r ∧ rn_Kind n = TrimSpace (rn_Kind item) ∧ rn_DefinitionID n = rn_DefinitionID item ∧
  (rn_MilestoneID n = ""%string ∨ milestone_in (pn_Maps p) r (rn_MilestoneID n)) ∧ (is_object (rn_Values n) = true → node_typed (pn_Maps p) n).
Proof.
  unfold validateSpaceRoadmapNodeTx. intros H. tx_guard H as G. rewrite <- !andb_assoc in G. apply andb_true_iff in G as [Gk _].
  tx_get H. tx_guard H as G1. set (values := match rn_Values item with RNil => _ | _ => _ end) in *. tx_bind H as y q G2. injection H as <- <-.
  assert (values ≠ RNil) as Hv by (unfold values; by destruct (rn_Values item)). simpl.
  assert (rn_MilestoneID item = ""%string ∨ milestone_in (pn_Maps p) r (rn_MilestoneID item)) as Hm.
  { apply orb_true_iff in G1 as [G1|G1]; [left; by apply bool_decide_eq_true in G1|right]. apply bool_decide_eq_true in G1 as [w Hw]. by eapply live_in. }
  unfold node_typed. simpl. destruct (String.eqb (TrimSpace (rn_Kind item)) "custom").
  - tx_guard G2 as G3. tx_require G2 as d Hd. tx_guard G2 as G4. tx_require G2 as fields Hf. apply guard_inr in G2 as [Hok ->]. split_and!; try done.
    intros Hobj. split; [done|]. split; [done|]. exists d, fields. apply andb_true_iff in G4 as [G4 _]. apply String.eqb_eq in G4. split_and!; try done.
    + by eapply decode_any.
    + by eapply values_ok_typed.
  - apply guard_inr in G2 as [G2 ->]. rewrite <- andb_assoc in G2. apply andb_true_iff in G2 as [G2 _]. apply bool_decide_eq_true in G2. by split_and!.
Qed.

Lemma create_node_mutates jsonb_size newID u s r item size e : Mutates r e (CreateSpaceRoadmapNode jsonb_size newID u s r item size e).
Proof.
  intros p x p' H. unfold CreateSpaceRoadmapNode in H. eapply mutation_edits; [exact H|]. clear. intros q y Hin _ H.
  tx_bind H as n q2 G. apply validate_node_inr in G as (-> & E1 & E2 & E3 & E4 & Hm & Ht). tx_get H. tx_guard H as G1. apply bool_decide_eq_true in G1.
  tx_guard H as G2. unfold change_maps in H. tx_modify H. injection H as <- <-. apply rtc_once. apply ed_new_node; simpl; [done|by rewrite E1, E2|by rewrite E2| |done].
  by apply Ht.
Qed.

Lemma update_node_mutates jsonb_size u s r id item size e : Mutates r e (UpdateSpaceRoadmapNode jsonb_size u s r id item size e).
Proof.
  intros p x p' H. unfold UpdateSpaceRoadmapNode in H. eapply mutation_edits; [exact H|]. clear. intros q y Hin _ H.
  tx_get H. tx_require H as old Ho. apply live_node_inr in Ho as (H1 & H2 & H3 & H4). tx_guard H as G. apply andb_true_iff in G as [G1 G2].
  apply String.eqb_eq in G1, G2. tx_bind H as n q2 G. apply validate_node_inr in G as (-> & E1 & E2 & E3 & E4 & Hm & Ht).
  tx_guard H as G3. injection H as <- <-. apply rtc_once. apply (ed_node _ id old); simpl; try done.
  - by rewrite H2.
  - left. intros Htrim. destruct (Ht G3) as (T1 & T2 & T3). unfold node_typed. simpl. rewrite <- G2, <- E4, H3, <- E1.
    assert (rn_Kind n = rn_Kind old) as <- by (rewrite E3, G1; done). done.
Qed.

Lemma archive_node_mutates u s r id e : Mutates r e (ArchiveSpaceRoadmapNode u s r id e).
Proof.
  intros p x p' H. unfold ArchiveSpaceRoadmapNode in H. eapply mutation_edits; [exact H|]. clear. intros q y _ _ H.
  tx_get H. tx_require H as n G. apply live_node_inr in G as (H1 & <- & H3 & H4). unfold change_maps in H. tx_modify H. injection H as <- <-.
  apply rtc_once. by apply (ed_archive_node _ id n).
Qed.

(** ** All operations *)

Lemma updated_edits id old new p : rtc edit (pn_Maps p) (pn_Maps (updated id old new p)).
Proof. unfold updated. destruct (reopens old new); [apply rtc_once, ed_reopen|done]. Qed.

Lemma create_all_maps actor s items p l p' : create_all actor s items p = inr (l, p') → pn_Maps p' = pn_Maps p.
Proof.
  revert p l. induction items as [|[id item] items IH]; intros p l H; simpl in H; [by injection H as <- <-|].
  tx_bind H as t q G. tx_bind H as l' q2 G2. injection H as <- <-. apply IH in G2 as ->. by apply create_one_inr in G as [(_ & -> & _)|(_ & _ & _ & _ & _ & _ & ->)].
Qed.

Section all.
Context (known_zone : string → bool) (jsonb_size : raw → Z).
Abbreviation body := (body known_zone jsonb_size).
Abbreviation exec := (exec known_zone jsonb_size).
Abbreviation executes := (executes known_zone jsonb_size).
Abbreviation reachable := (reachable known_zone jsonb_size).

Lemma task_edits op p p' : on_tasks op = true → body op p = inr ((), p') → rtc edit (pn_Maps p) (pn_Maps p').
Proof.
  intros E H. destruct op; try done; simpl in H; try apply void_done in H as [x H].
  - by injection H as <-.
  - by injection H as <-.
  - by apply create_task_inr in H as (_ & _ & _ & _ & _ & _ & _ & (_ & _ & -> & _)).
  - unfold CreateSpaceTaskBatch in H. tx_guard H as G. tx_require H as items' Hi. apply reading_bind in H as [_ H]. by apply create_all_maps in H as ->.
  - apply update_inr in H as (t & item' & p1 & st & rank & _ & _ & _ & _ & (_ & _ & E1 & _) & _ & -> & _ & _ & (_ & _ & -> & _)). rewrite <- E1. apply updated_edits.
  - destruct x as [row col]. apply move_inr in H as (t & tasks' & rank & _ & _ & _ & _ & _ & _ & _ & -> & -> & _). apply (updated_edits _ _ _ (with_tasks tasks' p)).
  - by apply archive_inr in H as (u & _ & [(_ & -> & _)|(_ & _ & ->)]).
Qed.

Lemma body_edits op p p' : body op p = inr ((), p') → rtc edit (pn_Maps p) (pn_Maps p').
Proof.
  intros H. destruct (on_tasks op) eqn:E; [by eapply task_edits|].
  destruct op; try done; simpl in H; try apply void_done in H as [x H]; clear E; revert H.
  - apply create_roadmap_edits.
  - eapply mutates_edits, update_roadmap_mutates.
  - eapply mutates_edits, archive_roadmap_mutates.
  - eapply mutates_edits, create_milestone_mutates.
  - eapply mutates_edits, update_milestone_mutates.
  - eapply mutates_edits, archive_milestone_mutates.
  - eapply mutates_edits, create_goal_mutates.
  - eapply mutates_edits, update_goal_mutates.
  - eapply mutates_edits, archive_goal_mutates.
  - eapply mutates_edits, goal_tasks_mutates.
  - eapply mutates_edits, save_edge_mutates.
  - eapply mutates_edits, delete_edge_mutates.
  - eapply mutates_edits, layout_mutates.
  - apply create_definition_edits.
  - apply update_definition_edits.
  - apply archive_definition_edits.
  - eapply mutates_edits, create_node_mutates.
  - eapply mutates_edits, update_node_mutates.
  - eapply mutates_edits, archive_node_mutates.
Qed.

(** The roadmap an operation mutates and the version it expects. *)
Definition mutates (op : planner_op) : option (string * Z) :=
  match op with
  | OpUpdateRoadmap _ _ r _ _ e | OpArchiveRoadmap _ _ r e | OpCreateMilestone _ _ _ r _ e | OpUpdateMilestone _ _ r _ _ e
  | OpArchiveMilestone _ _ r _ e | OpCreateGoal _ _ _ r _ e | OpUpdateGoal _ _ r _ _ _ e _ | OpArchiveGoal _ _ r _ e
  | OpGoalTasks _ _ r _ _ e | OpSaveEdge _ _ _ r _ _ _ _ e | OpDeleteEdge _ _ r _ e | OpLayout _ _ r _ e
  | OpCreateNode _ _ _ r _ _ e | OpUpdateNode _ _ r _ _ _ e | OpArchiveNode _ _ r _ e => Some (r, e)
  | _ => None
  end.

Lemma body_mutates op r e : mutates op = Some (r, e) → Mutates r e (body op).
Proof.
  intros E p x p' H. destruct op; try discriminate E; simpl in H, E; injection E as <- <-; apply void_done in H as [y H]; revert H.
  - apply update_roadmap_mutates.
  - apply archive_roadmap_mutates.
  - apply create_milestone_mutates.
  - apply update_milestone_mutates.
  - apply archive_milestone_mutates.
  - apply create_goal_mutates.
  - apply update_goal_mutates.
  - apply archive_goal_mutates.
  - apply goal_tasks_mutates.
  - apply save_edge_mutates.
  - apply delete_edge_mutates.
  - apply layout_mutates.
  - apply create_node_mutates.
  - apply update_node_mutates.
  - apply archive_node_mutates.
Qed.

Lemma executes_edits ops p : rtc edit (pn_Maps p) (pn_Maps (executes ops p)).
Proof.
  revert p. induction ops as [|op ops IH]; intros p; [done|]. simpl. etransitivity; [|apply IH].
  destruct (op_cases known_zone jsonb_size op p) as [->|H]; [done|]. by eapply body_edits.
Qed.

Definition no_maps : Maps := mkMaps ∅ ∅ ∅ ∅ ∅ ∅ ∅.

Lemma reachable_edits p : reachable p → rtc edit no_maps (pn_Maps p).
Proof.
  induction 1 as [a|op p Hp IH Hop]; [done|]. etransitivity; [exact IH|]. destruct (op_cases known_zone jsonb_size op p) as [->|H]; [done|]. by eapply body_edits.
Qed.

(** An invariant of edits holds in every reachable planner. *)
Lemma reachable_maps (I : Maps → Prop) p : (∀ m m', I m → edit m m' → I m') → I no_maps → reachable p → I (pn_Maps p).
Proof. intros Hstep H0 H%reachable_edits. by induction H as [m|m1 m2 m3 H12 _ IH]; [|apply IH; eapply Hstep]. Qed.
End all.
