(* ===== verification/RoadmapCycles.v ===== *)
(** * The cycle check of roadmaps

    The depth-first search of [space_roadmap_mutations.go] ends within its fuel and
    answers whether the edges already lead from the target to the source, so an edge
    it lets through closes no cycle. *)
From S2P Require Import Prelude Tx GoStrings Json RunStore Contracts SpaceApps Spaces Planner Board RoadmapFields Roadmap.

Definition link (graph : list (string * string)) (x y : string) : Prop := (x, y) ∈ graph.

Lemma elem_targets graph x y : y ∈ targets_of graph x ↔ link graph x y.
Proof.
  unfold targets_of, link. rewrite list_elem_of_fmap. split.
  - intros ([a b] & -> & [H1 H2]%list_elem_of_filter). simpl in *. by subst.
  - intros H. exists (x, y). split; [done|]. by apply list_elem_of_filter.
Qed.

Lemma elem_rev {A} (x : A) l : x ∈ rev l ↔ x ∈ l.
Proof. by rewrite !list_elem_of_In, <- in_rev. Qed.

(** The edges that can still be followed. *)
Definition unseen (graph : list (string * string)) (seen : gset string) : nat := length (filter (λ e : string * string, e.1 ∉ seen) graph).

Lemma unseen_visit graph seen x : x ∉ seen → (unseen graph seen = length (targets_of graph x) + unseen graph ({[x]} ∪ seen))%nat.
Proof.
  intros Hx. unfold unseen, targets_of. rewrite length_fmap. induction graph as [|[a b] graph IH]; [done|]. rewrite !filter_cons. simpl.
  destruct (decide (a = x)) as [->|Hne].
  - rewrite decide_True by done. rewrite (decide_False (P := x ∉ {[x]} ∪ seen)) by set_solver. simpl. lia.
  - destruct (decide (a ∉ seen)) as [H|H].
    + rewrite (decide_True (P := a ∉ {[x]} ∪ seen)) by set_solver. simpl. lia.
    + rewrite (decide_False (P := a ∉ {[x]} ∪ seen)) by set_solver. done.
Qed.

Lemma search_ends graph goal fuel seen stack : (length stack + unseen graph seen < fuel)%nat → is_Some (search fuel graph goal seen stack).
Proof.
  revert seen stack. induction fuel as [|fuel IH]; intros seen stack Hf; [lia|]. simpl. destruct stack as [|x stack]; [by eexists|].
  destruct (String.eqb x goal); [by eexists|]. simpl in Hf. case_bool_decide as Hx; [apply IH; lia|]. apply IH.
  rewrite length_app, length_rev. rewrite (unseen_visit graph seen x Hx) in Hf. lia.
Qed.

Lemma search_finds graph goal fuel seen stack : search fuel graph goal seen stack = Some true → ∃ x, x ∈ stack ∧ rtc (link graph) x goal.
Proof.
  revert seen stack. induction fuel as [|fuel IH]; intros seen stack H; [done|]. simpl in H. destruct stack as [|x stack]; [done|].
  destruct (String.eqb_spec x goal) as [->|Hne]; [exists goal; split; [by left|done]|]. case_bool_decide.
  - apply IH in H as (y & Hy & Hp). exists y. split; [by right|done].
  - apply IH in H as (y & Hy & Hp). apply elem_of_app in Hy as [Hy|Hy]; [|exists y; split; [by right|done]].
    exists x. split; [by left|]. apply rtc_l with y; [|done]. by apply elem_targets, elem_rev.
Qed.

(** What was seen is not the goal, and leads to what was seen or is on the stack. *)
Definition explored (graph : list (string * string)) (goal : string) (seen : gset string) (stack : list string) : Prop :=
  ∀ x, x ∈ seen → x ≠ goal ∧ ∀ y, link graph x y → y ∈ seen ∨ y ∈ stack.

Lemma search_misses graph goal fuel seen stack : search fuel graph goal seen stack = Some false → explored graph goal seen stack →
  ∃ final, (∀ x, x ∈ seen ∨ x ∈ stack → x ∈ final) ∧ explored graph goal final [].
Proof.
  revert seen stack. induction fuel as [|fuel IH]; intros seen stack H Hinv; [done|]. simpl in H. destruct stack as [|x stack].
  - exists seen. split; [intros x [?|[]%not_elem_of_nil]; done|done].
  - destruct (String.eqb_spec x goal) as [|Hne]; [done|]. case_bool_decide as Hx.
    + destruct (IH _ _ H) as (final & H1 & H2).
      { intros y Hy. destruct (Hinv y Hy) as [Hyg Hl]. split; [done|]. intros z Hz. destruct (Hl z Hz) as [|[->|?]%elem_of_cons]; tauto. }
      exists final. split; [|done]. intros y [Hy|[->|Hy]%elem_of_cons]; apply H1; tauto.
    + destruct (IH _ _ H) as (final & H1 & H2).
      { intros y [->%elem_of_singleton|Hy]%elem_of_union.
        - split; [done|]. intros z Hz. right. apply elem_of_app. left. by apply elem_rev, elem_targets.
        - destruct (Hinv y Hy) as [Hyg Hl]. split; [done|]. intros z Hz. rewrite elem_of_union, elem_of_singleton, elem_of_app.
          destruct (Hl z Hz) as [|[->|?]%elem_of_cons]; tauto. }
      exists final. split; [|done]. intros y Hy. apply H1. rewrite elem_of_union, elem_of_singleton, elem_of_app, elem_of_cons in *. tauto.
Qed.

Lemma would_cycle_search edges s t : ∃ b, search (search_fuel ((s, t) :: edges)) ((s, t) :: edges) s ∅ [t] = Some b ∧ would_cycle edges s t = b.
Proof.
  unfold would_cycle. destruct (search_ends ((s, t) :: edges) s (search_fuel ((s, t) :: edges)) ∅ [t]) as [b Hb].
  { unfold search_fuel, unseen. apply le_n_S, le_n_S, length_filter. }
  exists b. by rewrite Hb.
Qed.

(** A path from the target to the source needs no edge that leaves the source. *)
Lemma path_without edges s t x : rtc (link ((s, t) :: edges)) x s → rtc (link edges) x s.
Proof.
  revert x. refine (rtc_ind_l (λ x, rtc (link edges) x s) s _ _); [done|]. intros x y Hxy _ IH.
  apply elem_of_cons in Hxy as [[= -> ->]|Hxy]; [done|]. by apply rtc_l with y.
Qed.

Lemma link_mono edges edges' x y : edges ⊆ edges' → rtc (link edges) x y → rtc (link edges') x y.
Proof. intros Hsub. apply rtc_subrel. intros a b. apply Hsub. Qed.

Lemma would_cycle_path edges s t : would_cycle edges s t = true ↔ rtc (link edges) t s.
Proof.
  destruct (would_cycle_search edges s t) as (b & Hs & ->). split.
  - intros ->. apply search_finds in Hs as (x & Hx & Hp). apply list_elem_of_singleton in Hx as ->. by apply path_without in Hp.
  - intros Hp. destruct b; [done|]. exfalso. apply search_misses in Hs as (final & H1 & H2); [|by intros x ?%elem_of_empty].
    assert (∀ x, rtc (link ((s, t) :: edges)) x s → x ∈ final → False) as H.
    { refine (rtc_ind_l (λ x, x ∈ final → False) s _ _); [intros Hin; by destruct (H2 s Hin)|]. intros x y Hxy _ IH Hin. apply IH.
      destruct (H2 x Hin) as [_ Hl]. by destruct (Hl y Hxy) as [|?%not_elem_of_nil]. }
    apply (H t); [|apply H1; right; by left]. eapply link_mono, Hp. intros e He. by right.
Qed.

(** ** Acyclic edges *)

Definition acyclic (R : string → string → Prop) : Prop := ∀ x, ¬ tc R x x.

Lemma acyclic_sub (R R' : string → string → Prop) : (∀ x y, R x y → R' x y) → acyclic R' → acyclic R.
Proof.
  intros Hsub Ha x Hx. apply (Ha x). revert Hx. generalize x at 2 4. intros y Hy. induction Hy as [a b Hab|a b c Hab Hbc IH]; [by apply tc_once, Hsub|].
  apply tc_l with b; [by apply Hsub|done].
Qed.

(** A path with one edge more uses it or not. *)
Lemma path_with (R : string → string → Prop) s t x y : tc (λ a b, R a b ∨ a = s ∧ b = t) x y →
  tc R x y ∨ rtc R x s ∧ rtc (λ a b, R a b ∨ a = s ∧ b = t) t y.
Proof.
  intros H. induction H as [a b [H|[-> ->]]|a b c [H|[-> ->]] Hbc IH].
  - left. by apply tc_once.
  - by right.
  - destruct IH as [IH|[IH1 IH2]]; [left; by apply tc_l with b|right; split; [by apply rtc_l with b|done]].
  - right. split; [done|]. by apply tc_rtc.
Qed.

Lemma path_back (R : string → string → Prop) s t x : rtc (λ a b, R a b ∨ a = s ∧ b = t) x s → rtc R x s.
Proof.
  revert x. refine (rtc_ind_l (λ x, rtc R x s) s _ _); [done|]. intros x y [Hxy|[-> ->]] _ IH; [by apply rtc_l with y|done].
Qed.

Lemma acyclic_add (R : string → string → Prop) s t : acyclic R → ¬ rtc R t s → acyclic (λ a b, R a b ∨ a = s ∧ b = t).
Proof.
  intros Ha Hts x Hx. apply path_with in Hx as [Hx|[H1 H2]]; [by apply (Ha x)|]. apply Hts. eapply path_back, rtc_trans; [exact H2|].
  eapply rtc_subrel, H1. intros a b. by left.
Qed.

(** ** The causal edges of a roadmap *)

(** A causal edge between two goals, other than [excluded]. *)
Definition causal_but (m : Maps) (roadmapID excluded : string) (x y : string) : Prop :=
  ∃ id e, mp_Edges m !! id = Some e ∧ id ≠ excluded ∧ causal_goal_edge roadmapID e = true ∧ ep_ID (eg_Source e) = x ∧ ep_ID (eg_Target e) = y.

Definition causal (m : Maps) (roadmapID : string) (x y : string) : Prop :=
  ∃ id e, mp_Edges m !! id = Some e ∧ causal_goal_edge roadmapID e = true ∧ ep_ID (eg_Source e) = x ∧ ep_ID (eg_Target e) = y.

Lemma link_causal m r excluded x y : link (causal_edges m r excluded) x y ↔ causal_but m r excluded x y.
Proof.
  unfold link, causal_edges, causal_but. rewrite list_elem_of_fmap. split.
  - intros ([id e] & [= -> ->] & [H1 H2]%list_elem_of_filter). apply elem_of_map_to_list in H2. simpl in *. apply andb_true_iff in H1 as [H1 H3].
    apply negb_true_iff, String.eqb_neq in H3. by exists id, e.
  - intros (id & e & H1 & H2 & H3 & <- & <-). exists (id, e). split; [done|]. apply list_elem_of_filter. split; [|by apply elem_of_map_to_list].
    simpl. apply String.eqb_neq in H2. by rewrite H2, H3.
Qed.

Lemma cycle_check m r excluded s t : roadmapDependencyWouldCycleTx m r excluded s t = true ↔ rtc (causal_but m r excluded) t s.
Proof.
  unfold roadmapDependencyWouldCycleTx. rewrite would_cycle_path. split; apply rtc_subrel; intros x y; by apply link_causal.
Qed.
