(* ===== verification/RoadmapInv.v ===== *)
(** * Invariants of roadmaps

    Proved of single edits ([RoadmapEdits]): the causal edges of a roadmap have no
    cycle, what belongs together stays together, the values of custom nodes keep the
    types of their fields. *)
From S2P Require Import Prelude Tx GoStrings Json RunStore Contracts SpaceApps Spaces Planner Board RoadmapFields Roadmap PlannerOps.
From S2P Require Import BoardInv BoardMoves PlannerInv RoadmapCycles RoadmapEdits.

(** ** Causal edges *)

(** What an edit does to the edges. *)
Lemma edit_edges m m' : edit m m' → mp_Edges m' ⊆ mp_Edges m ∨ ∃ id e, mp_Edges m' = <[id := e]> (mp_Edges m) ∧
  (∀ old, mp_Edges m !! id = Some old → eg_SpaceID old = eg_SpaceID e ∧ eg_RoadmapID old = eg_RoadmapID e) ∧
  (causal_goal_edge (eg_RoadmapID e) e = true →
    roadmapDependencyWouldCycleTx m (eg_RoadmapID e) id (ep_ID (eg_Source e)) (ep_ID (eg_Target e)) = false).
Proof.
  intros [| | | | | |id x|id g| | | | | |id e| | | | | | |id n]; simpl; try (by left).
  - left. apply map_filter_subseteq.
  - right. exists id, e. done.
  - left. apply delete_subseteq.
  - left. apply map_filter_subseteq.
Qed.

Lemma causal_sub m m' r x y : mp_Edges m' ⊆ mp_Edges m → causal m' r x y → causal m r x y.
Proof. intros Hsub (id & e & He & H). exists id, e. split; [by apply (lookup_weaken (mp_Edges m'))|done]. Qed.

Lemma causal_goal_roadmap r e : causal_goal_edge r e = true → eg_RoadmapID e = r.
Proof. unfold causal_goal_edge. rewrite <- !andb_assoc. intros [H _]%andb_true_iff. by apply String.eqb_eq. Qed.

Definition no_cycles (m : Maps) : Prop := ∀ r, acyclic (causal m r).

Lemma no_cycles_edit m m' : no_cycles m → edit m m' → no_cycles m'.
Proof.
  intros Hm He r. apply edit_edges in He as [Hsub|(id & e & E & Hold & Hcycle)].
  - apply (acyclic_sub _ (causal m r)); [|done]. intros x y. by apply causal_sub.
  - assert (∀ x y, causal m' r x y → causal_but m r id x y ∨ causal_goal_edge r e = true ∧ x = ep_ID (eg_Source e) ∧ y = ep_ID (eg_Target e)) as Hnew.
    { intros x y (i & e' & Hi & Hc & <- & <-). rewrite E in Hi. apply lookup_insert_Some in Hi as [[<- <-]|[Hne Hi]]; [by right|left].
      exists i, e'. split; [done|]. split; [congruence|done]. }
    assert (acyclic (causal_but m r id)) as Hbut.
    { apply (acyclic_sub _ (causal m r)); [|done]. intros x y (i & e' & Hi & _ & H). by exists i, e'. }
    destruct (causal_goal_edge r e) eqn:Hc.
    + apply (acyclic_sub _ (λ a b, causal_but m r id a b ∨ a = ep_ID (eg_Source e) ∧ b = ep_ID (eg_Target e))); [naive_solver|].
      apply acyclic_add; [done|]. rewrite <- cycle_check. apply causal_goal_roadmap in Hc as Hr. rewrite <- Hr in *. by rewrite (Hcycle Hc).
    + apply (acyclic_sub _ (causal_but m r id)); [|done]. intros x y [H|[? _]]%Hnew; done.
Qed.

(** ** Structure *)

(** Goals and nodes of a roadmap are in its milestones, and live ones in live ones. *)
Definition placed_in (m : Maps) (r id : string) (archived : bool) : Prop :=
  ∃ x, mp_Milestones m !! id = Some x ∧ ms_RoadmapID x = r ∧ (archived = false → ms_Archived x = false).

Record structured (m : Maps) : Prop := {
  st_name : mp_Milestones m !! ""%string = None;
  st_milestone : ∀ id x, mp_Milestones m !! id = Some x → roadmap_in m (ms_SpaceID x) (ms_RoadmapID x);
  st_goal : ∀ id g, mp_Goals m !! id = Some g →
    roadmap_in m (gl_SpaceID g) (gl_RoadmapID g) ∧ placed_in m (gl_RoadmapID g) (gl_MilestoneID g) (gl_Archived g);
  st_node : ∀ id n, mp_Nodes m !! id = Some n → roadmap_in m (rn_SpaceID n) (rn_RoadmapID n) ∧
    (rn_MilestoneID n = ""%string ∨ placed_in m (rn_RoadmapID n) (rn_MilestoneID n) (rn_Archived n));
  st_edge : ∀ id e, mp_Edges m !! id = Some e → roadmap_in m (eg_SpaceID e) (eg_RoadmapID e) ∧ edge_fits m e }.

(** What the other tables rely on stays. *)
Definition roadmaps_kept (m m' : Maps) : Prop := ∀ s r, roadmap_in m s r → roadmap_in m' s r.
Definition milestones_kept (m m' : Maps) : Prop := ∀ id x, mp_Milestones m !! id = Some x → ∃ x', mp_Milestones m' !! id = Some x' ∧
  ms_SpaceID x' = ms_SpaceID x ∧ ms_RoadmapID x' = ms_RoadmapID x ∧ (ms_Archived x = false → ms_Archived x' = false).
Definition goals_kept (m m' : Maps) : Prop := ∀ id g, mp_Goals m !! id = Some g → ∃ g', mp_Goals m' !! id = Some g' ∧
  gl_SpaceID g' = gl_SpaceID g ∧ gl_RoadmapID g' = gl_RoadmapID g.
Definition node_kept (m' : Maps) (id : string) (n : RoadmapNode) : Prop := ∃ n', mp_Nodes m' !! id = Some n' ∧
  rn_SpaceID n' = rn_SpaceID n ∧ rn_RoadmapID n' = rn_RoadmapID n ∧ rn_Kind n' = rn_Kind n ∧ (rn_Archived n = false → rn_Archived n' = false).
Definition nodes_kept (m m' : Maps) : Prop := ∀ id n, mp_Nodes m !! id = Some n → node_kept m' id n.

Lemma placed_kept m m' r id a : milestones_kept m m' → placed_in m r id a → placed_in m' r id a.
Proof. intros Hk (x & Hx & <- & Ha). destruct (Hk id x Hx) as (x' & Hx' & _ & H2 & H3). exists x'. naive_solver. Qed.

Lemma endpoint_kept m m' s r e type : milestones_kept m m' → goals_kept m m' → nodes_kept m m' → endpoint_type m s r e type → endpoint_type m' s r e type.
Proof.
  intros Hm Hg Hn [(H1 & H2 & x & Hx & H3 & H4 & H5)|[(H1 & H2 & g & Hgo & H3 & H4)|(H1 & n & Hno & H3 & H4 & H5 & H6)]].
  - left. destruct (Hm _ x Hx) as (x' & ? & ? & ? & ?). split; [done|]. split; [done|]. exists x'. naive_solver congruence.
  - right. left. destruct (Hg _ g Hgo) as (g' & ? & ? & ?). split; [done|]. split; [done|]. exists g'. naive_solver congruence.
  - right. right. destruct (Hn _ n Hno) as (n' & ? & ? & ? & ? & ?). split; [done|]. exists n'. naive_solver congruence.
Qed.

Lemma edge_kept m m' e : milestones_kept m m' → goals_kept m m' → nodes_kept m m' → edge_fits m e → edge_fits m' e.
Proof. intros H1 H2 H3 (Hne & st & tt & Hs & Ht & Hv). split; [done|]. exists st, tt. by split_and!; [apply (endpoint_kept m)..|]. Qed.

Lemma roadmaps_alter f m r : (∀ row, rm_SpaceID (f row) = rm_SpaceID row) → roadmaps_kept m (upd_roadmaps (alter f r) m).
Proof.
  intros Hf s r' (row & Hr & Hs). unfold roadmap_in. simpl. destruct (decide (r' = r)) as [->|Hne].
  - rewrite lookup_alter_eq, Hr. eexists. split; [done|]. by rewrite Hf.
  - rewrite lookup_alter_ne by done. by exists row.
Qed.

(** A table's rows after an insertion: the new one or an old one. *)
Lemma kept_insert {A} (R : A → A → Prop) `{!Reflexive R} (t : gmap string A) id x : (∀ old, t !! id = Some old → R old x) →
  ∀ i y, t !! i = Some y → ∃ y', <[id := x]> t !! i = Some y' ∧ R y y'.
Proof.
  intros Hold i y Hi. destruct (decide (i = id)) as [->|Hne]; [exists x; rewrite lookup_insert_eq; split; [done|by apply Hold]|].
  exists y. by rewrite lookup_insert_ne.
Qed.

Lemma same_milestones m m' : mp_Milestones m' = mp_Milestones m → milestones_kept m m'.
Proof. intros E id x Hx. exists x. by rewrite E. Qed.
Lemma same_goals m m' : mp_Goals m' = mp_Goals m → goals_kept m m'.
Proof. intros E id x Hx. exists x. by rewrite E. Qed.
Lemma same_nodes m m' : mp_Nodes m' = mp_Nodes m → nodes_kept m m'.
Proof. intros E id x Hx. exists x. by rewrite E. Qed.
Lemma same_roadmaps m m' : mp_Roadmaps m' = mp_Roadmaps m → roadmaps_kept m m'.
Proof. intros E s r. unfold roadmap_in. by rewrite E. Qed.
#[local] Hint Resolve same_milestones same_goals same_nodes same_roadmaps : core.

(** Nothing that others rely on goes, and what is new is in order. *)
Lemma structured_step m m' : structured m → roadmaps_kept m m' → milestones_kept m m' → goals_kept m m' → nodes_kept m m' →
  mp_Milestones m' !! ""%string = None →
  (∀ id x, mp_Milestones m' !! id = Some x → mp_Milestones m !! id = Some x ∨ roadmap_in m (ms_SpaceID x) (ms_RoadmapID x)) →
  (∀ id g, mp_Goals m' !! id = Some g → mp_Goals m !! id = Some g ∨
    roadmap_in m (gl_SpaceID g) (gl_RoadmapID g) ∧ placed_in m (gl_RoadmapID g) (gl_MilestoneID g) (gl_Archived g)) →
  (∀ id n, mp_Nodes m' !! id = Some n → mp_Nodes m !! id = Some n ∨ roadmap_in m (rn_SpaceID n) (rn_RoadmapID n) ∧
    (rn_MilestoneID n = ""%string ∨ placed_in m (rn_RoadmapID n) (rn_MilestoneID n) (rn_Archived n))) →
  (∀ id e, mp_Edges m' !! id = Some e → mp_Edges m !! id = Some e ∨ roadmap_in m (eg_SpaceID e) (eg_RoadmapID e) ∧ edge_fits m e) → structured m'.
Proof.
  intros [H0 H1 H2 H3 H4] Kr Km Kg Kn Hname Nm Ng Nn Ne. split; [done|..].
  - intros id x Hx. apply Kr. destruct (Nm id x Hx) as [Hx'|]; [by eapply H1|done].
  - intros id g Hg. assert (roadmap_in m (gl_SpaceID g) (gl_RoadmapID g) ∧ placed_in m (gl_RoadmapID g) (gl_MilestoneID g) (gl_Archived g)) as [? ?].
    { destruct (Ng id g Hg) as [Hg'|]; [by apply (H2 id)|done]. } split; [by apply Kr|by apply (placed_kept m)].
  - intros id n Hn. assert (roadmap_in m (rn_SpaceID n) (rn_RoadmapID n) ∧
      (rn_MilestoneID n = ""%string ∨ placed_in m (rn_RoadmapID n) (rn_MilestoneID n) (rn_Archived n))) as [? Hp].
    { destruct (Nn id n Hn) as [Hn'|]; [by apply (H3 id)|done]. }
    split; [by apply Kr|]. destruct Hp as [?|?]; [by left|right]. by apply (placed_kept m).
  - intros id e He. assert (roadmap_in m (eg_SpaceID e) (eg_RoadmapID e) ∧ edge_fits m e) as [? ?].
    { destruct (Ne id e He) as [He'|]; [by apply (H4 id)|done]. } split; [by apply Kr|by apply (edge_kept m)].
Qed.

(** Edits of one table. *)
Lemma structured_roadmaps m f : structured m → roadmaps_kept m (upd_roadmaps f m) → structured (upd_roadmaps f m).
Proof. intros Hm Hk. apply (structured_step m); auto. exact (st_name m Hm). Qed.

Lemma structured_milestone m id x : structured m → id ≠ ""%string → roadmap_in m (ms_SpaceID x) (ms_RoadmapID x) →
  (∀ old, mp_Milestones m !! id = Some old → ms_SpaceID x = ms_SpaceID old ∧ ms_RoadmapID x = ms_RoadmapID old) → ms_Archived x = false →
  structured (upd_milestones (<[id := x]>) m).
Proof.
  intros Hm Hid Hr Hold Ha. apply (structured_step m); auto; try (simpl; intros; by left).
  - intros i y Hi. destruct (decide (i = id)) as [->|Hne]; [|exists y; simpl; by rewrite lookup_insert_ne].
    exists x. simpl. rewrite lookup_insert_eq. destruct (Hold y Hi). done.
  - simpl. rewrite lookup_insert_ne by done. exact (st_name m Hm).
  - simpl. intros i y [[<- <-]|[_ Hi]]%lookup_insert_Some; [by right|by left].
Qed.

Lemma structured_goal m id g : structured m → roadmap_in m (gl_SpaceID g) (gl_RoadmapID g) →
  placed_in m (gl_RoadmapID g) (gl_MilestoneID g) (gl_Archived g) →
  (∀ old, mp_Goals m !! id = Some old → gl_SpaceID g = gl_SpaceID old ∧ gl_RoadmapID g = gl_RoadmapID old) → structured (upd_goals (<[id := g]>) m).
Proof.
  intros Hm Hr Hp Hold. apply (structured_step m); auto; try (simpl; intros; by left).
  - intros i y Hi. destruct (decide (i = id)) as [->|Hne]; [|exists y; simpl; by rewrite lookup_insert_ne].
    exists g. simpl. rewrite lookup_insert_eq. destruct (Hold y Hi). done.
  - exact (st_name m Hm).
  - simpl. intros i y [[<- <-]|[_ Hi]]%lookup_insert_Some; [by right|by left].
Qed.

(** A goal changed in place. *)
Lemma structured_alter_goal m id g f : structured m → mp_Goals m !! id = Some g → gl_SpaceID (f g) = gl_SpaceID g → gl_RoadmapID (f g) = gl_RoadmapID g →
  gl_MilestoneID (f g) = gl_MilestoneID g → (gl_Archived (f g) = false → gl_Archived g = false) → structured (upd_goals (alter f id) m).
Proof.
  intros Hm Hg H1 H2 H3 H4. unfold upd_goals. rewrite (alter_insert _ _ _ _ Hg). destruct (st_goal m Hm id g Hg) as [Hr (x & Hx & Hxr & Hxa)].
  apply (structured_goal m id (f g)); [done|by rewrite H1, H2|exists x; rewrite H2, H3; naive_solver|].
  intros old Ho. rewrite Hg in Ho. injection Ho as <-. done.
Qed.

Lemma structured_node m id n : structured m → roadmap_in m (rn_SpaceID n) (rn_RoadmapID n) →
  (rn_MilestoneID n = ""%string ∨ placed_in m (rn_RoadmapID n) (rn_MilestoneID n) (rn_Archived n)) →
  (∀ old, mp_Nodes m !! id = Some old → rn_SpaceID n = rn_SpaceID old ∧ rn_RoadmapID n = rn_RoadmapID old ∧ rn_Kind n = rn_Kind old) →
  rn_Archived n = false → structured (upd_nodes (<[id := n]>) m).
Proof.
  intros Hm Hr Hp Hold Ha. apply (structured_step m); auto; try (simpl; intros; by left).
  - intros i y Hi. destruct (decide (i = id)) as [->|Hne]; [|exists y; simpl; by rewrite lookup_insert_ne].
    exists n. simpl. rewrite lookup_insert_eq. destruct (Hold y Hi) as (?&?&?). done.
  - exact (st_name m Hm).
  - simpl. intros i y [[<- <-]|[_ Hi]]%lookup_insert_Some; [by right|by left].
Qed.

Lemma structured_edges m f : structured m → (∀ id e, f (mp_Edges m) !! id = Some e → mp_Edges m !! id = Some e ∨
  roadmap_in m (eg_SpaceID e) (eg_RoadmapID e) ∧ edge_fits m e) → structured (upd_edges f m).
Proof. intros Hm He. apply (structured_step m); auto. exact (st_name m Hm). Qed.

Lemma in_placed m r id a : milestone_in m r id → placed_in m r id a.
Proof. intros (x & H1 & H2 & H3). by exists x. Qed.

(** The trigger changes no goal's place. *)
Lemma structured_reopen m task : structured m → structured (reopen_goals task m).
Proof.
  intros Hm. assert (∀ id, mp_Goals (reopen_goals task m) !! id =
    (λ g, if bool_decide (is_Some (gl_ManualCompletedAt g)) && bool_decide (is_Some (mp_GoalTasks m !! (id, task))) then reopened g else g) <$> mp_Goals m !! id) as Hl.
  { intros id. simpl. rewrite map_lookup_imap. by destruct (mp_Goals m !! id). }
  apply (structured_step m); auto; try (simpl; intros; by left).
  - intros i y Hi. eexists. rewrite Hl, Hi. split; [done|]. by destruct (_ && _).
  - exact (st_name m Hm).
  - intros i y Hi. right. rewrite Hl in Hi. destruct (mp_Goals m !! i) as [g|] eqn:Hg; [|done]. injection Hi as <-.
    pose proof (st_goal m Hm i g Hg). by destruct (_ && _).
Qed.

(** ** Archiving with edges *)

(** An edge that keeps neither of the ends archived here fits as before. *)
Lemma endpoint_survives m m' s r e type : structured m → endpoint_type m s r e type → goals_kept m m' →
  (ep_Kind e = "milestone"%string → ∀ x, mp_Milestones m !! ep_ID e = Some x → ms_RoadmapID x = r → mp_Milestones m' !! ep_ID e = Some x) →
  (ep_Kind e = "node"%string → ∀ n, mp_Nodes m !! ep_ID e = Some n → rn_RoadmapID n = r → rn_Archived n = false → mp_Nodes m' !! ep_ID e = Some n) →
  endpoint_type m' s r e type.
Proof.
  intros Hm [(H1 & H2 & x & Hx & H3 & H4 & H5)|[(H1 & H2 & g & Hg & H3 & H4)|(H1 & n & Hn & H3 & H4 & H5 & H6)]] Kg Km Kn.
  - left. split; [done|]. split; [done|]. exists x. by rewrite (Km H1 x Hx H4).
  - right. left. destruct (Kg _ g Hg) as (g' & ? & ? & ?). split; [done|]. split; [done|]. exists g'. naive_solver congruence.
  - right. right. split; [done|]. exists n. by rewrite (Kn H1 n Hn H4 H5).
Qed.

Lemma drop_edges_lookup r chosen m id e : mp_Edges (drop_edges r chosen m) !! id = Some e ↔ mp_Edges m !! id = Some e ∧
  (eg_RoadmapID e = r → chosen (eg_Source e) = false ∧ chosen (eg_Target e) = false).
Proof.
  unfold drop_edges. simpl. rewrite map_lookup_filter_Some. simpl. rewrite negb_true_iff, andb_false_iff, orb_false_iff.
  destruct (String.eqb_spec (eg_RoadmapID e) r); naive_solver.
Qed.

Lemma structured_archive_node m id n : structured m → mp_Nodes m !! id = Some n → structured (archived_node (rn_RoadmapID n) id m).
Proof.
  intros Hm Hn. assert (∀ i, i ≠ id → mp_Nodes (archived_node (rn_RoadmapID n) id m) !! i = mp_Nodes m !! i) as Hother.
  { intros i Hi. unfold archived_node. simpl. by rewrite lookup_alter_ne. }
  split; unfold archived_node; simpl.
  - exact (st_name m Hm).
  - exact (st_milestone m Hm).
  - exact (st_goal m Hm).
  - intros i x. destruct (decide (i = id)) as [->|Hne]; [rewrite lookup_alter_eq, Hn|rewrite lookup_alter_ne by done; apply (st_node m Hm)].
    intros [= <-]. destruct (st_node m Hm id n Hn) as [Hr Hp]. split; [done|]. destruct Hp as [?|(x & H1 & H2 & H3)]; [by left|right]. by exists x.
  - intros i e He. apply drop_edges_lookup in He as [He Hc]. simpl in He. destruct (st_edge m Hm i e He) as [Hr (Hne & st & tt & Hs & Ht & Hv)]. split; [done|].
    assert (∀ ep type, endpoint_type m (eg_SpaceID e) (eg_RoadmapID e) ep type → (eg_RoadmapID e = rn_RoadmapID n → is_endpoint "node" id ep = false) →
      endpoint_type (archived_node (rn_RoadmapID n) id m) (eg_SpaceID e) (eg_RoadmapID e) ep type) as Hend.
    { intros ep type Hep Hno. eapply endpoint_survives; [done|done|by apply same_goals|done|]. intros Hk x Hx Hxr _. rewrite Hother; [done|].
      intros E. rewrite E, Hn in Hx. injection Hx as <-. unfold is_endpoint in Hno. rewrite Hk, E, !String.eqb_refl in Hno. specialize (Hno (eq_sym Hxr)). done. }
    split; [done|]. exists st, tt. split; [|split; [|done]]; apply Hend; [done| |done|]; intros E; by apply Hc.
Qed.

Section milestone.
Context (m : Maps) (id : string) (x : Milestone).
Context (Hm : structured m) (Hx : mp_Milestones m !! id = Some x) (Ha : ms_Archived x = false).
Abbreviation m' := (archived_milestone (ms_RoadmapID x) id m).

Lemma milestone_rows i : mp_Milestones m' !! i = if decide (i = id) then Some (archive_milestone x) else mp_Milestones m !! i.
Proof using Hx. unfold archived_milestone. simpl. case_decide; [subst; by rewrite lookup_alter_eq, Hx|by rewrite lookup_alter_ne]. Qed.

Lemma goal_rows i : mp_Goals m' !! i =
  (λ g, if String.eqb (gl_MilestoneID g) id && negb (gl_Archived g) then archive_goal g else g) <$> mp_Goals m !! i.
Proof using Type. unfold archived_milestone. simpl. by rewrite lookup_fmap. Qed.

Lemma node_rows i : mp_Nodes m' !! i =
  (λ n, if String.eqb (rn_MilestoneID n) id && negb (rn_Archived n) then archive_node n else n) <$> mp_Nodes m !! i.
Proof using Type. unfold archived_milestone. simpl. by rewrite lookup_fmap. Qed.

(** What was in the milestone is archived, the rest is where it was. *)
Lemma placed_archived r i a a' : placed_in m r i a → (i = id → a' = true) → (a' = false → a = false) → placed_in m' r i a'.
Proof using Hx.
  intros (y & Hy & Hr & Hya) Hid Haa. unfold placed_in. rewrite milestone_rows. case_decide as E.
  - exists (archive_milestone x). split; [done|]. rewrite E, Hx in Hy. injection Hy as <-. split; [done|]. by rewrite Hid.
  - exists y. split; [done|]. split; [done|]. intros H. by apply Hya, Haa.
Qed.

(** A node of the milestone is in its roadmap. *)
Lemma node_of_milestone i n : mp_Nodes m !! i = Some n → rn_MilestoneID n = id → rn_RoadmapID n = ms_RoadmapID x.
Proof using Hm Hx.
  intros Hn E. destruct (st_node m Hm i n Hn) as [_ [E'|(y & Hy & Hyr & _)]]; rewrite E in *; [|congruence].
  exfalso. pose proof (st_name m Hm) as H. rewrite <- E' in H. congruence.
Qed.

Lemma milestone_edge e : roadmap_in m (eg_SpaceID e) (eg_RoadmapID e) → edge_fits m e →
  (eg_RoadmapID e = ms_RoadmapID x → of_milestone m' id (eg_Source e) = false ∧ of_milestone m' id (eg_Target e) = false) → edge_fits m' e.
Proof using Hm Hx.
  intros Hr (Hne & st & tt & Hs & Ht & Hv) Hc. assert (∀ ep type, endpoint_type m (eg_SpaceID e) (eg_RoadmapID e) ep type →
    (eg_RoadmapID e = ms_RoadmapID x → of_milestone m' id ep = false) → endpoint_type m' (eg_SpaceID e) (eg_RoadmapID e) ep type) as Hend.
  { intros ep type Hep Hno. eapply endpoint_survives; [done|done|..].
    - intros i g Hg. eexists. rewrite goal_rows, Hg. split; [done|]. by destruct (_ && _).
    - intros Hk y Hy Hyr. rewrite milestone_rows. case_decide as E; [|done]. exfalso. rewrite E, Hx in Hy. injection Hy as <-.
      unfold of_milestone, is_endpoint in Hno. rewrite Hk, E, !String.eqb_refl in Hno. by specialize (Hno (eq_sym Hyr)).
    - intros Hk n Hn Hnr Hna. rewrite node_rows, Hn. simpl. destruct (String.eqb_spec (rn_MilestoneID n) id) as [E|]; [|done]. exfalso.
      pose proof (node_of_milestone _ n Hn E) as Hr'. unfold of_milestone, is_endpoint in Hno. rewrite node_rows, Hn, Hk in Hno.
      simpl in Hno. rewrite E, String.eqb_refl, Hna in Hno. simpl in Hno. rewrite E, String.eqb_refl, <- Hnr, Hr' in Hno. by specialize (Hno eq_refl). }
  split; [done|]. exists st, tt. split; [|split; [|done]]; apply Hend; [done| |done|]; intros E; by apply Hc.
Qed.

Lemma structured_archive_milestone : structured m'.
Proof using Hm Hx.
  split.
  - rewrite milestone_rows. case_decide as E; [|exact (st_name m Hm)]. exfalso. pose proof (st_name m Hm) as H. rewrite E in H. congruence.
  - intros i y. rewrite milestone_rows. case_decide; [intros [= <-]; exact (st_milestone m Hm id x Hx)|intros Hy; exact (st_milestone m Hm i y Hy)].
  - intros i g. rewrite goal_rows. destruct (mp_Goals m !! i) as [h|] eqn:Hg; [|done]. intros [= <-]. destruct (st_goal m Hm i h Hg) as [Hr Hp].
    destruct (String.eqb_spec (gl_MilestoneID h) id) as [E|E]; simpl; [|split; [done|]; by apply (placed_archived _ _ (gl_Archived h))].
    destruct (gl_Archived h) eqn:Hh; simpl; (split; [done|]); (eapply placed_archived; [exact Hp|done|by rewrite ?Hh]).
  - intros i n. rewrite node_rows. destruct (mp_Nodes m !! i) as [k|] eqn:Hn; [|done]. intros [= <-]. destruct (st_node m Hm i k Hn) as [Hr Hp].
    destruct Hp as [E|Hp]; [split; [by destruct (_ && _)|left; by destruct (_ && _)]|].
    destruct (String.eqb_spec (rn_MilestoneID k) id) as [E|E]; simpl; [|split; [done|]; right; by apply (placed_archived _ _ (rn_Archived k))].
    destruct (rn_Archived k) eqn:Hk; simpl; (split; [done|]); right; (eapply placed_archived; [exact Hp|done|by rewrite ?Hk]).
  - intros i e He. apply drop_edges_lookup in He as [He Hc]. simpl in He. destruct (st_edge m Hm i e He) as [Hr Hf]. split; [done|]. by apply milestone_edge.
Qed.
End milestone.

Lemma structured_edit m m' : structured m → edit m m' → structured m'.
Proof.
  intros Hm [r row Hr _|r row name d Hr _|r row Hr _|r row Hr|id x Hx Hid Hr Ha|id old x Ho Hoa Ha Hs Hr|id x Hx Ha|id g Hg Hr Hp Ha|id old g Ho Hoa Ha Hs Hr Hp
    |id g Hg Ha|id g Hg Ha|goal user tasks _|task|id e Hr Hold Hf _|id|id d fields Hd Hf|id old d prev next Ho Hs _ _ _|id|id n Hn Hr Hp Ht Ha
    |id old n Ho Hoa Ha Hs Hr Hk _ Hp _|id n Hn Ha].
  - by apply structured_roadmaps, roadmaps_alter.
  - by apply structured_roadmaps, roadmaps_alter.
  - by apply structured_roadmaps, roadmaps_alter.
  - apply structured_roadmaps; [done|]. intros s r' (row' & Hr' & Hs). exists row'. simpl. rewrite lookup_insert_ne; [done|congruence].
  - apply structured_milestone; [done..| |done]. congruence.
  - apply structured_milestone; [done|..|done].
    + intros ->. pose proof (st_name m Hm). congruence.
    + rewrite Hs, Hr. exact (st_milestone m Hm id old Ho).
    + intros old' Ho'. rewrite Ho in Ho'. by injection Ho' as <-.
  - by apply structured_archive_milestone.
  - apply structured_goal; [done|done|by apply in_placed|congruence].
  - apply structured_goal; [done| |by apply in_placed|].
    + rewrite Hs, Hr. by apply (st_goal m Hm id).
    + intros old' Ho'. rewrite Ho in Ho'. by injection Ho' as <-.
  - by eapply structured_alter_goal.
  - by eapply structured_alter_goal.
  - by apply (structured_step m); auto; [exact (st_name m Hm)|simpl; intros; left..].
  - by apply structured_reopen.
  - apply structured_edges; [done|]. intros i e' [[<- <-]|[_ Hi]]%lookup_insert_Some; [by right|by left].
  - apply structured_edges; [done|]. intros i e' [_ Hi]%lookup_delete_Some. by left.
  - by apply (structured_step m); auto; [exact (st_name m Hm)|simpl; intros; left..].
  - by apply (structured_step m); auto; [exact (st_name m Hm)|simpl; intros; left..].
  - by apply (structured_step m); auto; [exact (st_name m Hm)|simpl; intros; left..].
  - apply structured_node; [done|done| |congruence|done]. destruct Hp; [by left|right]. by apply in_placed.
  - apply structured_node; [done|..|done].
    + rewrite Hs, Hr. by apply (st_node m Hm id).
    + destruct Hp; [by left|right]. by apply in_placed.
    + intros old' Ho'. rewrite Ho in Ho'. by injection Ho' as <-.
  - by apply structured_archive_node.
Qed.

(** ** Values of custom nodes *)

Definition typed (m : Maps) : Prop := ∀ id n, mp_Nodes m !! id = Some n → node_typed m n.

(** What of a node matters for its values. *)
Definition same_values (n n' : RoadmapNode) : Prop :=
  rn_SpaceID n' = rn_SpaceID n ∧ rn_Kind n' = rn_Kind n ∧ rn_DefinitionID n' = rn_DefinitionID n ∧ rn_Values n' = rn_Values n.

Lemma typed_values m n n' : same_values n n' → node_typed m n → node_typed m n'.
Proof. intros (E1 & E2 & E3 & E4). unfold node_typed. by rewrite E1, E2, E3, E4. Qed.

(** Definitions may change as [validRoadmapDefinitionUpdate] allows. *)
Definition definitions_kept (m m' : Maps) : Prop := ∀ id d fields, mp_Definitions m !! id = Some d → schema_fields (nd_Schema d) = Some fields →
  ∃ d' fields', mp_Definitions m' !! id = Some d' ∧ nd_SpaceID d' = nd_SpaceID d ∧ schema_fields (nd_Schema d') = Some fields' ∧
  ∀ r, values_typed r fields = true → values_typed r fields' = true.

Lemma same_definitions m m' : mp_Definitions m' = mp_Definitions m → definitions_kept m m'.
Proof. intros E id d fields Hd Hf. exists d, fields. by rewrite E. Qed.

Lemma typed_kept m m' n : definitions_kept m m' → node_typed m n → node_typed m' n.
Proof.
  intros Hk (H1 & H2 & H3). split; [done|]. split; [done|]. destruct (String.eqb (rn_Kind n) "custom"); [|done].
  destruct H3 as (d & fields & Hd & Hs & Hf & Hv). destruct (Hk _ d fields Hd Hf) as (d' & fields' & ? & ? & ? & Hty).
  exists d', fields'. split; [done|]. split; [congruence|]. split; [done|]. by apply Hty.
Qed.

Lemma typed_step m m' : typed m → definitions_kept m m' →
  (∀ id n, mp_Nodes m' !! id = Some n → (∃ old, mp_Nodes m !! id = Some old ∧ same_values old n) ∨ node_typed m n) → typed m'.
Proof.
  intros Hm Hk Hn id n Hi. apply (typed_kept m); [done|]. destruct (Hn id n Hi) as [(old & Ho & Hs)|]; [|done]. eapply typed_values; [done|by apply (Hm id)].
Qed.

Lemma kind_trimmed k : validRoadmapNodeKind k = true → TrimSpace k = k.
Proof.
  unfold validRoadmapNodeKind. intros H%one_of_elem. repeat (apply elem_of_cons in H as [->|H]; [vm_compute; reflexivity|]). by apply not_elem_of_nil in H.
Qed.

Lemma typed_edit m m' : typed m → edit m m' → typed m'.
Proof.
  intros Hm [| | | | | |id x| | | | | | | | |id d fields Hd Hf|id old d prev next Ho Hs Hprev Hnext Hup|id|id n Hn _ _ Ht _|id old n Ho _ _ Hs _ Hk Hdef _ Ht|id n Hn _];
    try (apply (typed_step m); [done|by apply same_definitions|]; simpl; intros i k Hi; left; by exists k).
  - apply (typed_step m); [done|by apply same_definitions|]. intros i k Hi. rewrite node_rows in Hi. destruct (mp_Nodes m !! i) as [h|] eqn:Hh; [|done].
    injection Hi as <-. left. exists h. split; [done|]. by destruct (_ && _).
  - apply (typed_step m); [done| |simpl; intros i k Hi; left; by exists k]. intros i d' fields' Hi Hf'. exists d', fields'. simpl.
    rewrite lookup_insert_ne; [done|congruence].
  - apply (typed_step m); [done| |simpl; intros i k Hi; left; by exists k]. intros i d' fields' Hi Hf'. simpl. destruct (decide (i = id)) as [->|Hne].
    + rewrite lookup_insert_eq. exists d, next. rewrite Ho in Hi. injection Hi as <-. rewrite Hprev in Hf'. injection Hf' as <-.
      split_and!; try done. intros r. by apply update_keeps_types.
    + rewrite lookup_insert_ne by done. by exists d', fields'.
  - apply (typed_step m); [done| |simpl; intros i k Hi; left; by exists k]. intros i d' fields' Hi Hf'. simpl. destruct (decide (i = id)) as [->|Hne].
    + rewrite lookup_alter_eq, Hi. by exists (archive_definition d'), fields'.
    + rewrite lookup_alter_ne by done. by exists d', fields'.
  - apply (typed_step m); [done|by apply same_definitions|]. simpl. intros i k [[<- <-]|[_ Hi]]%lookup_insert_Some; [by right|left; by exists k].
  - apply (typed_step m); [done|by apply same_definitions|]. simpl. intros i k [[<- <-]|[_ Hi]]%lookup_insert_Some; [|left; by exists k].
    destruct Ht as [Ht|Ht]; [right; apply Ht, kind_trimmed, (Hm id old Ho)|left; by exists old].
  - apply (typed_step m); [done|by apply same_definitions|]. intros i k Hi. unfold archived_node in Hi. simpl in Hi. left.
    apply lookup_alter_Some in Hi as [(-> & h & Hh & ->)|[_ Hi]]; [by exists h|by exists k].
Qed.

(** ** Versions *)

(** A roadmap stays in its Space, its version never decreases, and it stays archived. *)
Definition later (row row' : SpaceRoadmap) : Prop :=
  rm_SpaceID row' = rm_SpaceID row ∧ rm_GraphVersion row <= rm_GraphVersion row' ∧ (rm_Archived row = true → row' = row).

Lemma edit_later m m' r row : edit m m' → mp_Roadmaps m !! r = Some row → ∃ row', mp_Roadmaps m' !! r = Some row' ∧ later row row'.
Proof.
  assert (∀ f r0 row0, mp_Roadmaps m !! r0 = Some row0 → rm_Archived row0 = false → later row0 (f row0) → mp_Roadmaps m !! r = Some row →
    ∃ row', alter f r0 (mp_Roadmaps m) !! r = Some row' ∧ later row row') as Halter.
  { intros f r0 row0 H0 Ha Hl Hr. destruct (decide (r = r0)) as [->|Hne]; [|exists row; rewrite lookup_alter_ne by done; by repeat split].
    exists (f row0). rewrite lookup_alter_eq, Hr. simpl. assert (row0 = row) as -> by congruence. done. }
  intros [r0 row0 H0 Ha|r0 row0 name d H0 Ha|r0 row0 H0 Ha|r0 row0 H0| | | | | | | | | | | | | | | | |] Hr; simpl; try (exists row; by repeat split).
  - apply (Halter _ r0 row0); [done|done| |done]. repeat split; simpl; [lia|congruence].
  - apply (Halter _ r0 row0); [done|done| |done]. repeat split; simpl; [lia|congruence].
  - apply (Halter _ r0 row0); [done|done| |done]. repeat split; simpl; [lia|congruence].
  - exists row. rewrite lookup_insert_ne; [by repeat split|congruence].
Qed.

Lemma edits_later m m' r row : rtc edit m m' → mp_Roadmaps m !! r = Some row → ∃ row', mp_Roadmaps m' !! r = Some row' ∧ later row row'.
Proof.
  intros H. revert row. induction H as [m|m m1 m2 H1 _ IH]; intros row Hr; [exists row; by repeat split|].
  destruct (edit_later _ _ _ _ H1 Hr) as (row1 & Hr1 & E1 & V1 & A1). destruct (IH row1 Hr1) as (row2 & Hr2 & E2 & V2 & A2).
  exists row2. split; [done|]. split; [congruence|]. split; [lia|]. intros Ha. rewrite A2; [by apply A1|by rewrite A1].
Qed.

(** ** Tasks of a goal *)

Definition few_tasks (m : Maps) : Prop := ∀ goal (tasks : list string), NoDup tasks → (∀ t, t ∈ tasks → is_Some (mp_GoalTasks m !! (goal, t))) → len tasks <= 100.

Lemma with_goal_tasks_lookup goal user tasks m k : is_Some (mp_GoalTasks (with_goal_tasks goal user tasks m) !! k) ↔
  (k.1 = goal ∧ k.2 ∈ tasks) ∨ (k.1 ≠ goal ∧ is_Some (mp_GoalTasks m !! k)).
Proof.
  unfold with_goal_tasks. simpl. set (old := filter _ (mp_GoalTasks m)).
  assert (∀ x : gmap (string * string) string, is_Some (foldl (λ x task, <[(goal, task) := user]> x) x tasks !! k) ↔ (k.1 = goal ∧ k.2 ∈ tasks) ∨ is_Some (x !! k)) as ->.
  { induction tasks as [|t tasks IH]; intros x; simpl; [split; [by right|intros [[_ []%not_elem_of_nil]|]; done]|].
    rewrite IH, elem_of_cons, lookup_insert_is_Some. destruct k as [a b]. simpl.
    destruct (decide ((goal, t) = (a, b))) as [[= -> ->]|Hne]; naive_solver. }
  assert (is_Some (old !! k) ↔ k.1 ≠ goal ∧ is_Some (mp_GoalTasks m !! k)) as ->; [|tauto].
  unfold old. split; [intros [x [H1 H2]%map_lookup_filter_Some]; simpl in *; split; [done|by exists x]|].
  intros [Hne [x Hx]]. exists x. by apply map_lookup_filter_Some.
Qed.

Lemma few_edit m m' : few_tasks m → edit m m' → few_tasks m'.
Proof.
  intros Hm [| | | | | | | | | | |goal user tasks Hlen| | | | | | | | |]; try exact Hm.
  intros g ts Hnd Hin. assert (∀ t, t ∈ ts → (g = goal ∧ t ∈ tasks) ∨ (g ≠ goal ∧ is_Some (mp_GoalTasks m !! (g, t)))) as Hcase.
  { intros t Ht. by apply (with_goal_tasks_lookup goal user tasks m (g, t)), Hin. }
  destruct (decide (g = goal)) as [->|Hne].
  - assert (ts ⊆+ tasks) as Hsub%submseteq_length; [apply NoDup_submseteq; [done|]; intros t Ht; by destruct (Hcase t Ht) as [[_ ?]|[? _]]|].
    unfold len in *. lia.
  - apply (Hm g); [done|]. intros t Ht. by destruct (Hcase t Ht) as [[? _]|[_ ?]].
Qed.
