(* ===== verification/RoadmapProps.v ===== *)
(** * Properties of roadmaps

    Cycles, structure, versions, values and progress, in every reachable planner. *)
From S2P Require Import Prelude Tx GoStrings Json RunStore Contracts SpaceApps Spaces Planner Board RoadmapFields Roadmap PlannerOps.
From S2P Require Import BoardInv BoardMoves PlannerInv PlannerDemo RoadmapEdits RoadmapCycles RoadmapInv.

(** ** Progress *)

Lemma percentage_bounds d t : 0 <= d <= t → 0 < t → 0 <= percentage d t <= 100.
Proof.
  intros Hd Ht. unfold percentage. pose proof (Z.div_pos t 2 ltac:(lia) ltac:(lia)). pose proof (Z.div_lt t 2 ltac:(lia) ltac:(lia)).
  split; [apply Z.div_pos; lia|]. assert ((d * 100 + t / 2) / t < 101); [|lia]. apply Z.div_lt_upper_bound; lia.
Qed.

(** With fewer than 200 there is no rounding up to the whole. *)
Lemma percentage_whole d t : 0 <= d <= t → 0 < t < 200 → percentage d t = 100 ↔ d = t.
Proof.
  intros Hd Ht. unfold percentage. pose proof (Z.div_mod t 2 ltac:(lia)). pose proof (Z.mod_pos_bound t 2 ltac:(lia)). split.
  - intros H1. destruct (decide (d = t)) as [|Hne]; [done|]. assert ((d * 100 + t / 2) / t < 100); [apply Z.div_lt_upper_bound; lia|lia].
  - intros ->. symmetry. apply (Z.div_unique _ _ _ (t / 2)); lia.
Qed.

Lemma len_filter {A} (Q : A → Prop) `{!∀ x, Decision (Q x)} (l : list A) : 0 <= len (filter Q l) <= len l.
Proof. pose proof (length_filter Q l). unfold len. lia. Qed.

Lemma filter_whole {A} (Q : A → Prop) `{!∀ x, Decision (Q x)} (l : list A) : len (filter Q l) = len l ↔ ∀ x, x ∈ l → Q x.
Proof.
  split.
  - intros Hlen. assert (filter Q l = l) as E.
    { unfold len in Hlen. induction l as [|y l IH]; [done|]. rewrite filter_cons in *. destruct (decide (Q y)); simpl in Hlen.
      - f_equal. apply IH. lia.
      - pose proof (length_filter Q l). lia. }
    intros x Hx. rewrite <- E in Hx. by apply list_elem_of_filter in Hx as [? _].
  - intros Hall. f_equal. induction l as [|y l IH]; [done|]. rewrite filter_cons, decide_True by (apply Hall; by left). simpl. f_equal. apply IH. intros x Hx. apply Hall. by right.
Qed.

(** What the progress of a goal says, with at most 100 tasks that count. *)
Lemma goal_progress_exact tasks manual : let counted := filter (λ t, counts t = true) tasks in let g := goal_progress tasks manual in len counted <= 100 →
  pg_Total g = len counted ∧ 0 <= pg_Done g <= pg_Total g ∧ 0 <= pg_Percentage g <= 100 ∧ (pg_Percentage g = 100 ↔ pg_Status g = "done"%string) ∧
  (pg_Status g = "done"%string ↔ if bool_decide (counted = []) then manual ≠ None else ∀ t, t ∈ counted → tk_Status t = "done"%string).
Proof.
  intros counted g Hlen. unfold g, goal_progress. fold counted. pose proof (len_filter (λ t, tk_Status t = "done"%string) counted) as Hd.
  destruct (decide (counted = [])) as [E|E].
  - rewrite E, bool_decide_eq_true_2 by done. simpl. destruct manual; simpl; repeat split; try done; try lia.
  - rewrite bool_decide_eq_false_2 by done. assert (0 < len counted) as Hpos by (destruct counted; [done|unfold len; simpl; lia]).
    destruct (Z.eqb_spec (len counted) 0); [lia|]. simpl.
    assert ((if len (filter (λ t, tk_Status t = "done"%string) counted) =? len counted then "done"%string
       else if existsb (λ t, one_of (tk_Status t) ["done"; "in_progress"]%string) counted then "in_progress" else "not_started") = "done"%string ↔
       len (filter (λ t, tk_Status t = "done"%string) counted) = len counted) as Hst.
    { destruct (Z.eqb_spec (len (filter (λ t, tk_Status t = "done"%string) counted)) (len counted)); [done|]. by destruct (existsb _ _). }
    split; [done|]. split; [done|]. split; [by apply percentage_bounds|]. rewrite Hst, percentage_whole by lia. split; [done|]. apply filter_whole.
Qed.

Lemma goals_progress_bounds goals : let g := goals_progress goals in 0 <= pg_Done g <= pg_Total g ∧ 0 <= pg_Percentage g <= 100 ∧
  (pg_Status g = "done"%string ↔ goals ≠ [] ∧ ∀ x, x ∈ goals → pg_Status x = "done"%string).
Proof.
  unfold goals_progress. simpl. pose proof (len_filter (λ g, finished g = true) goals) as Hd. split; [done|].
  destruct (Z.ltb_spec 0 (len goals)) as [Hpos|Hneg]; simpl.
  - split; [by apply percentage_bounds|]. transitivity (len (filter (λ g, finished g = true) goals) = len goals).
    { destruct (Z.eqb_spec (len (filter (λ g, finished g = true) goals)) (len goals)); [done|]. by destruct (0 <? _). }
    rewrite filter_whole. split.
    + intros H. split; [by intros ->|]. intros x Hx. by apply String.eqb_eq, H.
    + intros [_ H] x Hx. by apply String.eqb_eq, H.
  - assert (goals = []) as -> by (destruct goals; [done|unfold len in Hneg; simpl in Hneg; lia]). simpl. split; [lia|]. split; [done|by intros [? _]].
Qed.

(** The tasks of a goal are at most a hundred. *)
Lemma goal_tasks_few p goal : few_tasks (pn_Maps p) → len (filter (λ t, counts t = true) (goal_tasks p goal).*2) <= 100.
Proof.
  intros Hf. transitivity (len (goal_tasks p goal).*1).
  { pose proof (length_filter (λ t, counts t = true) (goal_tasks p goal).*2). unfold len. rewrite !length_fmap in *. lia. }
  apply (Hf goal).
  - apply filter_nodup, NoDup_fst_map_to_list.
  - intros t (kv & -> & Hin)%list_elem_of_fmap. apply list_elem_of_filter in Hin as [H _]. done.
Qed.

(** ** The theorems *)

(** The causal edges among listed edges, with their goal ids. *)
Definition listed_link (edges : list ListedEdge) (x y : string) : Prop := ∃ e : ListedEdge, e ∈ edges ∧ causalRoadmapEdge (eg_Type e.1.1) = true ∧
  goal_id (ep_ID (eg_Source e.1.1)) e.1.2 = x ∧ goal_id (ep_ID (eg_Target e.1.1)) e.2 = y.

(** The depth-first search of the cycle check ends within its fuel and answers
    exactly whether the causal edges lead from the new edge's target back to its
    source, in whatever order they are listed and however they branch and repeat. *)
Theorem cycle_search_exact edges source target : TestingRoadmapDependencyWouldCycle edges source target = true ↔ rtc (listed_link edges) target source.
Proof.
  unfold TestingRoadmapDependencyWouldCycle. rewrite would_cycle_path. split; apply rtc_subrel; intros x y.
  - intros (e & [= -> ->] & [H1 H2]%list_elem_of_filter)%list_elem_of_fmap. by exists e.
  - intros (e & H1 & H2 & <- & <-). apply list_elem_of_fmap. exists e. split; [done|]. by apply list_elem_of_filter.
Qed.

(** No row in an empty table. *)
Ltac no_row H := exfalso; unfold no_maps in H; simpl in H; by rewrite lookup_empty in H.

Section theorems.
Context (known_zone : string → bool) (jsonb_size : raw → Z).
Abbreviation body := (body known_zone jsonb_size).
Abbreviation executes := (executes known_zone jsonb_size).
Abbreviation reachable := (reachable known_zone jsonb_size).

(** C31: in every reachable planner the causal edges between the goals of a roadmap
    have no cycle, whatever edges are saved anew or changed, in any order. *)
Theorem causal_edges_acyclic p r x : reachable p → ¬ tc (causal (pn_Maps p) r) x x.
Proof.
  intros Hp. assert (no_cycles (pn_Maps p)) as H; [|exact (H r x)]. apply (reachable_maps known_zone jsonb_size); [exact no_cycles_edit| |done].
  intros r' y Hy. inversion Hy as [? ? (id & e & He & _)|? ? ? (id & e & He & _)]; no_row He.
Qed.

(** C30: in every reachable planner milestones, goals, nodes and edges belong to a
    roadmap of their Space, goals and nodes lie in milestones of their own roadmap,
    live ones in live milestones, and an edge has two different ends in its roadmap,
    of kinds its type allows, of which milestones and nodes are live. *)
Theorem structure_sound p : reachable p → structured (pn_Maps p).
Proof.
  intros Hp. apply (reachable_maps known_zone jsonb_size); [exact structured_edit| |done].
  split; [done|..]; intros id y Hy; no_row Hy.
Qed.


(** C32: of all changes of a roadmap that name one version at most one succeeds: after
    it every other one that names the same version fails, whatever happened in
    between; and once a roadmap is archived every change of it fails. *)
Theorem version_once p r row op e q : mp_Roadmaps (pn_Maps p) !! r = Some row → mutates op = Some (r, e) → body op p = inr ((), q) →
  rm_Archived row = false ∧ rm_GraphVersion row = e ∧
  (∀ ops op', mutates op' = Some (r, e) → ∃ error, body op' (executes ops q) = inl error) ∧
  (∀ row' ops op' e', mp_Roadmaps (pn_Maps q) !! r = Some row' → rm_Archived row' = true → mutates op' = Some (r, e') →
    ∃ error, body op' (executes ops q) = inl error).
Proof.
  intros Hr Hop H. destruct (body_mutates _ _ op r e Hop _ _ _ H) as (row0 & Hr0 & Ha & He & Hed). rewrite Hr in Hr0. injection Hr0 as <-.
  split; [done|]. split; [done|]. assert (∀ ops op' e', mutates op' = Some (r, e') → (∃ error, body op' (executes ops q) = inl error) ∨
    ∃ row', mp_Roadmaps (pn_Maps (executes ops q)) !! r = Some row' ∧ rm_Archived row' = false ∧ rm_GraphVersion row' = e') as Hany.
  { intros ops op' e' Hop'. destruct (body op' (executes ops q)) as [error|[u q']] eqn:E; [left; by exists error|right].
    destruct (body_mutates _ _ op' r e' Hop' _ _ _ E) as (row' & H1 & H2 & H3 & _). by exists row'. }
  split.
  - intros ops op' Hop'. destruct (Hany ops op' e Hop') as [|(row' & Hr' & _ & He')]; [done|]. exfalso.
    assert (rtc edit (upd_roadmaps (alter (set_version (e + 1)) r) (pn_Maps p)) (pn_Maps (executes ops q))) as Hall.
    { etransitivity; [exact Hed|]. apply executes_edits. }
    destruct (edits_later _ _ r (set_version (e + 1) row) Hall) as (row2 & Hr2 & _ & Hv & _); [simpl; by rewrite lookup_alter_eq, Hr|].
    rewrite Hr' in Hr2. injection Hr2 as <-. simpl in Hv. lia.
  - intros row1 ops op' e' Hr1 Ha1 Hop'. destruct (Hany ops op' e' Hop') as [|(row' & Hr' & Ha' & _)]; [done|]. exfalso.
    destruct (edits_later _ _ r row1 (executes_edits known_zone jsonb_size ops q) Hr1) as (row2 & Hr2 & _ & _ & Hf). rewrite (Hf Ha1) in Hr2. congruence.
Qed.

(** The percentages of every snapshot are between 0 and 100; a goal has at most a
    hundred tasks that count, and is at 100 just when it is done, that is when all of
    them are done or, having none, it was completed by hand; a milestone is done just
    when it has goals and all are done. *)
Theorem progress_bounds p space roadmap row : reachable p → let s := snapshot p space roadmap row in
  (∀ g, g ∈ sn_Goals s → let pr := gv_Progress g in let counted := filter (λ t, counts t = true) (gv_Tasks g).*2 in
    pg_Total pr = len counted ∧ 0 <= pg_Done pr <= pg_Total pr ∧ pg_Total pr <= 100 ∧ 0 <= pg_Percentage pr <= 100 ∧
    (pg_Percentage pr = 100 ↔ pg_Status pr = "done"%string) ∧
    (pg_Status pr = "done"%string ↔
      if bool_decide (counted = []) then gl_ManualCompletedAt (gv_Goal g) ≠ None else ∀ t, t ∈ counted → tk_Status t = "done"%string)) ∧
  (∀ x, x ∈ sn_Milestones s → let goals := filter (λ g, gl_MilestoneID (gv_Goal g) = x.1.1) (sn_Goals s) in
    0 <= pg_Done x.2 <= pg_Total x.2 ∧
    (pg_Status x.2 = "done"%string ↔ goals ≠ [] ∧ ∀ g, g ∈ goals → pg_Status (gv_Progress g) = "done"%string)) ∧
  0 <= pg_Done (sn_Progress s) <= pg_Total (sn_Progress s) ∧ 0 <= pg_Percentage (sn_Progress s) <= 100.
Proof.
  intros Hp s. assert (few_tasks (pn_Maps p)) as Hf.
  { apply (reachable_maps known_zone jsonb_size); [exact few_edit| |done]. intros goal tasks Hnd Hin. destruct tasks as [|t tasks]; [done|].
    destruct (Hin t) as [x Hx]; [by left|]. no_row Hx. }
  split; [|split].
  - intros g Hg pr counted. apply list_elem_of_fmap in Hg as (kv & -> & _). pose proof (goal_tasks_few p kv.1 Hf) as Hfew.
    destruct (goal_progress_exact (goal_tasks p kv.1).*2 (gl_ManualCompletedAt kv.2) Hfew) as (H1 & H2 & H3 & H4 & H5).
    split; [exact H1|]. split; [exact H2|]. split; [|split; [exact H3|]; split; [exact H4|exact H5]]. unfold pr. simpl. rewrite H1. exact Hfew.
  - intros x Hx goals. apply list_elem_of_fmap in Hx as (kv & -> & _). destruct (goals_progress_bounds (gv_Progress <$> goals)) as (H1 & _ & H3).
    split; [exact H1|]. etransitivity; [exact H3|]. clear H1 H3. split; intros [Hne Hall]; (split; [by destruct goals|]).
    + intros g Hg. by apply Hall, list_elem_of_fmap_2.
    + intros x (g & -> & Hg)%list_elem_of_fmap. by apply Hall.
  - destruct (goals_progress_bounds (gv_Progress <$> sn_Goals s)) as (H1 & H2 & _). by split.
Qed.
End theorems.

(** ** Witnesses *)

Lemma demo_edge_saved : mp_Edges (pn_Maps demo_linked) !! "edge_1"%string =
  Some (mkEdge "space_2" "roadmap_1" (mkEndpoint "goal" "goal_1") (mkEndpoint "goal" "goal_2") "depends_on" "" 1).
Proof. vm_compute. reflexivity. Qed.

Lemma causal_edges_acyclic_witness : causal (pn_Maps demo_linked) "roadmap_1" "goal_1" "goal_2" ∧ ¬ tc (causal (pn_Maps demo_linked) "roadmap_1") "goal_1" "goal_1".
Proof.
  split; [|exact (causal_edges_acyclic demo_zone demo_size demo_linked "roadmap_1" "goal_1" demo_linked_reachable)].
  eexists "edge_1"%string, _. split; [exact demo_edge_saved|]. repeat split.
Defined.

Lemma structure_sound_witness : structured (pn_Maps demo_linked).
Proof. exact (structure_sound demo_zone demo_size demo_linked demo_linked_reachable). Defined.

Definition demo_schema (fields : list json) : NodeDefinition := mkNodeDefinition "" "Cost" "" "coin" "blue" false (RJson (JArr fields)) 0 false.
Definition demo_field (key label type : string) : json := JObj [("id", JStr key); ("label", JStr label); ("type", JStr type)]%string.
Definition demo_node : RoadmapNode :=
  mkNode "" "" "milestone_1" "roadmap_node_definition_1" "custom" "Budget" "" None (NInt 0) (NInt 0) (RJson (JObj [("cost", JNum (NInt 5))]%string)) 0 false.

(** A custom node, whose definition is extended later. *)
Definition demo_customs : list planner_op :=
  [OpCreateDefinition "1" "ada" "space_2" (demo_schema [demo_field "cost" "Cost" "number"]) 60;
   OpCreateNode "1" "ada" "space_2" "roadmap_1" demo_node 10 4;
   OpUpdateDefinition "bob" "space_2" "roadmap_node_definition_1" (demo_schema [demo_field "owner" "Owner" "short_text"; demo_field "cost" "Price" "number"]) 120 1;
   OpUpdateDefinition "bob" "space_2" "roadmap_node_definition_1" (demo_schema [demo_field "owner" "Owner" "short_text"]) 60 2].
Definition demo_custom : Planner := executes demo_zone demo_size demo_customs demo_plan.

Lemma demo_custom_reachable : demo_reaches demo_custom.
Proof. apply reachable_executes; [by repeat constructor|exact demo_plan_reachable]. Qed.

(** The last update would take the field of the value away, and fails. *)
Lemma demo_custom_version : match mp_Definitions (pn_Maps demo_custom) !! "roadmap_node_definition_1"%string with Some d => nd_Version d | None => 0 end = 2.
Proof. vm_compute. reflexivity. Qed.

Lemma demo_custom_node : ∃ n, mp_Nodes (pn_Maps demo_custom) !! "roadmap_node_1"%string = Some n ∧ rn_Kind n = "custom"%string.
Proof. vm_compute. eexists. split; reflexivity. Qed.


Lemma demo_roadmap : ∃ row, mp_Roadmaps (pn_Maps demo_plan) !! "roadmap_1"%string = Some row ∧ rm_GraphVersion row = 4.
Proof. vm_compute. eexists. split; reflexivity. Qed.

Lemma version_once_witness : ∃ error,
  body demo_zone demo_size (OpDeleteEdge "bob" "space_2" "roadmap_1" "edge_1" 4) (executes demo_zone demo_size demo_tasks demo_linked) = inl error.
Proof.
  destruct demo_roadmap as (row & Hr & _).
  destruct (version_once demo_zone demo_size demo_plan "roadmap_1" row demo_save 4 demo_linked Hr eq_refl demo_links) as (_ & _ & H & _).
  exact (H demo_tasks (OpDeleteEdge "bob" "space_2" "roadmap_1" "edge_1" 4) eq_refl).
Defined.

Lemma progress_bounds_witness : ∃ row, mp_Roadmaps (pn_Maps demo_plan) !! "roadmap_1"%string = Some row ∧
  0 <= pg_Percentage (sn_Progress (snapshot demo_plan "space_2" "roadmap_1" row)) <= 100.
Proof.
  destruct demo_roadmap as (row & Hr & _). exists row. split; [exact Hr|].
  apply (progress_bounds demo_zone demo_size demo_plan "space_2" "roadmap_1" row demo_plan_reachable).
Defined.

(** The percentage of a whole roadmap rounds up: 199 goals of 200 are shown as 100. *)
Example percentage_rounds_up : percentage 199 200 = 100.
Proof. reflexivity. Qed.

(** Asking for completion by hand is refused while a goal has active tasks; a goal sent
    with a completion of its own is completed, in anybody's name. *)
Definition demo_claimed : Goal := mkGoal "" "" "milestone_1" "Ship" "" None 0 (NInt 0) (NInt 0) (Some 7) "ada" 0 false.
Example completion_by_item :
  match UpdateSpaceRoadmapGoal "bob" "space_2" "roadmap_1" "goal_1" demo_claimed (Some true) 4 9 demo_plan,
        UpdateSpaceRoadmapGoal "bob" "space_2" "roadmap_1" "goal_1" demo_claimed None 4 9 demo_plan with
  | inl e, inr (_, p) => e = RunErr ErrSpaceInvalid ∧ (λ g, (gl_ManualCompletedAt g, gl_ManualCompletedBy g)) <$> mp_Goals (pn_Maps p) !! "goal_1"%string = Some (Some 7, "ada"%string)
  | _, _ => False
  end.
Proof. vm_compute. split; reflexivity. Qed.
